(* ===== verification/_CoqProject ===== *)
-Q . S2P
Prelude.v
Strs.v
Slicing.v
Scalar.v
Ieee.v
Ideal.v
Softmax.v
Kernels.v
Simt.v
SimtKernels.v
GpuWorker.v
GpuCorrect.v
Json.v
Demo.v
SimtRaces.v
Wire.v
Config.v
Effects.v
Runtime.v
Devices.v
RedisManager.v
Notifier.v
Publisher.v
Aggregator.v
Wakeup.v
Service.v
Handler.v
System.v
Transport.v
Nccl.v
NcclOrder.v
NcclSystem.v
StoreTypes.v
Startup.v
