(* ===== verification/Prelude.v ===== *)
(** * Verification of the distributed softmax service

    A client sends a vector to the gateway (src/gateway-rs), which cuts it into
    slices, publishes one task per slice over ZMQ and waits.  Workers
    (src/worker-rs) compute partial softmax statistics of a slice, on the CPU or
    on a GPU, store them in Redis and notify the gateway over Redis pub/sub; the
    gateway reads the slices back, combines them, stores the result and answers.
    In the NCCL mode each worker is a GPU rank, the ranks reduce the maximum and
    the sum among themselves and store normalised probabilities.

    ** Files

    Foundations:
    - Prelude: results ([Result]), machine integers, automation.
    - Strs: decimal printing and parsing, prefixes, UTF-8.
    - Scalar, Ieee, Ideal: the floating-point operations the code uses as a
      class, its instance at IEEE-754 bit patterns (on the Standard Library's
      SpecFloat; [exp] is a parameter, the libm), and its instance at the
      extended reals.  The numeric code is written once, against the class.
    - Effects: async code as a [prog], a tree of the calls it makes; weakest
      preconditions against a rely on the other tasks; the interleaving of a
      pool of programs and the adequacy of the weakest precondition for it.
    - Runtime: what Redis, the clocks and the notifier's channels promise, as a
      class [Runtime] over any world; [sim], a world that keeps the promises.
    - Demo: a concrete libm and JSON codec, for examples.

    Components, with the source file each follows:
    - Slicing: [even_chunks] and the standard slicing (gateway service.rs).
    - Softmax: [softmax_partial] (worker softmax.rs) and
      [aggregate_softmax_cpu] (gateway aggregator.rs).
    - Kernels, GpuWorker, GpuCorrect: the CUDA kernels (both kernels/
      directories), the host code that launches them (worker gpu_worker.rs,
      gateway gpu_aggregator.rs), and what they compute.
    - Simt, SimtKernels, SimtRaces: the same kernels thread by thread, every
      memory access a step; what a data race is; an ownership discipline that
      makes every schedule of a grid race-free and end in one memory; and that
      the kernels follow it.
    - Json: the exchanged records and serde_json as a class with its documented
      laws.
    - Wire: the binary slice format (worker handler.rs, gateway aggregator.rs).
    - Devices: the CUDA devices and the [OnceLock] statics that hold them
      (gpu_worker.rs, gpu_aggregator.rs).
    - Config: environment variables and keys (gateway config.rs and main.rs,
      worker main.rs).
    - RedisManager (redis_manager.rs, cache_manager.rs), Notifier
      (slice_notifier.rs), Publisher (publisher/).
    - Aggregator: [wait_for_all_slices] and [aggregate] (aggregator.rs).
    - Wakeup: the watch channel between the notifier's subscriber and
      [wait_for_all_slices].
    - Service: [submit_task] and [get_result] (service.rs).
    - Handler: [handle_task] (worker handler.rs).
    - Transport: the worker's receive loop as a state machine
      (transport/zmq.rs).
    - Nccl: the rendezvous and the NCCL message loop (gpu_worker.rs, worker
      main.rs); NcclOrder: the order in which [submit_task] feeds the ranks,
      and the collective round each of their loops brings a job to.
    - Startup: the two [main] functions.
    - System: the gateway and the workers together; NcclSystem: the gateway and
      the NCCL ranks together; StoreTypes: what all of them may find in Redis.

    ** What is shown

    - Numbers.  Over the reals every path (CPU, GPU workers with either
      aggregation, an NCCL round) computes the softmax of the whole vector,
      for any slicing, including the two the gateway makes.  The kernels stay
      inside their arrays, and every schedule of their threads gives the result
      of the sequential definitions, without a data race.
    - Transport of data.  Encoding and decoding a slice are inverse, the values
      of either format reach the gateway and leave it bit for bit, a truncated
      slice is never taken for a slice, keys of different slices differ; where
      a result key collides with a slice key is characterised.  Under any
      interleaving Redis holds under each key a value of its type.
    - The gateway.  Invalid requests have no effect; metadata is stored before
      anything is sent; slices are sent in order, to the right rank; waiting
      returns the slices that were stored or the timeout error, ends within a
      bound, cleans up, loses no wake-up, and never returns a partial result; the stored result
      is the one that is returned; [get_result] is a function of what Redis
      holds.
    - The worker.  It notifies after it has stored; what it stores the gateway
      reads back; at most [NUM_WORKERS] handlers run, and no message is lost
      while the worker runs; in the CUDA build a handler always finds the device
      start-up has set.  The ranks of the NCCL mode agree on the communicator
      and, for jobs submitted one after the other with finite data, on the job
      of every round.
    - Together.  [System.end_to_end]: under every interleaving of [submit_task]
      with any number of workers on the CPU or on GPUs and with other requests,
      an answer is the combination of the statistics of exactly the submitted
      slices, which the theorems on numbers show to be the softmax.
      [NcclSystem.nccl_end_to_end]: the same for the ranks of the NCCL mode,
      where the answer is the concatenation of what each rank computed for its
      slice in its round.
    - Where the code does not do what it means to: concurrent NCCL jobs that
      reach ranks in different orders, a non-finite element that desynchronises
      a rank, a worker that exits while handlers run, a job id that makes a log
      line panic, environment values that make every job fail.

    ** Modelling decisions

    Integers are [Z] with their wrap-around written out, as in a release build.
    Strings are byte strings holding UTF-8.  A panic is [None] in the pure code
    and [Panic] in a program; a panic inside [spawn_blocking] is the error its
    join handle returns.  The panics of [Semaphore::new] and
    [Vec::with_capacity] on huge arguments are modelled, memory that runs out is
    not.  A weakest precondition quantifies over every
    answer a call may give, failures included: a write that fails may or may
    not have happened.  The store shows the keys that are live; the theorems
    that speak about it say what other tasks may do to it, expiry included.
    [fuel] bounds the polls of the aggregator and the rounds of the endless
    loops; [Aggregator.wait_terminates] gives a bound that suffices for the
    aggregator: one poll per 100 ms of the timeout, one per wake-up, one more.
    [Kernels] runs the threads of a block in lock step between barriers, and
    the blocks one after the other; [SimtRaces] justifies this against the
    interleaving of single accesses in [Simt].  That interleaving is
    sequentially consistent, which for kernels without data races, as these are
    shown to be, is what the CUDA memory model gives.  A kernel access outside an array has no step in
    [Simt] and is an error in [Kernels].  The tasks that tokio spawns are data
    ([TokioSpawn]); [Startup.run_background] says which program each runs.
    When the worker's receive loop returns, so does [main], and the runtime
    drops the handlers that still run: [Transport] has no step after [Return].

    ** Not modelled

    tonic: serving is one call, after which nothing follows, and the parsing
    of the listening address is a parameter; the protobuf code; the sockets and
    their threads below the channel that feeds them; CUDA, NVRTC and NCCL below
    the calls the host code makes (what the collectives of a round answer is a
    parameter of a rank's loop, and the end-to-end theorem of the NCCL mode says
    which answers it needs); logging, except the log argument that can panic;
    the legacy C++ server, which is not Rust and which the gateway replaces. *)

From Stdlib Require Import ZArith Lia List String Ascii.
From stdpp Require Import base tactics list strings gmap.

Declare Scope dsoftmax_scope.
Delimit Scope dsoftmax_scope with ds.

(** ** Results

    [Result<A, E>] of the source.  Error values keep the message the code
    formats; the text of a third-party error is part of the reply that carries
    it. *)

Inductive result (A E : Type) : Type :=
| Ok (a : A)
| Err (e : E).
Arguments Ok {A E} a.
Arguments Err {A E} e.

Definition result_bind {A B E} (m : result A E) (f : A -> result B E) : result B E :=
  match m with Ok a => f a | Err e => Err e end.

Definition map_err {A E F} (f : E -> F) (m : result A E) : result A F :=
  match m with Ok a => Ok a | Err e => Err (f e) end.

Definition ok {A E} (m : result A E) : option A :=
  match m with Ok a => Some a | Err _ => None end.

(** [Option::ok_or_else] *)
Definition ok_or {A E} (e : E) (o : option A) : result A E :=
  match o with Some a => Ok a | None => Err e end.

(** [Option::unwrap_or] and [Result::unwrap_or] *)
Definition unwrap_or {A} (d : A) (o : option A) : A :=
  match o with Some a => a | None => d end.

Definition is_ok {A E} (m : result A E) : bool :=
  match m with Ok _ => true | Err _ => false end.

Notation "'let?' x := m 'in' k" := (result_bind m (fun x => k))
  (at level 10, x pattern, m at level 100, k at level 200).

#[export] Instance result_eq_dec {A E} `{EqDecision A, EqDecision E} :
  EqDecision (result A E).
Proof. solve_decision. Defined.

(** ** Machine integers

    A [w]-bit unsigned integer is a [Z] in [0, 2^w); an operation that can
    overflow wraps, which is what the release build the repository documents
    ([cargo build --release]) does. *)

Definition wrap (w x : Z) : Z := (x mod 2 ^ w)%Z.
Definition in_width (w x : Z) : Prop := (0 <= x < 2 ^ w)%Z.

(** [as i32]: two's complement reinterpretation of the low 32 bits. *)
Definition as_i32 (x : Z) : Z :=
  (let y := wrap 32 x in if y <? 2 ^ 31 then y else y - 2 ^ 32)%Z.

Lemma wrap_small w x : in_width w x -> wrap w x = x.
Proof. apply Z.mod_small. Qed.

Lemma wrap_in_width w x : (0 <= w)%Z -> in_width w (wrap w x).
Proof. intros Hw. apply Z.mod_pos_bound. by apply Z.pow_pos_nonneg. Qed.

Lemma as_i32_small x : (0 <= x < 2 ^ 31)%Z -> as_i32 x = x.
Proof.
  intros Hx. unfold as_i32. rewrite wrap_small by (unfold in_width; lia).
  destruct (Z.ltb_spec x (2 ^ 31)); lia.
Qed.

(** ** Automation *)

Create HintDb dsoftmax discriminated.
Create Rewrite HintDb dsoftmax.
#[export] Hint Resolve wrap_in_width : dsoftmax.
#[export] Hint Extern 4 (_ <= _)%nat => lia : dsoftmax.
#[export] Hint Extern 4 (_ < _)%nat => lia : dsoftmax.

(** Case analysis on the [match] the goal or a hypothesis is stuck on. *)
Ltac case_goal :=
  match goal with
  | |- context [match ?x with _ => _ end] => destruct x eqn:?
  | H : context [match ?x with _ => _ end] |- _ => destruct x eqn:?
  end.

Ltac crush := repeat (simplify_eq/=; try case_goal); try done; try lia.

(** ** Lists *)

Lemma lookup_map {A B} (f : A -> B) (l : list A) i : map f l !! i = f <$> l !! i.
Proof. apply (list_lookup_fmap f). Qed.

#[export] Hint Rewrite @lookup_map @length_map @length_app : dsoftmax.
