(* ===== verification/Strs.v ===== *)
(** String operations of the Rust standard library that the program uses:
    decimal printing ([to_string], [{}] in [format!]) and parsing
    ([str::parse]) of integers, [strip_prefix], [contains] and lower-casing. *)

From Stdlib Require Import ZArith Lia List String Ascii.
From stdpp Require Import base tactics list strings.
From S2P Require Import Prelude.
Local Open Scope string_scope.
#[local] Arguments String.append : simpl nomatch.

(** ** Definitions *)

Definition char_of_digit (d : Z) : ascii := ascii_of_N (Z.to_N (48 + d)).

(** [char::to_digit(10)] *)
Definition digit_of_char (c : ascii) : option Z :=
  let v := Z.of_N (N_of_ascii c) in
  if ((48 <=? v) && (v <=? 57))%Z then Some (v - 48)%Z else None.

Fixpoint print_loop (fuel : nat) (n : Z) (acc : string) : string :=
  match fuel with
  | O => acc
  | S fuel' =>
      let acc' := String (char_of_digit (n mod 10)) acc in
      if (n / 10 =? 0)%Z then acc' else print_loop fuel' (n / 10) acc'
  end.

(** [n.to_string()] for an unsigned [n]; the decimal digits of [n] are fewer
    than its binary ones, so the fuel is enough. *)
Definition print_uint (n : Z) : string :=
  print_loop (S (Z.to_nat (Z.log2 n))) n "".

Definition print_nat (n : nat) : string := print_uint (Z.of_nat n).

(** The digit loop of [from_str_radix] with checked arithmetic: [None] on a
    character that is not a digit and on a value above [bound]. *)
Fixpoint parse_digits (bound acc : Z) (s : string) : option Z :=
  match s with
  | EmptyString => Some acc
  | String c s' =>
      d ← digit_of_char c;
      let acc' := (acc * 10 + d)%Z in
      if (acc' <=? bound)%Z then parse_digits bound acc' s' else None
  end.

(** [s.parse::<uW>()]: not empty, an optional plus sign, digits, in range. *)
Definition parse_uint (w : Z) (s : string) : option Z :=
  let bound := (2 ^ w - 1)%Z in
  match s with
  | EmptyString => None
  | String "+" EmptyString => None
  | String "+" s' => parse_digits bound 0 s'
  | _ => parse_digits bound 0 s
  end.

(** [s.parse::<iW>()]: also a minus sign, down to [- 2^(w-1)]. *)
Definition parse_int (w : Z) (s : string) : option Z :=
  match s with
  | String "-" EmptyString => None
  | String "-" s' => Z.opp <$> parse_digits (2 ^ (w - 1)) 0 s'
  | _ => parse_uint (w - 1) s
  end.

(** [s.strip_prefix(p)] *)
Fixpoint strip_prefix (p s : string) : option string :=
  match p, s with
  | EmptyString, _ => Some s
  | String a p', String b s' => if Ascii.eqb a b then strip_prefix p' s' else None
  | String _ _, EmptyString => None
  end.

(** Lower-casing of the ASCII letters.  The program only asks whether the
    lower-cased string contains "tcp", and no other Unicode character
    lower-cases to one of those three letters. *)
Definition to_lower (c : ascii) : ascii :=
  let v := N_of_ascii c in
  if ((65 <=? v) && (v <=? 90))%N then ascii_of_N (v + 32) else c.

Fixpoint to_lowercase (s : string) : string :=
  match s with
  | EmptyString => EmptyString
  | String c s' => String (to_lower c) (to_lowercase s')
  end.

(** [s.contains(p)] *)
Fixpoint contains (p s : string) : bool :=
  match strip_prefix p s with
  | Some _ => true
  | None => match s with EmptyString => false | String _ s' => contains p s' end
  end.

Fixpoint has_char (c : ascii) (s : string) : bool :=
  match s with
  | EmptyString => false
  | String a s' => Ascii.eqb a c || has_char c s'
  end.

(** The value of a byte. *)
Definition Z_of_byte (b : ascii) : Z := Z.of_N (N_of_ascii b).

(** [String::from_utf8] accepts exactly the well-formed sequences of
    RFC 3629. *)
Definition between (lo hi : Z) (b : ascii) : bool :=
  ((lo <=? Z_of_byte b) && (Z_of_byte b <=? hi))%Z.
Definition cont : ascii -> bool := between 0x80 0xBF.

Fixpoint utf8_valid (l : list ascii) : bool :=
  match l with
  | [] => true
  | b0 :: l0 =>
      if between 0x00 0x7F b0 then utf8_valid l0
      else match l0 with
      | b1 :: l1 =>
          if between 0xC2 0xDF b0 then cont b1 && utf8_valid l1
          else match l1 with
          | b2 :: l2 =>
              if (between 0xE0 0xE0 b0 && between 0xA0 0xBF b1)
                 || ((between 0xE1 0xEC b0 || between 0xEE 0xEF b0) && cont b1)
                 || (between 0xED 0xED b0 && between 0x80 0x9F b1)
              then cont b2 && utf8_valid l2
              else match l2 with
              | b3 :: l3 =>
                  ((between 0xF0 0xF0 b0 && between 0x90 0xBF b1)
                   || (between 0xF1 0xF3 b0 && cont b1)
                   || (between 0xF4 0xF4 b0 && between 0x80 0x8F b1))
                  && cont b2 && cont b3 && utf8_valid l3
              | [] => false
              end
          | [] => false
          end
      | [] => false
      end
  end.

Definition from_utf8 (l : list ascii) : option string :=
  if utf8_valid l then Some (string_of_list_ascii l) else None.

(** [s.as_bytes()] *)
Definition as_bytes (s : string) : list ascii := list_ascii_of_string s.

(** ** Lemmas *)

Lemma digit_char_inv d :
  (0 <= d < 10)%Z -> digit_of_char (char_of_digit d) = Some d.
Proof.
  intros H. assert (d = 0 \/ d = 1 \/ d = 2 \/ d = 3 \/ d = 4 \/ d = 5 \/ d = 6
    \/ d = 7 \/ d = 8 \/ d = 9)%Z as Hd by lia.
  repeat destruct Hd as [->|Hd]; try reflexivity. by subst.
Qed.

Lemma print_loop_parse bound : forall fuel n acc,
  (0 <= n <= bound)%Z -> (n < 2 ^ Z.of_nat fuel)%Z -> fuel <> 0 ->
  parse_digits bound 0 (print_loop fuel n acc) = parse_digits bound n acc.
Proof.
  induction fuel as [|fuel IH]; intros n acc Hn Hf H0; [done|].
  assert (0 <= n mod 10 < 10)%Z by (apply Z.mod_pos_bound; lia).
  pose proof (Z.div_mod n 10 ltac:(lia)) as Hdm. simpl print_loop.
  destruct (Z.eqb_spec (n / 10) 0) as [E|E].
  - simpl parse_digits. rewrite digit_char_inv by done. simpl.
    rewrite (proj2 (Z.leb_le _ bound)) by lia. f_equal; lia.
  - assert (fuel <> 0) by (intros ->; simpl in Hf;
      rewrite Z.div_small in E by lia; done).
    rewrite IH; [| |rewrite Nat2Z.inj_succ, Z.pow_succ_r in Hf by lia|done].
    + simpl parse_digits. rewrite digit_char_inv by done. simpl.
      rewrite (proj2 (Z.leb_le _ bound)) by lia. f_equal; lia.
    + pose proof (Z.div_pos n 10 ltac:(lia) ltac:(lia)). lia.
    + apply Z.div_lt_upper_bound; lia.
Qed.

Lemma append_assoc (a b c : string) : a +:+ (b +:+ c) = (a +:+ b) +:+ c.
Proof. induction a as [|x a IH]; [done|]. simpl. by rewrite IH. Qed.

Lemma append_nil_r (a : string) : a +:+ "" = a.
Proof. induction a as [|x a IH]; [done|]. simpl. by rewrite IH. Qed.

Lemma has_char_app c s t : has_char c (s +:+ t) = has_char c s || has_char c t.
Proof. induction s as [|a s IH]; simpl; [done|]. by rewrite IH, orb_assoc. Qed.

Lemma has_char_one c a : has_char c (String a "") = true -> a = c.
Proof. simpl. rewrite orb_false_r. apply Ascii.eqb_eq. Qed.

Lemma print_loop_digits fuel : forall n acc,
  (0 <= n)%Z ->
  exists ds, print_loop fuel n acc = ds +:+ acc
    /\ (forall c, has_char c ds = true -> is_Some (digit_of_char c))
    /\ (fuel <> 0 -> ds <> "").
Proof.
  induction fuel as [|fuel IH]; intros n acc Hn.
  { exists "". split; [done|split; [done|]]. done. }
  assert (0 <= n mod 10 < 10)%Z by (apply Z.mod_pos_bound; lia).
  simpl. destruct (n / 10 =? 0)%Z.
  - exists (String (char_of_digit (n mod 10)) ""). split; [done|split; [|done]].
    intros c <-%has_char_one. rewrite digit_char_inv; [eauto|lia].
  - destruct (IH (n / 10)%Z (String (char_of_digit (n mod 10)) acc))
      as (ds & -> & Hd & _); [apply Z.div_pos; lia|].
    exists (ds +:+ String (char_of_digit (n mod 10)) ""). split; [|split].
    + by rewrite <- append_assoc.
    + intros c. rewrite has_char_app. intros [E|<-%has_char_one]%orb_true_iff; [by apply Hd|].
      rewrite digit_char_inv; [eauto|lia].
    + intros _. by destruct ds.
Qed.

Lemma print_uint_fuel n : (0 <= n)%Z -> (n < 2 ^ Z.of_nat (S (Z.to_nat (Z.log2 n))))%Z.
Proof.
  intros Hn. destruct (Z.eq_dec n 0%Z) as [->|H0]; [done|].
  rewrite Nat2Z.inj_succ, Z2Nat.id by apply Z.log2_nonneg.
  apply Z.log2_spec. lia.
Qed.

Lemma print_uint_digits n c :
  (0 <= n)%Z -> has_char c (print_uint n) = true -> is_Some (digit_of_char c).
Proof.
  intros Hn. unfold print_uint.
  destruct (print_loop_digits (S (Z.to_nat (Z.log2 n))) n "" Hn) as (ds & -> & Hd & _).
  rewrite append_nil_r. apply Hd.
Qed.

Lemma print_uint_cons n : (0 <= n)%Z -> exists c s, print_uint n = String c s.
Proof.
  intros Hn. unfold print_uint.
  destruct (print_loop_digits (S (Z.to_nat (Z.log2 n))) n "" Hn) as (ds & -> & _ & H).
  destruct ds as [|c ds]; [by destruct H|]. simpl; eauto.
Qed.

(** Parsing the decimal form of an in-range integer gives the integer back. *)
Lemma parse_print_uint w n :
  in_width w n -> parse_uint w (print_uint n) = Some n.
Proof.
  intros [H1 H2].
  assert (parse_digits (2 ^ w - 1) 0 (print_uint n) = Some n) as Hp.
  { unfold print_uint. rewrite print_loop_parse; [done|lia| |done].
    by apply print_uint_fuel. }
  destruct (print_uint_cons n H1) as (c & s & E). rewrite E in Hp |- *.
  unfold parse_uint.
  assert (is_Some (digit_of_char c)) as [d Hd].
  { apply (print_uint_digits n); [done|]. rewrite E. simpl. by rewrite Ascii.eqb_refl. }
  destruct c as [[] [] [] [] [] [] [] []]; try done; vm_compute in Hd; discriminate.
Qed.

Lemma print_uint_inj m n :
  (0 <= m)%Z -> (0 <= n)%Z -> print_uint m = print_uint n -> m = n.
Proof.
  intros Hm Hn E.
  assert (in_width (Z.max m n + 1) m /\ in_width (Z.max m n + 1) n)%Z as [Wm Wn].
  { split; split; try lia; pose proof (Z.pow_gt_lin_r 2 (Z.max m n + 1)); lia. }
  apply parse_print_uint in Wm, Wn. congruence.
Qed.

Lemma print_uint_no_char n c :
  (0 <= n)%Z -> digit_of_char c = None -> has_char c (print_uint n) = false.
Proof.
  intros Hn Hc. destruct (has_char c (print_uint n)) eqn:E; [|done].
  destruct (print_uint_digits n c Hn E). congruence.
Qed.

(** A separator that the tails do not contain splits a string one way. *)
Lemma split_last c a b d1 d2 :
  has_char c d1 = false -> has_char c d2 = false ->
  a +:+ String c d1 = b +:+ String c d2 -> a = b /\ d1 = d2.
Proof.
  intros H1 H2. revert b.
  induction a as [|x a IH]; intros [|y b]; simpl; intros E; simplify_eq; try done.
  - rewrite has_char_app in H1. simpl in H1.
    by rewrite Ascii.eqb_refl, orb_true_r in H1.
  - rewrite has_char_app in H2. simpl in H2.
    by rewrite Ascii.eqb_refl, orb_true_r in H2.
  - destruct (IH b) as [-> ->]; done.
Qed.

Lemma strip_prefix_app p s : strip_prefix p (p +:+ s) = Some s.
Proof. induction p as [|a p IH]; simpl; [by destruct s|]. by rewrite Ascii.eqb_refl. Qed.

Lemma strip_prefix_inv p s t : strip_prefix p s = Some t -> s = p +:+ t.
Proof.
  revert s. induction p as [|a p IH]; intros [|b s]; simpl; try (intros; by simplify_eq).
  destruct (Ascii.eqb_spec a b) as [->|]; [|done]. intros H. by rewrite (IH s).
Qed.

Lemma string_app_inv p s t : p +:+ s = p +:+ t -> s = t.
Proof. induction p; simpl; intros; simplify_eq; auto. Qed.

#[export] Hint Rewrite strip_prefix_app has_char_app : dsoftmax.

(** The text of a string of 7-bit characters is its bytes. *)
Lemma from_utf8_ascii s :
  forallb (between 0 127) (as_bytes s) = true -> from_utf8 (as_bytes s) = Some s.
Proof.
  intros H. unfold from_utf8.
  assert (utf8_valid (as_bytes s) = true) as ->.
  { induction (as_bytes s) as [|c l IH]; [done|]. simpl in H |- *.
    apply andb_true_iff in H as [-> H]. by apply IH. }
  f_equal. apply string_of_list_ascii_of_string.
Qed.

Lemma from_utf8_inv l s : from_utf8 l = Some s -> l = as_bytes s.
Proof.
  unfold from_utf8. destruct (utf8_valid l); [|done]. intros [= <-].
  unfold as_bytes. by rewrite list_ascii_of_string_of_list_ascii.
Qed.
