(* ===== verification/Slicing.v ===== *)
(** Slicing of the input vector, from [submit_task] and [even_chunks] of
    gateway-rs/src/service.rs: the even split of the NCCL mode and the
    [chunks(slice_size)] split of the standard mode.  A function that can panic
    returns [None] where the source panics. *)

From Stdlib Require Import ZArith Lia List.
From stdpp Require Import base tactics list.
From S2P Require Import Prelude.

(** ** Definitions *)

Section Slicing.
Context {A : Type}.

(** [&data[a..b]]: panics out of range. *)
Definition slice_range (data : list A) (a b : nat) : option (list A) :=
  if Nat.leb a b && Nat.leb b (length data)
  then Some (take (b - a) (drop a data)) else None.

(** The loop of [even_chunks] at index [i], the next chunk beginning at
    [start]; [left] iterations remain. *)
Fixpoint even_chunks_loop (data : list A) (base rem i start left : nat)
  : option (list (list A)) :=
  match left with
  | O => Some []
  | S left' =>
      let take_n := base + (if Nat.ltb i rem then 1 else 0) in
      c ← slice_range data start (start + take_n);
      cs ← even_chunks_loop data base rem (S i) (start + take_n) left';
      Some (c :: cs)
  end.

(** [even_chunks(data, n)]; [len / n] panics on zero. *)
Definition even_chunks (data : list A) (n : nat) : option (list (list A)) :=
  if Nat.eqb n 0 then None
  else let len := length data in
       even_chunks_loop data (len / n) (len mod n) 0 0 n.

(** [slice::chunks]: consecutive chunks of [size] elements, the last one
    shorter when [size] does not divide the length. *)
Fixpoint chunks_loop (size fuel : nat) (data : list A) : list (list A) :=
  match fuel, data with
  | S fuel', _ :: _ => take size data :: chunks_loop size fuel' (drop size data)
  | _, _ => []
  end.

(** [data.chunks(size)]; panics when [size] is zero. *)
Definition chunks (data : list A) (size : nat) : option (list (list A)) :=
  if Nat.eqb size 0 then None else Some (chunks_loop size (length data) data).

(** The standard branch of [submit_task]: [slice_size] in 64-bit [usize]
    arithmetic, then [chunks]. *)
Definition slice_size (vector_size num_slices : Z) : Z :=
  (wrap 64 (wrap 64 (vector_size + num_slices) - 1) / num_slices)%Z.

Definition standard_slices (vector : list A) (num_slices : Z)
  : option (list (list A)) :=
  chunks vector (Z.to_nat (slice_size (Z.of_nat (length vector)) num_slices)).

(** ** Lemmas *)

Lemma slice_range_ok (data : list A) a k :
  a + k <= length data -> slice_range data a (a + k) = Some (take k (drop a data)).
Proof.
  intros H. unfold slice_range.
  rewrite (proj2 (Nat.leb_le a (a + k))), (proj2 (Nat.leb_le (a + k) _)) by lia.
  simpl. by replace (a + k - a) with k by lia.
Qed.

(** What the even split promises: chunk [i] has [size i] elements and the
    chunks are consecutive. *)
Definition even_size (base rem i : nat) : nat :=
  base + (if Nat.ltb i rem then 1 else 0).

Definition sizes_sum (base rem i left : nat) : nat :=
  sum_list (map (even_size base rem) (seq i left)).

Lemma sizes_sum_eq base rem left : forall i,
  sizes_sum base rem i left = left * base + (min rem (i + left) - min rem i).
Proof.
  induction left as [|left IH]; intros i; [change (sizes_sum base rem i 0) with 0; lia|].
  change (sizes_sum base rem i (S left))
    with (even_size base rem i + sizes_sum base rem (S i) left).
  rewrite IH. unfold even_size. destruct (Nat.ltb_spec i rem); lia.
Qed.

Lemma sizes_sum_total len n :
  n <> 0 -> sizes_sum (len / n) (len mod n) 0 n = len.
Proof.
  intros Hn. rewrite sizes_sum_eq.
  pose proof (Nat.div_mod_eq len n). pose proof (Nat.mod_upper_bound len n Hn). lia.
Qed.

Lemma even_chunks_loop_spec data base rem left : forall i start,
  start + sizes_sum base rem i left = length data ->
  exists cs, even_chunks_loop data base rem i start left = Some cs
    /\ concat cs = drop start data
    /\ map length cs = map (even_size base rem) (seq i left).
Proof.
  induction left as [|left IH]; intros i start Hsum.
  - exists []. repeat split. rewrite drop_ge; [done|].
    unfold sizes_sum in Hsum; simpl in Hsum; lia.
  - unfold sizes_sum in Hsum; simpl in Hsum.
    fold (sizes_sum base rem (S i) left) in Hsum.
    change (base + (if Nat.ltb i rem then 1 else 0)) with (even_size base rem i) in *.
    destruct (IH (S i) (start + even_size base rem i)) as (cs & E & C & L); [lia|].
    simpl. fold (even_size base rem i). rewrite slice_range_ok by lia. simpl.
    rewrite E. eexists; repeat split.
    + simpl. rewrite C, <- drop_drop. by rewrite take_drop.
    + simpl. rewrite L. f_equal. rewrite length_take, length_drop. lia.
Qed.

Lemma even_chunks_total (data : list A) n :
  n <> 0 ->
  exists cs, even_chunks data n = Some cs /\ concat cs = data
    /\ map length cs = map (even_size (length data / n) (length data mod n)) (seq 0 n).
Proof.
  intros Hn. unfold even_chunks. rewrite (proj2 (Nat.eqb_neq n 0) Hn).
  destruct (even_chunks_loop_spec data (length data / n) (length data mod n) n 0 0)
    as (cs & E & C & L); [by rewrite sizes_sum_total|].
  exists cs. by rewrite drop_0 in C.
Qed.

Lemma chunks_loop_spec size : 0 < size -> forall fuel data,
  length data <= fuel ->
  concat (chunks_loop size fuel data) = data
  /\ Forall (fun c => 0 < length c <= size) (chunks_loop size fuel data)
  /\ length (chunks_loop size fuel data) = (length data + size - 1) / size.
Proof.
  intros Hs. induction fuel as [|fuel IH]; intros data Hlen.
  - destruct data; simpl in *; [|lia]. repeat split; [constructor|].
    rewrite Nat.div_small; lia.
  - destruct data as [|x data']; simpl chunks_loop.
    { repeat split; [constructor|]. simpl. rewrite Nat.div_small; lia. }
    set (d := x :: data') in *.
    assert (0 < length d) by (simpl; lia).
    destruct (IH (drop size d)) as (C & F & L); [rewrite length_drop; lia|].
    repeat split.
    + simpl. by rewrite C, take_drop.
    + constructor; [|done]. rewrite length_take. lia.
    + change (length (?c :: ?cs)) with (S (length cs)). rewrite L, length_drop.
      destruct (Nat.le_gt_cases (length d) size) as [Hd|Hd].
      * rewrite Nat.div_small by lia.
        replace (length d + size - 1) with (1 * size + (length d - 1)) by lia.
        rewrite Nat.div_add_l, Nat.div_small by lia. lia.
      * replace (length d + size - 1) with (1 * size + (length d - size + size - 1)) by lia.
        rewrite Nat.div_add_l by lia. lia.
Qed.

(** Every chunk but the last has exactly [size] elements. *)
Lemma chunks_loop_full size fuel : 0 < size -> forall (data : list A) i c,
  length data <= fuel ->
  chunks_loop size fuel data !! i = Some c ->
  S i < length (chunks_loop size fuel data) -> length c = size.
Proof.
  intros Hs. induction fuel as [|fuel IH]; intros data i c Hlen; [done|].
  destruct data as [|x data']; [done|]. simpl chunks_loop.
  set (d := x :: data') in *. assert (0 < length d) by (simpl; lia).
  destruct i as [|i]; simpl.
  - intros [= <-] Hi. fold d. rewrite length_take.
    destruct (Nat.le_gt_cases size (length d)) as [Hd|Hd]; [lia|].
    rewrite (drop_ge d size) in Hi by lia. destruct fuel; simpl in Hi; lia.
  - intros Hc Hi. eapply IH; [|done|lia]. rewrite length_drop. lia.
Qed.

Lemma slice_size_ceil vector_size num_slices :
  (0 < vector_size)%Z -> (0 < num_slices)%Z ->
  (vector_size + num_slices < 2 ^ 64)%Z ->
  slice_size vector_size num_slices = ((vector_size + num_slices - 1) / num_slices)%Z.
Proof.
  intros Hv Hn Hb. unfold slice_size.
  rewrite (wrap_small 64 (vector_size + num_slices)) by (unfold in_width; lia).
  rewrite wrap_small by (unfold in_width; lia). done.
Qed.

Lemma ceil_div_bounds a b :
  (0 < a)%Z -> (0 < b)%Z ->
  (0 < (a + b - 1) / b)%Z /\ (a <= b * ((a + b - 1) / b))%Z.
Proof.
  intros Ha Hb. pose proof (Z.div_mod (a + b - 1) b ltac:(lia)).
  pose proof (Z.mod_pos_bound (a + b - 1) b ltac:(lia)).
  split; [|nia]. apply Z.div_str_pos. lia.
Qed.

(** [ceil (a / ceil (a / b)) <= b]: the standard split never makes more slices
    than requested. *)
Lemma ceil_ceil_le a b s :
  0 < s -> (0 < b)%Z -> (Z.of_nat a <= b * Z.of_nat s)%Z ->
  (Z.of_nat ((a + s - 1) / s) <= b)%Z.
Proof.
  intros Hs Hb H. rewrite Nat2Z.inj_div.
  apply Z.lt_succ_r, Z.div_lt_upper_bound; [lia|]. nia.
Qed.

Lemma standard_slices_total (vector : list A) num_slices :
  vector <> [] -> (0 < num_slices)%Z ->
  (Z.of_nat (length vector) + num_slices < 2 ^ 64)%Z ->
  exists cs, standard_slices vector num_slices = Some cs
    /\ concat cs = vector
    /\ Forall (fun c => 0 < length c) cs
    /\ 1 <= length cs /\ (Z.of_nat (length cs) <= num_slices)%Z.
Proof.
  intros Hv Hn Hb. unfold standard_slices.
  assert (0 < length vector) by (destruct vector; [done | simpl; lia]).
  rewrite slice_size_ceil by lia.
  set (s := ((Z.of_nat (length vector) + num_slices - 1) / num_slices)%Z).
  destruct (ceil_div_bounds (Z.of_nat (length vector)) num_slices) as [Hs1 Hs2]; [lia..|].
  fold s in Hs1, Hs2.
  unfold chunks. rewrite (proj2 (Nat.eqb_neq (Z.to_nat s) 0)) by lia.
  destruct (chunks_loop_spec (Z.to_nat s) ltac:(lia) (length vector) vector) as (C & F & L);
    [lia|].
  eexists; repeat split; [done|..].
  - eapply Forall_impl; [exact F|]. simpl; intros; lia.
  - rewrite L. apply Nat.div_str_pos. lia.
  - rewrite L. apply ceil_ceil_le; lia.
Qed.
End Slicing.

(** ** Properties *)

(** C24: [even_chunks] with [0 < n <= len] never panics and gives exactly [n]
    consecutive chunks that make up the vector, none empty, whose lengths
    differ by at most one. *)
Theorem even_chunks_correct {A} (data : list A) n :
  0 < n <= length data ->
  exists cs, even_chunks data n = Some cs /\ concat cs = data /\ length cs = n
    /\ Forall (fun c => c <> []) cs
    /\ forall c1 c2, In c1 cs -> In c2 cs -> length c1 <= S (length c2).
Proof.
  intros Hn. destruct (even_chunks_total data n) as (cs & H1 & H2 & H3); [lia|].
  assert (forall c, In c cs -> length data / n <= length c <= S (length data / n)) as Hc.
  { intros c Hc. apply (in_map length) in Hc. rewrite H3 in Hc.
    apply in_map_iff in Hc as (i & <- & _). unfold even_size. destruct (Nat.ltb _ _); lia. }
  assert (1 <= length data / n) by (apply Nat.div_le_lower_bound; lia).
  exists cs. split_and!; [done..| | |].
  - rewrite <- (length_map length cs), H3. by rewrite length_map, length_seq.
  - apply List.Forall_forall. intros c Hin ->. apply Hc in Hin. simpl in Hin. lia.
  - intros c1 c2 Hi1 Hi2. apply Hc in Hi1, Hi2. lia.
Qed.

Lemma even_chunks_correct_witness :
  exists cs, even_chunks [1; 2; 3; 4; 5] 3 = Some cs /\ concat cs = [1; 2; 3; 4; 5] /\ length cs = 3
    /\ Forall (fun c => c <> []) cs
    /\ forall c1 c2, In c1 cs -> In c2 cs -> length c1 <= S (length c2).
Proof. apply (even_chunks_correct [1; 2; 3; 4; 5] 3). simpl. lia. Defined.

(** C25: unless the vector length and NUM_SLICES together exceed 64 bits, the
    standard slicing of a non-empty vector never panics and gives at least one
    and at most NUM_SLICES consecutive non-empty slices that make up the
    vector, all of one size except possibly the last. *)
Theorem standard_slices_correct {A} (vector : list A) num_slices :
  vector <> [] -> (0 < num_slices)%Z -> (Z.of_nat (length vector) + num_slices < 2 ^ 64)%Z ->
  exists cs, standard_slices vector num_slices = Some cs /\ concat cs = vector
    /\ 1 <= length cs /\ (Z.of_nat (length cs) <= num_slices)%Z
    /\ Forall (fun c => 0 < length c) cs
    /\ forall i c, cs !! i = Some c -> S i < length cs ->
         Z.of_nat (length c) = slice_size (Z.of_nat (length vector)) num_slices.
Proof.
  intros Hv Hn Hb. destruct (standard_slices_total vector num_slices Hv Hn Hb)
    as (cs & H1 & H2 & H3 & H4 & H5).
  exists cs. split_and!; try done. intros i c Hi Hlt.
  unfold standard_slices, chunks in H1.
  destruct (Nat.eqb_spec (Z.to_nat (slice_size (Z.of_nat (length vector)) num_slices)) 0); [done|].
  injection H1 as <-. assert (0 < Z.to_nat (slice_size (Z.of_nat (length vector)) num_slices)) as Hs by lia.
  rewrite (chunks_loop_full _ _ Hs vector i c (Nat.le_refl _) Hi Hlt). lia.
Qed.

Lemma standard_slices_correct_witness :
  exists cs, standard_slices [7; 8; 9] 2 = Some cs /\ concat cs = [7; 8; 9]
    /\ 1 <= length cs /\ (Z.of_nat (length cs) <= 2)%Z
    /\ Forall (fun c => 0 < length c) cs
    /\ forall i c, cs !! i = Some c -> S i < length cs ->
         Z.of_nat (length c) = slice_size (Z.of_nat (length [7; 8; 9])) 2.
Proof. apply (standard_slices_correct [7; 8; 9] 2); [done|lia|simpl; lia]. Defined.

(** A NUM_SLICES so large that its sum with the vector length overflows 64
    bits makes the slice size zero, and [chunks(0)] panics: every request of
    such a gateway panics. *)
Theorem num_slices_overflow {A} (vector : list A) num_slices :
  (num_slices < 2 ^ 64)%Z -> (2 ^ 64 < Z.of_nat (length vector) + num_slices)%Z ->
  (Z.of_nat (length vector) < 2 ^ 64)%Z ->
  standard_slices vector num_slices = None.
Proof.
  intros Hn Ho Hl. unfold standard_slices, slice_size.
  assert (wrap 64 (Z.of_nat (length vector) + num_slices)
          = Z.of_nat (length vector) + num_slices - 2 ^ 64)%Z as ->.
  { unfold wrap. symmetry. apply (Z.mod_unique _ _ 1); lia. }
  rewrite wrap_small by (unfold in_width; lia). by rewrite Z.div_small by lia.
Qed.

Lemma num_slices_overflow_witness :
  standard_slices [true; false] (2 ^ 64 - 1) = None.
Proof. apply (num_slices_overflow [true; false] (2 ^ 64 - 1)); simpl; lia. Defined.
