(* ===== verification/Scalar.v ===== *)
(** The floating-point operations the program uses, as an interface: the
    numeric code of the worker and of the gateway is written once against it
    and used at two instances, IEEE-754 bit patterns (Ieee.v), which is what
    runs, and extended real numbers (Ideal.v), where rounding is removed and
    the mathematical identity the service implements can be stated. *)

From Stdlib Require Import List.
From S2P Require Import Prelude.

Class Scalar := {
  f64 : Type;
  f32 : Type;

  (** [f64::NEG_INFINITY], the literals 0.0 and 1.0, and the value an empty
      [Iterator::sum] returns *)
  f64_neg_infinity : f64;
  f64_zero : f64;
  f64_one : f64;
  f64_sum_start : f64;
  f64_max : f64 -> f64 -> f64;
  f64_add : f64 -> f64 -> f64;
  f64_sub : f64 -> f64 -> f64;
  f64_mul : f64 -> f64 -> f64;
  f64_div : f64 -> f64 -> f64;
  f64_exp : f64 -> f64;

  (** the same for [f32]; [f32_pad] is the literal [-1e38f] of the kernels *)
  f32_neg_infinity : f32;
  f32_zero : f32;
  f32_one : f32;
  f32_pad : f32;
  f32_sum_start : f32;
  f32_max : f32 -> f32 -> f32;
  f32_add : f32 -> f32 -> f32;
  f32_sub : f32 -> f32 -> f32;
  f32_mul : f32 -> f32 -> f32;
  f32_div : f32 -> f32 -> f32;
  f32_exp : f32 -> f32;

  (** the [as] casts between the two formats *)
  as_f32 : f64 -> f32;
  as_f64 : f32 -> f64;
}.

(** [iter().sum()] and [iter().fold(NEG_INFINITY, max)] *)
Definition sum_f64 `{Scalar} (l : list f64) : f64 := fold_left f64_add l f64_sum_start.
Definition sum_f32 `{Scalar} (l : list f32) : f32 := fold_left f32_add l f32_sum_start.
Definition max_f64 `{Scalar} (l : list f64) : f64 := fold_left f64_max l f64_neg_infinity.
Definition max_f32 `{Scalar} (l : list f32) : f32 := fold_left f32_max l f32_neg_infinity.
