(* ===== verification/Ieee.v ===== *)
(** IEEE-754 binary32 and binary64 as bit patterns: a value is the integer
    [to_bits] gives, so the wire format is exact on NaN payloads too.  The
    arithmetic decodes into the Standard Library's executable specification of
    binary floating point (SpecFloat), computes with round-to-nearest-even,
    and encodes the result; a NaN result is the default quiet NaN, of which
    Rust promises only that it is a NaN. *)

From Stdlib Require Import ZArith Lia List Floats.SpecFloat.
From stdpp Require Import base tactics list.
From S2P Require Import Prelude Scalar.
Local Open Scope Z_scope.

(** ** Formats *)

(** [mbits] stored mantissa bits and [ebits] exponent bits. *)
Record format := Format { mbits : Z; ebits : Z }.
Definition prec (f : format) : Z := mbits f + 1.
Definition emax (f : format) : Z := 2 ^ (ebits f - 1).
Definition width (f : format) : Z := mbits f + ebits f + 1.
Definition binary32 : format := Format 23 8.
Definition binary64 : format := Format 52 11.

Definition fmin (f : format) : Z := emin (prec f) (emax f).

Definition decode (f : format) (b : Z) : spec_float :=
  let s := Z.testbit b (mbits f + ebits f) in
  let e := Z.land (Z.shiftr b (mbits f)) (2 ^ ebits f - 1) in
  let m := Z.land b (2 ^ mbits f - 1) in
  if e =? 2 ^ ebits f - 1 then
    (if m =? 0 then S754_infinity s else S754_nan)
  else if e =? 0 then
    (match m with Zpos p => S754_finite s p (fmin f) | _ => S754_zero s end)
  else
    (match m + 2 ^ mbits f with
     | Zpos p => S754_finite s p (e + fmin f - 1)
     | _ => S754_nan
     end).

Definition sign_bit (f : format) (s : bool) : Z :=
  if s then 2 ^ (mbits f + ebits f) else 0.

Definition encode (f : format) (x : spec_float) : Z :=
  match x with
  | S754_zero s => sign_bit f s
  | S754_infinity s => sign_bit f s + (2 ^ ebits f - 1) * 2 ^ mbits f
  | S754_nan => (2 ^ ebits f - 1) * 2 ^ mbits f + 2 ^ (mbits f - 1)
  | S754_finite s m e =>
      if Zpos m <? 2 ^ mbits f then sign_bit f s + Zpos m
      else sign_bit f s + (e - fmin f + 1) * 2 ^ mbits f + (Zpos m - 2 ^ mbits f)
  end.

(** [to_bits]: the encoding as a [width f]-bit integer. *)
Definition to_bits (f : format) (x : spec_float) : Z := wrap (width f) (encode f x).

Definition is_nan (f : format) (b : Z) : bool :=
  match decode f b with S754_nan => true | _ => false end.

(** [is_finite] *)
Definition is_finite (f : format) (b : Z) : bool :=
  match decode f b with S754_nan | S754_infinity _ => false | _ => true end.

Definition lift2 (f : format) (op : Z -> Z -> spec_float -> spec_float -> spec_float)
    (a b : Z) : Z :=
  to_bits f (op (prec f) (emax f) (decode f a) (decode f b)).

(** [f64::max] and [fmaxf]: the other operand when one is NaN. *)
Definition sf_max (x y : spec_float) : spec_float :=
  match x, y with
  | S754_nan, _ => y
  | _, S754_nan => x
  | _, _ => if SFltb x y then y else x
  end.

Definition max_bits (f : format) (a b : Z) : Z :=
  to_bits f (sf_max (decode f a) (decode f b)).

(** The [as] cast from format [f] to format [g]. *)
Definition sf_cast (g : format) (x : spec_float) : spec_float :=
  match x with
  | S754_finite s m e => binary_round (prec g) (emax g) s m e
  | _ => x
  end.

Definition cast (f g : format) (b : Z) : Z := to_bits g (sf_cast g (decode f b)).

(** [exp] of the two formats is a parameter: neither Rust nor CUDA fixes its
    precision. *)
Class Libm := {
  exp64 : Z -> Z;
  exp32 : Z -> Z;
}.

#[export] Instance ieee `{Libm} : Scalar := {|
  f64 := Z; f32 := Z;
  f64_neg_infinity := encode binary64 (S754_infinity true);
  f64_zero := 0;
  f64_one := encode binary64 (SFone 53 1024);
  f64_sum_start := encode binary64 (S754_zero true);
  f64_max := max_bits binary64;
  f64_add := lift2 binary64 SFadd;
  f64_sub := lift2 binary64 SFsub;
  f64_mul := lift2 binary64 SFmul;
  f64_div := lift2 binary64 SFdiv;
  f64_exp := fun x => wrap 64 (exp64 x);
  f32_neg_infinity := encode binary32 (S754_infinity true);
  f32_zero := 0;
  f32_one := encode binary32 (SFone 24 128);
  f32_pad := 0xFE967699;
  f32_sum_start := encode binary32 (S754_zero true);
  f32_max := max_bits binary32;
  f32_add := lift2 binary32 SFadd;
  f32_sub := lift2 binary32 SFsub;
  f32_mul := lift2 binary32 SFmul;
  f32_div := lift2 binary32 SFdiv;
  f32_exp := fun x => wrap 32 (exp32 x);
  as_f32 := cast binary64 binary32;
  as_f64 := cast binary32 binary64;
|}.

Example ieee_1_5 : lift2 binary64 SFadd 0x3FF0000000000000 0x3FE0000000000000 = 0x3FF8000000000000.
Proof. reflexivity. Qed.
Example ieee_third : lift2 binary64 SFdiv 0x3FF0000000000000 0x4008000000000000 = 0x3FD5555555555555.
Proof. reflexivity. Qed.
Example ieee_cast : cast binary64 binary32 0x3FD5555555555555 = 0x3EAAAAAB.
Proof. reflexivity. Qed.
(** the literal [-1e38f] is the binary32 number nearest to -10^38 *)
Example ieee_pad : f32_pad (Scalar := @ieee {| exp64 := id; exp32 := id |})
  = encode binary32 (binary_round 24 128 true (10 ^ 38)%positive 0).
Proof. reflexivity. Qed.

(** ** Digits and exact rounding *)

Lemma digits2_log2 m : Zpos (digits2_pos m) = Z.log2 (Zpos m) + 1.
Proof.
  induction m as [m IH|m IH|]; simpl digits2_pos; [| |done];
    rewrite Pos2Z.inj_succ, IH.
  - change (Zpos m~1) with (2 * Zpos m + 1). rewrite Z.log2_succ_double by lia. lia.
  - change (Zpos m~0) with (2 * Zpos m). rewrite Z.log2_double by lia. lia.
Qed.

Lemma digits2_bounds m :
  2 ^ (Zpos (digits2_pos m) - 1) <= Zpos m < 2 ^ Zpos (digits2_pos m).
Proof.
  rewrite digits2_log2. replace (Z.log2 (Zpos m) + 1 - 1) with (Z.log2 (Zpos m)) by lia.
  replace (Z.log2 (Zpos m) + 1) with (Z.succ (Z.log2 (Zpos m))) by lia.
  by apply Z.log2_spec.
Qed.

Lemma digits2_unique m d : 2 ^ (d - 1) <= Zpos m < 2 ^ d -> Zpos (digits2_pos m) = d.
Proof.
  intros H. rewrite digits2_log2.
  destruct (Z.le_gt_cases 1 d) as [Hd|Hd].
  - rewrite (Z.log2_unique (Zpos m) (d - 1)); [lia|lia|].
    by replace (Z.succ (d - 1)) with d by lia.
  - assert (2 ^ d <= 1); [|lia].
    destruct (Z.eq_dec d 0) as [->|]; [done|]. rewrite Z.pow_neg_r by lia. lia.
Qed.

Lemma iter_xO m d : Zpos (Pos.iter xO m d) = Zpos m * 2 ^ Zpos d.
Proof.
  induction d as [|d IH] using Pos.peano_ind; [simpl; lia|].
  rewrite Pos.iter_succ, Pos2Z.inj_succ, Z.pow_succ_r by lia.
  rewrite Pos2Z.inj_xO, IH. ring.
Qed.

Lemma digits2_shift m d : Zpos (digits2_pos (Pos.iter xO m d)) = Zpos (digits2_pos m) + Zpos d.
Proof.
  apply digits2_unique. rewrite iter_xO. pose proof (digits2_bounds m) as [H1 H2].
  replace (Zpos (digits2_pos m) + Zpos d - 1) with ((Zpos (digits2_pos m) - 1) + Zpos d) by lia.
  rewrite !Z.pow_add_r by lia. pose proof (Z.pow_pos_nonneg 2 (Zpos d)). nia.
Qed.

Lemma iter_pos_iter {A} (f : A -> A) n : forall x, SpecFloat.iter_pos f n x = Pos.iter f x n.
Proof. induction n; intros x; simpl; rewrite ?IHn; [|done..].
  by rewrite <- !Pos.iter_swap. Qed.

Lemma iter_shr m d :
  SpecFloat.iter_pos shr_1 d (Build_shr_record (Zpos (Pos.iter xO m d)) false false)
  = Build_shr_record (Zpos m) false false.
Proof.
  rewrite iter_pos_iter. revert m.
  induction d as [|d IH] using Pos.peano_ind; intros m; [done|].
  rewrite Pos.iter_succ_r, Pos.iter_succ. apply IH.
Qed.

Section Rounding.
Context (p em : Z).

Lemma shr_fexp_fixed m e :
  fexp p em (Zpos (digits2_pos m) + e) = e ->
  shr_fexp p em (Zpos m) e loc_Exact = (Build_shr_record (Zpos m) false false, e).
Proof. intros H. unfold shr_fexp. simpl. by rewrite H, Z.sub_diag. Qed.

Lemma round_aux_fixed s m e :
  fexp p em (Zpos (digits2_pos m) + e) = e -> e <= em - p ->
  binary_round_aux p em s (Zpos m) e loc_Exact = S754_finite s m e.
Proof.
  intros H He. unfold binary_round_aux. rewrite shr_fexp_fixed by done. simpl.
  rewrite shr_fexp_fixed by done. simpl. by rewrite (proj2 (Z.leb_le _ _)) by done.
Qed.

(** Rounding is the identity on a number that is already in the format... *)
Lemma binary_round_fixed s m e :
  bounded p em m e = true -> binary_round p em s m e = S754_finite s m e.
Proof.
  unfold bounded, canonical_mantissa. intros [H1%Z.eqb_eq H2%Z.leb_le]%andb_true_iff.
  unfold binary_round, shl_align. rewrite H1, Z.sub_diag. by apply round_aux_fixed.
Qed.

(** ... shifts the mantissa left when the format has more digits... *)
Lemma binary_round_left s m e d :
  fexp p em (Zpos (digits2_pos m) + e) = e - Zpos d -> e - Zpos d <= em - p ->
  binary_round p em s m e = S754_finite s (Pos.iter xO m d) (e - Zpos d).
Proof.
  intros H He. unfold binary_round, shl_align. rewrite H.
  replace (e - Zpos d - e) with (Zneg d) by lia.
  apply round_aux_fixed; [|done]. rewrite digits2_shift.
  by replace (Zpos (digits2_pos m) + Zpos d + (e - Zpos d)) with (Zpos (digits2_pos m) + e) by lia.
Qed.

(** ... and gives back a number of the format whose mantissa was shifted. *)
Lemma binary_round_right s m e d :
  bounded p em m e = true ->
  binary_round p em s (Pos.iter xO m d) (e - Zpos d) = S754_finite s m e.
Proof.
  unfold bounded, canonical_mantissa. intros [H1%Z.eqb_eq H2%Z.leb_le]%andb_true_iff.
  unfold binary_round. rewrite digits2_shift.
  replace (Zpos (digits2_pos m) + Zpos d + (e - Zpos d)) with (Zpos (digits2_pos m) + e) by lia.
  rewrite H1. unfold shl_align. replace (e - (e - Zpos d)) with (Zpos d) by lia.
  unfold binary_round_aux, shr_fexp. simpl Zdigits2. rewrite digits2_shift.
  replace (Zpos (digits2_pos m) + Zpos d + (e - Zpos d)) with (Zpos (digits2_pos m) + e) by lia.
  rewrite H1. replace (e - (e - Zpos d)) with (Zpos d) by lia.
  cbn [shr shr_record_of_loc]. rewrite iter_shr.
  replace (e - Zpos d + Zpos d) with e by lia. simpl.
  rewrite H1, Z.sub_diag. simpl. by rewrite (proj2 (Z.leb_le _ _)) by done.
Qed.
End Rounding.

(** ** Encoding and decoding *)

Class WfFormat (f : format) : Prop := {
  wf_mbits : 1 <= mbits f;
  wf_ebits : 2 <= ebits f;
}.
#[export] Instance wf_binary32 : WfFormat binary32.
Proof. by split. Qed.
#[export] Instance wf_binary64 : WfFormat binary64.
Proof. by split. Qed.

Section Codec.
Context (f : format) `{!WfFormat f}.

Lemma pow_mbits : 2 <= 2 ^ mbits f.
Proof. pose proof wf_mbits. change 2 with (2 ^ 1) at 1. apply Z.pow_le_mono_r; lia. Qed.

Lemma pow_ebits : 2 ^ ebits f = 2 * emax f /\ 2 <= emax f.
Proof.
  pose proof wf_ebits. unfold emax. split.
  - rewrite <- Z.pow_succ_r by lia. f_equal; lia.
  - change 2 with (2 ^ 1) at 1. apply Z.pow_le_mono_r; lia.
Qed.

Definition pack (s : bool) (ef mf : Z) : Z := sign_bit f s + ef * 2 ^ mbits f + mf.

Lemma pack_mod s ef mf :
  0 <= mf < 2 ^ mbits f -> 0 <= ef < 2 ^ ebits f ->
  Z.testbit (pack s ef mf) (mbits f + ebits f) = s
  /\ Z.land (Z.shiftr (pack s ef mf) (mbits f)) (2 ^ ebits f - 1) = ef
  /\ Z.land (pack s ef mf) (2 ^ mbits f - 1) = mf.
Proof.
  intros Hm He. pose proof wf_mbits. pose proof wf_ebits. pose proof pow_mbits.
  assert (pack s ef mf = mf + ((if s then 2 ^ ebits f else 0) + ef) * 2 ^ mbits f) as E.
  { unfold pack, sign_bit. destruct s; [rewrite Z.pow_add_r by lia|]; ring. }
  assert (pack s ef mf / 2 ^ mbits f = (if s then 2 ^ ebits f else 0) + ef) as D.
  { rewrite E, Z.div_add by lia. rewrite Z.div_small by lia. lia. }
  replace (2 ^ ebits f - 1) with (Z.ones (ebits f)) by (rewrite Z.ones_equiv; lia).
  replace (2 ^ mbits f - 1) with (Z.ones (mbits f)) by (rewrite Z.ones_equiv; lia).
  rewrite !Z.land_ones, Z.shiftr_div_pow2 by lia. rewrite D.
  split; [|split].
  - rewrite Z.testbit_eqb by lia. rewrite Z.pow_add_r, <- Z.div_div, D by lia.
    destruct s.
    + replace (2 ^ ebits f + ef) with (ef + 1 * 2 ^ ebits f) by ring.
      rewrite Z.div_add, Z.div_small by lia. done.
    + by rewrite Z.div_small by lia.
  - destruct s.
    + replace (2 ^ ebits f + ef) with (ef + 1 * 2 ^ ebits f) by ring.
      rewrite Z.mod_add, Z.mod_small by lia. done.
    + rewrite Z.mod_small by lia. done.
  - rewrite E, Z.mod_add, Z.mod_small by lia. done.
Qed.

Lemma unpack b :
  in_width (width f) b ->
  b = pack (Z.testbit b (mbits f + ebits f))
        (Z.land (Z.shiftr b (mbits f)) (2 ^ ebits f - 1))
        (Z.land b (2 ^ mbits f - 1))
  /\ 0 <= Z.land (Z.shiftr b (mbits f)) (2 ^ ebits f - 1) < 2 ^ ebits f
  /\ 0 <= Z.land b (2 ^ mbits f - 1) < 2 ^ mbits f.
Proof.
  unfold in_width, width. intros Hb.
  pose proof wf_mbits. pose proof wf_ebits. pose proof pow_mbits. pose proof pow_ebits.
  replace (2 ^ ebits f - 1) with (Z.ones (ebits f)) by (rewrite Z.ones_equiv; lia).
  replace (2 ^ mbits f - 1) with (Z.ones (mbits f)) by (rewrite Z.ones_equiv; lia).
  rewrite !Z.land_ones, Z.shiftr_div_pow2 by lia.
  assert (0 <= b / 2 ^ mbits f) by (apply Z.div_pos; lia).
  assert (b / 2 ^ mbits f / 2 ^ ebits f < 2) as Hq.
  { rewrite Z.div_div by lia. apply Z.div_lt_upper_bound; [lia|].
    rewrite <- Z.pow_add_r by lia.
    replace (mbits f + ebits f + 1) with (Z.succ (mbits f + ebits f)) in Hb by lia.
    rewrite Z.pow_succ_r in Hb by lia. lia. }
  assert (0 <= b / 2 ^ mbits f / 2 ^ ebits f) by (apply Z.div_pos; lia).
  split; [|split; apply Z.mod_pos_bound; lia].
  unfold pack, sign_bit. rewrite Z.testbit_eqb, Z.pow_add_r, <- Z.div_div by lia.
  pose proof (Z.div_mod b (2 ^ mbits f) ltac:(lia)).
  pose proof (Z.div_mod (b / 2 ^ mbits f) (2 ^ ebits f) ltac:(lia)).
  set (q := b / 2 ^ mbits f / 2 ^ ebits f) in *.
  assert (q = 0 \/ q = 1) as [E|E] by lia; rewrite E in *; simpl; nia.
Qed.

Lemma fmin_eq : fmin f = 3 - emax f - prec f.
Proof. done. Qed.

Lemma decode_pack s ef mf :
  0 <= mf < 2 ^ mbits f -> 0 <= ef < 2 ^ ebits f ->
  decode f (pack s ef mf) =
    if ef =? 2 ^ ebits f - 1 then (if mf =? 0 then S754_infinity s else S754_nan)
    else if ef =? 0 then
      (match mf with Zpos p => S754_finite s p (fmin f) | _ => S754_zero s end)
    else (match mf + 2 ^ mbits f with
          | Zpos p => S754_finite s p (ef + fmin f - 1) | _ => S754_nan end).
Proof.
  intros Hm He. unfold decode. destruct (pack_mod s ef mf) as (-> & -> & ->); done.
Qed.

Lemma fexp_eq e : fexp (prec f) (emax f) e = Z.max (e - prec f) (fmin f).
Proof. done. Qed.

(** A decoded number is in the format. *)
Lemma decode_valid b :
  in_width (width f) b -> valid_binary (prec f) (emax f) (decode f b) = true.
Proof.
  intros Hb. destruct (unpack b Hb) as (E & He & Hm). rewrite E, decode_pack by done.
  set (ef := Z.land (Z.shiftr b (mbits f)) _) in *. set (mf := Z.land b _) in *.
  set (s := Z.testbit _ _). clearbody ef mf s.
  pose proof pow_mbits. pose proof pow_ebits as [E2 E3]. pose proof wf_mbits.
  destruct (Z.eqb_spec ef (2 ^ ebits f - 1)) as [|N]; [by destruct (mf =? 0)|].
  destruct (Z.eqb_spec ef 0) as [|N0].
  - destruct mf as [|m|]; [done| |done]. cbn [valid_binary]. unfold bounded, canonical_mantissa.
    assert (Zpos (digits2_pos m) <= mbits f).
    { destruct (Z.le_gt_cases (Zpos (digits2_pos m)) (mbits f)); [done|].
      pose proof (digits2_bounds m).
      assert (2 ^ mbits f <= 2 ^ (Zpos (digits2_pos m) - 1)) by (apply Z.pow_le_mono_r; lia). lia. }
    rewrite fexp_eq. unfold prec in *. apply andb_true_iff. rewrite fmin_eq. unfold prec.
    rewrite Z.eqb_eq, Z.leb_le. lia.
  - destruct (mf + 2 ^ mbits f) as [|m|] eqn:M; [lia| |lia].
    cbn [valid_binary]. unfold bounded, canonical_mantissa.
    assert (Zpos (digits2_pos m) = prec f) as ->.
    { apply digits2_unique. unfold prec. replace (mbits f + 1 - 1) with (mbits f) by lia.
      rewrite Z.pow_add_r by lia. lia. }
    rewrite fexp_eq. apply andb_true_iff. rewrite fmin_eq. unfold prec.
    rewrite Z.eqb_eq, Z.leb_le. lia.
Qed.

(** Encoding the decoded bits of anything but a NaN gives the bits back. *)
Lemma encode_decode b :
  in_width (width f) b -> is_nan f b = false -> encode f (decode f b) = b.
Proof.
  unfold is_nan. intros Hb. destruct (unpack b Hb) as (E & He & Hm). rewrite E, decode_pack by done.
  set (ef := Z.land (Z.shiftr b (mbits f)) _) in *. set (mf := Z.land b _) in *.
  set (s := Z.testbit _ _). clearbody ef mf s. intros Hn.
  pose proof pow_mbits. unfold pack in *.
  destruct (Z.eqb_spec ef (2 ^ ebits f - 1)) as [->|N].
  - destruct (Z.eqb_spec mf 0) as [->|]; [simpl; lia|done].
  - destruct (Z.eqb_spec ef 0) as [->|N0].
    + destruct mf as [|m|]; simpl; [lia| |lia].
      rewrite (proj2 (Z.ltb_lt _ _)) by lia. lia.
    + destruct (mf + 2 ^ mbits f) as [|m|] eqn:M; [lia| |lia]. simpl.
      rewrite (proj2 (Z.ltb_ge _ _)) by lia. rewrite <- M. ring.
Qed.

(** Decoding the bits of a number of the format gives the number back. *)
Lemma decode_encode x :
  valid_binary (prec f) (emax f) x = true -> decode f (encode f x) = x.
Proof.
  pose proof pow_mbits. pose proof pow_ebits as [E2 E3]. pose proof wf_mbits. pose proof wf_ebits.
  assert (2 ^ (mbits f - 1) < 2 ^ mbits f) by (apply Z.pow_lt_mono_r; lia).
  assert (0 < 2 ^ (mbits f - 1)) by (apply Z.pow_pos_nonneg; lia).
  destruct x as [s|s| |s m e]; intros Hv; cbn [encode].
  - replace (sign_bit f s) with (pack s 0 0) by (unfold pack; lia).
    rewrite decode_pack by lia. rewrite (proj2 (Z.eqb_neq _ _)) by lia. done.
  - replace (sign_bit f s + _) with (pack s (2 ^ ebits f - 1) 0) by (unfold pack; lia).
    rewrite decode_pack by lia. by rewrite Z.eqb_refl.
  - replace ((2 ^ ebits f - 1) * 2 ^ mbits f + 2 ^ (mbits f - 1))
      with (pack false (2 ^ ebits f - 1) (2 ^ (mbits f - 1))) by (unfold pack; simpl; lia).
    rewrite decode_pack by lia. rewrite Z.eqb_refl, (proj2 (Z.eqb_neq _ _)) by lia. done.
  - cbn [valid_binary] in Hv. unfold bounded, canonical_mantissa in Hv.
    apply andb_true_iff in Hv as [C1%Z.eqb_eq C2%Z.leb_le]. rewrite fexp_eq in C1.
    rewrite fmin_eq in *. pose proof (digits2_bounds m) as [D1 D2].
    destruct (Z.ltb_spec (Zpos m) (2 ^ mbits f)) as [L|L].
    + assert (Zpos (digits2_pos m) <= mbits f).
      { destruct (Z.le_gt_cases (Zpos (digits2_pos m)) (mbits f)); [done|].
        assert (2 ^ mbits f <= 2 ^ (Zpos (digits2_pos m) - 1)) by (apply Z.pow_le_mono_r; lia). lia. }
      replace (sign_bit f s + Zpos m) with (pack s 0 (Zpos m)) by (unfold pack; lia).
      rewrite decode_pack by lia. rewrite (proj2 (Z.eqb_neq _ _)) by lia. simpl.
      f_equal. rewrite fmin_eq. unfold prec in *. lia.
    + assert (Zpos (digits2_pos m) <= prec f) by lia.
      assert (prec f <= Zpos (digits2_pos m)).
      { destruct (Z.le_gt_cases (prec f) (Zpos (digits2_pos m))); [done|]. unfold prec in *.
        assert (2 ^ Zpos (digits2_pos m) <= 2 ^ mbits f) by (apply Z.pow_le_mono_r; lia). lia. }
      assert (Zpos m < 2 * 2 ^ mbits f).
      { rewrite <- Z.pow_succ_r by lia. eapply Z.lt_le_trans; [exact D2|].
        apply Z.pow_le_mono_r; unfold prec in *; lia. }
      set (ef := e - (3 - emax f - prec f) + 1).
      replace (sign_bit f s + ef * 2 ^ mbits f + (Zpos m - 2 ^ mbits f))
        with (pack s ef (Zpos m - 2 ^ mbits f)) by (unfold pack; lia).
      rewrite decode_pack by lia. rewrite !(proj2 (Z.eqb_neq _ _)) by lia.
      replace (Zpos m - 2 ^ mbits f + 2 ^ mbits f) with (Zpos m) by lia.
      f_equal. unfold ef. rewrite fmin_eq. lia.
Qed.

Lemma pack_in_width s ef mf :
  0 <= mf < 2 ^ mbits f -> 0 <= ef < 2 ^ ebits f -> in_width (width f) (pack s ef mf).
Proof.
  intros Hm He. pose proof wf_mbits. pose proof wf_ebits. unfold in_width, width, pack, sign_bit.
  rewrite !Z.pow_add_r by lia. change (2 ^ 1) with 2. destruct s; nia.
Qed.

Lemma encode_in_width x :
  valid_binary (prec f) (emax f) x = true -> in_width (width f) (encode f x).
Proof.
  pose proof pow_mbits. pose proof pow_ebits as [E2 E3]. pose proof wf_mbits.
  assert (2 ^ (mbits f - 1) < 2 ^ mbits f) by (apply Z.pow_lt_mono_r; lia).
  assert (0 < 2 ^ (mbits f - 1)) by (apply Z.pow_pos_nonneg; lia).
  destruct x as [s|s| |s m e]; intros Hv; cbn [encode].
  - replace (sign_bit f s) with (pack s 0 0) by (unfold pack; lia). apply pack_in_width; lia.
  - replace (sign_bit f s + _) with (pack s (2 ^ ebits f - 1) 0) by (unfold pack; lia).
    apply pack_in_width; lia.
  - replace ((2 ^ ebits f - 1) * 2 ^ mbits f + 2 ^ (mbits f - 1))
      with (pack false (2 ^ ebits f - 1) (2 ^ (mbits f - 1))) by (unfold pack; simpl; lia).
    apply pack_in_width; lia.
  - cbn [valid_binary] in Hv. unfold bounded, canonical_mantissa in Hv.
    apply andb_true_iff in Hv as [C1%Z.eqb_eq C2%Z.leb_le]. rewrite fexp_eq in C1.
    rewrite fmin_eq in *. pose proof (digits2_bounds m) as [D1 D2].
    destruct (Z.ltb_spec (Zpos m) (2 ^ mbits f)) as [L|L].
    + replace (sign_bit f s + Zpos m) with (pack s 0 (Zpos m)) by (unfold pack; lia).
      apply pack_in_width; lia.
    + assert (Zpos m < 2 * 2 ^ mbits f).
      { rewrite <- Z.pow_succ_r by lia. eapply Z.lt_le_trans; [exact D2|].
        apply Z.pow_le_mono_r; unfold prec in *; lia. }
      replace (sign_bit f s + _ + _)
        with (pack s (e - (3 - emax f - prec f) + 1) (Zpos m - 2 ^ mbits f)) by (unfold pack; lia).
      apply pack_in_width; lia.
Qed.

Lemma to_bits_encode x :
  valid_binary (prec f) (emax f) x = true -> to_bits f x = encode f x.
Proof. intros H. apply wrap_small. by apply encode_in_width. Qed.

Lemma to_bits_in_width x : in_width (width f) (to_bits f x).
Proof. apply wrap_in_width. pose proof wf_mbits. pose proof wf_ebits. unfold width. lia. Qed.
End Codec.
#[export] Hint Resolve to_bits_in_width : dsoftmax.

(** ** The casts *)

(** Widening is exact. *)
Lemma cast_widen_valid x :
  valid_binary 24 128 x = true ->
  valid_binary 53 1024 (sf_cast binary64 x) = true
  /\ sf_cast binary32 (sf_cast binary64 x) = x.
Proof.
  destruct x as [s|s| |s m e]; intros Hv; [done..|]. cbn [valid_binary] in Hv.
  pose proof Hv as Hb. unfold bounded, canonical_mantissa in Hv.
  apply andb_true_iff in Hv as [H1%Z.eqb_eq H2%Z.leb_le]. unfold fexp, emin in H1.
  assert (exists d, fexp 53 1024 (Zpos (digits2_pos m) + e) = e - Zpos d
    /\ Zpos (digits2_pos m) + Zpos d = 53) as (d & Hd & Hs).
  { exists (Z.to_pos (53 - Zpos (digits2_pos m))). unfold fexp, emin. lia. }
  cbn [sf_cast]. change (prec binary64) with 53. change (emax binary64) with 1024.
  rewrite (binary_round_left 53 1024 s m e d) by lia. split.
  - cbn [valid_binary]. unfold bounded, canonical_mantissa.
    rewrite digits2_shift. unfold fexp, emin in *. apply andb_true_iff.
    rewrite Z.eqb_eq, Z.leb_le. lia.
  - cbn [sf_cast]. by apply binary_round_right.
Qed.

Lemma cast_round_trip b :
  in_width 32 b -> is_nan binary32 b = false ->
  cast binary64 binary32 (cast binary32 binary64 b) = b.
Proof.
  intros Hb Hn. unfold cast.
  destruct (cast_widen_valid (decode binary32 b)) as [V E]; [by apply (decode_valid binary32)|].
  rewrite (to_bits_encode binary64), (decode_encode binary64) by done. rewrite E.
  rewrite (to_bits_encode binary32) by (by apply (decode_valid binary32)).
  by apply (encode_decode binary32).
Qed.

(** The widening of a result to f64 and its narrowing back to f32, which the
    wire format relies on, loses nothing: the bit pattern of any f32 that is not
    NaN comes back. *)
Lemma f32_round_trip `{Libm} (x : @f32 ieee) :
  in_width 32 x -> is_nan binary32 x = false -> as_f32 (as_f64 x) = x.
Proof. apply cast_round_trip. Qed.
