(* ===== verification/Ideal.v ===== *)
(** The extended real numbers as an instance of [Scalar]: the operations of
    IEEE-754 with rounding, overflow and the sign of zero removed.  The
    mathematical identities of the distributed softmax are stated here. *)

From Stdlib Require Import Reals Lra List Lia Permutation.
From stdpp Require Import base tactics list.
From S2P Require Import Prelude Scalar.
Local Open Scope R_scope.

(** ** Extended reals *)

Inductive xr : Type := Fin (r : R) | PInf | NInf | XNaN.

Definition xmax (a b : xr) : xr :=
  match a, b with
  | XNaN, _ => b
  | _, XNaN => a
  | PInf, _ | _, PInf => PInf
  | NInf, _ => b
  | _, NInf => a
  | Fin x, Fin y => Fin (Rmax x y)
  end.

Definition xadd (a b : xr) : xr :=
  match a, b with
  | XNaN, _ | _, XNaN => XNaN
  | PInf, NInf | NInf, PInf => XNaN
  | PInf, _ | _, PInf => PInf
  | NInf, _ | _, NInf => NInf
  | Fin x, Fin y => Fin (x + y)
  end.

Definition xopp (a : xr) : xr :=
  match a with XNaN => XNaN | PInf => NInf | NInf => PInf | Fin x => Fin (- x) end.

Definition xsub (a b : xr) : xr := xadd a (xopp b).

(** An infinity times (or over) a real of the sign of [x]. *)
Definition xscale (pos : bool) (x : R) : xr :=
  if Req_dec_T x 0 then XNaN
  else if Rlt_dec 0 x then (if pos then PInf else NInf) else (if pos then NInf else PInf).

Definition xmul (a b : xr) : xr :=
  match a, b with
  | XNaN, _ | _, XNaN => XNaN
  | PInf, PInf | NInf, NInf => PInf
  | PInf, NInf | NInf, PInf => NInf
  | PInf, Fin x | Fin x, PInf => xscale true x
  | NInf, Fin x | Fin x, NInf => xscale false x
  | Fin x, Fin y => Fin (x * y)
  end.

Definition xdiv (a b : xr) : xr :=
  match a, b with
  | XNaN, _ | _, XNaN => XNaN
  | (PInf | NInf), (PInf | NInf) => XNaN
  | Fin _, (PInf | NInf) => Fin 0
  | PInf, Fin y => if Req_dec_T y 0 then PInf else xscale true y
  | NInf, Fin y => if Req_dec_T y 0 then NInf else xscale false y
  | Fin x, Fin y => if Req_dec_T y 0 then xscale true x else Fin (x / y)
  end.

Definition xexp (a : xr) : xr :=
  match a with XNaN => XNaN | PInf => PInf | NInf => Fin 0 | Fin x => Fin (exp x) end.

Definition ideal : Scalar := {|
  f64 := xr; f32 := xr;
  f64_neg_infinity := NInf; f64_zero := Fin 0; f64_one := Fin 1; f64_sum_start := Fin 0;
  f64_max := xmax; f64_add := xadd; f64_sub := xsub; f64_mul := xmul;
  f64_div := xdiv; f64_exp := xexp;
  f32_neg_infinity := NInf; f32_zero := Fin 0; f32_one := Fin 1;
  f32_pad := Fin (- (10 ^ 38)); f32_sum_start := Fin 0;
  f32_max := xmax; f32_add := xadd; f32_sub := xsub; f32_mul := xmul;
  f32_div := xdiv; f32_exp := xexp;
  as_f32 := fun x => x; as_f64 := fun x => x;
|}.

(** ** The reference: softmax of a vector of reals *)

Definition Rsum (l : list R) : R := fold_right Rplus 0 l.
Definition softmax (xs : list R) : list R :=
  map (fun x => exp x / Rsum (map exp xs)) xs.

(** ** Sums and maxima *)

Lemma Rsum_app l1 l2 : Rsum (l1 ++ l2) = Rsum l1 + Rsum l2.
Proof. induction l1 as [|x l IH]; simpl; lra. Qed.

Lemma Rsum_scale c l : Rsum (map (fun x => c * x) l) = c * Rsum l.
Proof. induction l as [|x l IH]; simpl; lra. Qed.

Lemma Rsum_concat ls : Rsum (concat ls) = Rsum (map Rsum ls).
Proof. induction ls as [|l ls IH]; simpl; [done|]. by rewrite Rsum_app, IH. Qed.

Lemma Rsum_pos l : l <> [] -> Forall (fun x => 0 < x) l -> 0 < Rsum l.
Proof.
  intros Hl. destruct l as [|x l]; [done|]. intros Hf. clear Hl. revert x Hf.
  induction l as [|y l IH]; intros x [Hx Hf]%Forall_cons; simpl in *; [lra|].
  specialize (IH y Hf). lra.
Qed.

Lemma Rsum_nonneg l : Forall (fun x => 0 <= x) l -> 0 <= Rsum l.
Proof. induction 1; simpl; lra. Qed.

Lemma Rsum_in_le l x : Forall (fun x => 0 <= x) l -> In x l -> x <= Rsum l.
Proof.
  induction 1 as [|y l Hy Hl IH]; simpl; [done|].
  apply Rsum_nonneg in Hl. intros [->|Hx]; [lra|]. specialize (IH Hx). lra.
Qed.

Lemma fold_xadd_fin l : forall a, fold_left xadd (map Fin l) (Fin a) = Fin (a + Rsum l).
Proof.
  induction l as [|x l IH]; intros a; simpl; [by rewrite Rplus_0_r|].
  rewrite IH. f_equal. lra.
Qed.

Lemma sum_f64_fin l : @sum_f64 ideal (map Fin l) = Fin (Rsum l).
Proof. unfold sum_f64; simpl. rewrite fold_xadd_fin. f_equal. lra. Qed.

Lemma sum_f32_fin l : @sum_f32 ideal (map Fin l) = Fin (Rsum l).
Proof. apply sum_f64_fin. Qed.

(** The maximum of a non-empty list: it is in the list and bounds it. *)
Definition is_max (m : R) (l : list R) : Prop := In m l /\ Forall (fun x => x <= m) l.

Lemma fold_xmax_fin l : forall a,
  exists m, fold_left xmax (map Fin l) (Fin a) = Fin m /\ is_max m (a :: l).
Proof.
  induction l as [|x l IH]; intros a; simpl.
  { exists a. split; [done|]. split; [by left|]. constructor; [lra|constructor]. }
  destruct (IH (Rmax a x)) as (m & -> & Hin & Hf). exists m. split; [done|].
  apply Forall_cons in Hf as [H1 H2].
  pose proof (Rmax_l a x). pose proof (Rmax_r a x). split.
  - destruct Hin as [<-|Hin]; [|by right; right].
    unfold Rmax. destruct (Rle_dec a x); [by right; left|by left].
  - constructor; [lra|]. constructor; [lra|done].
Qed.

Lemma max_f64_fin l : l <> [] ->
  exists m, @max_f64 ideal (map Fin l) = Fin m /\ is_max m l.
Proof. destruct l as [|x l]; [done|]. intros _. apply fold_xmax_fin. Qed.

(** ** Facts of the reference *)

Lemma exp_all_pos l : Forall (fun x => 0 < x) (map exp l).
Proof. apply Forall_forall. intros y (x & <- & _)%list_elem_of_In%in_map_iff. apply exp_pos. Qed.

Lemma exp_sum_pos xs : xs <> [] -> 0 < Rsum (map exp xs).
Proof. intros H. apply Rsum_pos; [by destruct xs|]. apply exp_all_pos. Qed.

(** Softmax does not change when every input is shifted by the same amount. *)
Lemma softmax_shift c xs :
  map (fun x => exp (x - c) / Rsum (map (fun y => exp (y - c)) xs)) xs = softmax xs.
Proof.
  unfold softmax.
  assert (Rsum (map (fun y => exp (y - c)) xs) = exp (- c) * Rsum (map exp xs)) as ->.
  { rewrite <- Rsum_scale, map_map. f_equal. apply map_ext. intros x.
    unfold Rminus. rewrite exp_plus. lra. }
  apply map_ext_in. intros x Hx.
  assert (0 < Rsum (map exp xs)) by (apply exp_sum_pos; by destruct xs).
  unfold Rminus. rewrite exp_plus. pose proof (exp_pos (- c)). field. lra.
Qed.

Lemma softmax_sum xs : xs <> [] -> Rsum (softmax xs) = 1.
Proof.
  intros H. pose proof (exp_sum_pos xs H). unfold softmax.
  assert (forall S l, Rsum (map (fun x => exp x / S) l) = Rsum (map exp l) / S) as E.
  { intros S l. induction l as [|x l IH]; simpl; [lra|]. rewrite IH. lra. }
  rewrite E. field. lra.
Qed.

Lemma softmax_bounds xs : Forall (fun p => 0 < p <= 1) (softmax xs).
Proof.
  apply Forall_forall. intros p (x & <- & Hx)%list_elem_of_In%in_map_iff.
  assert (0 < Rsum (map exp xs)) by (apply exp_sum_pos; by destruct xs).
  pose proof (exp_pos x).
  assert (exp x <= Rsum (map exp xs)).
  { apply Rsum_in_le; [|by apply in_map]. eapply Forall_impl; [apply exp_all_pos|].
    simpl. intros. lra. }
  split; [by apply Rdiv_lt_0_compat|].
  apply (Rmult_le_reg_r (Rsum (map exp xs))); [done|].
  unfold Rdiv. rewrite Rmult_assoc, Rinv_l by lra. lra.
Qed.

Lemma softmax_monotone xs i j x y p q :
  xs !! i = Some x -> xs !! j = Some y ->
  softmax xs !! i = Some p -> softmax xs !! j = Some q -> (x < y <-> p < q).
Proof.
  unfold softmax. rewrite !lookup_map. intros Hx Hy. rewrite Hx, Hy.
  simpl. intros [= <-] [= <-].
  assert (0 < Rsum (map exp xs)) as Hs by (apply exp_sum_pos; by destruct xs).
  pose proof (Rinv_0_lt_compat _ Hs). unfold Rdiv. split; intros H1.
  - apply Rmult_lt_compat_r; [done|]. by apply exp_increasing.
  - apply exp_lt_inv. by apply (Rmult_lt_reg_r (/ Rsum (map exp xs))).
Qed.

(** ** The commutative monoids of the reductions *)

#[export] Instance xadd_comm : Comm (=) xadd.
Proof. intros x y. destruct x, y; simpl; try done. by rewrite Rplus_comm. Qed.
#[export] Instance xadd_assoc : Assoc (=) xadd.
Proof. intros x y z. destruct x, y, z; simpl; try done. by rewrite Rplus_assoc. Qed.
#[export] Instance xadd_left_id : LeftId (=) (Fin 0) xadd.
Proof. intros x. destruct x; simpl; try done. by rewrite Rplus_0_l. Qed.
#[export] Instance xmax_comm : Comm (=) xmax.
Proof. intros x y. destruct x, y; simpl; try done. by rewrite Rmax_comm. Qed.
#[export] Instance xmax_assoc : Assoc (=) xmax.
Proof. intros x y z. destruct x, y, z; simpl; try done. by rewrite Rmax_assoc. Qed.
#[export] Instance xmax_left_id : LeftId (=) XNaN xmax.
Proof. intros x. destruct x; reflexivity. Qed.

Lemma foldr_xadd_fin l : foldr xadd (Fin 0) (map Fin l) = Fin (Rsum l).
Proof. induction l as [|x l IH]; simpl; [done|]. by rewrite IH. Qed.

Lemma foldr_xadd_zeros k : foldr xadd (Fin 0) (replicate k (Fin 0)) = Fin 0.
Proof. induction k as [|k IH]; simpl; [done|]. rewrite IH. simpl. by rewrite Rplus_0_l. Qed.

(** A maximum of one or more reals, taken in any order, is a real.  NaN is the
    neutral element, because [max] returns the other operand. *)
Lemma foldr_xmax_fin l : l <> [] -> exists m, foldr xmax XNaN (map Fin l) = Fin m.
Proof.
  induction l as [|x [|y l] IH]; [done| |]; intros _.
  - by exists x.
  - destruct IH as [m E]; [done|]. exists (Rmax x m).
    change (xmax (Fin x) (foldr xmax XNaN (map Fin (y :: l))) = Fin (Rmax x m)). by rewrite E.
Qed.
