(* ===== verification/Softmax.v ===== *)
(** The two-pass softmax on the CPU: the partial statistics of one slice
    (worker-rs/src/softmax.rs) and their aggregation
    (gateway-rs/src/aggregator.rs), written against [Scalar] and proved equal
    to the reference softmax of the whole vector at the ideal instance. *)

From Stdlib Require Import Reals Lra List Lia.
From stdpp Require Import base tactics list.
From S2P Require Import Prelude Scalar Ideal Slicing.

(** ** Definitions *)

Section Definitions.
Context `{SC : Scalar}.

(** [PartialStats] of worker-rs *)
Record PartialStats := {
  ps_local_max : f64;
  ps_partial_sum : f64;
  ps_exp_values : list f32;
}.

(** [SliceStats] of gateway-rs *)
Record SliceStats := {
  exp_values : list f64;
  local_max : f64;
  partial_sum : f64;
  is_normalized : bool;
}.

(** [SliceStats::default()] *)
Definition SliceStats_default : SliceStats := {|
  exp_values := []; local_max := f64_zero; partial_sum := f64_one;
  is_normalized := false |}.

(** [softmax_partial(data)] *)
Definition softmax_partial (data : list f64) : PartialStats :=
  match data with
  | [] => {| ps_local_max := f64_zero; ps_partial_sum := f64_zero; ps_exp_values := [] |}
  | _ =>
      let local_max := max_f64 data in
      let exp_values := map (fun x => as_f32 (f64_exp (f64_sub x local_max))) data in
      let partial_sum := sum_f64 (map as_f64 exp_values) in
      {| ps_local_max := local_max; ps_partial_sum := partial_sum;
         ps_exp_values := exp_values |}
  end.

(** [aggregate_softmax_cpu(stats)] *)
Definition aggregate_softmax_cpu (stats : list SliceStats) : list f64 :=
  match stats with
  | [] => []
  | _ =>
      let global_max := max_f64 (map local_max stats) in
      let adjust := map (fun s => f64_exp (f64_sub (local_max s) global_max)) stats in
      let global_sum :=
        sum_f64 (map (fun '(s, a) => f64_mul (partial_sum s) a) (combine stats adjust)) in
      concat (map (fun '(s, a) =>
                map (fun ev => f64_div (f64_mul ev a) global_sum) (exp_values s))
              (combine stats adjust))
  end.

(** What the gateway holds for a slice once it has read back the statistics a
    worker wrote (Wire.v proves that the wire format gives exactly this). *)
Definition received (p : PartialStats) : SliceStats := {|
  exp_values := map as_f64 (ps_exp_values p);
  local_max := ps_local_max p;
  partial_sum := ps_partial_sum p;
  is_normalized := false |}.

(** The whole CPU computation on a sliced vector. *)
Definition distributed_softmax (slices : list (list f64)) : list f64 :=
  aggregate_softmax_cpu (map (fun s => received (softmax_partial s)) slices).

Lemma combine_map_r {A B} (f : A -> B) (l : list A) :
  combine l (map f l) = map (fun x => (x, f x)) l.
Proof. induction l as [|x l IH]; simpl; [done|]. by rewrite IH. Qed.

(** The aggregation with the zips fused. *)
Lemma aggregate_cpu_unzip stats :
  aggregate_softmax_cpu stats =
    let m := max_f64 (map local_max stats) in
    let adj s := f64_exp (f64_sub (local_max s) m) in
    let gs := sum_f64 (map (fun s => f64_mul (partial_sum s) (adj s)) stats) in
    concat (map (fun s => map (fun ev => f64_div (f64_mul ev (adj s)) gs) (exp_values s)) stats).
Proof.
  destruct stats as [|s0 stats]; [done|]. unfold aggregate_softmax_cpu.
  rewrite combine_map_r, !map_map. done.
Qed.

Lemma softmax_partial_cons data :
  data <> [] ->
  softmax_partial data =
    let m := max_f64 data in
    let es := map (fun x => as_f32 (f64_exp (f64_sub x m))) data in
    {| ps_local_max := m; ps_partial_sum := sum_f64 (map as_f64 es); ps_exp_values := es |}.
Proof. by destruct data. Qed.

(** The shape of the results, whatever the arithmetic does: one exponential per
    input element, one probability per received element, in order. *)
Lemma softmax_partial_length data :
  length (ps_exp_values (softmax_partial data)) = length data.
Proof.
  destruct data as [|x data]; [done|]. rewrite softmax_partial_cons by done.
  cbn [ps_exp_values]. by rewrite length_map.
Qed.

Lemma concat_map_length {A B} (f : SliceStats -> A -> B) (g : SliceStats -> list A) stats :
  length (concat (map (fun s => map (f s) (g s)) stats)) = sum_list (map (fun s => length (g s)) stats).
Proof.
  induction stats as [|s stats IH]; [done|]. simpl. by rewrite length_app, length_map, IH.
Qed.

Lemma aggregate_cpu_length stats :
  length (aggregate_softmax_cpu stats) = sum_list (map (fun s => length (exp_values s)) stats).
Proof.
  rewrite aggregate_cpu_unzip. cbv zeta.
  apply (concat_map_length (fun s ev => f64_div (f64_mul ev _) _)).
Qed.
End Definitions.

(** ** The ideal instance *)

Section IdealSoftmax.
Local Open Scope R_scope.
#[local] Existing Instance ideal.

Definition nonempty {A} (l : list A) : Prop := l <> [].

(** Real-valued statistics: what [softmax_partial] holds at the ideal
    instance, for the slice [xs] with maximum [m]. *)
Definition real_stats (xs : list R) (m : R) : SliceStats := {|
  exp_values := map (fun x => Fin (exp (x - m))) xs;
  local_max := Fin m;
  partial_sum := Fin (Rsum (map (fun x => exp (x - m)) xs));
  is_normalized := false |}.

Lemma softmax_partial_ideal xs :
  xs <> [] ->
  exists m, is_max m xs /\ received (softmax_partial (map Fin xs)) = real_stats xs m.
Proof.
  intros Hx. destruct (max_f64_fin xs Hx) as (m & E & Hm). exists m. split; [done|].
  rewrite softmax_partial_cons by (by destruct xs).
  unfold received. cbv zeta. cbn [ps_exp_values ps_local_max ps_partial_sum].
  change (@as_f64 ideal) with (fun x : xr => x). rewrite !map_id, E, !map_map.
  unfold real_stats. f_equal.
  rewrite <- (sum_f64_fin (map _ xs)), map_map. done.
Qed.

Definition stats_of (sls : list (list R * R)) : list SliceStats :=
  map (fun '(xs, m) => real_stats xs m) sls.

(** The global maximum is a real [M] and the global sum is the sum of the
    exponentials of the whole vector relative to [M]. *)
Lemma real_stats_totals (sls : list (list R * R)) :
  sls <> [] -> Forall (fun '(xs, m) => xs <> []) sls ->
  let xs := concat (map fst sls) in
  exists M, let T := Rsum (map (fun x => exp (x - M)) xs) in
    max_f64 (map local_max (stats_of sls)) = Fin M
    /\ sum_f64 (map (fun s => f64_mul (partial_sum s)
                       (f64_exp (f64_sub (local_max s) (Fin M)))) (stats_of sls)) = Fin T
    /\ 0 < T.
Proof.
  intros Hne Hmax xs. unfold stats_of.
  rewrite (map_map _ local_max), (map_ext _ (fun p : list R * R => Fin p.2)) by (by intros []).
  rewrite <- (map_map snd Fin).
  destruct (max_f64_fin (map snd sls)) as (M & E & _); [by destruct sls|].
  exists M. cbv zeta. split; [done|]. set (sh := fun x => exp (x - M)). split.
  - rewrite map_map, (map_ext _ (fun p : list R * R => Fin (Rsum (map sh p.1)))).
    + rewrite <- (map_map (fun p : list R * R => Rsum (map sh p.1)) Fin), sum_f64_fin.
      unfold xs. by rewrite concat_map, Rsum_concat, !map_map.
    + intros [ys m]. simpl. f_equal. rewrite Rmult_comm, <- Rsum_scale, map_map. f_equal.
      apply map_ext. intros x. unfold sh. rewrite <- exp_plus. f_equal. lra.
  - assert (xs <> []) as Hxs.
    { unfold xs. destruct sls as [|[ys m] sls]; [done|]. apply Forall_cons in Hmax as [Hin _].
      simpl. by destruct ys. }
    apply Rsum_pos; [by destruct xs|]. apply Forall_forall.
    intros y (x & <- & _)%list_elem_of_In%in_map_iff. apply exp_pos.
Qed.

(** The elements of the answer, normalized by [nrm] after the adjustment. *)
Lemma real_stats_elements (nrm : xr -> xr) M (sls : list (list R * R)) :
  let xs := concat (map fst sls) in
  let T := Rsum (map (fun x => exp (x - M)) xs) in
  (forall r, nrm (Fin r) = Fin (r / T)) ->
  concat (map (fun s => map (fun ev => nrm (f64_mul ev (f64_exp (f64_sub (local_max s) (Fin M)))))
                (exp_values s)) (stats_of sls))
  = map Fin (softmax xs).
Proof.
  intros xs T Hn. rewrite <- (softmax_shift M). change (Rsum _) with T. clearbody T.
  unfold xs, stats_of. rewrite !map_map, concat_map, map_map. f_equal.
  apply map_ext. intros [ys m]. simpl. rewrite map_map. apply map_ext. intros x.
  simpl. rewrite Hn, <- exp_plus. do 3 f_equal. lra.
Qed.

(** Whatever shift [m] each slice was computed with, the aggregation gives the
    softmax of the whole vector. *)
Lemma aggregate_real_stats (sls : list (list R * R)) :
  sls <> [] -> Forall (fun '(xs, m) => xs <> []) sls ->
  aggregate_softmax_cpu (stats_of sls) = map Fin (softmax (concat (map fst sls))).
Proof.
  intros Hne Hf. rewrite aggregate_cpu_unzip. cbv zeta.
  destruct (real_stats_totals sls Hne Hf) as (M & -> & -> & HT).
  apply (real_stats_elements (fun v => xdiv v _)).
  intros r. simpl. destruct (Req_dec_T _ 0); [lra|done].
Qed.

(** The distributed computation is the softmax of the concatenated slices. *)
Lemma distributed_softmax_ideal (slices : list (list R)) :
  slices <> [] -> Forall nonempty slices ->
  distributed_softmax (map (map Fin) slices) = map Fin (softmax (concat slices)).
Proof.
  intros Hne Hs. unfold distributed_softmax. rewrite map_map.
  assert (exists sls, map fst sls = slices
    /\ Forall (fun '(xs, m) => xs <> []) sls
    /\ map (fun s => received (softmax_partial (map Fin s))) slices
       = stats_of sls) as (sls & <- & Hf & ->).
  { clear Hne. induction Hs as [|xs slices Hx Hs IH]; [by exists []|].
    destruct IH as (sls & <- & Hf & E). destruct (softmax_partial_ideal xs Hx) as (m & Hm & E').
    exists ((xs, m) :: sls). split; [done|]. split; [by constructor|].
    simpl. by rewrite E, E'. }
  apply aggregate_real_stats; [by destruct sls|done].
Qed.
End IdealSoftmax.

(** Slices of a vector of reals are vectors of reals. *)
Lemma concat_map_inv {A B} (f : A -> B) (cs : list (list B)) : forall v,
  concat cs = map f v -> exists ds, cs = map (map f) ds /\ concat ds = v.
Proof.
  induction cs as [|c cs IH]; intros v E; simpl in E.
  - exists []. split; [done|]. by destruct v.
  - symmetry in E. apply map_eq_app in E as (v1 & v2 & -> & <- & E2).
    destruct (IH v2 (eq_sym E2)) as (ds & -> & <-). by exists (v1 :: ds).
Qed.

(** ** Properties *)

Section Properties.
#[local] Existing Instance ideal.

(** C3: over the reals the two-pass computation is exact and does not depend on
    the slicing: whatever non-empty slices a vector is cut into, the workers'
    partial statistics and the gateway's aggregation give the softmax of the
    whole vector, a probability distribution. *)
Theorem distributed_softmax_correct (slices : list (list R)) :
  slices <> [] -> Forall nonempty slices ->
  distributed_softmax (map (map Fin) slices) = map Fin (softmax (concat slices))
  /\ Rsum (softmax (concat slices)) = 1%R
  /\ Forall (fun p => (0 < p <= 1)%R) (softmax (concat slices)).
Proof.
  intros Hne Hs. split_and!; [by apply distributed_softmax_ideal| |apply softmax_bounds].
  apply softmax_sum. inversion Hs as [|c cs Hc Hcs]; subst; [done|]. simpl.
  by destruct c.
Qed.

Lemma distributed_softmax_correct_witness :
  distributed_softmax (map (map Fin) [[0%R]; [1%R; 2%R]]) = map Fin (softmax [0%R; 1%R; 2%R])
  /\ Rsum (softmax [0%R; 1%R; 2%R]) = 1%R
  /\ Forall (fun p => (0 < p <= 1)%R) (softmax [0%R; 1%R; 2%R]).
Proof.
  apply (distributed_softmax_correct [[0%R]; [1%R; 2%R]]); [discriminate|].
  repeat constructor; discriminate.
Defined.

(** C4: the standard mode computes the softmax: for every non-empty vector and
    every NUM_SLICES the slices [submit_task] makes give the softmax of the
    vector. *)
Theorem standard_mode_softmax (v : list R) num_slices :
  v <> [] -> (0 < num_slices)%Z -> (Z.of_nat (length v) + num_slices < 2 ^ 64)%Z ->
  exists slices, standard_slices (map Fin v) num_slices = Some slices
    /\ distributed_softmax slices = map Fin (softmax v).
Proof.
  intros Hv Hn Hb. destruct (standard_slices_total (map Fin v) num_slices) as (cs & H1 & H2 & H3 & H4 & _);
    [by destruct v|done|by rewrite length_map|].
  exists cs. split; [done|]. destruct (concat_map_inv Fin cs v H2) as (ds & -> & <-).
  rewrite length_map in H4.
  apply distributed_softmax_ideal; [by intros ->; simpl in H4; lia|].
  apply List.Forall_forall. intros d Hd ->. 
  pose proof (proj1 (List.Forall_forall _ _) H3 [] (in_map (map Fin) ds [] Hd)) as K.
  simpl in K. lia.
Qed.

Lemma standard_mode_softmax_witness :
  exists slices, standard_slices (map Fin [1%R; 2%R; 3%R]) 2 = Some slices
    /\ distributed_softmax slices = map Fin (softmax [1%R; 2%R; 3%R]).
Proof. apply (standard_mode_softmax [1%R; 2%R; 3%R] 2); [discriminate|lia|simpl; lia]. Defined.

(** So does the even split of the NCCL mode, when the ranks fall back to
    the partial statistics of the CPU build. *)
Theorem even_mode_softmax (v : list R) world_size :
  0 < world_size <= length v ->
  exists slices, even_chunks (map Fin v) world_size = Some slices
    /\ length slices = world_size
    /\ distributed_softmax slices = map Fin (softmax v).
Proof.
  intros Hw. destruct (even_chunks_total (map Fin v) world_size) as (cs & H1 & H2 & H3); [lia|].
  rewrite length_map in H3.
  exists cs. assert (length cs = world_size) as Hl.
  { rewrite <- (length_map length cs), H3. by rewrite length_map, length_seq. }
  split_and!; [done..|]. destruct (concat_map_inv Fin cs v H2) as (ds & -> & <-).
  apply distributed_softmax_ideal; [by intros ->; simpl in Hl; lia|].
  apply List.Forall_forall. intros d Hd ->.
  assert (In 0 (map length (map (map Fin) ds))) as Hin.
  { apply in_map_iff. exists []. split; [done|]. by apply (in_map (map Fin) ds []). }
  rewrite H3 in Hin. apply in_map_iff in Hin as (i & Hi & _). unfold even_size in Hi.
  assert (1 <= length (concat ds) / world_size) by (apply Nat.div_le_lower_bound; lia). lia.
Qed.

Lemma even_mode_softmax_witness :
  exists slices, even_chunks (map Fin [1%R; 2%R; 3%R]) 2 = Some slices
    /\ length slices = 2
    /\ distributed_softmax slices = map Fin (softmax [1%R; 2%R; 3%R]).
Proof. apply (even_mode_softmax [1%R; 2%R; 3%R] 2). simpl. lia. Defined.
End Properties.
