(* ===== verification/Kernels.v ===== *)
(** The CUDA kernels, as the host code launches them:
    worker-rs/kernels/partial_softmax.cu and
    gateway-rs/kernels/aggregate_softmax.cu.  A thread block is run with its
    threads in lock step between barriers ([SimtRaces] shows that no schedule
    differs); an access outside an array is the error [OutOfBounds]. *)

From Stdlib Require Import ZArith Lia List.
From stdpp Require Import base tactics list strings.
From S2P Require Import Prelude Scalar.

(** ** Definitions *)

(** What can go wrong on the device: a driver call fails with a message, or a
    kernel touches memory outside its arrays. *)
Inductive gpu_error := CudaError (msg : string) | OutOfBounds.
Definition gpu (A : Type) : Type := result A gpu_error.

(** [BLOCK_SIZE] *)
Definition BLOCK_SIZE : nat := 256.

(** [a[i]] and [a[i] = v] on device memory. *)
Definition rd {A} (a : list A) (i : Z) : gpu A :=
  if (0 <=? i)%Z then ok_or OutOfBounds (a !! Z.to_nat i) else Err OutOfBounds.
Definition wr {A} (a : list A) (i : Z) (v : A) : gpu (list A) :=
  if ((0 <=? i) && (i <? Z.of_nat (length a)))%Z
  then Ok (<[Z.to_nat i := v]> a) else Err OutOfBounds.

(** A loop over threads or blocks that threads a memory through. *)
Fixpoint for_each {I St} (ixs : list I) (body : I -> St -> gpu St) (st : St) : gpu St :=
  match ixs with
  | [] => Ok st
  | i :: ixs' => let? st' := body i st in for_each ixs' body st'
  end.

(** [int i = blockIdx.x * BLOCK_SIZE + threadIdx.x] *)
Definition thread_index (bid tid : nat) : Z :=
  as_i32 (Z.of_nat bid * Z.of_nat BLOCK_SIZE + Z.of_nat tid).

Section Kernels.
Context `{SC : Scalar}.

(** One step of the tree reduction: threads [tid < s] combine [sdata[tid]] and
    [sdata[tid + s]]; all reads come before the barrier, and no written cell is
    read by another thread of the same step. *)
Definition reduce_step (op : f32 -> f32 -> f32) (s : nat) (sdata : list f32) : list f32 :=
  zip_with op (take s sdata) (take s (drop s sdata)) ++ drop s sdata.

(** [for (s = BLOCK_SIZE >> 1; s > 0; s >>= 1)] *)
Fixpoint reduce_loop (op : f32 -> f32 -> f32) (fuel s : nat) (sdata : list f32) : list f32 :=
  match fuel with
  | O => sdata
  | S fuel' =>
      if Nat.eqb s 0 then sdata
      else reduce_loop op fuel' (Nat.div2 s) (reduce_step op s sdata)
  end.

(** The reduction of a block's shared array, [sdata[0]] at the end. *)
Definition block_reduce (op : f32 -> f32 -> f32) (sdata : list f32) : gpu f32 :=
  rd (reduce_loop op BLOCK_SIZE (Nat.div2 BLOCK_SIZE) sdata) 0.

(** [block_max_f32], one block *)
Definition block_max_f32 (data : list f32) (n : Z) (bid : nat) (block_maxes : list f32)
  : gpu (list f32) :=
  let? sdata := for_each (seq 0 BLOCK_SIZE) (fun tid sdata =>
      let i := thread_index bid tid in
      let? v := (if (i <? n)%Z then rd data i else Ok f32_pad) in
      Ok (sdata ++ [v])) [] in
  let? m := block_reduce f32_max sdata in
  wr block_maxes (Z.of_nat bid) m.

(** The part of [exp_and_block_sum_f32] before the first barrier, one thread, on
    [exp_out] and the shared array. *)
Definition exp_thread (data : list f32) (global_max : f32) (n : Z) (bid tid : nat)
    (st : list f32 * list f32) : gpu (list f32 * list f32) :=
  let (exp_out, sdata) := st in
  let i := thread_index bid tid in
  if (i <? n)%Z then
    let? x := rd data i in
    let val := f32_exp (f32_sub x global_max) in
    let? exp_out' := wr exp_out i val in
    Ok (exp_out', sdata ++ [val])
  else Ok (exp_out, sdata ++ [f32_zero]).

(** [exp_and_block_sum_f32], one block, on [(exp_out, block_sums)] *)
Definition exp_and_block_sum_f32 (data : list f32) (global_max : f32) (n : Z) (bid : nat)
    (mem : list f32 * list f32) : gpu (list f32 * list f32) :=
  let? (exp_out, sdata) :=
    for_each (seq 0 BLOCK_SIZE) (exp_thread data global_max n bid) (mem.1, []) in
  let? s := block_reduce f32_add sdata in
  let? block_sums := wr mem.2 (Z.of_nat bid) s in
  Ok (exp_out, block_sums).

(** [normalize_f32], one thread and one block *)
Definition normalize_thread (exp_vals : list f32) (global_sum : f32) (n : Z) (bid tid : nat)
    (out : list f32) : gpu (list f32) :=
  let i := thread_index bid tid in
  if (i <? n)%Z then
    let? e := rd exp_vals i in wr out i (f32_div e global_sum)
  else Ok out.

Definition normalize_f32 (exp_vals : list f32) (global_sum : f32) (n : Z) (bid : nat)
    (out : list f32) : gpu (list f32) :=
  for_each (seq 0 BLOCK_SIZE) (normalize_thread exp_vals global_sum n bid) out.

(** [aggregate_normalize], one thread and one block of [block_dim] threads *)
Definition aggregate_thread (exp_vals adjusts : list f32) (slice_ids : list Z)
    (inv_global_sum : f32) (n : Z) (block_dim bid tid : nat) (out : list f32)
  : gpu (list f32) :=
  let k := as_i32 (Z.of_nat bid * Z.of_nat block_dim + Z.of_nat tid) in
  if (k <? n)%Z then
    let? e := rd exp_vals k in
    let? id := rd slice_ids k in
    let? a := rd adjusts id in
    wr out k (f32_mul (f32_mul e a) inv_global_sum)
  else Ok out.

Definition aggregate_normalize (exp_vals adjusts : list f32) (slice_ids : list Z)
    (inv_global_sum : f32) (n : Z) (block_dim bid : nat) (out : list f32)
  : gpu (list f32) :=
  for_each (seq 0 block_dim)
    (aggregate_thread exp_vals adjusts slice_ids inv_global_sum n block_dim bid) out.

(** Launching a kernel on [nb] blocks; the blocks write disjoint cells. *)
Definition launch {St} (nb : nat) (kernel : nat -> St -> gpu St) (mem : St) : gpu St :=
  for_each (seq 0 nb) kernel mem.
End Kernels.

(** ** Loops *)

Lemma for_each_seq {St} (P : nat -> St -> Prop) body k : forall a st,
  P a st ->
  (forall i st, a <= i < a + k -> P i st -> exists st', body i st = Ok st' /\ P (S i) st') ->
  exists st', for_each (seq a k) body st = Ok st' /\ P (a + k) st'.
Proof.
  induction k as [|k IH]; intros a st Ha Hstep; simpl.
  - exists st. by rewrite Nat.add_0_r.
  - destruct (Hstep a st) as (st1 & -> & H1); [lia|done|]. simpl.
    destruct (IH (S a) st1 H1) as (st' & E & H2).
    + intros i st2 Hi. apply Hstep. lia.
    + exists st'. split; [done|]. by replace (a + S k) with (S a + k) by lia.
Qed.

(** Collecting the values of a loop. *)
Lemma for_each_snoc {A} (f : nat -> gpu A) g k : forall a acc,
  (forall i, a <= i < a + k -> f i = Ok (g i)) ->
  for_each (seq a k) (fun i acc => let? v := f i in Ok (acc ++ [v])) acc
  = Ok (acc ++ map g (seq a k)).
Proof.
  induction k as [|k IH]; intros a acc H; simpl; [by rewrite app_nil_r|].
  rewrite H by lia. simpl. rewrite IH by (intros; apply H; lia).
  by rewrite <- app_assoc.
Qed.

Lemma rd_ok {A} (a : list A) i v : a !! i = Some v -> rd a (Z.of_nat i) = Ok v.
Proof.
  intros H. unfold rd. rewrite (proj2 (Z.leb_le _ _)) by lia.
  by rewrite Nat2Z.id, H.
Qed.

Lemma wr_ok {A} (a : list A) i v :
  i < length a -> wr a (Z.of_nat i) v = Ok (<[i := v]> a).
Proof.
  intros H. unfold wr. rewrite (proj2 (Z.leb_le _ _)), (proj2 (Z.ltb_lt _ _)) by lia.
  simpl. by rewrite Nat2Z.id.
Qed.

(** An array of [n] cells filled from [g] up to index [k]. *)
Definition filled {A} (g : nat -> A) (n k : nat) (out : list A) : Prop :=
  length out = n /\ forall i, i < k -> i < n -> out !! i = Some (g i).

Lemma filled_wr {A} (g : nat -> A) n k out :
  filled g n k out -> k < n ->
  wr out (Z.of_nat k) (g k) = Ok (<[k := g k]> out) /\ filled g n (S k) (<[k := g k]> out).
Proof.
  intros [L F] Hk. split; [apply wr_ok; lia|]. split; [by rewrite length_insert|].
  intros i Hi Hn. destruct (decide (i = k)) as [->|].
  - apply list_lookup_insert_eq. lia.
  - rewrite list_lookup_insert_ne by done. apply F; lia.
Qed.

Lemma filled_skip {A} (g : nat -> A) n k out :
  filled g n k out -> n <= k -> filled g n (S k) out.
Proof. intros [L F] Hk. split; [done|]. intros i Hi Hn. apply F; lia. Qed.

Lemma filled_all {A} (g : nat -> A) n k out :
  filled g n k out -> n <= k -> out = map g (seq 0 n).
Proof.
  intros [L F] Hk. apply list_eq. intros i. rewrite lookup_map.
  destruct (decide (i < n)).
  - rewrite F by lia. rewrite lookup_seq_lt by lia. done.
  - rewrite lookup_ge_None_2 by lia. rewrite lookup_seq_ge by lia. done.
Qed.

Lemma filled_0 {A} (g : nat -> A) n out : length out = n -> filled g n 0 out.
Proof. intros H. split; [done|]. lia. Qed.

Lemma index_small bid dim tid :
  bid * dim + tid < Z.to_nat (2 ^ 31) ->
  as_i32 (Z.of_nat bid * Z.of_nat dim + Z.of_nat tid) = Z.of_nat (bid * dim + tid).
Proof. intros H. rewrite as_i32_small by lia. lia. Qed.

(** ** The block reduction *)

Section Reduce.
Context {A : Type} (op : A -> A -> A) (e : A).
Context `{!Assoc (=) op} `{!Comm (=) op} `{!LeftId (=) e op}.

Lemma foldr_zip_with a b :
  length a = length b ->
  foldr op e (zip_with op a b) = op (foldr op e a) (foldr op e b).
Proof.
  revert b. induction a as [|x a IH]; intros [|y b] Hl; simpl in *; try done.
  rewrite IH by lia.
  rewrite <- !(assoc op). f_equal. rewrite !(assoc op). f_equal. apply (comm op).
Qed.

Lemma foldr_app_op a b : foldr op e (a ++ b) = op (foldr op e a) (foldr op e b).
Proof.
  induction a as [|x a IH]; simpl; [by rewrite (left_id e op)|].
  by rewrite IH, (assoc op).
Qed.

Lemma fold_left_foldr l : forall a, fold_left op l a = op a (foldr op e l).
Proof.
  induction l as [|x l IH]; intros a; simpl.
  - by rewrite (comm op), (left_id e op).
  - by rewrite IH, (assoc op).
Qed.

Lemma foldr_concat ls : foldr op e (concat ls) = foldr op e (map (foldr op e) ls).
Proof. induction ls as [|l ls IH]; simpl; [done|]. by rewrite foldr_app_op, IH. Qed.
End Reduce.

Section BlockReduce.
Context `{SC : Scalar} (op : f32 -> f32 -> f32) (e : f32).
Context `{!Assoc (=) op} `{!Comm (=) op} `{!LeftId (=) e op}.

Lemma reduce_step_length s sdata :
  2 * s <= length sdata -> length (reduce_step op s sdata) = length sdata.
Proof.
  intros H. unfold reduce_step.
  rewrite length_app, length_zip_with, !length_take, length_drop. lia.
Qed.

Lemma reduce_step_fold s sdata :
  2 * s <= length sdata ->
  foldr op e (take s (reduce_step op s sdata)) = foldr op e (take (2 * s) sdata).
Proof.
  intros H. unfold reduce_step.
  rewrite take_app_le, take_ge; rewrite ?length_zip_with, ?length_take, ?length_drop; try lia.
  rewrite foldr_zip_with; [|done..|rewrite !length_take, length_drop; lia].
  replace (2 * s) with (s + s) by lia. rewrite <- take_take_drop.
  by rewrite foldr_app_op.
Qed.

Lemma div2_pow j : Nat.div2 (2 ^ S j) = 2 ^ j.
Proof. rewrite Nat.pow_succ_r'. apply Nat.div2_double. Qed.

Lemma reduce_loop_fold j : forall fuel sdata,
  j < fuel -> 2 ^ S j <= length sdata ->
  rd (reduce_loop op fuel (2 ^ j) sdata) 0 = Ok (foldr op e (take (2 ^ S j) sdata)).
Proof.
  induction j as [|j IH]; intros [|fuel] sdata Hf Hl; try lia; cbn [reduce_loop].
  - rewrite Nat.pow_1_r in *.
    assert (Nat.div2 (2 ^ 0) = 0) as -> by done. change (2 ^ 0) with 1. simpl Nat.eqb. cbv iota.
    assert (forall l, reduce_loop op fuel 0 l = l) as -> by (intros; by destruct fuel).
    destruct sdata as [|x [|y sdata]]; simpl in Hl; try lia. simpl. f_equal.
    rewrite (comm op y e), (left_id e op). done.
  - assert (2 ^ S j <> 0) by (apply Nat.pow_nonzero; lia).
    rewrite (proj2 (Nat.eqb_neq _ 0)) by done. rewrite div2_pow.
    rewrite Nat.pow_succ_r' in Hl.
    rewrite IH; [|lia|rewrite reduce_step_length by lia; lia].
    by rewrite reduce_step_fold, <- Nat.pow_succ_r' by lia.
Qed.

(** The tree reduction of a full block is the fold of its shared array. *)
Lemma block_reduce_fold sdata :
  length sdata = BLOCK_SIZE -> block_reduce op sdata = Ok (foldr op e sdata).
Proof.
  intros Hl. unfold block_reduce. change (Nat.div2 BLOCK_SIZE) with (2 ^ 7).
  rewrite reduce_loop_fold; [|unfold BLOCK_SIZE; lia|rewrite Hl; done].
  rewrite take_ge; [done|]. rewrite Hl. done.
Qed.
End BlockReduce.
