(* ===== verification/Simt.v ===== *)
(** How a CUDA grid runs: the threads of all blocks take their steps in any
    order, one memory access at a time, and a barrier releases the threads of a
    block together.  A grid whose accesses are owned, phase by phase, has no
    data race and one result whatever the order: if some schedule completes,
    every schedule does, in as many steps, with the same memory. *)

From Stdlib Require Import ZArith Lia List.
From stdpp Require Import base tactics list gmap relations strings.
From S2P Require Import Prelude.

(** ** Memory and threads *)

(** Device arrays, and the shared array of a block. *)
Inductive space :=
| Global (name : string)
| Shared (block : nat).

#[export] Instance space_eq_dec : EqDecision space.
Proof. solve_decision. Defined.
#[export] Instance space_countable : Countable space.
Proof.
  refine (inj_countable'
    (fun s => match s with Global n => inl n | Shared b => inr b end)
    (fun s => match s with inl n => Global n | inr b => Shared b end) _).
  by intros [].
Defined.

Abbreviation addr := (space * Z)%type.

(** The allocated cells. *)
Abbreviation mem V := (gmap addr V).

Section Simt.
Context {V : Type}.
Abbreviation memory := (gmap addr V).

(** What is left of a thread: its accesses, and [__syncthreads()]. *)
Inductive thread : Type :=
| Halt
| Read (a : addr) (k : V -> thread)
| Write (a : addr) (v : V) (k : thread)
| Sync (k : thread)
| Fault.

Inductive label := LRead (a : addr) (v : V) | LWrite (a : addr) (v : V).

Inductive thread_step : thread -> label -> thread -> Prop :=
| thread_read a k v : thread_step (Read a k) (LRead a v) (k v)
| thread_write a v k : thread_step (Write a v k) (LWrite a v) k.

(** An access outside the allocated cells is not a step: the thread is stuck. *)
Definition memory_step (l : label) (m m' : memory) : Prop :=
  match l with
  | LRead a v => m !! a = Some v /\ m' = m
  | LWrite a v => is_Some (m !! a) /\ m' = <[a := v]> m
  end.

(** One step of a block: of one of its threads, or of its barrier. *)
Inductive block_step : list thread * memory -> list thread * memory -> Prop :=
| step_thread ts i t l t' m m' :
    ts !! i = Some t -> thread_step t l t' -> memory_step l m m' ->
    block_step (ts, m) (<[i := t']> ts, m')
| step_barrier k ks m :
    block_step (map Sync (k :: ks), m) (k :: ks, m).

Abbreviation grid := (list (list thread)).
Definition config : Type := grid * memory.

Inductive grid_step : config -> config -> Prop :=
| step_block (g : grid) b ts ts' m m' :
    g !! b = Some ts -> block_step (ts, m) (ts', m') ->
    grid_step (g, m) (<[b := ts']> g, m').

Definition halted (g : grid) : Prop :=
  forall b ts i t, g !! b = Some ts -> ts !! i = Some t -> t = Halt.

(** ** Ownership

    [gown] gives every cell to one block, or to all blocks for reading; a
    [phase] does the same for the threads of a block between two barriers. *)
Definition phase : Type := addr -> option nat.
Context (gown : addr -> option nat).

Definition may_read (b : nat) (ph : phase) (i : nat) (a : addr) : Prop :=
  gown a = None \/ (gown a = Some b /\ (ph a = None \/ ph a = Some i)).
Definition may_write (b : nat) (ph : phase) (i : nat) (a : addr) : Prop :=
  gown a = Some b /\ ph a = Some i.

(** Thread [i] of block [b] keeps to what it owns, whatever it reads. *)
Fixpoint follows (b : nat) (phs : list phase) (i : nat) (t : thread) : Prop :=
  match t with
  | Halt | Fault => True
  | Read a k => (exists ph phs', phs = ph :: phs' /\ may_read b ph i a)
      /\ forall v, follows b phs i (k v)
  | Write a v k => (exists ph phs', phs = ph :: phs' /\ may_write b ph i a)
      /\ follows b phs i k
  | Sync k => match phs with [] => False | _ :: phs' => follows b phs' i k end
  end.

Definition owned (g : grid) : Prop :=
  forall b ts, g !! b = Some ts ->
    exists phs, forall i t, ts !! i = Some t -> follows b phs i t.

Definition allowed (b : nat) (ph : phase) (i : nat) (l : label) : Prop :=
  match l with
  | LRead a _ => may_read b ph i a
  | LWrite a _ => may_write b ph i a
  end.

(** Two accesses that do not conflict. *)
Definition independent (l1 l2 : label) : Prop :=
  match l1, l2 with
  | LRead _ _, LRead _ _ => True
  | LRead a _, LWrite a' _ | LWrite a _, LRead a' _ | LWrite a _, LWrite a' _ => a <> a'
  end.

(** A data race: two threads whose next accesses conflict. *)
Definition racy (g : grid) : Prop :=
  exists b1 b2 ts1 ts2 i1 i2 t1 t2 l1 l2 t1' t2',
    g !! b1 = Some ts1 /\ g !! b2 = Some ts2 /\ ts1 !! i1 = Some t1 /\ ts2 !! i2 = Some t2
    /\ (b1, i1) <> (b2, i2) /\ thread_step t1 l1 t1' /\ thread_step t2 l2 t2' /\ ~ independent l1 l2.

(** No schedule reaches a data race. *)
Definition race_free (g : grid) (m : memory) : Prop :=
  forall c, rtc grid_step (g, m) c -> ~ racy c.1.

Lemma allowed_independent b1 b2 ph1 ph2 i1 i2 l1 l2 :
  allowed b1 ph1 i1 l1 -> allowed b2 ph2 i2 l2 ->
  b1 <> b2 \/ (b1 = b2 /\ ph1 = ph2 /\ i1 <> i2) -> independent l1 l2.
Proof.
  unfold allowed, may_read, may_write, independent.
  destruct l1, l2; try done; intros H1 H2 Hd ->; repeat (destruct_or! || destruct_and!); congruence.
Qed.

Lemma memory_commute l1 l2 m m1 m2 :
  independent l1 l2 -> memory_step l1 m m1 -> memory_step l2 m m2 ->
  exists m3, memory_step l2 m1 m3 /\ memory_step l1 m2 m3.
Proof.
  destruct l1 as [a1 v1|a1 v1], l2 as [a2 v2|a2 v2]; simpl; intros Hi [H1 ->] [H2 ->].
  - by exists m.
  - exists (<[a2 := v2]> m). by rewrite lookup_insert_ne by done.
  - exists (<[a1 := v1]> m). by rewrite lookup_insert_ne by done.
  - exists (<[a2 := v2]> (<[a1 := v1]> m)). rewrite !lookup_insert_ne by done.
    by rewrite (insert_insert_ne m) by done.
Qed.

Lemma memory_det l m m1 m2 : memory_step l m m1 -> memory_step l m m2 -> m1 = m2.
Proof. destruct l; simpl; intros [_ ->] [_ ->]; done. Qed.

Lemma thread_det t l1 l2 t1 t2 m m1 m2 :
  thread_step t l1 t1 -> thread_step t l2 t2 -> memory_step l1 m m1 -> memory_step l2 m m2 ->
  t1 = t2 /\ m1 = m2.
Proof. intros [] H; inversion H; subst; simpl; intros [H1 ->] [H2 ->]; split; congruence. Qed.

Lemma follows_step b phs i t l t' :
  follows b phs i t -> thread_step t l t' ->
  (exists ph phs', phs = ph :: phs' /\ allowed b ph i l) /\ follows b phs i t'.
Proof. intros Hf Hs. destruct Hs; destruct Hf as [Ha Hk]; by split. Qed.

(** A thread that can step is not waiting at the barrier. *)
Lemma barrier_excludes ks i t l t' : map Sync ks !! i = Some t -> thread_step t l t' -> False.
Proof. rewrite lookup_map. destruct (ks !! i); intros [=<-] Hs. inversion Hs. Qed.

Lemma map_Sync_inj ks ks' : map Sync ks = map Sync ks' -> ks = ks'.
Proof.
  revert ks'. induction ks as [|k ks IH]; intros [|k' ks'] E; simplify_eq/=; [done|].
  f_equal. by apply IH.
Qed.

(** ** Steps keep ownership, and commute *)

Definition block_owned (b : nat) (ts : list thread) : Prop :=
  exists phs, forall i t, ts !! i = Some t -> follows b phs i t.

Lemma block_owned_step b ts m ts' m' :
  block_owned b ts -> block_step (ts, m) (ts', m') -> block_owned b ts'.
Proof.
  intros [phs Hf] Hs. inversion Hs as [ts0 i t l t' m0 m0' Hi Ht Hm|k ks m0]; simplify_eq.
  - exists phs. intros j u [(<- & <- & _)|[_ Hj]]%list_lookup_insert_Some; [|by apply Hf].
    by eapply follows_step; [apply Hf|].
  - exists (tail phs). intros i t Hi. specialize (Hf i (Sync t)).
    change (Sync k :: map Sync ks) with (map Sync (k :: ks)) in Hf. rewrite lookup_map, Hi in Hf. specialize (Hf eq_refl). simpl in Hf. by destruct phs.
Qed.

Lemma owned_step c c' : owned c.1 -> grid_step c c' -> owned c'.1.
Proof.
  intros Ho Hs. destruct Hs as [g b ts ts' m m' Hb Hs]; simpl in *.
  intros b' ts1 [(<- & <- & _)|[_ Hb']]%list_lookup_insert_Some; [|by apply Ho].
  eapply block_owned_step; [by apply Ho|done].
Qed.

Lemma owned_not_racy g : owned g -> ~ racy g.
Proof.
  intros Ho (b1 & b2 & ts1 & ts2 & i1 & i2 & t1 & t2 & l1 & l2 & t1' & t2' &
    B1 & B2 & I1 & I2 & Hn & S1 & S2 & Hi).
  destruct (Ho _ _ B1) as [phs1 F1], (Ho _ _ B2) as [phs2 F2].
  destruct (follows_step _ _ _ _ _ _ (F1 _ _ I1) S1) as [(ph1 & r1 & E1 & A1) _].
  destruct (decide (b1 = b2)) as [->|Hb].
  - simplify_eq. destruct (follows_step _ _ _ _ _ _ (F1 _ _ I2) S2) as [(ph2 & r2 & E2 & A2) _].
    simplify_eq. apply Hi. eapply allowed_independent; [exact A1|exact A2|right]. naive_solver.
  - destruct (follows_step _ _ _ _ _ _ (F2 _ _ I2) S2) as [(ph2 & r2 & E2 & A2) _].
    apply Hi. eapply allowed_independent; [exact A1|exact A2|by left].
Qed.

Lemma owned_race_free g m : owned g -> race_free g m.
Proof.
  intros Ho c Hc. apply owned_not_racy. change g with ((g, m).1) in Ho.
  induction Hc as [c|c c1 c2 H1 _ IH]; [done|]. eapply IH, owned_step; done.
Qed.

(** Two steps of one block. *)
Lemma block_diamond b ts m c1 c2 :
  block_owned b ts -> block_step (ts, m) c1 -> block_step (ts, m) c2 ->
  c1 = c2 \/ exists c3, block_step c1 c3 /\ block_step c2 c3.
Proof.
  intros [phs Hf] H1 H2.
  inversion H1 as [ts0 i t l t1 m0 m1 Hi Ht Hm|k ks m0]; subst;
    inversion H2 as [ts0 j u l' u1 m0 m2 Hj Hu Hm'|k' ks' m0 E]; simplify_eq.
  - destruct (decide (i = j)) as [->|Hij].
    { left. simplify_eq. by destruct (thread_det t l l' t1 u1 m m1 m2) as [-> ->]. }
    right. destruct (follows_step _ _ _ _ _ _ (Hf _ _ Hi) Ht) as [(ph & phs1 & -> & A1) _].
    destruct (follows_step _ _ _ _ _ _ (Hf _ _ Hj) Hu) as [(ph' & phs2 & E & A2) _].
    simplify_eq. destruct (memory_commute l l' m m1 m2) as (m3 & M2 & M1); [|done..|].
    { eapply allowed_independent; [exact A1|exact A2|naive_solver]. }
    exists (<[j := u1]> (<[i := t1]> ts), m3). split.
    + eapply step_thread; [|done..]. by rewrite list_lookup_insert_ne.
    + rewrite list_insert_insert_ne by done.
      eapply step_thread; [|done..]. by rewrite list_lookup_insert_ne.
  - by destruct (barrier_excludes (k' :: ks') _ _ _ _ Hi Ht).
  - by destruct (barrier_excludes (k :: ks) _ _ _ _ Hj Hu).
  - left. by match goal with E : map Sync _ = map Sync _ |- _ => apply map_Sync_inj in E as -> end.
Qed.

(** Steps of two blocks. *)
Lemma block_commute b1 b2 ts1 ts2 ts1' ts2' m m1 m2 :
  b1 <> b2 -> block_owned b1 ts1 -> block_owned b2 ts2 ->
  block_step (ts1, m) (ts1', m1) -> block_step (ts2, m) (ts2', m2) ->
  exists m3, block_step (ts2, m1) (ts2', m3) /\ block_step (ts1, m2) (ts1', m3).
Proof.
  intros Hb [phs1 F1] [phs2 F2] H1 H2.
  inversion H1 as [ts0 i t l t1 m0 m0' Hi Ht Hm|k ks m0]; subst;
    inversion H2 as [ts0 j u l' u1 m0 m0' Hj Hu Hm'|k' ks' m0]; subst.
  - destruct (follows_step _ _ _ _ _ _ (F1 _ _ Hi) Ht) as [(ph & ? & _ & A1) _].
    destruct (follows_step _ _ _ _ _ _ (F2 _ _ Hj) Hu) as [(ph' & ? & _ & A2) _].
    destruct (memory_commute l l' m m1 m2) as (m3 & M2 & M1); [|done..|].
    { eapply allowed_independent; [exact A1|exact A2|by left]. }
    exists m3. split; by eapply step_thread.
  - exists m1. split; [apply step_barrier|by eapply step_thread].
  - exists m2. split; [by eapply step_thread|apply step_barrier].
  - exists m2. split; apply step_barrier.
Qed.

Lemma grid_diamond c c1 c2 :
  owned c.1 -> grid_step c c1 -> grid_step c c2 ->
  c1 = c2 \/ exists c3, grid_step c1 c3 /\ grid_step c2 c3.
Proof.
  intros Ho H1 H2. destruct H1 as [g b ts ts1 m m1 Hb H1].
  inversion H2 as [g0 b' ts' ts2 m0 m2 Hb' H2']; simplify_eq/=.
  destruct (decide (b = b')) as [<-|Hne].
  - simplify_eq. destruct (block_diamond b ts m (ts1, m1) (ts2, m2)) as [E|([ts3 m3] & S1 & S2)];
      [by apply Ho|done..|left; by simplify_eq|right].
    pose proof (lookup_lt_Some _ _ _ Hb). exists (<[b := ts3]> g, m3). split.
    + rewrite <- (list_insert_insert_eq g b ts3 ts1). eapply step_block; [|done].
      by apply list_lookup_insert_eq.
    + rewrite <- (list_insert_insert_eq g b ts3 ts2). eapply step_block; [|done].
      by apply list_lookup_insert_eq.
  - right. destruct (block_commute b b' ts ts' ts1 ts2 m m1 m2) as (m3 & S2 & S1); try done; [by apply Ho..|].
    exists (<[b' := ts2]> (<[b := ts1]> g), m3). split.
    + eapply step_block; [|done]. by rewrite list_lookup_insert_ne.
    + rewrite list_insert_insert_ne by done. eapply step_block; [|done].
      by rewrite list_lookup_insert_ne.
Qed.

(** ** One complete schedule decides all of them *)

Lemma halted_stuck g m c : halted g -> ~ grid_step (g, m) c.
Proof.
  intros Hh Hs. inversion Hs as [g0 b ts ts' m0 m' Hb Hs']; subst.
  inversion Hs' as [ts0 i t l t' m1 m2 Hi Ht|k ks m1]; subst.
  - apply (Hh b) in Hi; [|done]. subst. inversion Ht.
  - by specialize (Hh b _ 0 (Sync k) Hb eq_refl).
Qed.

Lemma uniform_length n : forall c c' d,
  owned c.1 -> nsteps grid_step n c c' -> halted c'.1 -> grid_step c d ->
  exists n', n = S n' /\ nsteps grid_step n' d c'.
Proof.
  induction n as [|n IH]; intros c c' d Ho Hn Hh Hd;
    inversion Hn as [|n0 c0 c1 c2 H1 H2]; subst.
  - destruct c' as [g m]. by destruct (halted_stuck g m d Hh).
  - exists n. split; [done|]. pose proof (owned_step _ _ Ho H1) as Ho1.
    destruct (grid_diamond c c1 d Ho H1 Hd) as [<-|(c3 & S1 & S2)]; [done|].
    destruct (IH c1 c' c3 Ho1 H2 Hh S1) as (n' & -> & H3). by eapply nsteps_l.
Qed.

(** Every schedule from an owned grid can be completed to [c'], and has at
    most the [n] steps of the given one. *)
Lemma all_schedules n k : forall c c' d,
  owned c.1 -> nsteps grid_step n c c' -> halted c'.1 -> nsteps grid_step k c d ->
  k <= n /\ nsteps grid_step (n - k) d c'.
Proof.
  revert n. induction k as [|k IH]; intros n c c' d Ho Hn Hh Hd;
    inversion Hd as [|n0 c0 c1 c2 H1 H2]; subst.
  - split; [lia|]. by rewrite Nat.sub_0_r.
  - destruct (uniform_length n c c' c1 Ho Hn Hh H1) as (n' & -> & Hn').
    destruct (IH n' c1 c' d (owned_step _ _ Ho H1) Hn' Hh H2) as [Hk Hr].
    split; [lia|]. by replace (S n' - S k) with (n' - k) by lia.
Qed.

(** ** The schedule that runs the threads one after the other *)

(** A thread until its next barrier. *)
Fixpoint run_thread (t : thread) (m : memory) : option (thread * memory) :=
  match t with
  | Halt | Sync _ => Some (t, m)
  | Read a k => match m !! a with Some v => run_thread (k v) m | None => None end
  | Write a v k => match m !! a with Some _ => run_thread k (<[a := v]> m) | None => None end
  | Fault => None
  end.

Lemma run_thread_steps i t : forall ts m t' m',
  ts !! i = Some t -> run_thread t m = Some (t', m') ->
  exists n, nsteps block_step n (ts, m) (<[i := t']> ts, m').
Proof.
  induction t as [|a k IH|a v k IH|k _|]; intros ts m t' m' Hi Hr; simpl in Hr; simplify_eq.
  - exists 0. rewrite list_insert_id by done. constructor.
  - destruct (m !! a) as [v|] eqn:E; [|done].
    destruct (IH v (<[i := k v]> ts) m t' m') as [n Hn]; [|done|].
    { apply list_lookup_insert_eq. by eapply lookup_lt_Some. }
    rewrite list_insert_insert_eq in Hn. exists (S n). eapply nsteps_l; [|exact Hn].
    eapply step_thread; [done|constructor|done].
  - destruct (m !! a) as [v0|] eqn:E; [|done].
    destruct (IH (<[i := k]> ts) (<[a := v]> m) t' m') as [n Hn]; [|done|].
    { apply list_lookup_insert_eq. by eapply lookup_lt_Some. }
    rewrite list_insert_insert_eq in Hn. exists (S n). eapply nsteps_l; [|exact Hn].
    eapply step_thread; [done|constructor|by split].
  - exists 0. rewrite list_insert_id by done. constructor.
Qed.

(** ** Composing schedules *)

Lemma block_grid_steps n b : forall ts m ts' m' g,
  g !! b = Some ts -> nsteps block_step n (ts, m) (ts', m') ->
  nsteps grid_step n (g, m) (<[b := ts']> g, m').
Proof.
  induction n as [|n IH]; intros ts m ts' m' g Hb Hn;
    inversion Hn as [|n0 c0 [ts1 m1] c1 H1 H2]; subst.
  - rewrite list_insert_id by done. constructor.
  - eapply nsteps_l; [by eapply step_block|].
    rewrite <- (list_insert_insert_eq g b ts' ts1). eapply IH; [|done].
    apply list_lookup_insert_eq. by eapply lookup_lt_Some.
Qed.

(** From [g] and [m] no schedule races, every schedule ends, within a bound, is
    never stuck on the way, and all end with one memory, which satisfies [P]. *)
Definition runs_to (g : grid) (m : memory) (P : memory -> Prop) : Prop :=
  race_free g m
  /\ exists n m', P m' /\ forall k c, nsteps grid_step k (g, m) c ->
    k <= n /\ exists g', halted g' /\ nsteps grid_step (n - k) c (g', m').

Lemma runs_to_intro (g : grid) (m : memory) (n : nat) (g' : grid) (m' : memory) (P : memory -> Prop) :
  owned g -> nsteps grid_step n (g, m) (g', m') -> halted g' -> P m' -> runs_to g m P.
Proof.
  intros Ho Hn Hh HP. split; [by apply owned_race_free|]. exists n, m'. split; [done|]. intros k c Hc.
  destruct (all_schedules n k (g, m) (g', m') c Ho Hn Hh Hc) as [Hk Hr]. split; [done|]. by exists g'.
Qed.

(** What [runs_to] says of a schedule that has come to its end. *)
Lemma runs_to_final (g : grid) (m : memory) (P : memory -> Prop) (g' : grid) (m' : memory) :
  runs_to g m P -> rtc grid_step (g, m) (g', m') -> halted g' -> P m'.
Proof.
  intros (_ & n & m1 & HP & Hall) [k Hk]%rtc_nsteps_1 Hh.
  destruct (Hall k _ Hk) as (_ & g1 & _ & Hr).
  inversion Hr as [|n0 c0 c1 c2 H1 _]; subst; [done|]. by destruct (halted_stuck _ _ _ Hh H1).
Qed.
End Simt.
Arguments thread V : clear implicits.
Arguments config V : clear implicits.
