(* ===== verification/SimtKernels.v ===== *)
(** The CUDA kernels thread by thread (worker-rs/kernels/partial_softmax.cu,
    gateway-rs/kernels/aggregate_softmax.cu), and the schedule that runs
    block after block and thread after thread: it computes what the functions of
    [Kernels] compute.  [SimtRaces] extends this to every schedule. *)

From Stdlib Require Import ZArith Lia List.
From stdpp Require Import base tactics list gmap relations strings.
From S2P Require Import Prelude Scalar Kernels Simt.
Local Open Scope string_scope.
Local Open Scope list_scope.

(** The side conditions of frames. *)
Ltac outside :=
  rewrite ?not_elem_of_cons in *; destruct_and?; split_and?;
  solve [done | congruence | apply not_elem_of_nil].

(** ** Definitions *)

Section Threads.
Context `{SC : Scalar}.

(** A cell holds a [float] or an [int]. *)
Inductive word := WFloat (x : f32) | WInt (n : Z).

Definition read_float (a : addr) (k : f32 -> thread word) : thread word :=
  Read a (fun w => match w with WFloat x => k x | WInt _ => Fault end).
Definition read_int (a : addr) (k : Z -> thread word) : thread word :=
  Read a (fun w => match w with WInt n => k n | WFloat _ => Fault end).
Definition write_float (a : addr) (x : f32) (k : thread word) : thread word :=
  Write a (WFloat x) k.

Definition sdata (bid tid : nat) : addr := (Shared bid, Z.of_nat tid).

(** The body of the loop: [if (tid < s) sdata[tid] = op(sdata[tid], sdata[tid + s])],
    up to the barrier. *)
Definition reduce_turn (op : f32 -> f32 -> f32) (s bid tid : nat) (barrier : thread word)
  : thread word :=
  if Nat.ltb tid s then
    read_float (sdata bid tid) (fun x =>
    read_float (sdata bid (tid + s)) (fun y =>
    write_float (sdata bid tid) (op x y) barrier))
  else barrier.

(** [for (s = BLOCK_SIZE >> 1; s > 0; s >>= 1)] of thread [tid]; then [rest]. *)
Fixpoint reduce_thread (op : f32 -> f32 -> f32) (fuel s bid tid : nat) (rest : thread word)
  : thread word :=
  match fuel with
  | O => rest
  | S fuel' =>
      if Nat.eqb s 0 then rest
      else
        reduce_turn op s bid tid (Sync (reduce_thread op fuel' (Nat.div2 s) bid tid rest))
  end.

(** [if (tid == 0) out[blockIdx.x] = sdata[0]] *)
Definition store_block (out : string) (bid tid : nat) : thread word :=
  if Nat.eqb tid 0
  then read_float (sdata bid 0) (fun x => write_float (Global out, Z.of_nat bid) x Halt)
  else Halt.

Definition reduce_and_store (op : f32 -> f32 -> f32) (out : string) (bid tid : nat) : thread word :=
  reduce_thread op BLOCK_SIZE (Nat.div2 BLOCK_SIZE) bid tid (store_block out bid tid).

Definition block_max_thread (n : Z) (bid tid : nat) : thread word :=
  let i := thread_index bid tid in
  let k v := write_float (sdata bid tid) v
               (Sync (reduce_and_store f32_max "block_maxes" bid tid)) in
  if (i <? n)%Z then read_float (Global "data", i) k else k f32_pad.

Definition exp_sum_thread (global_max : f32) (n : Z) (bid tid : nat) : thread word :=
  let i := thread_index bid tid in
  let k val := write_float (sdata bid tid) val
                 (Sync (reduce_and_store f32_add "block_sums" bid tid)) in
  if (i <? n)%Z then
    read_float (Global "data", i) (fun x =>
    let val := f32_exp (f32_sub x global_max) in
    write_float (Global "exp_out", i) val (k val))
  else k f32_zero.

Definition normalize_cuda (global_sum : f32) (n : Z) (bid tid : nat) : thread word :=
  let i := thread_index bid tid in
  if (i <? n)%Z then
    read_float (Global "exp_vals", i) (fun e =>
    write_float (Global "out", i) (f32_div e global_sum) Halt)
  else Halt.

Definition aggregate_cuda (inv_global_sum : f32) (n : Z) (block_dim bid tid : nat) : thread word :=
  let k := as_i32 (Z.of_nat bid * Z.of_nat block_dim + Z.of_nat tid) in
  if (k <? n)%Z then
    read_float (Global "exp_vals", k) (fun e =>
    read_int (Global "slice_ids", k) (fun id =>
    read_float (Global "adjusts", id) (fun a =>
    write_float (Global "out", k) (f32_mul (f32_mul e a) inv_global_sum) Halt)))
  else Halt.

(** A launch: [nb] blocks of [dim] threads. *)
Definition cuda_grid (nb dim : nat) (kernel : nat -> nat -> thread word)
  : list (list (thread word)) :=
  map (fun bid => map (kernel bid) (seq 0 dim)) (seq 0 nb).

(** The array [sp] is exactly [l]. *)
Definition array_at (m : mem word) (sp : space) (l : list word) : Prop :=
  forall z, m !! (sp, z) = if (0 <=? z)%Z then l !! Z.to_nat z else None.
Definition floats (m : mem word) (name : string) (l : list f32) : Prop :=
  array_at m (Global name) (map WFloat l).
Definition ints (m : mem word) (name : string) (l : list Z) : Prop :=
  array_at m (Global name) (map WInt l).

(** The shared array of a block, at the start with any contents. *)
Definition shared (m : mem word) (bid : nat) (l : list f32) : Prop :=
  length l = BLOCK_SIZE /\ array_at m (Shared bid) (map WFloat l).

(** ** Arrays in memory *)

Lemma array_rd m sp l z w : array_at m sp l -> rd l z = Ok w -> m !! (sp, z) = Some w.
Proof.
  intros Ha. rewrite Ha. unfold rd. destruct (0 <=? z)%Z; [|done].
  destruct (l !! Z.to_nat z); simpl; congruence.
Qed.

Lemma array_wr m sp l z w l' :
  array_at m sp l -> wr l z w = Ok l' ->
  is_Some (m !! (sp, z)) /\ array_at (<[(sp, z) := w]> m) sp l'.
Proof.
  intros Ha. unfold wr. destruct (Z.leb_spec 0 z); [|done].
  destruct (Z.ltb_spec z (Z.of_nat (length l))); [|done]. intros E. simplify_eq/=. split.
  - rewrite Ha. rewrite (proj2 (Z.leb_le 0 z)) by done. apply lookup_lt_is_Some. lia.
  - intros z'. destruct (decide (z' = z)) as [->|Hne].
    + rewrite lookup_insert_eq, (proj2 (Z.leb_le 0 z)) by done.
      rewrite list_lookup_insert_eq by lia. done.
    + rewrite lookup_insert_ne by congruence. rewrite Ha. destruct (Z.leb_spec 0 z'); [|done].
      rewrite list_lookup_insert_ne by lia. done.
Qed.

Lemma array_other m sp l sp' z w :
  sp <> sp' -> array_at m sp l -> array_at (<[(sp', z) := w]> m) sp l.
Proof. intros Hne Ha z'. rewrite lookup_insert_ne by congruence. apply Ha. Qed.

Lemma rd_map {A B} (f : A -> B) (l : list A) z x : rd l z = Ok x -> rd (map f l) z = Ok (f x).
Proof.
  unfold rd. destruct (0 <=? z)%Z; [|done]. rewrite lookup_map.
  destruct (l !! Z.to_nat z); simpl; congruence.
Qed.

Lemma wr_map {A B} (f : A -> B) (l : list A) z x l' :
  wr l z x = Ok l' -> wr (map f l) z (f x) = Ok (map f l').
Proof.
  unfold wr. rewrite length_map. case_match; [|done]. intros E. simplify_eq.
  f_equal. symmetry. apply (list_fmap_insert f).
Qed.

(** ** Sweeps: the threads of a phase, or the blocks of a grid, in order *)

Lemma map_seq_insert {A} (f g : nat -> A) K i :
  i < K ->
  <[i := g i]> (map g (seq 0 i) ++ map f (seq i (K - i)))
  = map g (seq 0 (S i)) ++ map f (seq (S i) (K - S i)).
Proof.
  intros Hi. rewrite seq_S, map_app, <- app_assoc.
  rewrite insert_app_r_alt by (rewrite length_map, length_seq; lia). f_equal.
  rewrite length_map, length_seq, Nat.sub_diag. by replace (K - i) with (S (K - S i)) by lia.
Qed.

Lemma map_seq_lookup {A} (f g : nat -> A) K i :
  i < K -> (map g (seq 0 i) ++ map f (seq i (K - i))) !! i = Some (f i).
Proof.
  intros Hi. rewrite lookup_app_r by (rewrite length_map, length_seq; lia).
  rewrite length_map, length_seq, Nat.sub_diag. by replace (K - i) with (S (K - S i)) by lia.
Qed.

(** A loop of [Kernels], and agents [f i] that reach [g i] one after the other
    by steps of [R], in lock step with its iterations. *)
Lemma sweep {A M St} (R : list A * M -> list A * M -> Prop) (f g : nat -> A)
    (Rel : nat -> St -> M -> Prop) (body : nat -> St -> gpu St) K :
  (forall i l st st' m, i < K -> l !! i = Some (f i) -> Rel i st m -> body i st = Ok st' ->
     exists n m', nsteps R n (l, m) (<[i := g i]> l, m') /\ Rel (S i) st' m') ->
  forall st st' m, for_each (seq 0 K) body st = Ok st' -> Rel 0 st m ->
  exists n m', nsteps R n (map f (seq 0 K), m) (map g (seq 0 K), m') /\ Rel K st' m'.
Proof.
  intros Hstep.
  assert (forall k i st st' m, i + k = K -> for_each (seq i k) body st = Ok st' -> Rel i st m ->
    exists n m', nsteps R n (map g (seq 0 i) ++ map f (seq i (K - i)), m)
      (map g (seq 0 K), m') /\ Rel K st' m') as H.
  { induction k as [|k IH]; intros i st st' m Hk Hl Hr.
    - simpl in Hl. simplify_eq. rewrite Nat.add_0_r in *. exists 0, m.
      rewrite Nat.sub_diag, app_nil_r. split; [constructor|done].
    - cbn [seq for_each] in Hl. destruct (body i st) as [st1|e] eqn:E; [|done].
      destruct (Hstep i (map g (seq 0 i) ++ map f (seq i (K - i))) st st1 m)
        as (n1 & m1 & S1 & R1); [lia|apply map_seq_lookup; lia|done..|].
      rewrite map_seq_insert in S1 by lia.
      destruct (IH (S i) st1 st' m1) as (n2 & m2 & S2 & R2); [lia|done..|].
      exists (n1 + n2), m2. split; [by eapply nsteps_trans|done]. }
  intros st st' m Hl Hr. destruct (H K 0 st st' m) as (n & m' & S & R'); [lia|done..|].
  rewrite Nat.sub_0_r in S. eauto.
Qed.

(** The threads of a block between two barriers. *)
Lemma phase_sweep {St} (f g : nat -> thread word) (Rel : nat -> St -> mem word -> Prop)
    (body : nat -> St -> gpu St) K :
  (forall i st st' m, i < K -> Rel i st m -> body i st = Ok st' ->
     exists m', run_thread (f i) m = Some (g i, m') /\ Rel (S i) st' m') ->
  forall st st' m, for_each (seq 0 K) body st = Ok st' -> Rel 0 st m ->
  exists n m', nsteps block_step n (map f (seq 0 K), m) (map g (seq 0 K), m') /\ Rel K st' m'.
Proof.
  intros Hstep. apply sweep. intros i l st st' m Hi Hl Hr Hb.
  destruct (Hstep i st st' m Hi Hr Hb) as (m' & E & Hr').
  destruct (run_thread_steps i (f i) l m (g i) m' Hl E) as [n Hn]. eauto.
Qed.

(** ** The reduction *)

(** Outside the spaces [sps] memory is as in [m0]. *)
Definition frame (sps : list space) (m0 m : mem word) : Prop :=
  forall a, a.1 ∉ sps -> m !! a = m0 !! a.

#[export] Instance frame_preorder sps : PreOrder (frame sps).
Proof. split; [by intros m a|]. intros m1 m2 m3 H1 H2 a Ha. by rewrite H2, H1. Qed.

Lemma frame_insert sps m0 m sp z w : sp ∈ sps -> frame sps m0 m -> frame sps m0 (<[(sp, z) := w]> m).
Proof. intros Hsp Hf a Ha. rewrite lookup_insert_ne by (by intros <-). by apply Hf. Qed.

Lemma frame_array sps m0 m sp l : sp ∉ sps -> frame sps m0 m -> array_at m0 sp l -> array_at m sp l.
Proof. intros Hne Hf Ha z. by rewrite Hf. Qed.

Section Reduction.
Context (op : f32 -> f32 -> f32) (bid : nat).

Lemma shared_rd m l j x :
  shared m bid l -> l !! j = Some x -> m !! sdata bid j = Some (WFloat x).
Proof.
  intros [_ Ha] E. unfold sdata. rewrite Ha, (proj2 (Z.leb_le _ _)) by lia.
  by rewrite Nat2Z.id, lookup_map, E.
Qed.

Lemma shared_wr m l j x :
  shared m bid l -> j < BLOCK_SIZE ->
  is_Some (m !! sdata bid j) /\ shared (<[sdata bid j := WFloat x]> m) bid (<[j := x]> l).
Proof.
  intros [Hl Ha] Hj. destruct (array_wr m (Shared bid) _ (Z.of_nat j) (WFloat x)
    (<[j := WFloat x]> (map WFloat l)) Ha) as [Hs Ha'].
  - apply wr_ok. rewrite length_map. lia.
  - split; [done|]. split; [by rewrite length_insert|].
    unfold sdata. change (map WFloat l) with (WFloat <$> l) in Ha'.
    by rewrite <- list_fmap_insert in Ha'.
Qed.

(** The shared array after the first [i] threads of one step of the loop. *)
Definition reduced (s : nat) (l : list f32) (i : nat) : list f32 :=
  let j := Nat.min i s in zip_with op (take j l) (take j (drop s l)) ++ drop j l.

Lemma reduced_0 s l : reduced s l 0 = l.
Proof. done. Qed.

Lemma reduced_all s l i : s <= i -> reduced s l i = reduce_step op s l.
Proof. intros H. unfold reduced. by rewrite Nat.min_r by done. Qed.

Lemma reduced_lookup s l i j : 2 * s <= length l -> i <= s -> i <= j -> reduced s l i !! j = l !! j.
Proof.
  intros Hl H1 H2. unfold reduced. rewrite Nat.min_l by done.
  assert (length (zip_with op (take i l) (take i (drop s l))) = i) as E
    by (rewrite length_zip_with, !length_take, length_drop; lia).
  rewrite lookup_app_r by lia. rewrite E, lookup_drop. f_equal. lia.
Qed.

Lemma reduced_S s l i x y :
  2 * s <= length l -> i < s -> l !! i = Some x -> l !! (i + s) = Some y ->
  <[i := op x y]> (reduced s l i) = reduced s l (S i).
Proof.
  intros Hl Hi Hx Hy. unfold reduced. rewrite !Nat.min_l by lia.
  assert (length (zip_with op (take i l) (take i (drop s l))) = i) as E
    by (rewrite length_zip_with, !length_take, length_drop; lia).
  rewrite insert_app_r_alt by lia. rewrite E, Nat.sub_diag.
  rewrite (drop_S l x i Hx). cbn [list_insert].
  rewrite (take_S_r l i x Hx), (take_S_r (drop s l) i y) by (rewrite lookup_drop, Nat.add_comm; done).
  rewrite zip_with_app by (rewrite !length_take, length_drop; lia).
  by rewrite <- app_assoc.
Qed.

(** One step of the loop: the threads of the block between two barriers. *)
Lemma reduce_phase s l m (next : nat -> thread word) :
  2 * s <= BLOCK_SIZE -> shared m bid l ->
  exists n m', nsteps block_step n
      (map (fun tid => reduce_turn op s bid tid (Sync (next tid))) (seq 0 BLOCK_SIZE), m)
      (map (fun tid => Sync (next tid)) (seq 0 BLOCK_SIZE), m')
    /\ shared m' bid (reduce_step op s l) /\ frame [Shared bid] m m'.
Proof.
  intros Hs Hm. pose proof Hm as [Hl _].
  edestruct (phase_sweep (fun tid => reduce_turn op s bid tid (Sync (next tid)))
    (fun tid => Sync (next tid))
    (fun i (_ : ()) m' => shared m' bid (reduced s l i) /\ frame [Shared bid] m m')
    (fun _ _ => Ok tt) BLOCK_SIZE) as (n & m' & Hn & Hm' & Hf'); cycle 3.
  - exists n, m'. split; [exact Hn|]. rewrite reduced_all in Hm' by lia. by split.
  - intros i _ _ m1 Hi [H1 F1] _. unfold reduce_turn. destruct (Nat.ltb_spec i s) as [His|His].
    + destruct (lookup_lt_is_Some_2 l i) as [x Hx]; [lia|].
      destruct (lookup_lt_is_Some_2 l (i + s)) as [y Hy]; [lia|].
      destruct (shared_wr m1 _ i (op x y) H1 Hi) as [[w Hw] H2].
      rewrite (reduced_S s l i x y) in H2 by (done || lia).
      eexists. split; [|split; [exact H2|by apply frame_insert; [left|]]].
      unfold read_float, write_float. cbn [run_thread].
      rewrite (shared_rd m1 _ i x H1) by (by rewrite reduced_lookup by lia). cbn [run_thread].
      rewrite (shared_rd m1 _ (i + s) y H1) by (by rewrite reduced_lookup by lia).
      cbn [run_thread]. by rewrite Hw.
    + exists m1. split; [done|]. split; [|done].
      by rewrite reduced_all in * by lia.
  - induction (seq 0 BLOCK_SIZE); done.
  - by rewrite reduced_0.
Qed.

Lemma barrier_release (ks : list (thread word)) m :
  ks <> [] -> nsteps block_step 1 (map Sync ks, m) (ks, m).
Proof. destruct ks as [|k ks]; [done|]. intros _. apply nsteps_once. apply step_barrier. Qed.

Lemma reduce_threads_steps fuel (rest : nat -> thread word) : forall s l m,
  2 * s <= BLOCK_SIZE -> shared m bid l ->
  exists n m', nsteps block_step n
      (map (fun tid => reduce_thread op fuel s bid tid (rest tid)) (seq 0 BLOCK_SIZE), m)
      (map rest (seq 0 BLOCK_SIZE), m')
    /\ shared m' bid (reduce_loop op fuel s l) /\ frame [Shared bid] m m'.
Proof.
  induction fuel as [|fuel IH]; intros s l m Hs Hm; cbn [reduce_thread reduce_loop].
  { exists 0, m. split; [constructor|done]. }
  destruct (Nat.eqb_spec s 0) as [->|Hs0]; [exists 0, m; split; [constructor|done]|].
  destruct (reduce_phase s l m
    (fun tid => reduce_thread op fuel (Nat.div2 s) bid tid (rest tid)) Hs Hm)
    as (n1 & m1 & S1 & H1 & F1).
  assert (2 * Nat.div2 s <= BLOCK_SIZE) as Hs'
    by (pose proof (Nat.div2_odd s); destruct (Nat.odd s); simpl in *; lia).
  destruct (IH (Nat.div2 s) (reduce_step op s l) m1 Hs' H1) as (n2 & m2 & S2 & H2 & F2).
  exists (n1 + (1 + n2)), m2. split; [|split; [done|by etransitivity]].
  eapply nsteps_trans; [exact S1|]. eapply nsteps_trans; [|exact S2].
  rewrite <- (map_map (fun tid => reduce_thread op fuel (Nat.div2 s) bid tid (rest tid)) Sync).
  by apply barrier_release.
Qed.

(** [block_reduce], then thread 0 writes the block's cell of [out]. *)
Lemma store_block_steps out outs outs' l v m :
  shared m bid l -> l !! 0 = Some v -> wr outs (Z.of_nat bid) v = Ok outs' ->
  floats m out outs ->
  exists n m', nsteps block_step n
      (map (store_block out bid) (seq 0 BLOCK_SIZE), m)
      (map (fun _ => Halt) (seq 0 BLOCK_SIZE), m')
    /\ floats m' out outs' /\ frame [Global out] m m'.
Proof.
  intros Hm Hv Hw Hf. apply (wr_map WFloat) in Hw.
  destruct (array_wr m (Global out) _ _ _ _ Hf Hw) as [[w Hs] Hf'].
  edestruct (phase_sweep (store_block out bid) (fun _ => Halt)
    (fun i (_ : ()) m' => m' = if Nat.eqb i 0 then m else <[(Global out, Z.of_nat bid) := WFloat v]> m)
    (fun _ _ => Ok tt) BLOCK_SIZE) as (n & m' & Hn & ->); cycle 3.
  - eexists n, _. split; [exact Hn|]. split; [exact Hf'|].
    apply frame_insert; [by left|reflexivity].
  - intros i _ _ m1 Hi -> _. destruct i as [|i]; [|by eexists].
    eexists. split; [|reflexivity]. unfold store_block, read_float, write_float. cbn [Nat.eqb run_thread].
    rewrite (shared_rd m l 0 v Hm Hv). cbn [run_thread]. by rewrite Hs.
  - induction (seq 0 BLOCK_SIZE); done.
  - done.
Qed.

#[local] Opaque reduce_loop reduce_thread.

Lemma reduce_and_store_steps out outs outs' l v m :
  shared m bid l -> block_reduce op l = Ok v -> wr outs (Z.of_nat bid) v = Ok outs' ->
  floats m out outs ->
  exists n m', nsteps block_step n
      (map (reduce_and_store op out bid) (seq 0 BLOCK_SIZE), m)
      (map (fun _ => Halt) (seq 0 BLOCK_SIZE), m')
    /\ floats m' out outs' /\ (exists l', shared m' bid l')
    /\ frame [Shared bid; Global out] m m'.
Proof.
  intros Hm Hr Hw Ha.
  destruct (reduce_threads_steps BLOCK_SIZE (store_block out bid) (Nat.div2 BLOCK_SIZE) l m)
    as (n1 & m1 & S1 & H1 & F1); [vm_compute; lia|done|].
  assert (reduce_loop op BLOCK_SIZE (Nat.div2 BLOCK_SIZE) l !! 0 = Some v) as H0.
  { revert Hr. unfold block_reduce, rd. generalize (reduce_loop op BLOCK_SIZE (Nat.div2 BLOCK_SIZE) l).
    intros [|x r]; simpl; congruence. }
  assert (floats m1 out outs) as Ha1 by (apply (frame_array [Shared bid] m); [outside|exact F1|exact Ha]).
  destruct (store_block_steps out outs outs' _ v m1 H1 H0 Hw Ha1) as (n2 & m2 & S2 & H2 & F2).
  exists (n1 + n2), m2. split_and!.
  - by eapply nsteps_trans.
  - done.
  - eexists. split; [exact (proj1 H1)|]. apply (frame_array [Global out] m1); [outside|done|].
    apply (proj2 H1).
  - intros a Hn. rewrite F2 by outside. apply F1. outside.
Qed.

(** *** Loading the shared array *)

(** The first [i] threads have written [sd]. *)
Definition loading (m : mem word) (i : nat) (sd : list f32) : Prop :=
  length sd = i /\ exists l, shared m bid l /\ take i l = sd.

Lemma loading_0 m l : shared m bid l -> loading m 0 [].
Proof. split; [done|]. by exists l. Qed.

Lemma loading_wr m i sd x :
  loading m i sd -> i < BLOCK_SIZE ->
  is_Some (m !! sdata bid i) /\ loading (<[sdata bid i := WFloat x]> m) (S i) (sd ++ [x]).
Proof.
  intros (Hl & l & Hs & <-) Hi. destruct (shared_wr m l i x Hs Hi) as [H1 H2]. split; [done|].
  split; [rewrite length_app, length_take; destruct Hs; simpl; lia|].
  eexists. split; [exact H2|]. destruct Hs as [Hl' _].
  rewrite (take_S_r _ i x) by (apply list_lookup_insert_eq; lia).
  by rewrite take_insert_ge by lia.
Qed.

Lemma loading_full m sd : loading m BLOCK_SIZE sd -> shared m bid sd.
Proof. intros (Hl & l & Hs & <-). destruct Hs as [Hl' Ha]. rewrite take_ge in * by lia. by split. Qed.

Lemma loading_frame m m' i sd sps :
  Shared bid ∉ sps -> frame sps m m' -> loading m i sd -> loading m' i sd.
Proof.
  intros Hn Hf (Hl & l & [Hs Ha] & E). split; [done|]. exists l. split; [|done].
  split; [done|]. by eapply frame_array.
Qed.
End Reduction.

(** ** One block of each kernel *)

(** A phase, the barrier, and the rest. *)
Lemma block_sweep_intro (k : nat -> thread word) n m ts m' n' m'' :
  nsteps block_step n (map k (seq 0 BLOCK_SIZE), m) (map Sync ts, m') -> ts <> [] ->
  nsteps block_step n' (ts, m') (map (fun _ => Halt) (seq 0 BLOCK_SIZE), m'') ->
  nsteps block_step (n + (1 + n')) (map k (seq 0 BLOCK_SIZE), m)
    (map (fun _ => Halt) (seq 0 BLOCK_SIZE), m'').
Proof.
  intros H1 Hts H2. eapply nsteps_trans; [done|]. eapply nsteps_trans; [|done].
  by apply barrier_release.
Qed.

Lemma block_max_steps data n bid bm bm' l m :
  shared m bid l -> floats m "data" data -> floats m "block_maxes" bm ->
  block_max_f32 data n bid bm = Ok bm' ->
  exists k m', nsteps block_step k
      (map (block_max_thread n bid) (seq 0 BLOCK_SIZE), m)
      (map (fun _ => Halt) (seq 0 BLOCK_SIZE), m')
    /\ floats m' "block_maxes" bm' /\ (exists l', shared m' bid l')
    /\ frame [Shared bid; Global "block_maxes"] m m'.
Proof.
  intros Hs Hd Hb. unfold block_max_f32.
  destruct (for_each _ _ _) as [sd|e] eqn:El; [|done]. cbn [result_bind].
  destruct (block_reduce f32_max sd) as [v|e] eqn:Er; [|done]. cbn [result_bind]. intros Hw.
  edestruct (phase_sweep (block_max_thread n bid)
    (fun tid => Sync (reduce_and_store f32_max "block_maxes" bid tid))
    (fun i sd m' => loading bid m' i sd /\ frame [Shared bid] m m'))
    as (n1 & m1 & S1 & L1 & F1); [|exact El|split; [by eapply loading_0|reflexivity]|].
  - intros tid st st' m1 Ht [L1 F1] Hbody. cbn beta in Hbody.
    destruct (if (_ <? n)%Z then _ else _) as [x|e] eqn:Ex in Hbody; [|done]. cbn [result_bind] in Hbody. injection Hbody as <-.
    destruct (loading_wr bid m1 tid st x L1 Ht) as [[w Hw1] L2].
    eexists. split; [|split; [exact L2|apply frame_insert; [by left|done]]].
    unfold block_max_thread. destruct (thread_index bid tid <? n)%Z.
    + unfold read_float, write_float. cbn [run_thread].
      rewrite (array_rd m1 (Global "data") (map WFloat data) _ (WFloat x));
        [|by apply (frame_array [Shared bid] m); [outside|..]|by apply rd_map].
      cbn [run_thread]. by rewrite Hw1.
    + simplify_eq. unfold write_float. cbn [run_thread]. by rewrite Hw1.
  - assert (floats m1 "block_maxes" bm) as Hb1 by (by apply (frame_array [Shared bid] m); [outside|..]).
    destruct (reduce_and_store_steps f32_max bid "block_maxes" bm bm' sd v m1
      (loading_full bid m1 sd L1) Er Hw Hb1) as (n2 & m2 & S2 & H2 & H2' & F2).
    eexists _, m2. split; [|split; [done|split; [done|]]].
    + eapply block_sweep_intro; [rewrite map_map; exact S1| |exact S2]. done.
    + intros a Ha. rewrite F2 by done. apply F1. outside.
Qed.

(** One thread of the second kernel up to its first barrier. *)
Lemma exp_thread_load data gm n bid m tid st st1 m1 :
  tid < BLOCK_SIZE -> floats m "data" data ->
  loading bid m1 tid st.2 /\ floats m1 "exp_out" st.1 /\ frame [Shared bid; Global "exp_out"] m m1 ->
  exp_thread data gm n bid tid st = Ok st1 ->
  exists m', run_thread (exp_sum_thread gm n bid tid) m1
      = Some (Sync (reduce_and_store f32_add "block_sums" bid tid), m')
    /\ loading bid m' (S tid) st1.2 /\ floats m' "exp_out" st1.1
    /\ frame [Shared bid; Global "exp_out"] m m'.
Proof.
  intros Ht Hd (L1 & X1 & F1). destruct st as [o sd1]. cbn [fst snd] in *.
  unfold exp_thread, exp_sum_thread, read_float, write_float.
  destruct (thread_index bid tid <? n)%Z.
  + destruct (rd data _) as [x|e] eqn:Ex; [|done]. cbn [result_bind].
    set (val := f32_exp (f32_sub x gm)).
    destruct (wr o _ val) as [o'|e] eqn:Ew; [|done]. cbn [result_bind]. intros E. simplify_eq.
    destruct (array_wr m1 (Global "exp_out") _ _ _ _ X1 (wr_map WFloat _ _ _ _ Ew)) as [[w1 Hw1] X2].
    set (m2 := <[_ := _]> m1) in X2.
    assert (loading bid m2 tid sd1) as L2.
    { apply (loading_frame bid m1 m2 tid sd1 [Global "exp_out"]); [outside| |done].
      apply frame_insert; [by left|reflexivity]. }
    destruct (loading_wr bid m2 tid sd1 val L2 Ht) as [[w2 Hw2] L3].
    eexists. cbn [run_thread]. split; [|split_and!; [exact L3| |]].
    * rewrite (array_rd m1 (Global "data") (map WFloat data) _ (WFloat x));
        [|by apply (frame_array [Shared bid; Global "exp_out"] m); [outside|..]|by apply rd_map].
      cbn [run_thread]. rewrite Hw1. cbn [run_thread]. fold val m2. by rewrite Hw2.
    * by apply array_other.
    * apply frame_insert; [by left|]. apply frame_insert; [by right; left|done].
  + intros E. simplify_eq. destruct (loading_wr bid m1 tid sd1 f32_zero L1 Ht) as [[w Hw1] L2].
    eexists. cbn [run_thread]. rewrite Hw1. split; [done|]. split_and!; [done| |].
    * by apply array_other.
    * apply frame_insert; [by left|done].
Qed.

Lemma exp_sum_steps data gm n bid st st' l m :
  shared m bid l -> floats m "data" data ->
  floats m "exp_out" st.1 -> floats m "block_sums" st.2 ->
  exp_and_block_sum_f32 data gm n bid st = Ok st' ->
  exists k m', nsteps block_step k
      (map (exp_sum_thread gm n bid) (seq 0 BLOCK_SIZE), m)
      (map (fun _ => Halt) (seq 0 BLOCK_SIZE), m')
    /\ floats m' "exp_out" st'.1 /\ floats m' "block_sums" st'.2 /\ (exists l', shared m' bid l')
    /\ frame [Shared bid; Global "exp_out"; Global "block_sums"] m m'.
Proof.
  intros Hs Hd He Hb. unfold exp_and_block_sum_f32.
  destruct (for_each _ _ _) as [[eo sd]|e] eqn:El; [|done]. cbn [result_bind].
  destruct (block_reduce f32_add sd) as [v|e] eqn:Er; [|done]. cbn [result_bind].
  destruct (wr st.2 (Z.of_nat bid) v) as [bs|e] eqn:Hw; [|done]. cbn [result_bind]. intros E. simplify_eq.
  edestruct (phase_sweep (exp_sum_thread gm n bid)
    (fun tid => Sync (reduce_and_store f32_add "block_sums" bid tid))
    (fun i st m' => loading bid m' i st.2 /\ floats m' "exp_out" st.1
       /\ frame [Shared bid; Global "exp_out"] m m'))
    as (n1 & m1 & S1 & L1 & X1 & F1);
    [|exact El|split_and!; [by eapply loading_0|done|reflexivity]|].
  - intros tid st1 st2 m2 Ht (L2 & X2 & F2). by apply (exp_thread_load data gm n bid m).
  - assert (floats m1 "block_sums" st.2) as Hb1
      by (by apply (frame_array [Shared bid; Global "exp_out"] m); [outside|..]).
    destruct (reduce_and_store_steps f32_add bid "block_sums" st.2 bs sd v m1
      (loading_full bid m1 sd L1) Er Hw Hb1) as (n2 & m2 & S2 & H2 & H2' & F2).
    eexists _, m2. split; [|split_and!; [|done|done|]].
    + eapply block_sweep_intro; [rewrite map_map; exact S1| |exact S2]. done.
    + by apply (frame_array [Shared bid; Global "block_sums"] m1); [outside|..].
    + intros a Ha. rewrite F2 by outside. apply F1. outside.
Qed.

Lemma normalize_steps es gs n bid out out' m :
  floats m "exp_vals" es -> floats m "out" out ->
  normalize_f32 es gs n bid out = Ok out' ->
  exists k m', nsteps block_step k
      (map (normalize_cuda gs n bid) (seq 0 BLOCK_SIZE), m)
      (map (fun _ => Halt) (seq 0 BLOCK_SIZE), m')
    /\ floats m' "out" out' /\ frame [Global "out"] m m'.
Proof.
  intros He Ho El.
  eapply (phase_sweep (normalize_cuda gs n bid) (fun _ => Halt)
    (fun _ o m' => floats m' "out" o /\ frame [Global "out"] m m')); [|exact El|by split].
  intros tid o o' m1 Ht [X1 F1]. unfold normalize_thread, normalize_cuda, read_float, write_float.
  destruct (thread_index bid tid <? n)%Z; [|intros E; simplify_eq; by exists m1].
  destruct (rd es _) as [e|] eqn:Ex; [|done]. cbn [result_bind]. intros Ew.
  destruct (array_wr m1 (Global "out") _ _ _ _ X1 (wr_map WFloat _ _ _ _ Ew)) as [[w1 Hw1] X2].
  eexists. cbn [run_thread]. split; [|split; [exact X2|apply frame_insert; [by left|done]]].
  rewrite (array_rd m1 (Global "exp_vals") (map WFloat es) _ (WFloat e));
    [|by apply (frame_array [Global "out"] m); [outside|..]|by apply rd_map].
  cbn [run_thread]. by rewrite Hw1.
Qed.

Lemma aggregate_steps es adj ids inv n dim bid out out' m :
  floats m "exp_vals" es -> floats m "adjusts" adj -> ints m "slice_ids" ids ->
  floats m "out" out ->
  aggregate_normalize es adj ids inv n dim bid out = Ok out' ->
  exists k m', nsteps block_step k
      (map (aggregate_cuda inv n dim bid) (seq 0 dim), m)
      (map (fun _ => Halt) (seq 0 dim), m')
    /\ floats m' "out" out' /\ frame [Global "out"] m m'.
Proof.
  intros He Ha Hi Ho El.
  eapply (phase_sweep (aggregate_cuda inv n dim bid) (fun _ => Halt)
    (fun _ o m' => floats m' "out" o /\ frame [Global "out"] m m')); [|exact El|by split].
  intros tid o o' m1 Ht [X1 F1].
  unfold aggregate_thread, aggregate_cuda, read_float, read_int, write_float.
  destruct (_ <? n)%Z; [|intros E; simplify_eq; by exists m1].
  destruct (rd es _) as [e|] eqn:Ex; [|done]. cbn [result_bind].
  destruct (rd ids _) as [id|] eqn:Ei; [|done]. cbn [result_bind].
  destruct (rd adj _) as [a|] eqn:Ea; [|done]. cbn [result_bind]. intros Ew.
  destruct (array_wr m1 (Global "out") _ _ _ _ X1 (wr_map WFloat _ _ _ _ Ew)) as [[w1 Hw1] X2].
  eexists. cbn [run_thread]. split; [|split; [exact X2|apply frame_insert; [by left|done]]].
  rewrite (array_rd m1 (Global "exp_vals") (map WFloat es) _ (WFloat e));
    [|by apply (frame_array [Global "out"] m); [outside|..]|by apply rd_map]. cbn [run_thread].
  rewrite (array_rd m1 (Global "slice_ids") (map WInt ids) _ (WInt id));
    [|by apply (frame_array [Global "out"] m); [outside|..]|by apply rd_map]. cbn [run_thread].
  rewrite (array_rd m1 (Global "adjusts") (map WFloat adj) _ (WFloat a));
    [|by apply (frame_array [Global "out"] m); [outside|..]|by apply rd_map].
  cbn [run_thread]. by rewrite Hw1.
Qed.

(** ** The grid, one block after the other *)

Definition halt_grid (nb dim : nat) : list (list (thread word)) :=
  cuda_grid nb dim (fun _ _ => Halt).

Lemma grid_sweep {St} (kernel : nat -> nat -> thread word) (body : nat -> St -> gpu St)
    (Rel : St -> mem word -> Prop) nb dim :
  (forall bid st st' m, bid < nb -> Rel st m -> body bid st = Ok st' ->
     exists k m', nsteps block_step k (map (kernel bid) (seq 0 dim), m)
         (map (fun _ => Halt) (seq 0 dim), m') /\ Rel st' m') ->
  forall st st' m, launch nb body st = Ok st' -> Rel st m ->
  exists k m', nsteps grid_step k (cuda_grid nb dim kernel, m) (halt_grid nb dim, m') /\ Rel st' m'.
Proof.
  intros Hb st st' m Hl Hr. unfold launch in Hl.
  eapply (sweep grid_step (fun bid => map (kernel bid) (seq 0 dim))
    (fun _ => map (fun _ => Halt) (seq 0 dim)) (fun _ => Rel)); [|exact Hl|done].
  intros bid g st1 st2 m1 Hbid Hg Hr1 E. destruct (Hb bid st1 st2 m1 Hbid Hr1 E) as (k & m' & S & R').
  exists k, m'. split; [by eapply block_grid_steps|done].
Qed.

Lemma halt_grid_halted nb dim : halted (halt_grid nb dim).
Proof.
  intros b ts i t Hb Hi. unfold halt_grid, cuda_grid in Hb. rewrite lookup_map in Hb.
  destruct (seq 0 nb !! b); simplify_eq/=. rewrite lookup_map in Hi.
  by destruct (seq 0 dim !! i); simplify_eq/=.
Qed.
End Threads.
