(* ===== verification/GpuWorker.v ===== *)
(** The host side of the CUDA paths: [GpuWorker::partial_softmax] and
    [NcclWorker::all_reduce_softmax] (worker-rs/src/gpu_worker.rs) and
    [GpuAggregator::aggregate] (gateway-rs/src/gpu_aggregator.rs). *)

From Stdlib Require Import ZArith Lia List.
From stdpp Require Import base tactics list strings.
From S2P Require Import Prelude Scalar Kernels Softmax.
Local Open Scope string_scope.
Local Open Scope list_scope.

(** ** Definitions *)

(** [((n as u32) + BLOCK_SIZE - 1) / BLOCK_SIZE] in [u32] arithmetic *)
Definition num_blocks (n : nat) : nat :=
  Z.to_nat (wrap 32 (wrap 32 (wrap 32 (Z.of_nat n) + Z.of_nat BLOCK_SIZE) - 1)
            / Z.of_nat BLOCK_SIZE).

(** The two reductions [comm.all_reduce] is asked for. *)
Inductive ReduceOp := ReduceMax | ReduceSum.

Section Host.
Context `{SC : Scalar}.

(** The outcome of a call into the CUDA driver: [None] for success, or the
    message of the error.  A call is named by what it does. *)
Context (cuda : string -> option string).
Definition cuda_call (what : string) : gpu () :=
  match cuda what with None => Ok tt | Some e => Err (CudaError e) end.

(** [stream.alloc_zeros(n)] *)
Definition alloc_zeros (what : string) (n : nat) : gpu (list f32) :=
  let? _ := cuda_call what in Ok (replicate n f32_zero).

(** Pass 1 of both workers: the maximum of a slice. *)
Definition device_max (data : list f32) : gpu f32 :=
  let n := length data in
  let nb := num_blocks n in
  let? _ := cuda_call "H2D input" in
  let? d_bmaxes := alloc_zeros "alloc block_maxes" nb in
  let n_i32 := as_i32 (Z.of_nat n) in
  let? _ := cuda_call "launch block_max_f32" in
  let? h_bmaxes := launch nb (block_max_f32 data n_i32) d_bmaxes in
  let? _ := cuda_call "D2H block_maxes" in
  Ok (max_f32 h_bmaxes).

(** Pass 2 of both workers: the exponentials and the block sums, on the
    device. *)
Definition device_exp_sum (data : list f32) (global_max : f32) : gpu (list f32 * list f32) :=
  let n := length data in
  let nb := num_blocks n in
  let? d_exp := alloc_zeros "alloc exp" n in
  let? d_bsums := alloc_zeros "alloc block_sums" nb in
  let n_i32 := as_i32 (Z.of_nat n) in
  let? _ := cuda_call "launch exp_and_block_sum_f32" in
  launch nb (exp_and_block_sum_f32 data global_max n_i32) (d_exp, d_bsums).

(** [GpuWorker::partial_softmax] *)
Definition partial_softmax (data : list f32) : gpu PartialStats :=
  let? _ := cuda_call "load PTX module" in
  let? _ := cuda_call "get block_max_f32" in
  let? _ := cuda_call "get exp_and_block_sum_f32" in
  let? global_max := device_max data in
  let? (h_exp, h_bsums) := device_exp_sum data global_max in
  let? _ := cuda_call "D2H exp" in
  let? _ := cuda_call "D2H block_sums" in
  let partial_sum := sum_f32 h_bsums in
  Ok {| ps_local_max := as_f64 global_max;
        ps_partial_sum := as_f64 partial_sum;
        ps_exp_values := h_exp |}.

(** Upload one number, reduce it over the ranks, wait, download the result;
    [all_reduce] is what the communicator does for this rank. *)
Definition device_all_reduce (all_reduce : ReduceOp -> f32 -> gpu f32) (op : ReduceOp) (x : f32)
  : gpu f32 :=
  let? _ := cuda_call "H2D local" in
  let? _ := cuda_call "alloc global" in
  let? global := all_reduce op x in
  let? _ := cuda_call "synchronize" in
  let? _ := cuda_call "D2H global" in
  Ok global.

(** [NcclWorker::all_reduce_softmax] *)
Definition all_reduce_softmax (all_reduce : ReduceOp -> f32 -> gpu f32) (data : list f32)
  : gpu (list f32) :=
  let n := length data in
  let nb := num_blocks n in
  let n_i32 := as_i32 (Z.of_nat n) in
  let? _ := cuda_call "load PTX" in
  let? _ := cuda_call "get block_max_f32" in
  let? _ := cuda_call "get exp_and_block_sum_f32" in
  let? _ := cuda_call "get normalize_f32" in
  let? local_max := device_max data in
  let? global_max := device_all_reduce all_reduce ReduceMax local_max in
  let? (d_exp, h_bsums) := device_exp_sum data global_max in
  let? _ := cuda_call "D2H block_sums" in
  let local_sum := sum_f32 h_bsums in
  let? global_sum := device_all_reduce all_reduce ReduceSum local_sum in
  let? d_out := alloc_zeros "alloc out" n in
  let? _ := cuda_call "launch normalize_f32" in
  let? h_out := launch nb (normalize_f32 d_exp global_sum n_i32) d_out in
  let? _ := cuda_call "D2H out" in
  Ok h_out.

(** [GpuAggregator::aggregate].  [for_num_elems n] is cudarc's
    [LaunchConfig::for_num_elems]: the blocks and the threads per block. *)
Context (for_num_elems : Z -> nat * nat).
Definition aggregate_gpu (stats : list SliceStats) : gpu (list f32) :=
  match stats with
  | [] => Ok []
  | _ =>
      let? _ := cuda_call "new_stream" in
      let global_max := max_f64 (map local_max stats) in
      let adjusts := map (fun s => as_f32 (f64_exp (f64_sub (local_max s) global_max))) stats in
      let global_sum := sum_f32 (map (fun '(s, a) => f32_mul (as_f32 (partial_sum s)) a)
                                     (combine stats adjusts)) in
      let inv_global_sum := f32_div f32_one global_sum in
      let total := sum_list (map (fun s => length (exp_values s)) stats) in
      let exp_vals_host := concat (map (fun s => map as_f32 (exp_values s)) stats) in
      let slice_ids_host :=
        concat (map (fun '(i, s) => map (fun _ => as_i32 (Z.of_nat i)) (exp_values s))
                    (combine (seq 0 (length stats)) stats)) in
      let? _ := cuda_call "H2D exp_vals" in
      let? _ := cuda_call "H2D adjusts" in
      let? _ := cuda_call "H2D slice_ids" in
      let? out_dev := alloc_zeros "alloc out" total in
      let? _ := cuda_call "load_module" in
      let? _ := cuda_call "load_function" in
      let total_i32 := as_i32 (Z.of_nat total) in
      let '(grid_dim, block_dim) := for_num_elems (wrap 32 (Z.of_nat total)) in
      let? _ := cuda_call "launch aggregate_normalize" in
      let? out := launch grid_dim
        (aggregate_normalize exp_vals_host adjusts slice_ids_host inv_global_sum
           total_i32 block_dim) out_dev in
      let? _ := cuda_call "D2H out" in
      Ok out
  end.
End Host.

(** ** The passes *)

(** The largest length for which no thread index overflows [int]. *)
Definition fits_int (n : nat) : Prop := (Z.of_nat n + Z.of_nat BLOCK_SIZE <= 2 ^ 31)%Z.

Lemma fits_int_bound n : fits_int n -> (Z.of_nat n + 256 <= 2 ^ 31)%Z.
Proof. done. Qed.

Lemma num_blocks_cover n :
  fits_int n -> n <= num_blocks n * BLOCK_SIZE < n + BLOCK_SIZE.
Proof.
  unfold fits_int, num_blocks. intros H. change (Z.of_nat BLOCK_SIZE) with 256%Z in *.
  change BLOCK_SIZE with 256.
  rewrite !(wrap_small 32) by (unfold in_width; rewrite ?(wrap_small 32);
    unfold in_width; rewrite ?(wrap_small 32); unfold in_width; lia).
  pose proof (Z.div_mod (Z.of_nat n + 256 - 1) 256 ltac:(lia)).
  pose proof (Z.mod_pos_bound (Z.of_nat n + 256 - 1) 256 ltac:(lia)). lia.
Qed.

Section Passes.
Context `{SC : Scalar}.

(** The shared array of block [bid]: its part of [l], padded with [d]. *)
Definition padded_block (d : f32) (l : list f32) (bid : nat) : list f32 :=
  map (fun tid => nth (bid * BLOCK_SIZE + tid) l d) (seq 0 BLOCK_SIZE).

Definition block_value (op : f32 -> f32 -> f32) (sdata : list f32) : f32 :=
  default f32_zero (reduce_loop op BLOCK_SIZE (Nat.div2 BLOCK_SIZE) sdata !! 0).

Definition block_values (op : f32 -> f32 -> f32) (d : f32) (l : list f32) : list f32 :=
  map (fun bid => block_value op (padded_block d l bid)) (seq 0 (num_blocks (length l))).

Lemma length_padded_block d l bid : length (padded_block d l bid) = BLOCK_SIZE.
Proof. unfold padded_block. by rewrite length_map, length_seq. Qed.

Lemma reduce_loop_nonempty op fuel : forall s sdata,
  2 * s <= length sdata -> 0 < length sdata -> 0 < length (reduce_loop op fuel s sdata).
Proof.
  induction fuel as [|fuel IH]; intros s sdata H1 H2; simpl; [done|].
  destruct (Nat.eqb_spec s 0); [done|].
  apply IH; rewrite reduce_step_length by lia; [|done].
  pose proof (Nat.div2_odd s). destruct (Nat.odd s); simpl in *; lia.
Qed.

Lemma block_reduce_ok op sdata :
  length sdata = BLOCK_SIZE -> block_reduce op sdata = Ok (block_value op sdata).
Proof.
  intros Hl. unfold block_reduce, block_value, rd. cbn [Z.leb Z.compare].
  change (Z.to_nat 0) with 0.
  assert (0 < length (reduce_loop op BLOCK_SIZE (Nat.div2 BLOCK_SIZE) sdata)) as H.
  { apply reduce_loop_nonempty; rewrite Hl; simpl; unfold BLOCK_SIZE; simpl; lia. }
  destruct (reduce_loop _ _ _ _) as [|x l]; [simpl in H; lia|done].
Qed.

Lemma thread_index_small bid tid :
  bid * BLOCK_SIZE + tid < Z.to_nat (2 ^ 31) ->
  thread_index bid tid = Z.of_nat (bid * BLOCK_SIZE + tid).
Proof. apply index_small. Qed.

Section Fixed.
Context (data : list f32) (Hfit : fits_int (length data)).

Lemma index_bound bid tid :
  bid < num_blocks (length data) -> tid < BLOCK_SIZE ->
  bid * BLOCK_SIZE + tid < Z.to_nat (2 ^ 31).
Proof.
  intros Hb Ht. pose proof (num_blocks_cover _ Hfit). unfold fits_int in Hfit.
  assert (S bid * BLOCK_SIZE <= num_blocks (length data) * BLOCK_SIZE)
    by (apply Nat.mul_le_mono_r; lia). lia.
Qed.

Lemma n_i32_small : as_i32 (Z.of_nat (length data)) = Z.of_nat (length data).
Proof. apply as_i32_small. apply fits_int_bound in Hfit. lia. Qed.

Lemma nth_rd (l : list f32) i d : i < length l -> rd l (Z.of_nat i) = Ok (nth i l d).
Proof.
  intros H. apply rd_ok. rewrite nth_lookup.
  destruct (l !! i) eqn:E; [done|]. apply lookup_ge_None in E. lia.
Qed.

(** The kernel of pass 1 fills [block_maxes] with the block maxima and reads
    nothing outside [data]. *)
Lemma block_max_pass bmaxes :
  length bmaxes = num_blocks (length data) ->
  launch (num_blocks (length data))
    (block_max_f32 data (as_i32 (Z.of_nat (length data)))) bmaxes
  = Ok (block_values f32_max f32_pad data).
Proof.
  intros Hl. rewrite n_i32_small. unfold launch.
  set (nb := num_blocks (length data)) in *.
  set (g := fun bid => block_value f32_max (padded_block f32_pad data bid)).
  destruct (for_each_seq (filled g nb)
    (block_max_f32 data (Z.of_nat (length data))) nb 0 bmaxes) as (out & -> & Hf).
  - by apply filled_0.
  - intros bid st Hb Hst. unfold block_max_f32.
    rewrite (for_each_snoc _ (fun tid => nth (bid * BLOCK_SIZE + tid) data f32_pad)).
    + cbn [result_bind]. rewrite app_nil_l. fold (padded_block f32_pad data bid).
      rewrite block_reduce_ok by apply length_padded_block. cbn [result_bind].
      fold (g bid). destruct (filled_wr g nb bid st) as [-> H]; [done|lia|]. eauto.
    + intros tid Ht. rewrite thread_index_small by (apply index_bound; lia).
      destruct (Z.ltb_spec (Z.of_nat (bid * BLOCK_SIZE + tid)) (Z.of_nat (length data))).
      * apply nth_rd. lia.
      * by rewrite nth_overflow by lia.
  - f_equal. by apply filled_all with (k := 0 + nb).
Qed.

(** The exponentials of pass 2, relative to [gm]. *)
Definition exps (gm : f32) : list f32 := map (fun x => f32_exp (f32_sub x gm)) data.

Lemma length_exps gm : length (exps gm) = length data.
Proof. apply length_map. Qed.

Lemma nth_exps gm i d :
  i < length data -> f32_exp (f32_sub (nth i data d) gm) = nth i (exps gm) f32_zero.
Proof.
  intros Hi. unfold exps.
  rewrite (nth_indep _ f32_zero (f32_exp (f32_sub d gm))) by (by rewrite length_map).
  by rewrite (map_nth (fun x => f32_exp (f32_sub x gm))).
Qed.

(** One block of pass 2. *)
Lemma exp_block gm nb g bid out bs :
  bid < num_blocks (length data) -> nb = num_blocks (length data) ->
  g = (fun bid => block_value f32_add (padded_block f32_zero (exps gm) bid)) ->
  filled (fun i => nth i (exps gm) f32_zero) (length data) (bid * BLOCK_SIZE) out ->
  filled g nb bid bs ->
  exists out' bs',
    exp_and_block_sum_f32 data gm (Z.of_nat (length data)) bid (out, bs) = Ok (out', bs')
    /\ filled (fun i => nth i (exps gm) f32_zero) (length data) (S bid * BLOCK_SIZE) out'
    /\ filled g nb (S bid) bs'.
Proof.
  intros Hb -> -> Hout Hbs. unfold exp_and_block_sum_f32. cbn [fst snd].
  set (fe := fun i => nth i (exps gm) f32_zero) in *.
  destruct (for_each_seq (fun tid '(out, sd) =>
      filled fe (length data) (bid * BLOCK_SIZE + tid) out
      /\ sd = map (fun tid => fe (bid * BLOCK_SIZE + tid)) (seq 0 tid))
    (exp_thread data gm (Z.of_nat (length data)) bid) BLOCK_SIZE 0 (out, []))
    as ([out' sd] & -> & Hf & ->).
  - by rewrite Nat.add_0_r.
  - intros tid [o sd] Ht [Ho ->]. unfold exp_thread.
    rewrite thread_index_small by (apply index_bound; lia).
    rewrite seq_S, map_app. cbn [map Nat.add]. rewrite Nat.add_succ_r.
    destruct (Z.ltb_spec (Z.of_nat (bid * BLOCK_SIZE + tid)) (Z.of_nat (length data))).
    + rewrite (nth_rd data _ f32_zero) by lia. cbn [result_bind].
      rewrite nth_exps by lia. fold (fe (bid * BLOCK_SIZE + tid)).
      destruct (filled_wr fe (length data) (bid * BLOCK_SIZE + tid) o) as [-> H']; [done|lia|].
      eexists; split; [done|]. by split.
    + eexists; split; [done|]. split; [apply filled_skip; [done|lia]|].
      unfold fe at 3. by rewrite nth_overflow by (rewrite length_exps; lia).
  - cbn [result_bind Nat.add].
    change (map _ (seq 0 BLOCK_SIZE)) with (padded_block f32_zero (exps gm) bid).
    rewrite block_reduce_ok by apply length_padded_block. cbn [result_bind].
    destruct (filled_wr (fun bid => block_value f32_add (padded_block f32_zero (exps gm) bid))
      (num_blocks (length data)) bid bs) as [-> H']; [done|lia|].
    do 2 eexists. split; [done|]. split; [|done].
    by replace (S bid * BLOCK_SIZE) with (bid * BLOCK_SIZE + BLOCK_SIZE) by lia.
Qed.

Lemma exp_pass gm out bs :
  length out = length data -> length bs = num_blocks (length data) ->
  launch (num_blocks (length data))
    (exp_and_block_sum_f32 data gm (as_i32 (Z.of_nat (length data)))) (out, bs)
  = Ok (exps gm, block_values f32_add f32_zero (exps gm)).
Proof.
  intros Ho Hb. rewrite n_i32_small. unfold launch.
  set (nb := num_blocks (length data)) in *.
  set (g := fun bid => block_value f32_add (padded_block f32_zero (exps gm) bid)).
  set (fe := fun i => nth i (exps gm) f32_zero).
  destruct (for_each_seq (fun bid '(out, bs) =>
      filled fe (length data) (bid * BLOCK_SIZE) out /\ filled g nb bid bs)
    (exp_and_block_sum_f32 data gm (Z.of_nat (length data))) nb 0 (out, bs))
    as ([out' bs'] & -> & Hf1 & Hf2).
  - split; by apply filled_0.
  - intros bid [o b] Hbid [H1 H2].
    destruct (exp_block gm nb g bid o b) as (o' & b' & E & H1' & H2'); try done; [lia|].
    exists (o', b'). by rewrite E.
  - pose proof (num_blocks_cover _ Hfit). f_equal. f_equal.
    + rewrite (filled_all _ _ _ _ Hf1) by (unfold nb; lia).
      rewrite <- (length_exps gm). apply list_eq. intros i. rewrite lookup_map.
      destruct (decide (i < length (exps gm))).
      * rewrite lookup_seq_lt by lia. simpl. unfold fe. rewrite nth_lookup.
        destruct (exps gm !! i) eqn:E; [done|apply lookup_ge_None in E; lia].
      * by rewrite lookup_seq_ge, lookup_ge_None_2 by lia.
    + unfold block_values. rewrite length_exps. by apply filled_all with (k := 0 + nb).
Qed.

(** The normalization pass divides every element. *)
Lemma normalize_pass es gs out :
  length es = length data -> length out = length data ->
  launch (num_blocks (length data))
    (normalize_f32 es gs (as_i32 (Z.of_nat (length data)))) out
  = Ok (map (fun e => f32_div e gs) es).
Proof.
  intros He Ho. rewrite n_i32_small. unfold launch.
  set (fe := fun i => f32_div (nth i es f32_zero) gs).
  destruct (for_each_seq (fun bid out => filled fe (length data) (bid * BLOCK_SIZE) out)
    (normalize_f32 es gs (Z.of_nat (length data))) (num_blocks (length data)) 0 out)
    as (out' & -> & Hf).
  - by apply filled_0.
  - intros bid o Hb H. unfold normalize_f32.
    destruct (for_each_seq (fun tid out => filled fe (length data) (bid * BLOCK_SIZE + tid) out)
      (normalize_thread es gs (Z.of_nat (length data)) bid) BLOCK_SIZE 0 o)
      as (o' & -> & Hf).
    + by rewrite Nat.add_0_r.
    + intros tid o1 Ht H1. unfold normalize_thread.
      rewrite thread_index_small by (apply index_bound; lia). rewrite Nat.add_succ_r.
      destruct (Z.ltb_spec (Z.of_nat (bid * BLOCK_SIZE + tid)) (Z.of_nat (length data))).
      * rewrite (nth_rd es _ f32_zero) by lia. cbn [result_bind].
        fold (fe (bid * BLOCK_SIZE + tid)).
        destruct (filled_wr fe (length data) (bid * BLOCK_SIZE + tid) o1) as [-> H']; eauto; lia.
      * eexists; split; [done|]. apply filled_skip; [done|lia].
    + eexists; split; [done|]. by replace (S bid * BLOCK_SIZE) with (bid * BLOCK_SIZE + (0 + BLOCK_SIZE)) by lia.
  - pose proof (num_blocks_cover _ Hfit). f_equal.
    rewrite (filled_all _ _ _ _ Hf) by lia. rewrite <- He.
    apply list_eq. intros i. rewrite !lookup_map.
    destruct (decide (i < length es)).
    + rewrite lookup_seq_lt by lia. simpl. unfold fe. rewrite nth_lookup.
      destruct (es !! i) eqn:E; [done|apply lookup_ge_None in E; lia].
    + rewrite lookup_seq_ge, lookup_ge_None_2 by lia. done.
Qed.
End Fixed.
End Passes.

(** ** Results of the host functions *)

(** [m] returns [v] unless a driver call fails; it never leaves its arrays. *)
Definition gpu_yields {A} (cuda : string -> option string) (m : gpu A) (v : A) : Prop :=
  m = Ok v \/ exists what e, cuda what = Some e /\ m = Err (CudaError e).

Section Results.
Context `{SC : Scalar} (cuda : string -> option string).
Abbreviation yields := (gpu_yields cuda).

Lemma yields_ret {A} (v : A) : yields (Ok v) v.
Proof. by left. Qed.

Lemma yields_bind {A B} (m : gpu A) (k : A -> gpu B) v w :
  yields m v -> yields (k v) w -> yields (result_bind m k) w.
Proof. intros [->|(wh & e & Hc & ->)] Hk; [done|]. right. by exists wh, e. Qed.

Lemma bind_ok_inv {A B} (m : gpu A) (k : A -> gpu B) b :
  result_bind m k = Ok b -> exists a, m = Ok a /\ k a = Ok b.
Proof. destruct m as [a|e]; [by exists a|done]. Qed.

Lemma yields_inv {A} (m : gpu A) v a : yields m v -> m = Ok a -> a = v.
Proof. intros [->|(what & e & _ & ->)] E; by simplify_eq. Qed.

Lemma yields_call what : yields (cuda_call cuda what) tt.
Proof.
  unfold cuda_call. destruct (cuda what) as [e|] eqn:E; [|by left].
  right. by exists what, e.
Qed.

Lemma yields_alloc what n : yields (alloc_zeros cuda what n) (replicate n f32_zero).
Proof. eapply yields_bind; [apply yields_call|apply yields_ret]. Qed.

Lemma yields_ok {A} (m : gpu A) v : m = Ok v -> yields m v.
Proof. by left. Qed.

(** With a working driver the value is returned. *)
Lemma yields_total {A} (m : gpu A) v :
  (forall what, cuda what = None) -> yields m v -> m = Ok v.
Proof. intros Hc [->|(wh & e & E & _)]; [done|]. congruence. Qed.

Create HintDb yields discriminated.
#[local] Hint Resolve yields_call yields_alloc yields_ret : yields.
Ltac yields_step := eapply yields_bind; [solve [eauto with yields]|]; cbv beta.

(** Past a call of which only the effect counts; past one whose result is known. *)
Ltac skip_call :=
  let H := fresh in intros (? & _ & H)%bind_ok_inv; revert H; cbv beta iota zeta.
Ltac take_call x known :=
  let E := fresh in let H := fresh in
  intros (x & E & H)%bind_ok_inv; apply (yields_inv _ _ _ known) in E as ->; revert H;
  cbv beta iota zeta.

Definition max_of (data : list f32) : f32 := max_f32 (block_values f32_max f32_pad data).
Definition sum_of (es : list f32) : f32 := sum_f32 (block_values f32_add f32_zero es).

Section Slice.
Context (data : list f32) (Hfit : fits_int (length data)).

Lemma device_max_yields : yields (device_max cuda data) (max_of data).
Proof.
  unfold device_max. do 3 yields_step.
  eapply yields_bind; [apply yields_ok, block_max_pass; [done|by rewrite length_replicate]|].
  yields_step. apply yields_ret.
Qed.

Lemma device_exp_sum_yields gm :
  yields (device_exp_sum cuda data gm)
    (exps data gm, block_values f32_add f32_zero (exps data gm)).
Proof.
  unfold device_exp_sum. do 3 yields_step.
  apply yields_ok, exp_pass; [done|by rewrite length_replicate..].
Qed.

Lemma device_all_reduce_yields (ar : ReduceOp -> f32 -> gpu f32) op x y :
  ar op x = Ok y -> yields (device_all_reduce cuda ar op x) y.
Proof.
  intros H. unfold device_all_reduce. do 2 yields_step.
  eapply yields_bind; [by apply yields_ok|]. do 2 yields_step. apply yields_ret.
Qed.

Definition gpu_stats : PartialStats :=
  let gm := max_of data in
  {| ps_local_max := as_f64 gm;
     ps_partial_sum := as_f64 (sum_of (exps data gm));
     ps_exp_values := exps data gm |}.

Lemma partial_softmax_yields : yields (partial_softmax cuda data) gpu_stats.
Proof.
  unfold partial_softmax. do 3 yields_step.
  eapply yields_bind; [apply device_max_yields|].
  eapply yields_bind; [apply device_exp_sum_yields|]. do 2 yields_step. apply yields_ret.
Qed.

Lemma all_reduce_yields (ar : ReduceOp -> f32 -> gpu f32) gm gs :
  ar ReduceMax (max_of data) = Ok gm ->
  ar ReduceSum (sum_of (exps data gm)) = Ok gs ->
  yields (all_reduce_softmax cuda ar data) (map (fun e => f32_div e gs) (exps data gm)).
Proof.
  intros Hm Hs. unfold all_reduce_softmax. do 4 yields_step.
  eapply yields_bind; [apply device_max_yields|].
  eapply yields_bind; [apply device_all_reduce_yields, Hm|].
  eapply yields_bind; [apply device_exp_sum_yields|]. cbv beta iota zeta. yields_step.
  eapply yields_bind; [apply device_all_reduce_yields, Hs|].
  do 2 yields_step.
  eapply yields_bind; [apply yields_ok, normalize_pass;
    [done|apply length_exps|by rewrite length_replicate]|].
  yields_step. apply yields_ret.
Qed.

Lemma all_reduced (ar : ReduceOp -> f32 -> gpu f32) op x y :
  device_all_reduce cuda ar op x = Ok y -> ar op x = Ok y.
Proof.
  unfold device_all_reduce. do 2 skip_call. intros (z & Ez & E)%bind_ok_inv. revert E.
  do 2 skip_call. by intros [= <-].
Qed.

(** A round that ends was answered by both collectives. *)
Lemma all_reduce_answers (ar : ReduceOp -> f32 -> gpu f32) probs :
  all_reduce_softmax cuda ar data = Ok probs ->
  exists gm gs, ar ReduceMax (max_of data) = Ok gm /\ ar ReduceSum (sum_of (exps data gm)) = Ok gs.
Proof.
  unfold all_reduce_softmax. do 4 skip_call. take_call local device_max_yields.
  intros (gm & Hm%all_reduced & E)%bind_ok_inv. revert E.
  take_call es (device_exp_sum_yields gm). skip_call.
  intros (gs & Hs%all_reduced & _)%bind_ok_inv. by exists gm, gs.
Qed.
End Slice.

(** ** The gateway's aggregation *)

(** [LaunchConfig::for_num_elems(n)], as cudarc documents it: enough threads
    for [n] elements, in blocks of at most 1024. *)
Definition covers (for_num_elems : Z -> nat * nat) : Prop :=
  forall n, (0 <= n < 2 ^ 32)%Z ->
    let '(grid, block) := for_num_elems n in
    (n <= Z.of_nat grid * Z.of_nat block < n + 1024)%Z.

(** The flat arrays: element [k] of the output belongs to slice [id]. *)
Definition flatten (stats : list SliceStats) : list (nat * f64) :=
  concat (map (fun '(i, s) => map (fun ev => (i, ev)) (exp_values s))
              (combine (seq 0 (length stats)) stats)).

Lemma flatten_values {B} (f : f64 -> B) (stats : list SliceStats) a :
  concat (map (fun s => map f (exp_values s)) stats)
  = map (fun p => f p.2)
      (concat (map (fun '(i, s) => map (fun ev => (i, ev)) (exp_values s))
              (combine (seq a (length stats)) stats))).
Proof.
  revert a. induction stats as [|s stats IH]; intros a; [done|]. simpl.
  by rewrite map_app, <- IH, map_map.
Qed.

Lemma flatten_ids {B} (f : nat -> B) (stats : list SliceStats) a :
  concat (map (fun '(i, s) => map (fun _ => f i) (exp_values s))
              (combine (seq a (length stats)) stats))
  = map (fun p => f p.1)
      (concat (map (fun '(i, s) => map (fun ev => (i, ev)) (exp_values s))
              (combine (seq a (length stats)) stats))).
Proof.
  revert a. induction stats as [|s stats IH]; intros a; [done|]. simpl.
  by rewrite map_app, <- IH, map_map.
Qed.

Lemma flatten_bound (stats : list SliceStats) k i ev :
  flatten stats !! k = Some (i, ev) -> i < length stats.
Proof.
  unfold flatten. intros H. apply list_elem_of_lookup_2, list_elem_of_In, in_concat in H
    as (l & Hl & Hin). apply in_map_iff in Hl as ([j s] & <- & Hj).
  apply in_map_iff in Hin as (ev' & [= <- <-] & _).
  apply in_combine_l, in_seq in Hj. lia.
Qed.

Lemma flatten_length (stats : list SliceStats) :
  length (flatten stats) = sum_list (map (fun s => length (exp_values s)) stats).
Proof.
  rewrite <- (length_map (fun p : nat * f64 => p.2)). unfold flatten.
  rewrite <- (flatten_values (fun x => x)).
  apply (concat_map_length (fun _ ev => ev)).
Qed.

Definition gpu_adjust (stats : list SliceStats) (s : SliceStats) : f32 :=
  as_f32 (f64_exp (f64_sub (local_max s) (max_f64 (map local_max stats)))).
Definition gpu_sum (stats : list SliceStats) : f32 :=
  sum_f32 (map (fun s => f32_mul (as_f32 (partial_sum s)) (gpu_adjust stats s)) stats).
(** [out[k] = exp_vals[k] * adjust[slice_of[k]] * inv_global_sum] *)
Definition gpu_result (stats : list SliceStats) : list f32 :=
  concat (map (fun s => map (fun ev =>
    f32_mul (f32_mul (as_f32 ev) (gpu_adjust stats s)) (f32_div f32_one (gpu_sum stats)))
    (exp_values s)) stats).

Section Launch.
Context (stats : list SliceStats) (inv : f32) (grid block : nat).
Let total := length (flatten stats).
Context (Hcov : (Z.of_nat total <= Z.of_nat grid * Z.of_nat block < 2 ^ 31)%Z).
Context (Hstats : (Z.of_nat (length stats) < 2 ^ 31)%Z).
Let evs := map (fun p => as_f32 p.2) (flatten stats).
Let ids := map (fun p => as_i32 (Z.of_nat p.1)) (flatten stats).
Let adjs := map (gpu_adjust stats) stats.
Let elem (k : nat) : f32 :=
  match flatten stats !! k with
  | Some (i, ev) => f32_mul (f32_mul (as_f32 ev) (nth i adjs f32_zero)) inv
  | None => f32_zero
  end.

Lemma aggregate_thread_step bid tid out :
  bid < grid -> tid < block -> filled elem total (bid * block + tid) out ->
  exists out', aggregate_thread evs adjs ids inv (Z.of_nat total) block bid tid out = Ok out'
    /\ filled elem total (bid * block + S tid) out'.
Proof.
  intros Hb Ht Hf. unfold aggregate_thread.
  assert (S bid * block <= grid * block) by (apply Nat.mul_le_mono_r; lia).
  rewrite index_small by lia. rewrite Nat.add_succ_r. set (k := bid * block + tid) in *.
  destruct (Z.ltb_spec (Z.of_nat k) (Z.of_nat total)) as [Hk|Hk].
  - destruct (lookup_lt_is_Some_2 (flatten stats) k) as [[i ev] E]; [unfold total in Hk; lia|].
    rewrite (rd_ok evs k (as_f32 ev)) by (unfold evs; by rewrite lookup_map, E).
    rewrite (rd_ok ids k (as_i32 (Z.of_nat i))) by (unfold ids; by rewrite lookup_map, E).
    cbn [result_bind]. pose proof (flatten_bound _ _ _ _ E) as Hi.
    rewrite as_i32_small by lia.
    rewrite (nth_rd adjs i f32_zero) by (unfold adjs; by rewrite length_map).
    cbn [result_bind].
    replace (f32_mul (f32_mul (as_f32 ev) (nth i adjs f32_zero)) inv) with (elem k)
      by (unfold elem; by rewrite E).
    destruct (filled_wr elem total k out) as [-> H']; [done|lia|]. eauto.
  - eexists; split; [done|]. apply filled_skip; [done|lia].
Qed.

Lemma aggregate_pass out :
  length out = total ->
  launch grid (aggregate_normalize evs adjs ids inv (Z.of_nat total) block) out
  = Ok (map elem (seq 0 total)).
Proof.
  intros Ho. unfold launch.
  destruct (for_each_seq (fun bid out => filled elem total (bid * block) out)
    (aggregate_normalize evs adjs ids inv (Z.of_nat total) block) grid 0 out)
    as (out' & -> & Hf); [by apply filled_0| |].
  - intros bid o Hb H. unfold aggregate_normalize.
    destruct (for_each_seq (fun tid out => filled elem total (bid * block + tid) out)
      (aggregate_thread evs adjs ids inv (Z.of_nat total) block bid) block 0 o)
      as (o' & -> & Hf); [by rewrite Nat.add_0_r| |].
    + intros tid o1 Ht H1. apply aggregate_thread_step; [lia..|done].
    + eexists; split; [done|]. by replace (S bid * block) with (bid * block + (0 + block)) by lia.
  - f_equal. apply filled_all with (k := (0 + grid) * block); [done|lia].
Qed.
End Launch.

Lemma combine_seq_nth {A} (l : list A) (d : A) i x :
  In (i, x) (combine (seq 0 (length l)) l) -> nth i l d = x.
Proof.
  intros H. assert (forall l a, In (i, x) (combine (seq a (length l)) l) ->
    a <= i /\ nth (i - a) l d = x) as Hg.
  { clear. induction l as [|y l IH]; intros a; simpl; [done|].
    intros [[= <- <-]|H]; [by rewrite Nat.sub_diag|].
    apply IH in H as [H1 H2]. split; [lia|].
    by replace (i - a) with (S (i - S a)) by lia. }
  apply Hg in H as [_ H]. by rewrite Nat.sub_0_r in H.
Qed.

Lemma map_combine_seq {A B} (f : A -> B) l : forall a,
  map f l = map (fun '(_, x) => f x) (combine (seq a (length l)) l).
Proof. induction l as [|x l IH]; intros a; simpl; [done|]. by rewrite <- IH. Qed.

Lemma gpu_result_flatten stats :
  gpu_result stats = map (fun p => f32_mul (f32_mul (as_f32 p.2)
      (nth p.1 (map (gpu_adjust stats) stats) f32_zero)) (f32_div f32_one (gpu_sum stats)))
    (flatten stats).
Proof.
  unfold gpu_result, flatten.
  rewrite concat_map, map_map.
  etransitivity; [apply (f_equal (@concat _)), (map_combine_seq _ _ 0)|]. f_equal.
  apply map_ext_in. intros [i s] Hin. rewrite map_map. apply map_ext. intros ev. simpl.
  do 2 f_equal. pose proof (in_combine_l _ _ _ _ Hin) as Hi%in_seq.
  apply (combine_seq_nth _ SliceStats_default) in Hin as <-.
  rewrite (nth_indep _ f32_zero (gpu_adjust stats SliceStats_default))
    by (rewrite length_map; lia).
  by rewrite (map_nth (gpu_adjust stats)).
Qed.

Lemma aggregate_gpu_yields for_num_elems stats :
  covers for_num_elems ->
  (Z.of_nat (sum_list (map (fun s => length (exp_values s)) stats)) + 1024 <= 2 ^ 31)%Z ->
  (Z.of_nat (length stats) < 2 ^ 31)%Z ->
  yields (aggregate_gpu cuda for_num_elems stats) (gpu_result stats).
Proof.
  intros Hcov Htot Hst. destruct stats as [|s0 stats']; [by left|].
  unfold aggregate_gpu. cbv beta iota zeta. set (stats := s0 :: stats') in *.
  rewrite combine_map_r, map_map. fold (gpu_sum stats).
  rewrite (flatten_values as_f32 stats 0), (flatten_ids (fun i => as_i32 (Z.of_nat i)) stats 0).
  fold (flatten stats). rewrite <- flatten_length in *.
  do 7 yields_step. specialize (Hcov (wrap 32 (Z.of_nat (length (flatten stats))))).
  rewrite wrap_small in Hcov |- * by (unfold in_width; lia).
  destruct (for_num_elems _) as [grid block]. specialize (Hcov ltac:(lia)).
  yields_step. rewrite (as_i32_small (Z.of_nat (length (flatten stats)))) by lia.
  eapply yields_bind; [apply yields_ok, aggregate_pass; [lia|lia|by rewrite length_replicate]|].
  yields_step. rewrite gpu_result_flatten. apply yields_ok. f_equal.
  apply list_eq. intros k. rewrite !lookup_map.
  destruct (decide (k < length (flatten stats))) as [Hk|Hk].
  - rewrite lookup_seq_lt by lia. simpl.
    destruct (flatten stats !! k) as [[i ev]|] eqn:E; [done|]. apply lookup_ge_None in E. lia.
  - rewrite lookup_seq_ge, lookup_ge_None_2 by lia. done.
Qed.
End Results.
