(* ===== verification/GpuCorrect.v ===== *)
(** The CUDA paths compute the same softmax as the CPU path: the block
    reductions fold the whole slice, so at the ideal instance the statistics of
    [partial_softmax], the AllReduce of [all_reduce_softmax] and the
    aggregation on the gateway's GPU all give the reference softmax. *)

From Stdlib Require Import Reals Lra ZArith Lia List.
From stdpp Require Import base tactics list strings.
From S2P Require Import Prelude Scalar Ideal Softmax Kernels GpuWorker.

(** ** Blocks cover the slice *)

Lemma concat_blocks {A} (f : nat -> A) B nb : forall a,
  concat (map (fun bid => map (fun tid => f (bid * B + tid)) (seq 0 B)) (seq a nb))
  = map f (seq (a * B) (nb * B)).
Proof.
  induction nb as [|nb IH]; intros a; [done|]. cbn [seq map concat]. rewrite IH.
  replace (S nb * B) with (B + nb * B) by lia. rewrite seq_app, map_app. f_equal.
  - replace (seq (a * B) B) with (Nat.add (a * B) <$> seq 0 B)
      by (rewrite fmap_add_seq; f_equal; lia).
    change (Nat.add (a * B) <$> seq 0 B) with (map (Nat.add (a * B)) (seq 0 B)).
    by rewrite map_map.
  - f_equal. f_equal. lia.
Qed.

Lemma map_nth_seq {A} (d : A) (l : list A) N :
  length l <= N ->
  map (fun i => nth i l d) (seq 0 N) = l ++ replicate (N - length l) d.
Proof.
  intros H. apply list_eq. intros i. rewrite lookup_map.
  destruct (decide (i < N)).
  - rewrite lookup_seq_lt by lia. simpl.
    destruct (decide (i < length l)).
    + rewrite lookup_app_l by done. rewrite nth_lookup.
      destruct (l !! i) eqn:E; [done|apply lookup_ge_None in E; lia].
    + rewrite lookup_app_r by lia. rewrite lookup_replicate_2 by lia.
      by rewrite nth_overflow by lia.
  - rewrite lookup_seq_ge by lia. rewrite lookup_ge_None_2; [done|].
    rewrite length_app, length_replicate. lia.
Qed.

Section Fold.
Context `{SC : Scalar} (op : f32 -> f32 -> f32) (e d : f32).
Context `{!Assoc (=) op} `{!Comm (=) op} `{!LeftId (=) e op}.

(** The values of the blocks fold to the fold of the slice and its padding. *)
Lemma block_values_fold l :
  fits_int (length l) ->
  foldr op e (block_values op d l)
  = op (foldr op e l)
       (foldr op e (replicate (num_blocks (length l) * BLOCK_SIZE - length l) d)).
Proof.
  intros Hf. pose proof (num_blocks_cover _ Hf) as [Hc _].
  rewrite <- (foldr_app_op op e), <- map_nth_seq by done.
  rewrite <- (concat_blocks (fun i => nth i l d) BLOCK_SIZE _ 0), (foldr_concat op e).
  unfold block_values. rewrite map_map. f_equal. apply map_ext. intros bid.
  unfold block_value, padded_block.
  pose proof (block_reduce_fold op e (padded_block d l bid) (length_padded_block d l bid)) as E.
  unfold block_reduce, rd in E. simpl Z.leb in E. change (Z.to_nat 0) with 0 in E.
  unfold padded_block in E. destruct (reduce_loop _ _ _ _ !! 0); simpl in E; [|done].
  by injection E as ->.
Qed.
End Fold.

(** ** At the ideal instance *)

Section IdealGpu.
Local Open Scope R_scope.
#[local] Existing Instance ideal.

Lemma fits_map (l : list R) : fits_int (length l) -> fits_int (length (map Fin l)).
Proof. by rewrite length_map. Qed.

Lemma sum_of_ideal l :
  fits_int (length l) -> sum_of (map Fin l) = Fin (Rsum l).
Proof.
  intros Hf. unfold sum_of, sum_f32. cbn [f32_sum_start ideal].
  change (@f32_add ideal) with xadd. change (@f32_zero ideal) with (Fin 0).
  rewrite (fold_left_foldr xadd (Fin 0)).
  rewrite (block_values_fold (SC := ideal) xadd (Fin 0) (Fin 0)) by (by apply fits_map).
  rewrite foldr_xadd_fin, foldr_xadd_zeros. simpl. f_equal. lra.
Qed.

Lemma max_of_ideal l :
  l <> [] -> fits_int (length l) -> exists m, max_of (map Fin l) = Fin m.
Proof.
  intros Hl Hf. unfold max_of, max_f32. change (@f32_max ideal) with xmax.
  change (@f32_neg_infinity ideal) with NInf. rewrite (fold_left_foldr xmax XNaN).
  rewrite (block_values_fold (SC := ideal) xmax XNaN f32_pad) by (by apply fits_map).
  rewrite <- (foldr_app_op xmax XNaN).
  match goal with |- context [replicate ?n _] => generalize n end. intros k.
  assert ((map Fin l ++ replicate k (Fin (- 10 ^ 38)))%list
    = map Fin (l ++ replicate k (- 10 ^ 38))%list) as E0.
  { rewrite map_app. f_equal. symmetry. apply (fmap_replicate Fin). }
  destruct (foldr_xmax_fin (l ++ replicate k (- 10 ^ 38))) as [m E]; [by destruct l|].
  rewrite <- E0 in E. exists m. exact (f_equal (xmax NInf) E).
Qed.

Lemma exps_ideal l m : exps (map Fin l) (Fin m) = map Fin (map (fun x => exp (x - m)) l).
Proof. unfold exps. rewrite !map_map. done. Qed.

Lemma gpu_stats_ideal l :
  l <> [] -> fits_int (length l) ->
  exists m, received (gpu_stats (map Fin l)) = real_stats l m.
Proof.
  intros Hl Hf. destruct (max_of_ideal l Hl Hf) as [m E]. exists m.
  unfold gpu_stats, received. cbv zeta. cbn [ps_exp_values ps_local_max ps_partial_sum].
  change (@as_f64 ideal) with (fun x : xr => x). rewrite E, map_id, exps_ideal.
  rewrite sum_of_ideal by (by rewrite length_map). unfold real_stats. by rewrite map_map.
Qed.

(** The aggregation on the gateway's GPU. *)
Lemma gpu_result_ideal (sls : list (list R * R)) :
  sls <> [] -> Forall (fun '(xs, m) => xs <> []) sls ->
  gpu_result (stats_of sls) = map Fin (softmax (concat (map fst sls))).
Proof.
  intros Hne Hf. destruct (real_stats_totals sls Hne Hf) as (M & HM & HT & Hpos).
  set (T := Rsum (map (fun x => exp (x - M)) (concat (map fst sls)))) in *.
  assert (gpu_sum (stats_of sls) = Fin T) as EG.
  { unfold gpu_sum, gpu_adjust. rewrite HM. exact HT. }
  unfold gpu_result. rewrite EG. unfold gpu_adjust. rewrite HM.
  apply (real_stats_elements (fun v => xmul v _)).
  intros r. fold T. simpl. destruct (Req_dec_T T 0); [lra|]. simpl. f_equal. lra.
Qed.

(** Every slice computed by a GPU worker: a shift per slice exists. *)
Lemma gpu_workers_ideal (slices : list (list R)) :
  Forall (fun l => l <> [] /\ fits_int (length l)) slices ->
  exists sls, map fst sls = slices /\ Forall (fun '(xs, m) => xs <> []) sls
    /\ map (fun l => received (gpu_stats (map Fin l))) slices = stats_of sls.
Proof.
  induction 1 as [|l slices [Hl Hf] _ (sls & <- & Hs & E)]; [by exists []|].
  destruct (gpu_stats_ideal l Hl Hf) as [m Em]. exists ((l, m) :: sls).
  split; [done|]. split; [by constructor|]. simpl. by rewrite E, Em.
Qed.

(** One NCCL round: every rank sees the same reduced maximum and sum. *)
Lemma nccl_round_ideal (slices : list (list R)) gm :
  concat slices <> [] ->
  let T := foldr xadd (Fin 0) (map (fun l => sum_of (exps (map Fin l) (Fin gm))) slices) in
  Forall (fun l => fits_int (length l)) slices ->
  concat (map (fun l => map (fun e => f32_div e T) (exps (map Fin l) (Fin gm))) slices)
  = map Fin (softmax (concat slices)).
Proof.
  intros Hne T Hf.
  assert (T = Fin (Rsum (map (fun x => exp (x - gm)) (concat slices)))) as ET.
  { unfold T. rewrite (map_ext_Forall _ (fun l => Fin (Rsum (map (fun x => exp (x - gm)) l)))).
    - rewrite <- (map_map (fun l => Rsum (map (fun x => exp (x - gm)) l)) Fin), foldr_xadd_fin.
      by rewrite concat_map, Rsum_concat, !map_map.
    - eapply Forall_impl; [exact Hf|]. intros l Hl. rewrite exps_ideal.
      by rewrite sum_of_ideal by (by rewrite length_map). }
  assert (0 < Rsum (map (fun x => exp (x - gm)) (concat slices))) as Hpos.
  { apply Rsum_pos; [by destruct (concat slices)|]. apply Forall_forall.
    intros y (z & <- & _)%list_elem_of_In%in_map_iff. apply exp_pos. }
  rewrite ET, <- (softmax_shift gm), map_map.
  set (D := Rsum _) in *. clearbody D. rewrite concat_map. f_equal.
  apply map_ext. intros l. rewrite exps_ideal, !map_map. apply map_ext. intros x. simpl.
  destruct (Req_dec_T D 0); [lra|done].
Qed.
End IdealGpu.

(** No driver call fails. *)
Definition working (cuda : string -> option string) : Prop := forall what, cuda what = None.

(** ** Properties *)

(** C20: the kernels never touch memory outside their arrays: on a slice of any
    length that fits the kernels' [int] index, [partial_softmax] either reports
    an error of the CUDA driver or returns one exponential per element; with a
    working driver it returns. *)
Theorem gpu_kernels_in_bounds `{SC : Scalar} (cuda : string -> option string) (data : list f32) :
  fits_int (length data) ->
  partial_softmax cuda data <> Err OutOfBounds
  /\ (forall p, partial_softmax cuda data = Ok p -> length (ps_exp_values p) = length data)
  /\ (working cuda -> exists p, partial_softmax cuda data = Ok p).
Proof.
  intros Hf. pose proof (partial_softmax_yields cuda data Hf) as Hy. split_and!.
  - destruct Hy as [->|(what & e & _ & ->)]; done.
  - intros p E. destruct Hy as [E'|(what & e & _ & E')]; rewrite E' in E; [|done].
    simplify_eq. apply length_exps.
  - intros Hc. eexists. by apply (yields_total cuda).
Qed.

Lemma gpu_kernels_in_bounds_witness :
  let data : list (@f32 ideal) := [Fin 1; Fin 2; Fin 3] in
  @partial_softmax ideal (fun _ => None) data <> Err OutOfBounds
  /\ (forall p, @partial_softmax ideal (fun _ => None) data = Ok p ->
       length (@ps_exp_values ideal p) = 3)
  /\ (working (fun _ => None) ->
       exists p, @partial_softmax ideal (fun _ => None) data = Ok p).
Proof.
  intros data. apply (@gpu_kernels_in_bounds ideal (fun _ => None) data).
  vm_compute. discriminate.
Defined.

Section Properties.
#[local] Existing Instance ideal.

(** C5: the GPU path computes the softmax: the partial statistics of GPU
    workers, combined by the gateway's kernel or by its CPU fallback, are over
    the reals the softmax of the whole vector, for any non-empty slices. *)
Theorem gpu_workers_softmax (cuda : string -> option string) (for_num_elems : Z -> nat * nat)
    (slices : list (list R)) :
  working cuda -> covers for_num_elems ->
  slices <> [] -> Forall (fun l => l <> [] /\ fits_int (length l)) slices ->
  (Z.of_nat (length (concat slices)) + 1024 <= 2 ^ 31)%Z ->
  (Z.of_nat (length slices) < 2 ^ 31)%Z ->
  exists parts,
    Forall2 (fun l p => partial_softmax cuda (map Fin l) = Ok p) slices parts
    /\ aggregate_gpu cuda for_num_elems (map received parts)
       = Ok (map Fin (softmax (concat slices)))
    /\ aggregate_softmax_cpu (map received parts) = map Fin (softmax (concat slices)).
Proof.
  intros Hc Hcov Hne Hf Htot Hlen.
  exists (map (fun l => gpu_stats (SC := ideal) (map Fin l)) slices). split_and!.
  - clear Hne Htot Hlen. induction Hf as [|l slices [_ Hl] _ IH]; [constructor|].
    constructor; [|done]. apply (yields_total cuda); [done|].
    apply partial_softmax_yields. by apply fits_map.
  - rewrite map_map. destruct (gpu_workers_ideal slices Hf) as (sls & Es & Hs & ->).
    apply (yields_total cuda); [done|]. rewrite <- Es. rewrite <- gpu_result_ideal; [|by intros ->; subst|done].
    apply aggregate_gpu_yields; [done| |].
    + apply (eq_ind_r (fun k => (Z.of_nat k + 1024 <= 2 ^ 31)%Z) Htot).
      subst slices. unfold stats_of. rewrite map_map. clear. induction sls as [|[xs m] sls IH]; [done|].
      cbn [map concat fst]. rewrite length_app. cbn [sum_list sum_list_with].
      apply f_equal2; [unfold real_stats; cbn; by rewrite length_map|exact IH].
    + unfold stats_of. rewrite length_map. subst slices. by rewrite length_map in Hlen.
  - rewrite map_map. destruct (gpu_workers_ideal slices Hf) as (sls & Es & Hs & ->).
    rewrite <- Es. apply aggregate_real_stats; [by intros ->; subst|done].
Qed.

Lemma gpu_workers_softmax_witness :
  exists parts,
    Forall2 (fun l p => partial_softmax (fun _ => None) (map Fin l) = Ok p) [[1%R]; [2%R; 3%R]] parts
    /\ aggregate_gpu (fun _ => None) (fun n => (Z.to_nat ((n + 1023) / 1024), 1024)) (map received parts)
       = Ok (map Fin (softmax [1%R; 2%R; 3%R]))
    /\ aggregate_softmax_cpu (map received parts) = map Fin (softmax [1%R; 2%R; 3%R]).
Proof.
  apply (gpu_workers_softmax (fun _ => None) (fun n => (Z.to_nat ((n + 1023) / 1024), 1024))
    [[1%R]; [2%R; 3%R]]); [done| |discriminate| |simpl; lia|simpl; lia].
  - intros n Hn. pose proof (Z.div_mod (n + 1023) 1024 ltac:(lia)).
    pose proof (Z.mod_pos_bound (n + 1023) 1024 ltac:(lia)).
    rewrite Z2Nat.id by (apply Z.div_pos; lia). lia.
  - repeat constructor; try discriminate; vm_compute; discriminate.
Defined.

(** C6: one NCCL round computes the softmax: when the collectives give every
    rank the maximum, then the sum, of what the ranks contributed, the
    probabilities the ranks return, in rank order, are over the reals the
    softmax of the whole vector. *)
Theorem nccl_round_softmax (cuda : string -> option string) (all_reduce : ReduceOp -> f32 -> gpu f32)
    (slices : list (list R)) :
  working cuda ->
  slices <> [] -> Forall (fun l => l <> [] /\ fits_int (length l)) slices ->
  let gm := foldr f32_max XNaN (map (fun l => max_of (map Fin l)) slices) in
  Forall (fun l => all_reduce ReduceMax (max_of (map Fin l)) = Ok gm
    /\ all_reduce ReduceSum (sum_of (exps (map Fin l) gm))
       = Ok (foldr f32_add f32_zero (map (fun l => sum_of (exps (map Fin l) gm)) slices))) slices ->
  exists probs,
    Forall2 (fun l p => all_reduce_softmax cuda all_reduce (map Fin l) = Ok p) slices probs
    /\ concat probs = map Fin (softmax (concat slices)).
Proof.
  intros Hc Hne Hf gm Har.
  set (T := foldr f32_add f32_zero (map (fun l => sum_of (SC := ideal) (exps (SC := ideal) (map Fin l) gm)) slices)) in *.
  exists (map (fun l => map (fun e => f32_div e T) (exps (SC := ideal) (map Fin l) gm)) slices). split.
  - clearbody gm T. clear Hne. induction Hf as [|l slices [_ Hl] _ IH]; [constructor|].
    inversion Har as [|l' ls [Hm Hs] Har']; subst. constructor; [|by apply IH].
    apply (yields_total cuda); [done|]. apply all_reduce_yields; [by apply fits_map|done|done].
  - assert (exists m, gm = Fin m) as [m Em].
    { assert (exists ms, map (fun l => max_of (map Fin l)) slices = map Fin ms /\ length ms = length slices)
        as (ms & E & Hl).
      { clear Har T gm Hne. induction Hf as [|l slices [Hl Hf'] _ (ms & E & IH)]; [by exists []|].
        destruct (max_of_ideal l Hl Hf') as [m Em]. exists (m :: ms).
        split; [exact (f_equal2 cons Em E)|simpl; by rewrite IH]. }
      destruct (foldr_xmax_fin ms) as [m Em]; [intros ->; by destruct slices|].
      exists m. exact (eq_trans (f_equal (foldr xmax XNaN) E) Em). }
    unfold T. rewrite Em. apply nccl_round_ideal.
    + destruct slices as [|l slices]; [done|]. apply Forall_cons in Hf as [[Hl _] _]. simpl. by destruct l.
    + eapply Forall_impl; [exact Hf|]. by intros l [_ Hl].
Qed.

Definition demo_reduce (gm gs : xr) (op : ReduceOp) (_ : xr) : gpu xr :=
  Ok (match op with ReduceMax => gm | ReduceSum => gs end).

Lemma nccl_round_softmax_witness :
  let slices := [[1%R]; [2%R; 3%R]] in
  let gm := foldr f32_max XNaN (map (fun l => max_of (map Fin l)) slices) in
  let gs := foldr f32_add f32_zero (map (fun l => sum_of (exps (map Fin l) gm)) slices) in
  exists probs,
    Forall2 (fun l p => all_reduce_softmax (fun _ => None) (demo_reduce gm gs) (map Fin l) = Ok p)
      slices probs
    /\ concat probs = map Fin (softmax [1%R; 2%R; 3%R]).
Proof.
  intros slices gm gs. apply (nccl_round_softmax (fun _ => None) (demo_reduce gm gs) slices);
    [done|discriminate| |].
  - unfold slices. repeat constructor; try discriminate; vm_compute; discriminate.
  - apply List.Forall_forall. intros l _. split; reflexivity.
Defined.
End Properties.
