(* ===== verification/Json.v ===== *)
(** The records the two processes exchange as JSON, and serde_json as an
    interface: the functions the program calls and what their documentation
    promises of them. *)

From Stdlib Require Import ZArith List String Ascii.
From stdpp Require Import base tactics list strings.
From S2P Require Import Prelude Scalar.

(** ** Data *)

Section Data.
Context `{SC : Scalar}.

(** [TaskMessage] (worker-rs/src/handler.rs): one slice of a job. *)
Record TaskMessage := {
  tm_job_id : string;
  tm_slice_id : Z;
  tm_task : string;
  tm_data : list f64;
}.
End Data.

(** [JobMetadata] (gateway-rs/src/redis_manager.rs) *)
Record JobMetadata := {
  jm_job_id : string;
  jm_task_type : string;
  jm_total_slices : Z;
  jm_created_at : Z;
  jm_status : string;
}.

(** [serde_json::Value], over serde_json's type of numbers. *)
Inductive Value (Number : Type) : Type :=
| JNull
| JBool (b : bool)
| JNumber (n : Number)
| JString (s : string)
| JArray (l : list (Value Number))
| JObject (m : list (string * Value Number)).
Arguments JNull {Number}.
Arguments JBool {Number} b.
Arguments JNumber {Number} n.
Arguments JString {Number} s.
Arguments JArray {Number} l.
Arguments JObject {Number} m.

(** [v[key]]: null when [v] is not an object or has no such member. *)
Definition value_index {N} (v : Value N) (key : string) : Value N :=
  match v with
  | JObject m =>
      match List.find (fun kv => String.eqb kv.1 key) m with
      | Some kv => kv.2
      | None => JNull
      end
  | _ => JNull
  end.

Definition as_array {N} (v : Value N) : option (list (Value N)) :=
  match v with JArray l => Some l | _ => None end.

(** ** The interface *)

Class SerdeJson `{SC : Scalar} := {
  Number : Type;
  number_as_f64 : Number -> option f64;
  (** [serde_json::from_str::<Value>] *)
  value_from_str : string -> result (Value Number) string;
  (** [to_string(&Vec<f64>)] and [from_str::<Vec<f64>>] *)
  vec_to_string : list f64 -> result string string;
  vec_from_str : string -> result (list f64) string;
  (** [json!({"job_id", "slice_id", "task", "data"}).to_string()] and
      [from_slice::<TaskMessage>] *)
  task_to_string : TaskMessage -> string;
  task_from_slice : list ascii -> result TaskMessage string;
  (** [to_string(&JobMetadata)] and [from_str::<JobMetadata>] *)
  metadata_to_string : JobMetadata -> result string string;
  metadata_from_str : string -> result JobMetadata string;
  (** [json!({"job_id", "status", "updated_at"}).to_string()] *)
  progress_to_string : string -> string -> Z -> string;
}.

(** What the documentation promises.  A number that is not finite is written as
    null, which does not parse as a number.  A finite one comes back as
    [reparse x]: without the [float_roundtrip] feature, which the manifests do
    not enable, the parser may be off in the last place. *)
Class SerdeJsonLaws `{SJ : SerdeJson} (finite : f64 -> bool) (reparse : f64 -> f64) : Prop := {
  vec_to_string_ok v : is_ok (vec_to_string v) = true;
  vec_finite v s :
    forallb finite v = true -> vec_to_string v = Ok s -> vec_from_str s = Ok (map reparse v);
  vec_not_finite v s :
    forallb finite v = false -> vec_to_string v = Ok s -> is_ok (vec_from_str s) = false;
  task_finite t :
    forallb finite (tm_data t) = true ->
    task_from_slice (list_ascii_of_string (task_to_string t))
    = Ok {| tm_job_id := tm_job_id t; tm_slice_id := tm_slice_id t; tm_task := tm_task t;
            tm_data := map reparse (tm_data t) |};
  task_not_finite t :
    forallb finite (tm_data t) = false ->
    is_ok (task_from_slice (list_ascii_of_string (task_to_string t))) = false;
  metadata_round_trip m :
    exists s, metadata_to_string m = Ok s /\ metadata_from_str s = Ok m;
}.

(** [Value::as_f64] *)
Definition as_f64_value `{SJ : SerdeJson} (v : Value Number) : option f64 :=
  match v with JNumber n => number_as_f64 n | _ => None end.
