(* ===== verification/Demo.v ===== *)
(** A concrete libm and a concrete serde_json.  They satisfy the documented
    behaviour the development assumes of the real ones, so that every theorem
    that assumes it can be evaluated on an example; nothing else depends on
    how they are defined. *)

From Stdlib Require Import ZArith Lia List String Ascii.
From stdpp Require Import base tactics list strings countable.
From S2P Require Import Prelude Strs Scalar Ieee Json.
Local Open Scope string_scope.

(** ** Definitions *)

(** The exponential by its Taylor series at binary64 precision. *)
Definition one64 : Z := 0x3FF0000000000000.

(** [n] as a binary64 number, for [0 < n < 2^53]. *)
Definition small64 (n : Z) : Z :=
  ((1023 + Z.log2 n) * 2 ^ 52 + (n - 2 ^ Z.log2 n) * 2 ^ (52 - Z.log2 n))%Z.

Fixpoint taylor (terms : nat) (x : Z) : Z :=
  match terms with
  | O => one64
  | S t =>
      lift2 binary64 SpecFloat.SFadd (taylor t x)
        (fold_left (fun acc k => lift2 binary64 SpecFloat.SFmul acc
                      (lift2 binary64 SpecFloat.SFdiv x (small64 (Z.of_nat k))))
           (seq 1 terms) one64)
  end.

#[export] Instance demo_libm : Libm := {|
  exp64 := taylor 12;
  exp32 := fun x => cast binary64 binary32 (taylor 12 (cast binary32 binary64 x));
|}.

(** Values as strings of binary digits, by their code as positive numbers. *)
Fixpoint digits_of_pos (p : positive) : string :=
  match p with
  | xH => ""
  | xO p' => String "0" (digits_of_pos p')
  | xI p' => String "1" (digits_of_pos p')
  end.

Fixpoint pos_of_digits (s : string) : option positive :=
  match s with
  | EmptyString => Some xH
  | String c s' =>
      if Ascii.eqb c "0" then xO <$> pos_of_digits s'
      else if Ascii.eqb c "1" then xI <$> pos_of_digits s'
      else None
  end.

Definition to_text {A} `{Countable A} (a : A) : string := digits_of_pos (countable.encode a).
Definition of_text {A} `{Countable A} (s : string) : result A string :=
  ok_or "expected value" (pos_of_digits s ≫= countable.decode).

Definition finite64 : Z -> bool := is_finite binary64.

#[export] Instance demo_json : SerdeJson := {|
  Number := Z;
  number_as_f64 := fun n => Some (wrap 64 n);
  value_from_str := fun _ => Err "expected value";
  vec_to_string := fun v =>
    Ok (if forallb finite64 v then to_text (v : list Z) else "[null]");
  vec_from_str := of_text;
  task_to_string := fun t =>
    if forallb finite64 (tm_data t)
    then to_text ((tm_job_id t, tm_slice_id t), (tm_task t, (tm_data t : list Z)))
    else "[null]";
  task_from_slice := fun b =>
    let? ((j, i), (k, d)) := of_text (A := (string * Z) * (string * list Z))
                                (string_of_list_ascii b) in
    Ok {| tm_job_id := j; tm_slice_id := i; tm_task := k; tm_data := d |};
  metadata_to_string := fun m =>
    Ok (to_text (((jm_job_id m, jm_task_type m), (jm_total_slices m, jm_created_at m)),
                 jm_status m));
  metadata_from_str := fun s =>
    let? (((j, k), (n, t)), st) :=
      of_text (A := ((string * string) * (Z * Z)) * string) s in
    Ok {| jm_job_id := j; jm_task_type := k; jm_total_slices := n; jm_created_at := t;
          jm_status := st |};
  progress_to_string := fun j st now => to_text (j, st, now);
|}.

(** ** Lemmas *)

Lemma pos_of_digits_of_pos p : pos_of_digits (digits_of_pos p) = Some p.
Proof. induction p as [p IH|p IH|]; simpl; by rewrite ?IH. Qed.

Lemma of_to_text {A} `{Countable A} (a : A) : of_text (to_text a) = Ok a.
Proof. unfold of_text, to_text. rewrite pos_of_digits_of_pos. simpl. by rewrite countable.decode_encode. Qed.

#[export] Instance demo_json_laws : SerdeJsonLaws finite64 (fun x => x).
Proof.
  split.
  - done.
  - intros v s Hv E. unfold vec_to_string, demo_json in E. change (@f64 ieee) with Z in *. rewrite Hv in E. simplify_eq.
    rewrite map_id. apply of_to_text.
  - intros v s Hv E. unfold vec_to_string, demo_json in E. change (@f64 ieee) with Z in *. rewrite Hv in E. by simplify_eq.
  - intros [j i k d] Hv. unfold task_from_slice, task_to_string, demo_json.
    change (@f64 ieee) with Z in *. cbn [tm_data] in Hv |- *. rewrite Hv.
    rewrite string_of_list_ascii_of_string, of_to_text. cbn. by rewrite map_id.
  - intros t Hv. unfold task_from_slice, task_to_string, demo_json.
    change (@f64 ieee) with Z in *. by rewrite Hv.
  - intros [j k n t st]. eexists. split; [done|]. cbn. by rewrite of_to_text.
Qed.

Example demo_exp_0 : exp64 (0 : Z) = one64.
Proof. vm_compute. reflexivity. Qed.
