(* ===== verification/SimtRaces.v ===== *)
(** The CUDA kernels have no data race and no divergent barrier: a block owns
    the cells it writes, and between two barriers so does each of its threads.
    Hence every schedule of a launch ends, is never stuck, and computes what
    the sequential launches of [GpuWorker] compute. *)

From Stdlib Require Import ZArith Lia List.
From stdpp Require Import base tactics list gmap relations strings.
From S2P Require Import Prelude Scalar Ieee Softmax Kernels Simt SimtKernels GpuWorker Demo.
Local Open Scope string_scope.
Local Open Scope list_scope.

Section Threads.
Context `{SC : Scalar}.

(** ** Ownership *)

(** A block owns its shared array, its cell of [per_block] and the [dim] cells
    of [per_thread] of its threads; everything else is only read. *)
Definition block_owner (per_block per_thread : string) (dim : nat) (a : addr) : option nat :=
  match a.1 with
  | Shared b => Some b
  | Global name =>
      if decide (name = per_block) then Some (Z.to_nat a.2)
      else if decide (name = per_thread) then Some (Z.to_nat (a.2 / Z.of_nat dim))
      else None
  end.

(** Before the first barrier a thread owns its cells. *)
Definition load_phase (dim : nat) : phase := fun a =>
  match a.1 with
  | Shared _ => Some (Z.to_nat a.2)
  | Global _ => Some (Z.to_nat (a.2 mod Z.of_nat dim))
  end.

(** In a step of the reduction thread [tid < s] owns [sdata[tid]]; the cells
    from [s] on are only read. *)
Definition reduce_phase_of (s : nat) : phase := fun a =>
  if (a.2 <? Z.of_nat s)%Z then Some (Z.to_nat a.2) else None.

Fixpoint reduce_phases (fuel s : nat) (phs : list phase) : list phase :=
  match fuel with
  | O => phs
  | S fuel' =>
      if Nat.eqb s 0 then phs
      else reduce_phase_of s :: reduce_phases fuel' (Nat.div2 s) phs
  end.

(** After the last barrier thread 0 owns the block's cells. *)
Definition store_phase : phase := fun _ => Some 0.

Definition reduction_phases : list phase :=
  load_phase BLOCK_SIZE :: reduce_phases BLOCK_SIZE (Nat.div2 BLOCK_SIZE) [store_phase].

Section Ownership.
Context (gown : addr -> option nat) (bid : nat) (Hsh : forall z, gown (Shared bid, z) = Some bid).

#[local] Transparent reduce_thread.
Lemma follows_reduce op tid phs rest :
  follows gown bid phs tid rest ->
  forall fuel s, follows gown bid (reduce_phases fuel s phs) tid (reduce_thread op fuel s bid tid rest).
Proof.
  intros Hr. induction fuel as [|fuel IH]; intros s; cbn [reduce_phases reduce_thread]; [done|].
  destruct (Nat.eqb s 0); [done|]. unfold reduce_turn.
  destruct (Nat.ltb_spec tid s) as [Hs|Hs]; [|apply IH].
  assert (reduce_phase_of s (sdata bid tid) = Some tid) as E1.
  { unfold reduce_phase_of, sdata. cbn [snd]. destruct (Z.ltb_spec (Z.of_nat tid) (Z.of_nat s)); [|lia].
    by rewrite Nat2Z.id. }
  assert (reduce_phase_of s (sdata bid (tid + s)) = None) as E2.
  { unfold reduce_phase_of, sdata. cbn [snd].
    destruct (Z.ltb_spec (Z.of_nat (tid + s)) (Z.of_nat s)); [lia|done]. }
  cbn [follows read_float write_float]. split; [do 2 eexists; split; [done|right; split; [apply Hsh|by auto]]|].
  intros [x|]; [|done]. split; [do 2 eexists; split; [done|right; split; [apply Hsh|by auto]]|].
  intros [y|]; [|done]. split; [do 2 eexists; split; [done|split; [apply Hsh|exact E1]]|]. apply IH.
Qed.

Lemma follows_reduce_and_store op out tid :
  gown (Global out, Z.of_nat bid) = Some bid ->
  follows gown bid (reduce_phases BLOCK_SIZE (Nat.div2 BLOCK_SIZE) [store_phase]) tid
    (reduce_and_store op out bid tid).
Proof.
  intros Ho. apply follows_reduce. unfold store_block. destruct (Nat.eqb_spec tid 0) as [->|]; [|done].
  cbn [follows read_float write_float]. split; [do 2 eexists; split; [done|right; split; [apply Hsh|by right]]|].
  intros [x|]; [|done]. split; [|done]. do 2 eexists. split; [done|by split].
Qed.
End Ownership.

Lemma index_owner dim bid tid :
  tid < dim -> bid * dim + tid < Z.to_nat (2 ^ 31) ->
  let i := as_i32 (Z.of_nat bid * Z.of_nat dim + Z.of_nat tid) in
  Z.to_nat (i / Z.of_nat dim) = bid /\ Z.to_nat (i mod Z.of_nat dim) = tid.
Proof.
  intros Ht Hi i. unfold i. rewrite index_small by done.
  rewrite Nat2Z.inj_add, Nat2Z.inj_mul, Z.add_comm.
  rewrite Z.div_add, Z.mod_add, Z.div_small, Z.mod_small by lia. split; lia.
Qed.

(** A grid is owned if each of its threads follows the phases. *)
Lemma owned_grid gown nb dim kernel (phs : nat -> list phase) :
  (forall bid tid, bid < nb -> tid < dim -> follows gown bid (phs bid) tid (kernel bid tid)) ->
  owned gown (cuda_grid nb dim kernel).
Proof.
  intros Hf b ts Hb. unfold cuda_grid in Hb. rewrite lookup_map in Hb.
  destruct (seq 0 nb !! b) as [b'|] eqn:E; [|done]. apply lookup_seq in E as [-> Hlt]. simplify_eq/=.
  exists (phs b). intros i t Hi. rewrite lookup_map in Hi.
  destruct (seq 0 dim !! i) as [i'|] eqn:E; [|done]. apply lookup_seq in E as [-> Hi']. simplify_eq/=.
  by apply Hf.
Qed.

Lemma grid_index nb dim bid tid :
  nb * dim <= Z.to_nat (2 ^ 31) -> bid < nb -> tid < dim -> bid * dim + tid < Z.to_nat (2 ^ 31).
Proof. intros Hn Hb Ht. assert (S bid * dim <= nb * dim) by (apply Nat.mul_le_mono_r; lia). lia. Qed.

Lemma block_max_owned n nb :
  nb * BLOCK_SIZE <= Z.to_nat (2 ^ 31) ->
  owned (block_owner "block_maxes" "" BLOCK_SIZE) (cuda_grid nb BLOCK_SIZE (block_max_thread n)).
Proof.
  intros Hn. apply (owned_grid _ _ _ _ (fun _ => reduction_phases)). intros bid tid Hb Ht.
  assert (forall v, follows (block_owner "block_maxes" "" BLOCK_SIZE) bid reduction_phases tid
    (write_float (sdata bid tid) v (Sync (reduce_and_store f32_max "block_maxes" bid tid)))) as Hk.
  { intros v. unfold write_float, reduction_phases. cbn [follows]. split.
    - do 2 eexists. split; [done|]. split; [done|]. unfold load_phase. simpl. by rewrite Nat2Z.id.
    - apply follows_reduce_and_store; [done|]. unfold block_owner. simpl. by rewrite Nat2Z.id. }
  unfold block_max_thread. destruct (_ <? n)%Z; [|apply Hk].
  split; [do 2 eexists; split; [done|by left]|]. intros [x|]; [apply Hk|done].
Qed.

Lemma exp_sum_owned gm n nb :
  nb * BLOCK_SIZE <= Z.to_nat (2 ^ 31) ->
  owned (block_owner "block_sums" "exp_out" BLOCK_SIZE)
    (cuda_grid nb BLOCK_SIZE (exp_sum_thread gm n)).
Proof.
  intros Hn. apply (owned_grid _ _ _ _ (fun _ => reduction_phases)). intros bid tid Hb Ht.
  set (gown := block_owner "block_sums" "exp_out" BLOCK_SIZE).
  assert (forall v, follows gown bid reduction_phases tid
    (write_float (sdata bid tid) v (Sync (reduce_and_store f32_add "block_sums" bid tid)))) as Hk.
  { intros v. unfold write_float, reduction_phases. cbn [follows]. split.
    - do 2 eexists. split; [done|]. split; [done|]. unfold load_phase. simpl. by rewrite Nat2Z.id.
    - apply follows_reduce_and_store; [done|]. unfold gown, block_owner. simpl. by rewrite Nat2Z.id. }
  destruct (index_owner BLOCK_SIZE bid tid Ht (grid_index _ _ _ _ Hn Hb Ht)) as [E1 E2].
  unfold exp_sum_thread. destruct (_ <? n)%Z; [|apply Hk].
  split; [do 2 eexists; split; [done|by left]|]. intros [x|]; [|done].
  split; [|apply Hk]. do 2 eexists. split; [done|]. split.
  - unfold gown, block_owner. simpl. by rewrite <- E1 at 2.
  - unfold load_phase. simpl. by rewrite <- E2 at 2.
Qed.

Lemma normalize_owned gs n nb :
  nb * BLOCK_SIZE <= Z.to_nat (2 ^ 31) ->
  owned (block_owner "" "out" BLOCK_SIZE) (cuda_grid nb BLOCK_SIZE (normalize_cuda gs n)).
Proof.
  intros Hn. apply (owned_grid _ _ _ _ (fun _ => [load_phase BLOCK_SIZE])). intros bid tid Hb Ht.
  destruct (index_owner BLOCK_SIZE bid tid Ht (grid_index _ _ _ _ Hn Hb Ht)) as [E1 E2].
  unfold normalize_cuda. destruct (_ <? n)%Z; [|done].
  split; [do 2 eexists; split; [done|by left]|]. intros [x|]; [|done].
  split; [|done]. do 2 eexists. split; [done|]. split.
  - unfold block_owner. simpl. by rewrite <- E1 at 2.
  - unfold load_phase. simpl. by rewrite <- E2 at 2.
Qed.

Lemma aggregate_owned inv n nb dim :
  nb * dim <= Z.to_nat (2 ^ 31) ->
  owned (block_owner "" "out" dim) (cuda_grid nb dim (aggregate_cuda inv n dim)).
Proof.
  intros Hn. apply (owned_grid _ _ _ _ (fun _ => [load_phase dim])). intros bid tid Hb Ht.
  destruct (index_owner dim bid tid Ht (grid_index _ _ _ _ Hn Hb Ht)) as [E1 E2].
  unfold aggregate_cuda. destruct (_ <? n)%Z; [|done].
  split; [do 2 eexists; split; [done|by left]|]. intros [e|]; [|done].
  split; [do 2 eexists; split; [done|by left]|]. intros [|id]; [done|].
  split; [do 2 eexists; split; [done|by left]|]. intros [a|]; [|done].
  split; [|done]. do 2 eexists. split; [done|]. split.
  - unfold block_owner. simpl. by rewrite <- E1 at 2.
  - unfold load_phase. simpl. by rewrite <- E2 at 2.
Qed.

(** ** Launches *)

(** Every block has its shared array, with any contents. *)
Definition shared_arrays (nb : nat) (m : mem word) : Prop :=
  forall b, b < nb -> exists l, shared m b l.

Lemma shared_arrays_step nb bid sps m m' :
  (forall b, b <> bid -> Shared b ∉ sps) -> frame sps m m' -> (exists l, shared m' bid l) ->
  shared_arrays nb m -> shared_arrays nb m'.
Proof.
  intros Hn Hf Hb Hm b Hlt. destruct (decide (b = bid)) as [->|Hne]; [done|].
  destruct (Hm b Hlt) as (l & Hl & Ha). exists l. split; [done|].
  by apply (frame_array sps m); [apply Hn|..].
Qed.

Lemma keeps_floats {sps : list space} {m m' : mem word} (F : frame sps m m') (name : string) (l : list f32) :
  Global name ∉ sps -> floats m name l -> floats m' name l.
Proof. intros Hn. exact (frame_array sps m m' _ _ Hn F). Qed.

Lemma launch_runs_to {St} (gown : addr -> option nat) (nb dim : nat) (kernel : nat -> nat -> thread word)
    (body : nat -> St -> gpu St) (Rel : St -> mem word -> Prop) (st st' : St) (m : mem word) (P : mem word -> Prop) :
  owned gown (cuda_grid nb dim kernel) ->
  (forall bid st st' m, bid < nb -> Rel st m -> body bid st = Ok st' ->
     exists k m', nsteps block_step k (map (kernel bid) (seq 0 dim), m)
         (map (fun _ => Halt) (seq 0 dim), m') /\ Rel st' m') ->
  launch nb body st = Ok st' -> Rel st m -> (forall m', Rel st' m' -> P m') ->
  runs_to (cuda_grid nb dim kernel) m P.
Proof.
  intros Ho Hb Hl Hr HP.
  destruct (grid_sweep kernel body Rel nb dim Hb st st' m Hl Hr) as (k & m' & S & R').
  eapply (runs_to_intro gown); [done|exact S|apply halt_grid_halted|by apply HP].
Qed.

Lemma num_blocks_index n : fits_int n -> num_blocks n * BLOCK_SIZE <= Z.to_nat (2 ^ 31).
Proof. intros Hf. pose proof (num_blocks_cover n Hf). unfold fits_int in Hf. lia. Qed.

(** ** Properties *)

(** C18: every schedule of the first kernel of [partial_softmax] and
    [all_reduce_softmax], one memory access of one of its threads at a time,
    is free of data races, ends within a bound, reaches no deadlock at a barrier and no access outside
    the arrays, and leaves the block maxima the host code folds. *)
Theorem block_max_every_schedule (data : list f32) (m : mem word) :
  fits_int (length data) ->
  let nb := num_blocks (length data) in
  shared_arrays nb m -> floats m "data" data -> floats m "block_maxes" (replicate nb f32_zero) ->
  runs_to (cuda_grid nb BLOCK_SIZE (block_max_thread (as_i32 (Z.of_nat (length data))))) m
    (fun m' => floats m' "block_maxes" (block_values f32_max f32_pad data)).
Proof.
  intros Hf nb Hs Hd Hb.
  apply (launch_runs_to _ nb BLOCK_SIZE _ _
    (fun bm m => shared_arrays nb m /\ floats m "data" data /\ floats m "block_maxes" bm) _ _ m _
    (block_max_owned _ nb (num_blocks_index _ Hf)))
    with (2 := block_max_pass data Hf (replicate nb f32_zero) (length_replicate _ _)); [|by split_and!|by intros m' (_ & _ & H)].
  intros bid bm bm' m1 Hbid (H1 & H2 & H3) E. destruct (H1 bid Hbid) as [l Hl].
  destruct (block_max_steps data _ bid bm bm' l m1 Hl H2 H3 E) as (k & m' & S & H3' & H1' & F).
  exists k, m'. split; [exact S|]. split_and!; [|exact (keeps_floats F "data" data ltac:(outside) H2)|exact H3'].
  eapply shared_arrays_step; [|exact F|exact H1'|exact H1]. intros b Hne. outside.
Qed.

(** C17: no schedule of the second kernel reaches a configuration in which the
    next accesses of two threads conflict; every schedule ends, and leaves the
    exponentials of the slice and the block sums the host code adds up. *)
Theorem exp_sum_every_schedule (data : list f32) (gm : f32) (m : mem word) :
  fits_int (length data) ->
  let nb := num_blocks (length data) in
  shared_arrays nb m -> floats m "data" data ->
  floats m "exp_out" (replicate (length data) f32_zero) ->
  floats m "block_sums" (replicate nb f32_zero) ->
  runs_to (cuda_grid nb BLOCK_SIZE (exp_sum_thread gm (as_i32 (Z.of_nat (length data))))) m
    (fun m' => floats m' "exp_out" (exps data gm)
       /\ floats m' "block_sums" (block_values f32_add f32_zero (exps data gm))).
Proof.
  intros Hf nb Hs Hd He Hb.
  apply (launch_runs_to _ nb BLOCK_SIZE _ _
    (fun st m => shared_arrays nb m /\ floats m "data" data
       /\ floats m "exp_out" st.1 /\ floats m "block_sums" st.2) _ _ m _
    (exp_sum_owned gm _ nb (num_blocks_index _ Hf)))
    with (2 := exp_pass data Hf gm (replicate (length data) f32_zero) (replicate nb f32_zero)
                 (length_replicate _ _) (length_replicate _ _));
    [|by split_and!|by intros m' (_ & _ & H)].
  intros bid st st' m1 Hbid (H1 & H2 & H3 & H4) E. destruct (H1 bid Hbid) as [l Hl].
  destruct (exp_sum_steps data gm _ bid st st' l m1 Hl H2 H3 H4 E) as (k & m' & S & H3' & H4' & H1' & F).
  exists k, m'. split; [exact S|].
  split_and!; [|exact (keeps_floats F "data" data ltac:(outside) H2)|exact H3'|exact H4'].
  eapply shared_arrays_step; [|exact F|exact H1'|exact H1]. intros b Hne. outside.
Qed.

(** Every schedule of [normalize_f32] gives what the sequential launch gives. *)
Theorem normalize_every_schedule (es : list f32) (gs : f32) (n : Z) (nb : nat) (out out' : list f32) (m : mem word) :
  nb * BLOCK_SIZE <= Z.to_nat (2 ^ 31) ->
  launch nb (normalize_f32 es gs n) out = Ok out' ->
  floats m "exp_vals" es -> floats m "out" out ->
  runs_to (cuda_grid nb BLOCK_SIZE (normalize_cuda gs n)) m (fun m' => floats m' "out" out').
Proof.
  intros Hn Hl He Ho.
  apply (launch_runs_to _ nb BLOCK_SIZE _ _
    (fun o m => floats m "exp_vals" es /\ floats m "out" o) _ _ m _ (normalize_owned gs n nb Hn))
    with (2 := Hl); [|by split|by intros m' [_ H]].
  intros bid o o' m1 _ [H1 H2] E.
  destruct (normalize_steps es gs n bid o o' m1 H1 H2 E) as (k & m' & S & H2' & F).
  exists k, m'. split; [exact S|]. split; [exact (keeps_floats F "exp_vals" es ltac:(outside) H1)|exact H2'].
Qed.

(** C19: every schedule of the gateway's kernel [aggregate_normalize] is free of
    data races, ends and gives what the sequential launch gives, wherever that stays inside the
    arrays. *)
Theorem aggregate_every_schedule (es adj : list f32) (ids : list Z) (inv : f32) (n : Z) (nb dim : nat)
    (out out' : list f32) (m : mem word) :
  nb * dim <= Z.to_nat (2 ^ 31) ->
  launch nb (aggregate_normalize es adj ids inv n dim) out = Ok out' ->
  floats m "exp_vals" es -> floats m "adjusts" adj -> ints m "slice_ids" ids -> floats m "out" out ->
  runs_to (cuda_grid nb dim (aggregate_cuda inv n dim)) m (fun m' => floats m' "out" out').
Proof.
  intros Hn Hl He Ha Hi Ho.
  apply (launch_runs_to _ nb dim _ _
    (fun o m => (floats m "exp_vals" es /\ floats m "adjusts" adj /\ ints m "slice_ids" ids)
       /\ floats m "out" o) _ _ m _ (aggregate_owned inv n nb dim Hn))
    with (2 := Hl); [|by split_and!|by intros m' [_ H]].
  intros bid o o' m1 _ [(H1 & H2 & H3) H4] E.
  destruct (aggregate_steps es adj ids inv n dim bid o o' m1 H1 H2 H3 H4 E) as (k & m' & S & H4' & F).
  exists k, m'. split; [exact S|]. split; [|exact H4'].
  split_and!; [exact (keeps_floats F "exp_vals" es ltac:(outside) H1)
    |exact (keeps_floats F "adjusts" adj ltac:(outside) H2)
    |exact (frame_array [Global "out"] m1 m' (Global "slice_ids") (map WInt ids) ltac:(outside) F H3)].
Qed.
End Threads.

(** ** Witnesses *)

(** A device memory that holds the given arrays. *)
Section Alloc.
Context `{SC : Scalar}.

Fixpoint alloc (sp : space) (z : Z) (l : list word) (m : mem word) : mem word :=
  match l with
  | [] => m
  | w :: l' => <[(sp, z) := w]> (alloc sp (z + 1) l' m)
  end.
Definition device_memory (arrays : list (space * list word)) : mem word :=
  foldr (fun p m => alloc p.1 0 p.2 m) ∅ arrays.

Lemma alloc_other sp sp' l : forall z0 z m,
  sp' <> sp -> alloc sp z0 l m !! (sp', z) = m !! (sp', z).
Proof.
  induction l as [|w l IH]; intros z0 z m Hn; simpl; [done|].
  rewrite lookup_insert_ne by congruence. by apply IH.
Qed.

Lemma alloc_lookup sp l : forall z0 z m,
  m !! (sp, z) = None ->
  alloc sp z0 l m !! (sp, z) = if (z0 <=? z)%Z then l !! Z.to_nat (z - z0) else None.
Proof.
  induction l as [|w l IH]; intros z0 z m Hn; simpl; [by destruct (_ <=? _)%Z|].
  destruct (decide (z = z0)) as [->|Hne].
  { rewrite lookup_insert_eq, Z.leb_refl, Z.sub_diag. done. }
  rewrite lookup_insert_ne by congruence. rewrite IH by done.
  destruct (Z.leb_spec z0 z), (Z.leb_spec (z0 + 1) z); try lia; [|done].
  by replace (Z.to_nat (z - z0)) with (S (Z.to_nat (z - (z0 + 1)))) by lia.
Qed.

Lemma device_memory_none arrays sp z :
  sp ∉ arrays.*1 -> device_memory arrays !! (sp, z) = None.
Proof.
  induction arrays as [|[sp' l] arrays IH]; simpl; [done|].
  intros [Hn Hr]%not_elem_of_cons. rewrite alloc_other by done. by apply IH.
Qed.

Lemma device_memory_array arrays sp l :
  NoDup (arrays.*1) -> (sp, l) ∈ arrays -> array_at (device_memory arrays) sp l.
Proof.
  intros Hnd Hin. induction arrays as [|[sp' l'] arrays IH]; [by apply not_elem_of_nil in Hin|].
  apply NoDup_cons in Hnd as [Hn Hnd]. intros z. simpl. apply elem_of_cons in Hin as [E|Hin].
  - simplify_eq/=. rewrite alloc_lookup by (by apply device_memory_none). by rewrite Z.sub_0_r.
  - assert (sp <> sp') by (intros ->; apply Hn; by apply (list_elem_of_fmap_2' fst _ _ _ Hin)).
    rewrite alloc_other by done. by apply IH.
Qed.
End Alloc.

#[local] Existing Instance ieee.

(** Three elements of a slice, and the outputs of both kernels. *)
Definition demo_slice : list (@f32 ieee) := [0x3F800000; 0x40000000; 0x40400000]%Z.
Definition demo_arrays : list (space * list (@word ieee)) :=
  [(Shared 0, replicate BLOCK_SIZE (WFloat 0%Z)); (Global "data", map WFloat demo_slice);
   (Global "exp_out", replicate 3 (WFloat 0%Z)); (Global "block_sums", [WFloat 0%Z]);
   (Global "block_maxes", [WFloat 0%Z])].

Lemma demo_arrays_nodup : NoDup (demo_arrays.*1).
Proof. apply (bool_decide_unpack _). vm_compute. exact I. Qed.

Lemma demo_shared : shared_arrays 1 (device_memory demo_arrays).
Proof.
  intros b Hb. assert (b = 0) as -> by lia. exists (replicate BLOCK_SIZE 0%Z).
  split; [apply length_replicate|]. apply device_memory_array; [apply demo_arrays_nodup|]. left.
Qed.

Lemma demo_floats name l :
  (Global name, map WFloat l) ∈ demo_arrays -> floats (device_memory demo_arrays) name l.
Proof. intros Hin. exact (device_memory_array demo_arrays _ _ demo_arrays_nodup Hin). Qed.

Lemma block_max_every_schedule_witness :
  runs_to (cuda_grid 1 BLOCK_SIZE (block_max_thread 3)) (device_memory demo_arrays)
    (fun m' => floats m' "block_maxes" (block_values f32_max f32_pad demo_slice)).
Proof.
  apply (block_max_every_schedule demo_slice (device_memory demo_arrays));
    [vm_compute; discriminate|exact demo_shared| |]; apply demo_floats.
  - by right; left.
  - by right; right; right; right; left.
Defined.

Lemma exp_sum_every_schedule_witness :
  let gm : @f32 ieee := 0x40400000%Z in
  runs_to (cuda_grid 1 BLOCK_SIZE (exp_sum_thread gm 3)) (device_memory demo_arrays)
    (fun m' => floats m' "exp_out" (exps demo_slice gm)
       /\ floats m' "block_sums" (block_values f32_add f32_zero (exps demo_slice gm))).
Proof.
  intros gm. apply (exp_sum_every_schedule demo_slice gm (device_memory demo_arrays));
    [vm_compute; discriminate|exact demo_shared| | |]; apply demo_floats.
  - by right; left.
  - by right; right; left.
  - by right; right; right; left.
Defined.

(** Two elements, of the slices 1 and 0, with the adjustments 0.5 and 1. *)
Definition demo_aggregate : list (space * list (@word ieee)) :=
  [(Global "exp_vals", map WFloat [0x3F800000; 0x3F000000]%Z);
   (Global "adjusts", map WFloat [0x3F000000; 0x3F800000]%Z);
   (Global "slice_ids", map WInt [1; 0]%Z); (Global "out", replicate 2 (WFloat 0%Z))].

Lemma aggregate_every_schedule_witness :
  runs_to (cuda_grid 1 1024 (aggregate_cuda (SC := ieee) 0x3F800000%Z 2 1024)) (device_memory demo_aggregate)
    (fun m' => floats (SC := ieee) m' "out" [0x3F800000; 0x3E800000]%Z).
Proof.
  assert (NoDup (demo_aggregate.*1)) as Hnd by (apply (bool_decide_unpack _); vm_compute; exact I).
  apply (aggregate_every_schedule (SC := ieee) [0x3F800000; 0x3F000000]%Z [0x3F000000; 0x3F800000]%Z [1; 0]%Z
    0x3F800000%Z 2 1 1024 [0; 0]%Z [0x3F800000; 0x3E800000]%Z (device_memory demo_aggregate)).
  - lia.
  - vm_compute. reflexivity.
  - apply (device_memory_array demo_aggregate); [exact Hnd|]. left.
  - apply (device_memory_array demo_aggregate); [exact Hnd|]. right; left.
  - apply (device_memory_array demo_aggregate); [exact Hnd|]. right; right; left.
  - apply (device_memory_array demo_aggregate); [exact Hnd|]. right; right; right; left.
Defined.
