(* ===== verification/Wire.v ===== *)
(** The binary slice format: [encode_partial] and [encode_normalized] of
    worker-rs/src/handler.rs, and the decoding half of [read_slice] of
    gateway-rs/src/aggregator.rs.  A byte is an [ascii]; the floating-point
    numbers are the bit patterns of Ieee.v. *)

From Stdlib Require Import ZArith Lia List String Ascii Floats.SpecFloat.
From stdpp Require Import base tactics list strings.
From S2P Require Import Prelude Strs Scalar Ieee Softmax Json Demo.
Local Open Scope string_scope.
Local Open Scope list_scope.

(** ** Definitions *)

Definition byte_of_Z (v : Z) : ascii := ascii_of_N (Z.to_N (wrap 8 v)).

(** [to_le_bytes] of an integer of [k] bytes. *)
Fixpoint to_le_bytes (k : nat) (v : Z) : list ascii :=
  match k with
  | O => []
  | S k' => byte_of_Z v :: to_le_bytes k' (Z.shiftr v 8)
  end.

Fixpoint from_le_bytes (l : list ascii) : Z :=
  match l with
  | [] => 0
  | b :: l' => Z.lor (Z_of_byte b) (Z.shiftl (from_le_bytes l') 8)
  end.

Section Wire.
(** The byte order of the gateway's host, which [from_ne_bytes] depends on. *)
Context `{LM : Libm} (big_endian : bool).

Definition from_ne_bytes (l : list ascii) : Z :=
  from_le_bytes (if big_endian then rev l else l).

Definition MAGIC_PARTIAL : Z := 1.
Definition MAGIC_NORMALIZED : Z := 2.

(** [encode_partial(stats)]; [n] is [len() as u32] *)
Definition encode_partial (stats : PartialStats) : list ascii :=
  let n := wrap 32 (Z.of_nat (length (ps_exp_values stats))) in
  [byte_of_Z MAGIC_PARTIAL]
  ++ to_le_bytes 8 (ps_local_max stats)
  ++ to_le_bytes 8 (ps_partial_sum stats)
  ++ to_le_bytes 4 n
  ++ concat (map (to_le_bytes 4) (ps_exp_values stats)).

(** [encode_normalized(probs)] *)
Definition encode_normalized (probs : list f32) : list ascii :=
  let n := wrap 32 (Z.of_nat (length probs)) in
  [byte_of_Z MAGIC_NORMALIZED] ++ to_le_bytes 4 n ++ concat (map (to_le_bytes 4) probs).

(** [f32::from_ne_bytes(raw[off..off + 4]) as f64] *)
Definition f32_at (raw : list ascii) (off : nat) : f64 :=
  as_f64 (from_ne_bytes (take 4 (drop off raw))).

(** The two binary formats of [read_slice]; [None] asks the caller to wait. *)
Definition decode_partial (raw : list ascii) : option SliceStats :=
  let HDR := 1 + 8 + 8 + 4 in
  if Nat.ltb (length raw) HDR then None
  else
    let local_max := from_ne_bytes (take 8 (drop 1 raw)) in
    let partial_sum := from_ne_bytes (take 8 (drop 9 raw)) in
    let n := Z.to_nat (from_ne_bytes (take 4 (drop 17 raw))) in
    if negb (Nat.eqb (length raw) (HDR + n * 4)) then None
    else Some {| exp_values := map (fun i => f32_at raw (HDR + i * 4)) (seq 0 n);
                 local_max := local_max; partial_sum := partial_sum;
                 is_normalized := false |}.

Definition decode_normalized (raw : list ascii) : option SliceStats :=
  let HDR2 := 1 + 4 in
  if Nat.ltb (length raw) HDR2 then None
  else
    let n := Z.to_nat (from_ne_bytes (take 4 (drop 1 raw))) in
    if negb (Nat.eqb (length raw) (HDR2 + n * 4)) then None
    else Some {| exp_values := map (fun i => f32_at raw (HDR2 + i * 4)) (seq 0 n);
                 local_max := f64_zero; partial_sum := f64_one;
                 is_normalized := true |}.

Context `{SJ : !SerdeJson}.

(** The JSON fallback of [read_slice]. *)
Definition decode_json (idx : nat) (raw : list ascii) : result SliceStats string :=
  let? s := ok_or ("slice " +:+ print_nat idx +:+ " not valid UTF-8") (from_utf8 raw) in
  let? j := map_err (fun e => "slice " +:+ print_nat idx +:+ " JSON parse failed: " +:+ e)
              (value_from_str s) in
  let local_max := unwrap_or f64_zero (as_f64_value (value_index j "local_max")) in
  let partial_sum := unwrap_or f64_one (as_f64_value (value_index j "partial_sum")) in
  let? vs := ok_or ("slice " +:+ print_nat idx +:+ " missing exp_values")
               (as_array (value_index j "exp_values")) in
  Ok {| exp_values := omap as_f64_value vs; local_max := local_max;
        partial_sum := partial_sum; is_normalized := false |}.

(** [read_slice] after the Redis read: [Ok None] is "not there yet". *)
Definition decode_slice (idx : nat) (raw : option (list ascii))
  : result (option SliceStats) string :=
  match raw with
  | None => Ok None
  | Some [] => Ok None
  | Some (magic :: rest) =>
      let raw := magic :: rest in
      if (Z_of_byte magic =? 0x01)%Z then Ok (decode_partial raw)
      else if (Z_of_byte magic =? 0x02)%Z then Ok (decode_normalized raw)
      else let? s := decode_json idx raw in Ok (Some s)
  end.
End Wire.

(** ** Integers and bytes *)

Lemma Z_of_byte_of_Z v : Z_of_byte (byte_of_Z v) = wrap 8 v.
Proof.
  unfold Z_of_byte, byte_of_Z. pose proof (wrap_in_width 8 v ltac:(lia)) as H.
  unfold in_width in H. rewrite N_ascii_embedding by (simpl in *; lia). lia.
Qed.

Lemma length_to_le_bytes k v : length (to_le_bytes k v) = k.
Proof. revert v. induction k as [|k IH]; intros v; simpl; [done|by rewrite IH]. Qed.

Lemma from_to_le_bytes k v :
  from_le_bytes (to_le_bytes k v) = wrap (8 * Z.of_nat k) v.
Proof.
  revert v. induction k as [|k IH]; intros v.
  { simpl. unfold wrap. by rewrite Z.mod_1_r. }
  cbn [to_le_bytes from_le_bytes]. rewrite IH, Z_of_byte_of_Z. unfold wrap.
  apply Z.bits_inj'. intros n Hn. rewrite Z.lor_spec, Z.shiftl_spec by done.
  destruct (Z.lt_ge_cases n 8) as [H8|H8].
  - rewrite Z.mod_pow2_bits_low, (Z.testbit_neg_r _ (n - 8)), orb_false_r by lia.
    by rewrite Z.mod_pow2_bits_low by lia.
  - rewrite Z.mod_pow2_bits_high, orb_false_l by lia.
    destruct (Z.lt_ge_cases n (8 * Z.of_nat (S k))).
    + rewrite !Z.mod_pow2_bits_low, Z.shiftr_spec by lia. f_equal. lia.
    + rewrite !Z.mod_pow2_bits_high by lia. done.
Qed.

Lemma from_to_le_small k v :
  in_width (8 * Z.of_nat k) v -> from_le_bytes (to_le_bytes k v) = v.
Proof. intros H. rewrite from_to_le_bytes. by apply wrap_small. Qed.

Lemma length_concat_le k es : length (concat (map (to_le_bytes k) es)) = length es * k.
Proof.
  induction es as [|e es IH]; [done|]. simpl. rewrite length_app, length_to_le_bytes, IH. lia.
Qed.

Lemma concat_le_at k es i e :
  es !! i = Some e -> take k (drop (i * k) (concat (map (to_le_bytes k) es))) = to_le_bytes k e.
Proof.
  revert i. induction es as [|x es IH]; intros [|i]; simpl; try done.
  - intros [= ->]. rewrite drop_0, take_app_le by (by rewrite length_to_le_bytes).
    by rewrite take_ge by (by rewrite length_to_le_bytes).
  - intros H. rewrite drop_app_ge by (rewrite length_to_le_bytes; lia).
    rewrite length_to_le_bytes. replace (k + i * k - k) with (i * k) by lia. by apply IH.
Qed.

Lemma drop_take_head {A} (l r : list A) k n :
  length l = k -> take n (drop k (l ++ r)) = take n r.
Proof. intros <-. by rewrite drop_app_length. Qed.

(** ** Round trips *)

#[local] Arguments to_le_bytes : simpl never.
#[local] Arguments from_le_bytes : simpl never.

Section RoundTrip.
Context `{LM : Libm}.

(** What [encode_partial] needs: numbers of their width, and a count of a
    [u32]. *)
Record wire_ok (p : PartialStats) : Prop := {
  wire_max : in_width 64 (ps_local_max p);
  wire_sum : in_width 64 (ps_partial_sum p);
  wire_exps : Forall (in_width 32) (ps_exp_values p);
  wire_count : in_width 32 (Z.of_nat (length (ps_exp_values p)));
}.

Lemma decode_values hdr (es : list Z) :
  Forall (in_width 32) es ->
  map (fun i => f32_at false (hdr ++ concat (map (to_le_bytes 4) es)) (length hdr + i * 4))
    (seq 0 (length es))
  = map as_f64 es.
Proof.
  intros Hes. apply list_eq. intros i. rewrite !lookup_map.
  destruct (decide (i < length es)) as [Hi|Hi].
  - rewrite lookup_seq_lt by done. destruct (es !! i) as [e|] eqn:E.
    + cbn [Nat.add fmap option_fmap option_map]. unfold f32_at, from_ne_bytes.
      rewrite <- drop_drop, drop_app_length, (concat_le_at 4 es i e E).
      rewrite from_to_le_small; [exact (eq_sym (f_equal (fmap (cast binary32 binary64)) E))|].
      eapply Forall_lookup_1; [exact Hes|exact E].
    + apply lookup_ge_None in E. lia.
  - rewrite lookup_seq_ge, (lookup_ge_None_2 es) by lia. done.
Qed.

Lemma length_encode_partial p :
  length (encode_partial p) = 21 + length (ps_exp_values p) * 4.
Proof.
  unfold encode_partial. rewrite !length_app, !length_to_le_bytes, length_concat_le.
  simpl. lia.
Qed.

(** The fields of the header, read from any prefix that contains it. *)
Lemma partial_header p j :
  wire_ok p -> 21 <= j ->
  let raw := take j (encode_partial p) in
  from_le_bytes (take 8 (drop 1 raw)) = ps_local_max p
  /\ from_le_bytes (take 8 (drop 9 raw)) = ps_partial_sum p
  /\ from_le_bytes (take 4 (drop 17 raw)) = Z.of_nat (length (ps_exp_values p)).
Proof.
  intros [H1 H2 _ H4] Hj. unfold encode_partial. rewrite (wrap_small 32) by done.
  set (es := concat _). cbv zeta.
  rewrite !skipn_firstn_comm, !firstn_firstn, !Nat.min_l by lia.
  assert (forall (a b c d : list ascii), length a = 1 -> length b = 8 -> length c = 8 ->
    take 8 (drop 1 (a ++ b ++ c ++ d)) = b /\ take 8 (drop 9 (a ++ b ++ c ++ d)) = c
    /\ forall e f, d = e ++ f -> length e = 4 -> take 4 (drop 17 (a ++ b ++ c ++ d)) = e) as Hs.
  { intros a b c d Ha Hb Hc. split; [|split].
    - rewrite drop_app_length' by done. by rewrite take_app_length'.
    - rewrite (app_assoc a), drop_app_length' by (rewrite length_app; lia).
      by rewrite take_app_length'.
    - intros e f -> He. rewrite (app_assoc a), (app_assoc _ c), drop_app_length'
        by (rewrite !length_app; lia). by rewrite take_app_length'. }
  destruct (Hs [byte_of_Z MAGIC_PARTIAL] (to_le_bytes 8 (ps_local_max p))
    (to_le_bytes 8 (ps_partial_sum p))
    (to_le_bytes 4 (Z.of_nat (length (ps_exp_values p))) ++ es)) as (-> & -> & Hc);
    [done|apply length_to_le_bytes..|].
  rewrite (Hc _ _ eq_refl) by apply length_to_le_bytes.
  by rewrite !from_to_le_small.
Qed.

Lemma decode_encode_partial p :
  wire_ok p -> decode_partial false (encode_partial p) = Some (received p).
Proof.
  intros Hp. destruct (partial_header p (length (encode_partial p))) as (E1 & E2 & E3);
    [done|rewrite length_encode_partial; lia|].
  rewrite !firstn_all in E1, E2, E3.
  unfold decode_partial, from_ne_bytes. rewrite E1, E2, E3, Nat2Z.id, length_encode_partial.
  rewrite (proj2 (Nat.ltb_ge _ _)) by lia. rewrite (proj2 (Nat.eqb_eq _ _)) by lia.
  cbn [negb]. unfold received. do 2 f_equal.
  unfold encode_partial. rewrite !app_assoc.
  set (hdr := ((_ ++ to_le_bytes 8 _) ++ to_le_bytes 8 _) ++ to_le_bytes 4 _).
  assert (length hdr = 21) as Hh by (unfold hdr; by rewrite !length_app, !length_to_le_bytes).
  change (1 + 8 + 8 + 4) with 21. rewrite <- Hh. apply decode_values, wire_exps, Hp.
Qed.

(** A prefix of a message is never taken for a message. *)
Lemma decode_truncated_partial p j :
  wire_ok p -> j < length (encode_partial p) ->
  decode_partial false (take j (encode_partial p)) = None.
Proof.
  intros Hp Hj. unfold decode_partial. rewrite length_take_le by lia.
  destruct (Nat.ltb_spec j (1 + 8 + 8 + 4)) as [|H21]; [done|].
  destruct (partial_header p j Hp H21) as (_ & _ & E3). unfold from_ne_bytes.
  rewrite E3, Nat2Z.id. rewrite length_encode_partial in Hj.
  by rewrite (proj2 (Nat.eqb_neq _ _)) by lia.
Qed.

Lemma encode_partial_head p : exists rest, encode_partial p = byte_of_Z 1 :: rest.
Proof. unfold encode_partial. eexists. reflexivity. Qed.

Section Slice.
Context `{SJ : !SerdeJson}.

Lemma decode_slice_partial idx p :
  wire_ok p -> decode_slice false idx (Some (encode_partial p)) = Ok (Some (received p)).
Proof.
  intros Hp. pose proof (decode_encode_partial p Hp) as E.
  destruct (encode_partial_head p) as [rest R]. rewrite R in E |- *. simpl. by rewrite E.
Qed.

Lemma decode_slice_truncated idx p j :
  wire_ok p -> j < length (encode_partial p) ->
  decode_slice false idx (Some (take j (encode_partial p))) = Ok None.
Proof.
  intros Hp Hj. pose proof (decode_truncated_partial p j Hp Hj) as E.
  destruct (encode_partial_head p) as [rest R]. rewrite R in E |- *.
  destruct j as [|j]; [done|]. cbn [take] in E |- *. simpl. by rewrite E.
Qed.

(** The normalized format: the probabilities come back, marked as final. *)
Lemma decode_slice_normalized idx (probs : list Z) :
  Forall (in_width 32) probs -> in_width 32 (Z.of_nat (length probs)) ->
  decode_slice false idx (Some (encode_normalized probs))
  = Ok (Some {| exp_values := map as_f64 (probs : list f32); local_max := f64_zero;
                partial_sum := f64_one; is_normalized := true |}).
Proof.
  intros Hp Hn. unfold encode_normalized. change (@f32 ieee) with Z.
  rewrite (wrap_small 32) by done.
  change (decode_slice false idx (Some ([byte_of_Z MAGIC_NORMALIZED] ++ ?r)))
    with (Ok (decode_normalized false ([byte_of_Z MAGIC_NORMALIZED] ++ r))
          : result (option SliceStats) string).
  f_equal. unfold decode_normalized, from_ne_bytes.
  rewrite (drop_take_head [byte_of_Z MAGIC_NORMALIZED]) by done.
  rewrite take_app_length' by (by rewrite length_to_le_bytes).
  rewrite from_to_le_small, Nat2Z.id by done.
  assert (length ([byte_of_Z MAGIC_NORMALIZED] ++ to_le_bytes 4 (Z.of_nat (length probs))
    ++ concat (map (to_le_bytes 4) probs)) = 5 + length probs * 4) as ->
    by (rewrite !length_app, length_to_le_bytes, length_concat_le; simpl; lia).
  rewrite (proj2 (Nat.ltb_ge _ _)) by lia. rewrite (proj2 (Nat.eqb_eq _ _)) by lia.
  cbn [negb]. do 2 f_equal. rewrite app_assoc.
  set (hdr := _ ++ to_le_bytes 4 _).
  assert (length hdr = 5) as Hh by (unfold hdr; by rewrite length_app, length_to_le_bytes).
  change (1 + 4) with 5. rewrite <- Hh. by apply decode_values.
Qed.
End Slice.

(** ** The statistics the workers write fit the format *)

Lemma fold_max_width f `{!WfFormat f} l : forall a,
  in_width (width f) a -> in_width (width f) (fold_left (max_bits f) l a).
Proof.
  induction l as [|x l IH]; intros a Ha; [done|]. apply IH, (to_bits_in_width f).
Qed.

Lemma fold_add_width f `{!WfFormat f} l : forall a,
  in_width (width f) a -> in_width (width f) (fold_left (lift2 f SFadd) l a).
Proof.
  induction l as [|x l IH]; intros a Ha; [done|]. apply IH, (to_bits_in_width f).
Qed.

Lemma softmax_partial_wire_ok (data : list f64) :
  in_width 32 (Z.of_nat (length data)) -> wire_ok (softmax_partial data).
Proof.
  intros Hn. destruct (decide (data = [])) as [->|Hd]; [by split|].
  assert (forall es : list f32, Forall (in_width 32) es -> length es = length data ->
    wire_ok {| ps_local_max := max_f64 data; ps_partial_sum := sum_f64 (map as_f64 es);
               ps_exp_values := es |}) as H.
  { intros es He Hl. split; cbn [ps_local_max ps_partial_sum ps_exp_values].
    - by apply (fold_max_width binary64).
    - by apply (fold_add_width binary64).
    - done.
    - by rewrite Hl. }
  rewrite softmax_partial_cons by done. apply H; [|by rewrite length_map].
  apply Forall_forall. intros y (x & <- & _)%list_elem_of_In%in_map_iff.
  apply (to_bits_in_width binary32).
Qed.
End RoundTrip.

(** ** Properties *)

Section Properties.
Context `{LM : Libm} `{SJ : !SerdeJson}.

(** C22: on a little-endian gateway reading back what [encode_partial] wrote
    gives the worker's statistics, bit for bit, with the exponentials widened
    to f64. *)
Theorem partial_wire_round_trip idx (data : list f64) :
  in_width 32 (Z.of_nat (length data)) ->
  decode_slice false idx (Some (encode_partial (softmax_partial data)))
  = Ok (Some (received (softmax_partial data))).
Proof. intros Hn. apply decode_slice_partial. by apply softmax_partial_wire_ok. Qed.

(** The same for the normalised format of the NCCL mode. *)
Theorem normalized_wire_round_trip idx (probs : list Z) :
  Forall (in_width 32) probs -> in_width 32 (Z.of_nat (length probs)) ->
  decode_slice false idx (Some (encode_normalized probs))
  = Ok (Some {| exp_values := map as_f64 (probs : list f32); local_max := f64_zero;
                partial_sum := f64_one; is_normalized := true |}).
Proof. apply decode_slice_normalized. Qed.

(** C38: what a worker computes as f32 reaches the gateway's f64 arithmetic and
    leaves it as f32 unchanged: in both formats, narrowing the decoded values
    gives the bit patterns the worker encoded, in order, whatever their signs,
    exponents and subnormals; and the flag tells the formats apart. *)
Theorem wire_values_exact idx (stats : PartialStats) :
  wire_ok stats -> Forall (fun x => is_nan binary32 x = false) (ps_exp_values stats) ->
  (exists s, decode_slice false idx (Some (encode_partial stats)) = Ok (Some s)
     /\ is_normalized s = false /\ map as_f32 (exp_values s) = ps_exp_values stats)
  /\ (exists s, decode_slice false idx (Some (encode_normalized (ps_exp_values stats))) = Ok (Some s)
     /\ is_normalized s = true /\ map as_f32 (exp_values s) = ps_exp_values stats).
Proof.
  intros Hw Hn.
  assert (map as_f32 (map as_f64 (ps_exp_values stats)) = ps_exp_values stats) as E.
  { rewrite map_map. rewrite <- (map_id (ps_exp_values stats)) at 2. apply map_ext_in.
    intros x Hx%list_elem_of_In. apply f32_round_trip; [|exact (proj1 (Forall_forall _ _) Hn x Hx)].
    exact (proj1 (Forall_forall _ _) (wire_exps _ Hw) x Hx). }
  split; eexists.
  - split; [by apply decode_slice_partial|]. split; [reflexivity|exact E].
  - split; [apply decode_slice_normalized; apply Hw|]. split; [reflexivity|exact E].
Qed.

(** C23: a slice that is only partly there is never mistaken for one: every
    proper prefix of an encoded slice reads as not ready, and the gateway goes
    on waiting. *)
Theorem partial_wire_truncated idx (data : list f64) j :
  in_width 32 (Z.of_nat (length data)) ->
  j < length (encode_partial (softmax_partial data)) ->
  decode_slice false idx (Some (take j (encode_partial (softmax_partial data)))) = Ok None.
Proof. intros Hn Hj. apply decode_slice_truncated; [by apply softmax_partial_wire_ok|done]. Qed.
End Properties.

(** The values 1.0 and 2.0. *)
Definition demo_data : list Z := [0x3FF0000000000000; 0x4000000000000000]%Z.

Lemma partial_wire_round_trip_witness :
  decode_slice false 0 (Some (encode_partial (softmax_partial demo_data)))
  = Ok (Some (received (softmax_partial demo_data))).
Proof. apply (partial_wire_round_trip 0 demo_data). unfold in_width. simpl. lia. Defined.

Lemma normalized_wire_round_trip_witness :
  decode_slice false 0 (Some (encode_normalized [0x3F000000%Z]))
  = Ok (Some {| exp_values := map as_f64 [0x3F000000%Z]; local_max := f64_zero;
                partial_sum := f64_one; is_normalized := true |}).
Proof.
  apply (normalized_wire_round_trip 0 [0x3F000000%Z]); [|unfold in_width; simpl; lia].
  apply List.Forall_cons; [unfold in_width; lia|constructor].
Defined.

(** A subnormal, a negative number and an infinity. *)
Definition extreme_stats : PartialStats := {|
  ps_local_max := f64_zero; ps_partial_sum := f64_one;
  ps_exp_values := [0x00000001; 0xBF800000; 0x7F800000]%Z |}.

Lemma wire_values_exact_witness :
  (exists s, decode_slice false 0 (Some (encode_partial extreme_stats)) = Ok (Some s)
     /\ is_normalized s = false /\ map as_f32 (exp_values s) = [0x00000001; 0xBF800000; 0x7F800000]%Z)
  /\ (exists s, decode_slice false 0 (Some (encode_normalized [0x00000001; 0xBF800000; 0x7F800000]%Z)) = Ok (Some s)
     /\ is_normalized s = true /\ map as_f32 (exp_values s) = [0x00000001; 0xBF800000; 0x7F800000]%Z).
Proof.
  apply (wire_values_exact 0 extreme_stats).
  - split; [split; vm_compute; congruence..| |split; vm_compute; congruence].
    repeat (apply List.Forall_cons; [split; vm_compute; congruence|]). constructor.
  - repeat (apply List.Forall_cons; [reflexivity|]). constructor.
Defined.

Lemma partial_wire_truncated_witness :
  decode_slice false 0 (Some (take 21 (encode_partial (softmax_partial demo_data)))) = Ok None.
Proof.
  apply (partial_wire_truncated 0 demo_data 21); [unfold in_width; simpl; lia|].
  rewrite length_encode_partial. rewrite softmax_partial_length. simpl. lia.
Defined.
