(* ===== verification/Config.v ===== *)
(** Configuration from the environment: [RedisConfig]
    (gateway-rs/src/config.rs), [num_slices] (service.rs), the world size
    (gateway main.rs), the endpoints of the multi-socket publisher
    (publisher/zmq.rs), and the worker's [Config] (worker-rs/src/main.rs). *)

From Stdlib Require Import ZArith Lia List String Ascii.
From stdpp Require Import base tactics list strings.
From S2P Require Import Prelude Strs.
Local Open Scope string_scope.
#[local] Arguments String.append : simpl nomatch.

(** ** Definitions *)

(** [std::env::var(k).ok()]; the process never changes its environment. *)
Definition environment : Type := string -> option string.

Definition concat_strs : list string -> string := foldr String.append "".

Section Gateway.
Context (env : environment).

(** [hours * 3600] in [u64], or the default. *)
Definition ttl_hours (key : string) (default_secs : Z) : Z :=
  match env key ≫= parse_uint 64 with
  | Some h => wrap 64 (h * 3600)
  | None => default_secs
  end.

Definition result_ttl : Z := ttl_hours "REDIS_TTL_HOURS" 3600.
Definition slice_ttl : Z := ttl_hours "REDIS_TTL_SLICE_HOURS" 7200.
Definition metadata_ttl : Z := ttl_hours "REDIS_TTL_METADATA_HOURS" 86400.
Definition progress_ttl : Z := ttl_hours "REDIS_TTL_PROGRESS_HOURS" 3600.

Definition redis_url : string :=
  let host := unwrap_or "127.0.0.1" (env "REDIS_HOST") in
  let port := unwrap_or 6379%Z (env "REDIS_PORT" ≫= parse_uint 16) in
  match env "REDIS_PASSWORD" with
  | Some pw => concat_strs ["redis://:"; pw; "@"; host; ":"; print_uint port]
  | None => concat_strs ["redis://"; host; ":"; print_uint port]
  end.

(** [num_slices()] *)
Definition num_slices : Z :=
  match env "NUM_SLICES" ≫= parse_uint 64 with
  | Some n => if (0 <? n)%Z then n else 4%Z
  | None => 4%Z
  end.

(** [world_size] of the gateway's [main] *)
Definition world_size : Z :=
  match env "NCCL_WORLD_SIZE" ≫= parse_uint 64 with
  | Some n => if (0 <? n)%Z then n else 4%Z
  | None => 4%Z
  end.

(** [SLICE_TIMEOUT_MS] of [ResultAggregator::new], in milliseconds *)
Definition slice_timeout_ms : Z :=
  unwrap_or 30000%Z (env "SLICE_TIMEOUT_MS" ≫= parse_uint 64).

(** The endpoint [ZmqPublisher::new] binds. *)
Definition push_endpoint : string :=
  unwrap_or "ipc:///tmp/softmax_tasks" (env "ZMQ_PUSH_ENDPOINT").

(** The endpoint [ZmqMultiPublisher::new] binds for a rank. *)
Definition multi_base : string := unwrap_or "ipc:///tmp/softmax" (env "ZMQ_BASE_ENDPOINT").
Definition multi_tcp_mode : bool := contains "tcp" (to_lowercase multi_base).
Definition multi_base_port : Z := unwrap_or 5560%Z (env "ZMQ_BASE_PORT" ≫= parse_uint 16).
Definition multi_port (rank : Z) : Z := wrap 16 (multi_base_port + wrap 16 rank).
Definition multi_endpoint (rank : Z) : string :=
  if multi_tcp_mode
  then concat_strs ["tcp://0.0.0.0:"; print_uint (multi_port rank)]
  else concat_strs [multi_base; "_"; print_uint rank].
End Gateway.

Definition result_key (job_id : string) : string := concat_strs ["result:"; job_id].
Definition slice_key (job_id : string) (slice_id : Z) : string :=
  concat_strs ["result:"; job_id; ":"; print_uint slice_id].
Definition metadata_key (job_id : string) : string := concat_strs ["metadata:"; job_id].
Definition progress_key (job_id : string) : string := concat_strs ["progress:"; job_id].

(** The worker's configuration. *)
Record WorkerConfig := {
  transport : string;
  redis_host : string;
  redis_port : Z;
  zmq_pull_endpoint : string;
  zmq_gateway_addr : string;
  zmq_base_port : Z;
  nccl_rank : Z;
  nccl_world_size : Z;
  num_workers : Z;
  cuda_device : Z;
}.

Section Worker.
Context (env : environment).

Definition env_uint (w : Z) (k : string) (d : Z) : Z := unwrap_or d (env k ≫= parse_uint w).
Definition env_i32 (k : string) (d : Z) : Z := unwrap_or d (env k ≫= parse_int 32).

(** [zmq_base_port + nccl_rank as u16] *)
Definition rank_port (base_port rank : Z) : Z := wrap 16 (base_port + wrap 16 rank).

Definition tcp_endpoint (addr : string) (port : Z) : string :=
  concat_strs ["tcp://"; addr; ":"; print_uint port].

(** [Config::from_env] *)
Definition from_env : WorkerConfig :=
  let nccl_rank := env_i32 "NCCL_RANK" (-1) in
  let zmq_gateway_addr := unwrap_or "" (env "ZMQ_GATEWAY_ADDR") in
  let zmq_base_port := env_uint 16 "ZMQ_BASE_PORT" 5560 in
  let zmq_pull_endpoint :=
    if negb (String.eqb zmq_gateway_addr "") && (0 <=? nccl_rank)%Z
    then tcp_endpoint zmq_gateway_addr (rank_port zmq_base_port nccl_rank)
    else unwrap_or "ipc:///tmp/softmax_tasks" (env "ZMQ_PULL_ENDPOINT") in
  let cuda_device :=
    match env "CUDA_DEVICE" ≫= parse_uint 64 with
    | Some d => d
    | None => if (0 <=? nccl_rank)%Z then nccl_rank else 0%Z
    end in
  {| transport := unwrap_or "zmq" (env "TRANSPORT");
     redis_host := unwrap_or "localhost" (env "REDIS_HOST");
     redis_port := env_uint 16 "REDIS_PORT" 6379;
     zmq_pull_endpoint := zmq_pull_endpoint;
     zmq_gateway_addr := zmq_gateway_addr;
     zmq_base_port := zmq_base_port;
     nccl_rank := nccl_rank;
     nccl_world_size := env_uint 32 "NCCL_WORLD_SIZE" 4;
     num_workers := env_uint 64 "NUM_WORKERS" 4;
     cuda_device := cuda_device |}.
End Worker.

(** The endpoint the worker's [main] connects to in [zmq_nccl] mode. *)
Definition nccl_endpoint (cfg : WorkerConfig) : string :=
  if negb (String.eqb (zmq_gateway_addr cfg) "")
  then tcp_endpoint (zmq_gateway_addr cfg) (rank_port (zmq_base_port cfg) (nccl_rank cfg))
  else zmq_pull_endpoint cfg.

(** ** Lemmas *)

Lemma concat_strs_2 a b : concat_strs [a; b] = a +:+ b.
Proof. unfold concat_strs. simpl. by rewrite append_nil_r. Qed.

Lemma slice_key_eq job i : slice_key job i = "result:" +:+ (job +:+ String ":" (print_uint i)).
Proof. unfold slice_key, concat_strs. cbn [foldr]. by rewrite append_nil_r. Qed.

Lemma colon_free i : (0 <= i)%Z -> has_char ":" (print_uint i) = false.
Proof. intros Hi. by apply print_uint_no_char. Qed.

(** A slice key determines the job and the slice. *)
Lemma slice_key_inj job1 job2 i1 i2 :
  (0 <= i1)%Z -> (0 <= i2)%Z ->
  slice_key job1 i1 = slice_key job2 i2 -> job1 = job2 /\ i1 = i2.
Proof.
  intros H1 H2. rewrite !slice_key_eq. intros E%string_app_inv.
  apply split_last in E as [-> E]; [|by apply colon_free..].
  split; [done|]. by apply print_uint_inj.
Qed.

(** The result key of one job is a slice key of another exactly when the first
    job's name is the other's followed by a colon and the slice number. *)
Lemma result_slice_key job1 job2 i :
  result_key job1 = slice_key job2 i <-> job1 = job2 +:+ String ":" (print_uint i).
Proof.
  rewrite slice_key_eq. unfold result_key. rewrite concat_strs_2. split.
  - apply string_app_inv.
  - by intros ->.
Qed.

Lemma result_key_inj job1 job2 : result_key job1 = result_key job2 -> job1 = job2.
Proof. unfold result_key. rewrite !concat_strs_2. apply string_app_inv. Qed.

Lemma metadata_key_inj job1 job2 : metadata_key job1 = metadata_key job2 -> job1 = job2.
Proof. unfold metadata_key. rewrite !concat_strs_2. apply string_app_inv. Qed.

Lemma metadata_slice_key job1 job2 i : metadata_key job1 <> slice_key job2 i.
Proof. unfold metadata_key, slice_key, concat_strs. cbn. congruence. Qed.

Lemma progress_slice_key job1 job2 i : progress_key job1 <> slice_key job2 i.
Proof. unfold progress_key, slice_key, concat_strs. cbn. congruence. Qed.

Lemma metadata_result_key job1 job2 : metadata_key job1 <> result_key job2.
Proof. unfold metadata_key, result_key, concat_strs. cbn. congruence. Qed.

Lemma progress_result_key job1 job2 : progress_key job1 <> result_key job2.
Proof. unfold progress_key, result_key, concat_strs. cbn. congruence. Qed.

Lemma progress_metadata_key job1 job2 : progress_key job1 <> metadata_key job2.
Proof. unfold progress_key, metadata_key, concat_strs. cbn. congruence. Qed.

Lemma parse_uint_range w s n : (0 <= w)%Z -> parse_uint w s = Some n -> in_width w n.
Proof.
  intros Hw. pose proof (Z.pow_pos_nonneg 2 w ltac:(lia) Hw).
  assert (forall acc t m, (0 <= acc <= 2 ^ w - 1)%Z ->
    parse_digits (2 ^ w - 1) acc t = Some m -> in_width w m) as Hd.
  { intros acc t. revert acc. induction t as [|c t IH]; intros acc m Ha; simpl.
    - intros [= <-]. unfold in_width. lia.
    - unfold digit_of_char. destruct ((48 <=? Z.of_N (N_of_ascii c))%Z && _) eqn:E; [|done].
      simpl. case_match eqn:L; [|done]. apply andb_true_iff in E as [E1%Z.leb_le E2%Z.leb_le].
      apply Z.leb_le in L. apply IH. lia. }
  intros Hp. unfold parse_uint in Hp.
  repeat case_match; try discriminate; try (by eapply Hd; [|exact Hp]; lia).
Qed.

Lemma num_slices_pos env : (0 < num_slices env < 2 ^ 64)%Z.
Proof.
  unfold num_slices. destruct (env "NUM_SLICES" ≫= parse_uint 64) as [n|] eqn:E; [|lia].
  apply bind_Some in E as (s & _ & Hp). apply parse_uint_range in Hp; [|lia].
  unfold in_width in Hp. destruct (Z.ltb_spec 0 n); lia.
Qed.

Lemma world_size_pos env : (0 < world_size env < 2 ^ 64)%Z.
Proof.
  unfold world_size. destruct (env "NCCL_WORLD_SIZE" ≫= parse_uint 64) as [n|] eqn:E; [|lia].
  apply bind_Some in E as (s & _ & Hp). apply parse_uint_range in Hp; [|lia].
  unfold in_width in Hp. destruct (Z.ltb_spec 0 n); lia.
Qed.

Lemma multi_endpoint_port env r1 r2 :
  in_width 16 r1 -> in_width 16 r2 -> multi_port env r1 = multi_port env r2 -> r1 = r2.
Proof.
  unfold multi_port, wrap, in_width. intros H1 H2. rewrite (Z.mod_small r1), (Z.mod_small r2) by done.
  intros E. set (b := multi_base_port env) in *.
  pose proof (Z.div_mod (b + r1) (2 ^ 16) ltac:(lia)).
  pose proof (Z.div_mod (b + r2) (2 ^ 16) ltac:(lia)). lia.
Qed.

Lemma multi_port_range env r : in_width 16 (multi_port env r).
Proof. by apply wrap_in_width. Qed.

(** ** Properties *)

(** C37: different slices are stored under different keys, whatever characters
    the job ids contain, and no slice key is a metadata or a progress key. *)
Theorem slice_keys_distinct job1 job2 i1 i2 :
  (0 <= i1)%Z -> (0 <= i2)%Z ->
  (slice_key job1 i1 = slice_key job2 i2 <-> job1 = job2 /\ i1 = i2)
  /\ metadata_key job1 <> slice_key job2 i2 /\ progress_key job1 <> slice_key job2 i2.
Proof.
  intros H1 H2. split_and!; [|apply metadata_slice_key|apply progress_slice_key].
  split; [by apply slice_key_inj|by intros [-> ->]].
Qed.

Lemma slice_keys_distinct_witness :
  (slice_key "a:1" 2 = slice_key "a" 1 <-> "a:1" = "a" /\ 2%Z = 1%Z)
  /\ metadata_key "a:1" <> slice_key "a" 1 /\ progress_key "a:1" <> slice_key "a" 1.
Proof. apply (slice_keys_distinct "a:1" "a" 2 1); lia. Defined.

(** A job's result key is a slice key of another job exactly when its id is
    the other id followed by a colon and a slice number; the result of the job
    "a:0" overwrites slice 0 of the job "a". *)
Theorem result_key_collision job1 job2 i :
  (result_key job1 = slice_key job2 i <-> job1 = job2 +:+ String ":" (print_uint i))
  /\ result_key "a:0" = slice_key "a" 0.
Proof. split; [apply result_slice_key|reflexivity]. Qed.

(** The endpoints of different ranks are different, over TCP also when the
    port arithmetic wraps around. *)
Theorem multi_endpoint_distinct env r1 r2 :
  in_width 16 r1 -> in_width 16 r2 -> r1 <> r2 -> multi_endpoint env r1 <> multi_endpoint env r2.
Proof.
  intros H1 H2 Hn. unfold multi_endpoint. destruct (multi_tcp_mode env).
  - rewrite !concat_strs_2. intros E%string_app_inv. apply print_uint_inj in E.
    + by apply multi_endpoint_port in E.
    + apply multi_port_range.
    + apply multi_port_range.
  - cbn [concat_strs foldr]. intros E. unfold concat_strs in E. cbn [foldr] in E.
    apply string_app_inv, string_app_inv in E. rewrite !append_nil_r in E.
    unfold in_width in *. apply print_uint_inj in E; lia.
Qed.

(** With the default endpoints the NCCL mode cannot work: the gateway binds
    one IPC path per rank and the worker of every rank connects to another. *)
Theorem default_ipc_endpoints_differ genv wenv rank :
  genv "ZMQ_BASE_ENDPOINT" = None ->
  wenv "ZMQ_GATEWAY_ADDR" = None -> wenv "ZMQ_PULL_ENDPOINT" = None -> (0 <= rank)%Z ->
  multi_endpoint genv rank <> nccl_endpoint (from_env wenv).
Proof.
  intros Hg Ha Hp Hr. unfold multi_endpoint, multi_tcp_mode, multi_base. rewrite Hg.
  unfold nccl_endpoint, from_env. rewrite Ha, Hp. cbn [unwrap_or zmq_gateway_addr zmq_pull_endpoint].
  change (contains "tcp" (to_lowercase "ipc:///tmp/softmax")) with false.
  change "ipc:///tmp/softmax_tasks" with (concat_strs ["ipc:///tmp/softmax"; "_"; "tasks"]).
  unfold concat_strs. cbn [foldr]. intros E%string_app_inv%string_app_inv.
  rewrite append_nil_r in E. pose proof (print_uint_no_char rank "t"%char Hr eq_refl) as Hc.
  rewrite E in Hc. discriminate Hc.
Qed.

(** ** Witnesses *)

Definition no_environment : environment := fun _ => None.

Lemma multi_endpoint_distinct_witness :
  multi_endpoint no_environment 0 <> multi_endpoint no_environment 1.
Proof. apply (multi_endpoint_distinct no_environment 0 1); [unfold in_width; lia..|discriminate]. Defined.

Lemma default_ipc_endpoints_differ_witness :
  multi_endpoint no_environment 0 <> nccl_endpoint (from_env no_environment).
Proof. apply (default_ipc_endpoints_differ no_environment no_environment 0); [done..|lia]. Defined.
