(* ===== verification/Effects.v ===== *)
(** Effectful code: an async function of the source is a [prog], a finite tree
    of the calls it makes to Redis, the clock, the notifier's channels and the
    transport.  A weakest precondition reasons about a program between whose
    calls other tasks and processes run, and is proved sound for the
    interleaving semantics of a pool of programs. *)

From Stdlib Require Import ZArith Lia List String Ascii.
From stdpp Require Import base tactics list strings gmap relations.
From S2P Require Import Prelude.

(** ** Programs *)

(** The tasks that are spawned: the notifier's subscriber and the cache
    manager. *)
Inductive background :=
| SubscriberTask (redis_url : string)
| CacheTask (interval_minutes : Z).

(** The calls.  A fallible one returns the [Result] the library returns, an
    error being its message. *)
Inductive cmd : Type -> Type :=
(** the redis crate: SET, SETEX, GET as bytes and as a [String], EXISTS, TTL,
    KEYS, PUBLISH *)
| RedisSet (key : string) (value : list ascii) : cmd (result () string)
| RedisSetEx (key : string) (value : list ascii) (ttl : Z) : cmd (result () string)
| RedisGet (key : string) : cmd (result (option (list ascii)) string)
| RedisGetStr (key : string) : cmd (result (option string) string)
| RedisExists (key : string) : cmd (result bool string)
| RedisTtl (key : string) : cmd (result Z string)
| RedisKeys (pattern : string) : cmd (result (list string) string)
| RedisPublish (channel payload : string) : cmd (result () string)
(** [SystemTime::now()] in seconds since the epoch, [Instant::now()] in
    nanoseconds, [tokio::time::sleep] *)
| SystemNow : cmd Z
| InstantNow : cmd Z
| Sleep (ns : Z) : cmd ()
(** [watch::channel], the notifier's [DashMap] (whose entries own the senders),
    [send_modify(|v| *v += 1)], and [timeout(ns, rx.changed())] with its result
    ignored *)
| WatchChannel : cmd nat
| JobsInsert (job_id : string) (chan : nat) : cmd ()
| JobsRemove (job_id : string) : cmd ()
| JobsGet (job_id : string) : cmd (option nat)
| WatchSend (chan : nat) : cmd ()
| WaitChanged (chan : nat) (ns : Z) : cmd ()
(** a pub/sub connection: open, PSUBSCRIBE, the channel of the next message *)
| PubsubConnect : cmd (result () string)
| PubsubSubscribe (pattern : string) : cmd (result () string)
| PubsubNext : cmd (option string)
(** a ZMQ PUSH socket on its own thread, behind a channel of [capacity]: the
    result of the thread's set-up; [SyncSender::send] on the channel *)
| SocketOpen (endpoint : string) (capacity : Z) : cmd (result nat string)
| SocketSend (socket : nat) (payload : list ascii) : cmd (result () string)
(** the worker's PULL socket: connect, receive *)
| SocketConnect (endpoint : string) : cmd (result nat string)
| SocketRecv (socket : nat) : cmd (result (list ascii) string)
(** start-up: [Client::open], [ConnectionManager::new], [tokio::spawn] of a
    background task, tonic's [serve] *)
| RedisOpen (url : string) : cmd (result () string)
| RedisConnect (url : string) : cmd (result () string)
| TokioSpawn (task : background) : cmd ()
| Serve (addr : string) : cmd (result () string)
(** CUDA and NCCL: [CudaContext::new], [compile_ptx], the [OnceLock] that holds
    the device of the process (set, with whether it was empty, and get), NCCL's
    unique id and [Comm::from_rank] *)
| CudaContextNew (device : Z) : cmd (result () string)
| CompilePtx : cmd (result () string)
| GpuWorkerSet (device : Z) : cmd bool
| GpuWorkerGet : cmd (option Z)
| NcclUniqueId : cmd (result (list ascii) string)
| NcclInit (device world_size : Z) (id : list ascii) : cmd (result () string).

Inductive prog (A : Type) : Type :=
| Ret (a : A)
| Vis {X : Type} (c : cmd X) (k : X -> prog A)
| Panic
| OutOfFuel.
Arguments Ret {A} a.
Arguments Vis {A X} c k.
Arguments Panic {A}.
Arguments OutOfFuel {A}.

Fixpoint bind {A B} (p : prog A) (f : A -> prog B) : prog B :=
  match p with
  | Ret a => f a
  | Vis c k => Vis c (fun x => bind (k x) f)
  | Panic => Panic
  | OutOfFuel => OutOfFuel
  end.

Definition call {X} (c : cmd X) : prog X := Vis c Ret.

Notation "'let!' x := p 'in' k" := (bind p (fun x => k))
  (at level 10, x pattern, p at level 100, k at level 200).

(** [e?]: return the error, or go on with the value. *)
Definition bind_result {A B E} (p : prog (result A E)) (f : A -> prog (result B E))
  : prog (result B E) :=
  bind p (fun r => match r with Ok a => f a | Err e => Ret (Err e) end).

Notation "'try!' x := p 'in' k" := (bind_result p (fun x => k))
  (at level 10, x pattern, p at level 100, k at level 200).

(** [tokio::task::spawn_blocking(p).await]: a panic of [p] becomes the error
    of the join handle. *)
Fixpoint spawn_blocking {A} (p : prog A) : prog (result A string) :=
  match p with
  | Ret a => Ret (Ok a)
  | Vis c k => Vis c (fun x => spawn_blocking (k x))
  | Panic => Ret (Err "task panicked"%string)
  | OutOfFuel => OutOfFuel
  end.

(** A [for] loop that stops at the first error. *)
Fixpoint for_result {I E} (l : list I) (body : I -> prog (result () E)) : prog (result () E) :=
  match l with
  | [] => Ret (Ok tt)
  | i :: l' => try! _ := body i in for_result l' body
  end.

(** A [for] loop over a state. *)
Fixpoint for_state {I S} (l : list I) (body : I -> S -> prog S) (s : S) : prog S :=
  match l with
  | [] => Ret s
  | i :: l' => let! s' := body i s in for_state l' body s'
  end.

(** ** Weakest preconditions *)

Inductive outcome (A : Type) : Type := Done (a : A) | Panicked | Exhausted.
Arguments Done {A} a.
Arguments Panicked {A}.
Arguments Exhausted {A}.

Section WP.
Context {W : Type}.

(** What a call may do to the world: a relation, so a call may fail or answer
    in several ways. *)
Definition executor : Type := forall X, cmd X -> W -> X -> W -> Prop.

(** Other tasks act before each call. *)
Definition under (rely : W -> W -> Prop) (exec : executor) : executor :=
  fun X c w x w' => exists w1, rely w w1 /\ exec X c w1 x w'.

Fixpoint wp {A} (exec : executor) (p : prog A) (Q : outcome A -> W -> Prop) (w : W) : Prop :=
  match p with
  | Ret a => Q (Done a) w
  | Vis c k => forall x w', exec _ c w x w' -> wp exec (k x) Q w'
  | Panic => Q Panicked w
  | OutOfFuel => Q Exhausted w
  end.

Lemma wp_mono {A} exec (p : prog A) (Q Q' : outcome A -> W -> Prop) : forall w,
  (forall o w', Q o w' -> Q' o w') -> wp exec p Q w -> wp exec p Q' w.
Proof. induction p as [a|X c k IH| |]; simpl; intros w HQ; eauto. Qed.

Lemma wp_bind {A B} exec (p : prog A) (f : A -> prog B) Q : forall w,
  wp exec p (fun o w' => match o with
    | Done a => wp exec (f a) Q w'
    | Panicked => Q Panicked w'
    | Exhausted => Q Exhausted w'
    end) w -> wp exec (bind p f) Q w.
Proof. induction p as [a|X c k IH| |]; simpl; eauto. Qed.

Lemma wp_call {X} exec (c : cmd X) Q w :
  (forall x w', exec _ c w x w' -> Q (Done x) w') -> wp exec (call c) Q w.
Proof. done. Qed.

Lemma wp_exec_mono {A} (exec exec' : executor) (p : prog A) Q : forall w,
  (forall X c w x w', exec' X c w x w' -> exec X c w x w') ->
  wp exec p Q w -> wp exec' p Q w.
Proof. induction p as [a|X c k IH| |]; simpl; eauto. Qed.

Lemma wp_and {A} exec (p : prog A) (Q1 Q2 : outcome A -> W -> Prop) : forall w,
  wp exec p Q1 w -> wp exec p Q2 w -> wp exec p (fun o w' => Q1 o w' /\ Q2 o w') w.
Proof. induction p as [a|X c k IH| |]; simpl; eauto. Qed.

Lemma wp_true {A} exec (p : prog A) : forall w, wp exec p (fun _ _ => True) w.
Proof. induction p as [a|X c k IH| |]; simpl; auto. Qed.

Lemma wp_spawn_blocking {A} exec (p : prog A) Q : forall w,
  wp exec p (fun o w' => match o with
    | Done a => Q (Done (Ok a)) w'
    | Panicked => Q (Done (Err "task panicked"%string)) w'
    | Exhausted => Q Exhausted w'
    end) w -> wp exec (spawn_blocking p) Q w.
Proof. induction p as [a|X c k IH| |]; simpl; eauto. Qed.

(** An invariant of every call is an invariant of the program. *)
Lemma wp_invariant {A} exec (I : W -> Prop) (p : prog A) Q : forall w,
  (forall X c w x w', exec X c w x w' -> I w -> I w') ->
  I w -> wp exec p Q w -> wp exec p (fun o w' => I w' /\ Q o w') w.
Proof. induction p as [a|X c k IH| |]; simpl; eauto. Qed.

(** The same with an assertion at every call, on the state it is made in. *)
Fixpoint wp_at {A} (P : forall X, cmd X -> W -> Prop) (exec : executor) (p : prog A)
    (Q : outcome A -> W -> Prop) (w : W) : Prop :=
  match p with
  | Ret a => Q (Done a) w
  | Vis c k => P _ c w /\ forall x w', exec _ c w x w' -> wp_at P exec (k x) Q w'
  | Panic => Q Panicked w
  | OutOfFuel => Q Exhausted w
  end.

Lemma wp_at_bind {A B} P exec (p : prog A) (f : A -> prog B) Q : forall w,
  wp_at P exec p (fun o w' => match o with
    | Done a => wp_at P exec (f a) Q w'
    | Panicked => Q Panicked w'
    | Exhausted => Q Exhausted w'
    end) w -> wp_at P exec (bind p f) Q w.
Proof. induction p as [a|X c k IH| |]; simpl; [done| |done..]. intros w [HP Hk]. eauto. Qed.

Lemma wp_at_mono {A} P exec (p : prog A) (Q Q' : outcome A -> W -> Prop) : forall w,
  (forall o w', Q o w' -> Q' o w') -> wp_at P exec p Q w -> wp_at P exec p Q' w.
Proof. induction p as [a|X c k IH| |]; simpl; intros w HQ; [auto| |auto..]. intros [HP Hk]. eauto. Qed.

Lemma wp_at_wp {A} P exec (p : prog A) Q : forall w, wp_at P exec p Q w -> wp exec p Q w.
Proof. induction p as [a|X c k IH| |]; simpl; [done| |done..]. intros w [_ Hk]. eauto. Qed.

(** The calls a program can make, whatever it is answered. *)
Fixpoint uses (P : forall X, cmd X -> Prop) {A} (p : prog A) : Prop :=
  match p with
  | Vis c k => P _ c /\ forall x, uses P (k x)
  | _ => True
  end.

Lemma uses_mono (P P' : forall X, cmd X -> Prop) {A} (p : prog A) :
  (forall X (c : cmd X), P X c -> P' X c) -> uses P p -> uses P' p.
Proof. intros HP. induction p as [a|X c k IH| |]; simpl; [done| |done..]. intros [Hc Hk]. auto. Qed.

Lemma uses_bind P {A B} (p : prog A) (f : A -> prog B) :
  uses P p -> (forall a, uses P (f a)) -> uses P (bind p f).
Proof.
  intros Hp Hf. induction p as [a|X c k IH| |]; simpl in *; [auto| |done..].
  destruct Hp as [Hc Hk]. split; [done|]. intros x. by apply IH.
Qed.

Lemma uses_spawn_blocking P {A} (p : prog A) : uses P p -> uses P (spawn_blocking p).
Proof. induction p as [a|X c k IH| |]; simpl; [done| |done..]. intros [Hc Hk]. auto. Qed.

Lemma uses_call P {X} (c : cmd X) : P _ c -> uses P (call c).
Proof. done. Qed.

Lemma uses_for_state P {I S} (l : list I) (body : I -> S -> prog S) : forall s,
  (forall i s, uses P (body i s)) -> uses P (for_state l body s).
Proof. induction l as [|i l IH]; intros s H; simpl; [done|]. apply uses_bind; auto. Qed.

Lemma uses_for_result P {I E} (l : list I) (body : I -> prog (result () E)) :
  (forall i, uses P (body i)) -> uses P (for_result l body).
Proof.
  intros H. induction l as [|i l IH]; simpl; [done|]. apply uses_bind; [done|].
  by intros [[]|e].
Qed.

Lemma wp_uses P {A} exec (I : W -> Prop) (p : prog A) : forall w,
  (forall X (c : cmd X) w x w', P X c -> exec X c w x w' -> I w -> I w') ->
  uses P p -> I w -> wp exec p (fun _ w' => I w') w.
Proof.
  induction p as [a|X c k IH| |]; simpl; intros w HI Hp Hw; try done.
  destruct Hp as [Hc Hk]. eauto.
Qed.

Lemma wp_at_uses (P : forall X, cmd X -> W -> Prop) {A} exec (p : prog A) Q : forall w,
  uses (fun X c => forall w, P X c w) p -> wp exec p Q w -> wp_at P exec p Q w.
Proof. induction p as [a|X c k IH| |]; simpl; [done| |done..]. intros w [Hc Hk]. eauto. Qed.

(** A program of which only the effect matters. *)
Definition forget {A} (p : prog A) : prog () := bind p (fun _ => Ret tt).

Lemma uses_forget (P : forall X, cmd X -> Prop) {A} (p : prog A) : uses P p -> uses P (forget p).
Proof. intros Hp. by apply uses_bind. Qed.

(** ** Running a program with a function that answers the calls *)

Definition handler : Type := forall X, cmd X -> W -> X * W.
Definition handles (h : handler) : executor := fun X c w x w' => h X c w = (x, w').

Fixpoint run {A} (h : handler) (p : prog A) (w : W) : outcome A * W :=
  match p with
  | Ret a => (Done a, w)
  | Vis c k => let '(x, w') := h _ c w in run h (k x) w'
  | Panic => (Panicked, w)
  | OutOfFuel => (Exhausted, w)
  end.

Lemma wp_run {A} h (p : prog A) Q : forall w,
  wp (handles h) p Q w <-> Q (run h p w).1 (run h p w).2.
Proof.
  induction p as [a|X c k IH| |]; intros w; simpl; [done| |done..].
  destruct (h X c w) as [x w'] eqn:E. rewrite <- IH. split.
  - intros H. apply H. apply E.
  - intros H x1 w1 E1. unfold handles in E1. rewrite E in E1. by simplify_eq.
Qed.

(** ** Interleaving *)

Section Pool.
Context {A B : Type} (exec : executor).

(** A program among others: a step is one call of one of them. *)
Inductive pool_step : prog A * list (prog B) * W -> prog A * list (prog B) * W -> Prop :=
| step_main X (c : cmd X) k ps w x w' :
    exec X c w x w' -> pool_step (Vis c k, ps, w) (k x, ps, w')
| step_other X (c : cmd X) k main i ps w x w' :
    ps !! i = Some (Vis c k) -> exec X c w x w' ->
    pool_step (main, ps, w) (main, <[i := k x]> ps, w').

(** What a program does to the world, call by call. *)
Fixpoint guarantees (G : W -> W -> Prop) (p : prog B) : Prop :=
  match p with
  | Vis c k => forall x, (forall w w', exec _ c w x w' -> G w w')
      /\ ((exists w w', exec _ c w x w') -> guarantees G (k x))
  | _ => True
  end.

(** A scheduler: [None] lets the main program move, [Some i] the [i]-th other. *)
Definition sched_step (h : handler) (t : option nat) (c : prog A * list (prog B) * W)
  : prog A * list (prog B) * W :=
  let '(main, ps, w) := c in
  match t with
  | None => match main with
            | Vis c k => let '(x, w') := h _ c w in (k x, ps, w')
            | _ => (main, ps, w)
            end
  | Some i => match ps !! i with
              | Some (Vis c k) => let '(x, w') := h _ c w in (main, <[i := k x]> ps, w')
              | _ => (main, ps, w)
              end
  end.
Definition schedule (h : handler) (ts : list (option nat)) (c : prog A * list (prog B) * W)
  : prog A * list (prog B) * W := fold_left (fun c t => sched_step h t c) ts c.

Lemma schedule_sound h ts : exec = handles h -> forall c, rtc pool_step c (schedule h ts c).
Proof.
  intros Hh. induction ts as [|t ts IH]; intros [[main ps] w]; [reflexivity|].
  unfold schedule. simpl. fold (schedule h ts). destruct t as [i|].
  - destruct (ps !! i) as [[a|X c k| |]|] eqn:E; try apply IH.
    destruct (h X c w) as [x w'] eqn:Eh. eapply rtc_l; [|apply IH].
    eapply step_other; [done|]. by rewrite Hh.
  - destruct main as [a|X c k| |]; try apply IH.
    destruct (h X c w) as [x w'] eqn:Eh. eapply rtc_l; [|apply IH].
    eapply step_main. by rewrite Hh.
Qed.

Lemma guarantees_uses (G : W -> W -> Prop) (P : forall X, cmd X -> Prop) (p : prog B) :
  (forall X (c : cmd X) w x w', P X c -> exec X c w x w' -> G w w') ->
  uses P p -> guarantees G p.
Proof.
  intros HG. induction p as [b|X c k IH| |]; simpl; [done| |done..].
  intros [Hc Hk] x. split; [eauto|]. intros _. by apply IH.
Qed.

(** A weakest precondition computed against the rely holds of every
    interleaving with programs that respect it. *)
Lemma pool_sound (R : W -> W -> Prop) (Q : outcome A -> W -> Prop) `{!PreOrder R} :
  forall main ps w main' ps' w',
  rtc pool_step (main, ps, w) (main', ps', w') ->
  (exists w0, R w0 w /\ wp (under R exec) main Q w0) ->
  Forall (guarantees R) ps ->
  exists w0, R w0 w' /\ wp (under R exec) main' Q w0.
Proof.
  intros main ps w main' ps' w' Hs.
  remember (main, ps, w) as c eqn:Ec. remember (main', ps', w') as c' eqn:Ec'.
  revert main ps w Ec main' ps' w' Ec'.
  induction Hs as [c|c c1 c2 Hstep Hs IH]; intros main ps w -> main' ps' w' E.
  { by simplify_eq. }
  intros (w0 & HR & Hwp) Hg.
  inversion Hstep as [X c k ps0 w1 x w2 He|X c k m i ps0 w1 x w2 Hi He]; simplify_eq.
  - eapply IH; [done..| |done]. exists w2. split; [reflexivity|].
    simpl in Hwp. apply Hwp. by exists w.
  - pose proof (Forall_lookup_1 _ _ _ _ Hg Hi) as Hp. simpl in Hp. destruct (Hp x) as [H1 H2].
    eapply IH; [done..| |].
    + exists w0. split; [|done]. etransitivity; [exact HR|]. by eapply H1.
    + apply Forall_insert; [done|]. apply H2. eauto.
Qed.
End Pool.
End WP.
Arguments executor W : clear implicits.
Arguments handler W : clear implicits.

(** ** Traces

    The calls a program makes and their answers, for any answers. *)

Inductive event : Type :=
| Event {X : Type} (c : cmd X) (x : X).

Definition tracing : executor (list event) :=
  fun X c w x w' => w' = w ++ [Event c x].
