(* ===== verification/Runtime.v ===== *)
(** What the program may assume of the services it calls: Redis, the clocks,
    tokio's watch channels, the job map.  Each promise is a relation between a
    view of the world before a call, the answer and the view after it; the
    class [Runtime] collects them, and [Sim] is a concrete world that keeps
    them, on which programs can be run. *)

From Stdlib Require Import ZArith Lia List String Ascii.
From stdpp Require Import base tactics list strings gmap.
From S2P Require Import Prelude Strs Effects.

(** ** The promises *)

(** The keys that are live in Redis and their values.  A call that fails may or
    may not have been carried out; SETEX refuses a TTL of zero. *)
Definition store_step {X} (c : cmd X)
  : gmap string (list ascii) -> X -> gmap string (list ascii) -> Prop :=
  match c in cmd X return
    gmap string (list ascii) -> X -> gmap string (list ascii) -> Prop with
  | RedisSet k v => fun s r s' =>
      match r with Ok _ => s' = <[k := v]> s | Err _ => s' = s \/ s' = <[k := v]> s end
  | RedisSetEx k v ttl => fun s r s' =>
      match r with
      | Ok _ => (0 < ttl)%Z /\ s' = <[k := v]> s
      | Err _ => s' = s \/ s' = <[k := v]> s
      end
  | RedisGet k => fun s r s' =>
      s' = s /\ match r with Ok o => o = s !! k | Err _ => True end
  | RedisGetStr k => fun s r s' =>
      s' = s /\ match r with
                | Ok None => s !! k = None
                | Ok (Some t) => exists b, s !! k = Some b /\ from_utf8 b = Some t
                | Err _ => True
                end
  | RedisExists k => fun s r s' =>
      s' = s /\ match r with Ok b => b = bool_decide (is_Some (s !! k)) | Err _ => True end
  | _ => fun s _ s' => s' = s
  end.

(** The monotonic clock, in nanoseconds. *)
Definition clock_step {X} (c : cmd X) : Z -> X -> Z -> Prop :=
  match c in cmd X return Z -> X -> Z -> Prop with
  | InstantNow => fun t r t' => r = t' /\ (t <= t')%Z
  | Sleep ns => fun t _ t' => (t + ns <= t')%Z
  | _ => fun t _ t' => (t <= t')%Z
  end.

(** The entries of the notifier's map and the counters of its watch channels.
    A new channel is not in use. *)
Definition jobs_step {X} (c : cmd X)
  : gmap string nat * gmap nat Z -> X -> gmap string nat * gmap nat Z -> Prop :=
  match c in cmd X return
    gmap string nat * gmap nat Z -> X -> gmap string nat * gmap nat Z -> Prop with
  | WatchChannel => fun s ch s' =>
      s.2 !! ch = None /\ (forall j, s.1 !! j <> Some ch) /\ s' = (s.1, <[ch := 0%Z]> s.2)
  | JobsInsert j ch => fun s _ s' => s' = (<[j := ch]> s.1, s.2)
  | JobsRemove j => fun s _ s' => s' = (delete j s.1, s.2)
  | JobsGet j => fun s r s' => r = s.1 !! j /\ s' = s
  | WatchSend ch => fun s _ s' => s' = (s.1, alter Z.succ ch s.2)
  | _ => fun s _ s' => s' = s
  end.

(** The device of the process: set at most once. *)
Definition device_step {X} (c : cmd X) : option Z -> X -> option Z -> Prop :=
  match c in cmd X return option Z -> X -> option Z -> Prop with
  | GpuWorkerSet d => fun s r s' =>
      match s with
      | None => r = true /\ s' = Some d
      | Some _ => r = false /\ s' = s
      end
  | GpuWorkerGet => fun s r s' => r = s /\ s' = s
  | _ => fun s _ s' => s' = s
  end.

Class Runtime {W : Type} (exec : executor W) := {
  store : W -> gmap string (list ascii);
  clock : W -> Z;
  jobs : W -> gmap string nat * gmap nat Z;
  gpu_device : W -> option Z;
  exec_store X (c : cmd X) w x w' : exec X c w x w' -> store_step c (store w) x (store w');
  exec_clock X (c : cmd X) w x w' : exec X c w x w' -> clock_step c (clock w) x (clock w');
  exec_jobs X (c : cmd X) w x w' : exec X c w x w' -> jobs_step c (jobs w) x (jobs w');
  exec_device X (c : cmd X) w x w' :
    exec X c w x w' -> device_step c (gpu_device w) x (gpu_device w');
}.

(** ** A concrete world

    Every call succeeds at once.  [env] says what the rest of the system does
    while the program waits: the next entry is a batch of keys that appear in
    Redis during the next wait.  [log] records what was published and sent. *)

Record sim := {
  sim_store : gmap string (list ascii);
  sim_clock : Z;
  sim_jobs : gmap string nat;
  sim_chans : gmap nat Z;
  sim_env : list (list (string * list ascii));
  sim_log : list (string * string);
  sim_sent : list (nat * list ascii);
  sim_device : option Z;
}.

Definition sim_init (env : list (list (string * list ascii))) : sim := {|
  sim_store := ∅; sim_clock := 0; sim_jobs := ∅; sim_chans := ∅;
  sim_env := env; sim_log := []; sim_sent := []; sim_device := None |}.

Definition sim_set_store (s : gmap string (list ascii)) (w : sim) : sim := {|
  sim_store := s; sim_clock := sim_clock w; sim_jobs := sim_jobs w;
  sim_chans := sim_chans w; sim_env := sim_env w; sim_log := sim_log w;
  sim_sent := sim_sent w; sim_device := sim_device w |}.

Definition sim_set_jobs (j : gmap string nat) (c : gmap nat Z) (w : sim) : sim := {|
  sim_store := sim_store w; sim_clock := sim_clock w; sim_jobs := j;
  sim_chans := c; sim_env := sim_env w; sim_log := sim_log w;
  sim_sent := sim_sent w; sim_device := sim_device w |}.

Definition sim_tick (ns : Z) (w : sim) : sim := {|
  sim_store := sim_store w; sim_clock := sim_clock w + Z.max 0 ns; sim_jobs := sim_jobs w;
  sim_chans := sim_chans w; sim_env := sim_env w; sim_log := sim_log w;
  sim_sent := sim_sent w; sim_device := sim_device w |}.

Definition sim_append (log : list (string * string)) (sent : list (nat * list ascii)) (w : sim)
  : sim := {|
  sim_store := sim_store w; sim_clock := sim_clock w; sim_jobs := sim_jobs w;
  sim_chans := sim_chans w; sim_env := sim_env w; sim_log := sim_log w ++ log;
  sim_sent := sim_sent w ++ sent;
  sim_device := sim_device w |}.

Definition sim_set_device (d : option Z) (w : sim) : sim := {|
  sim_store := sim_store w; sim_clock := sim_clock w; sim_jobs := sim_jobs w;
  sim_chans := sim_chans w; sim_env := sim_env w; sim_log := sim_log w;
  sim_sent := sim_sent w; sim_device := d |}.

(** The rest of the system takes its turn: the next batch of writes. *)
Definition sim_turn (w : sim) : sim :=
  match sim_env w with
  | [] => w
  | b :: env => {|
      sim_store := foldr (fun kv s => <[kv.1 := kv.2]> s) (sim_store w) b;
      sim_clock := sim_clock w; sim_jobs := sim_jobs w; sim_chans := sim_chans w;
      sim_env := env; sim_log := sim_log w; sim_sent := sim_sent w;
      sim_device := sim_device w |}
  end.

Definition sim_fresh (w : sim) : nat :=
  S (foldr max 0 (map_to_list (sim_chans w)).*1 + foldr max 0 (map_to_list (sim_jobs w)).*2).

Definition sim_handler : handler sim := fun X c =>
  match c in cmd X return sim -> X * sim with
  | RedisSet k v => fun w => (Ok tt, sim_set_store (<[k := v]> (sim_store w)) w)
  | RedisSetEx k v ttl => fun w =>
      if (0 <? ttl)%Z then (Ok tt, sim_set_store (<[k := v]> (sim_store w)) w)
      else (Err "ERR invalid expire time in 'setex' command"%string, w)
  | RedisGet k => fun w => (Ok (sim_store w !! k), w)
  | RedisGetStr k => fun w =>
      (match sim_store w !! k with
       | None => Ok None
       | Some b => match from_utf8 b with
                   | Some s => Ok (Some s)
                   | None => Err "Invalid UTF-8"%string
                   end
       end, w)
  | RedisExists k => fun w => (Ok (bool_decide (is_Some (sim_store w !! k))), w)
  | RedisTtl k => fun w =>
      (Ok (match sim_store w !! k with Some _ => -1 | None => -2 end)%Z, w)
  | RedisKeys pat => fun w => (Ok (map_to_list (sim_store w)).*1, w)
  | RedisPublish ch p => fun w => (Ok tt, sim_append [(ch, p)] [] w)
  | SystemNow => fun w => (0%Z, w)
  | InstantNow => fun w => (sim_clock w, w)
  | Sleep ns => fun w => (tt, sim_tick ns w)
  | WatchChannel => fun w =>
      (sim_fresh w, sim_set_jobs (sim_jobs w) (<[sim_fresh w := 0%Z]> (sim_chans w)) w)
  | JobsInsert j ch => fun w => (tt, sim_set_jobs (<[j := ch]> (sim_jobs w)) (sim_chans w) w)
  | JobsRemove j => fun w => (tt, sim_set_jobs (delete j (sim_jobs w)) (sim_chans w) w)
  | JobsGet j => fun w => (sim_jobs w !! j, w)
  | WatchSend ch => fun w => (tt, sim_set_jobs (sim_jobs w) (alter Z.succ ch (sim_chans w)) w)
  | WaitChanged ch ns => fun w => (tt, sim_tick ns w)
  | PubsubConnect => fun w => (Ok tt, w)
  | PubsubSubscribe pat => fun w => (Ok tt, w)
  | PubsubNext => fun w => (None, w)
  | SocketOpen ep cap => fun w => (Ok 0, w)
  | SocketSend s p => fun w => (Ok tt, sim_append [] [(s, p)] w)
  | SocketConnect ep => fun w => (Ok 0, w)
  | SocketRecv s => fun w => (Err "no message"%string, w)
  | RedisOpen url => fun w => (Ok tt, w)
  | RedisConnect url => fun w => (Ok tt, w)
  | TokioSpawn t => fun w => (tt, w)
  | Serve addr => fun w => (Ok tt, w)
  | CudaContextNew d => fun w => (Ok tt, w)
  | CompilePtx => fun w => (Ok tt, w)
  | GpuWorkerSet d => fun w =>
      match sim_device w with
      | None => (true, sim_set_device (Some d) w)
      | Some _ => (false, w)
      end
  | GpuWorkerGet => fun w => (sim_device w, w)
  | NcclUniqueId => fun w => (Ok (replicate 128 "000"%char), w)
  | NcclInit d n id => fun w => (Ok tt, w)
  end.

(** The same world when the rest of the system moves at every wait. *)
Definition sim_run_handler : handler sim := fun X c w =>
  let w1 := match c with WaitChanged _ _ => sim_turn w | _ => w end in
  sim_handler X c w1.

Lemma foldr_max_le (l : list nat) x : In x l -> x <= foldr max 0 l.
Proof. induction l as [|y l IH]; simpl; [done|]. intros [->|H]; [lia|]. apply IH in H. lia. Qed.

Lemma sim_fresh_spec w :
  sim_chans w !! sim_fresh w = None /\ forall j, sim_jobs w !! j <> Some (sim_fresh w).
Proof.
  unfold sim_fresh. split.
  - destruct (sim_chans w !! _) as [v|] eqn:E; [|done]. apply elem_of_map_to_list in E.
    apply (list_elem_of_fmap_2 fst) in E. apply list_elem_of_In, foldr_max_le in E.
    simpl in E. lia.
  - intros j E. apply elem_of_map_to_list in E. apply (list_elem_of_fmap_2 snd) in E.
    apply list_elem_of_In, foldr_max_le in E. simpl in E. lia.
Qed.

#[export] Instance sim_runtime : Runtime (handles sim_handler).
Proof.
  refine {| store := sim_store; clock := sim_clock;
            jobs := fun w => (sim_jobs w, sim_chans w); gpu_device := sim_device |};
    intros X c w x w' E; unfold handles in E;
    pose proof (sim_fresh_spec w); destruct c; simpl in *;
    repeat case_match; simplify_eq/=; split_and?; try done; try lia; eauto.
  all: apply sim_fresh_spec.
Defined.
