(* ===== verification/Devices.v ===== *)
(** The CUDA devices of the two processes and the [OnceLock] statics that hold
    them: [init], [global], [GpuWorker::new] and [NcclWorker::new] of
    worker-rs/src/gpu_worker.rs; [try_new], [init] and [global] of
    gateway-rs/src/gpu_aggregator.rs. *)

From Stdlib Require Import ZArith Lia List String Ascii.
From stdpp Require Import base tactics list strings gmap.
From S2P Require Import Prelude Strs Effects Runtime.
Local Open Scope string_scope.
Local Open Scope list_scope.

(** ** The worker *)

(** [GpuWorker::new]: a context on the device and the compiled kernels. *)
Definition GpuWorker_new (device_id : Z) : prog (result () string) :=
  let! r := call (CudaContextNew device_id) in
  try! _ := Ret (map_err (fun _ => "init CUDA device " +:+ print_uint device_id) r) in
  let! r := call CompilePtx in
  Ret (map_err (fun _ => "NVRTC: compile partial_softmax.cu") r).

(** [init] *)
Definition gpu_worker_init (device_id : Z) : prog (result () string) :=
  try! _ := GpuWorker_new device_id in
  let! fresh := call (GpuWorkerSet device_id) in
  Ret (if fresh then Ok tt else Err "GPU worker already initialized").

(** [global], and what is done with the device: a panic if [init] did not
    succeed before. *)
Definition global_worker {A} (k : prog A) : prog A :=
  let! w := call GpuWorkerGet in
  match w with
  | Some _ => k
  | None => Panic
  end.

(** [NcclWorker::new] *)
Definition NcclWorker_new (device_id world_size : Z) (id : list ascii) : prog (result () string) :=
  try! _ := GpuWorker_new device_id in
  let! r := call (NcclInit device_id world_size id) in
  Ret (map_err (fun e => "NCCL Comm::from_rank: " +:+ e) r).

(** ** The gateway *)

(** [GpuAggregator]: the CUDA driver's answer to each call, and the launch
    configuration. *)
Record GpuAggregator := {
  driver : string -> option string;
  launch_config : Z -> nat * nat;
}.

(** [OnceLock::get_or_init] on a static cell. *)
Definition get_or_init {A} (f : () -> A) (cell : option A) : A * option A :=
  match cell with
  | Some a => (a, cell)
  | None => let a := f tt in (a, Some a)
  end.

Section Gateway.
(** What the driver answers at the time of the call, and cudarc's
    [LaunchConfig::for_num_elems]. *)
Context (cuda : string -> option string) (for_num_elems : Z -> nat * nat).

Definition GpuAggregator_init (device_id : Z) : result GpuAggregator string :=
  match cuda ("CudaContext::new " +:+ print_uint device_id) with
  | Some _ => Err "CudaContext::new"
  | None =>
      match cuda "compile_ptx" with
      | Some _ => Err "NVRTC compile_ptx"
      | None => Ok {| driver := cuda; launch_config := for_num_elems |}
      end
  end.

Definition try_new (device_id : Z) : option GpuAggregator := ok (GpuAggregator_init device_id).

(** [global]: the cell is empty until the first request. *)
Definition aggregator_global (device_id : Z) (cell : option (option GpuAggregator))
  : option GpuAggregator * option (option GpuAggregator) :=
  get_or_init (fun _ => try_new device_id) cell.
End Gateway.

(** ** Lemmas *)

Lemma get_or_init_once {A} (f g : () -> A) cell :
  let '(a, cell') := get_or_init f cell in get_or_init g cell' = (a, cell').
Proof. by destruct cell. Qed.

Section Spec.
Context {W : Type} (exec : executor W) `{RT : !Runtime exec}.

(** A device that is set stays set, whatever is called. *)
Lemma device_stays X (c : cmd X) w x w' d :
  exec X c w x w' -> gpu_device w = Some d -> gpu_device w' = Some d.
Proof.
  intros E Hd. pose proof (exec_device _ _ _ _ _ E) as Hs.
  destruct c; simpl in Hs; rewrite Hd in Hs; solve [exact Hs|exact (proj2 Hs)].
Qed.

Lemma wp_device_stays {A} (p : prog A) w d :
  gpu_device w = Some d -> wp exec p (fun _ w' => gpu_device w' = Some d) w.
Proof.
  intros Hd. apply (wp_mono _ _ (fun o w' => gpu_device w' = Some d /\ True)); [tauto|].
  apply wp_invariant; [|done|].
  - intros X c w1 x w2 E H1. by eapply device_stays.
  - apply wp_true.
Qed.

(** [init] on a process without a device succeeds exactly when the context and
    the kernels are there, and then the device is set. *)
Lemma wp_gpu_worker_init device_id w (Q : outcome (result () string) -> W -> Prop) :
  gpu_device w = None ->
  (forall w', gpu_device w' = Some device_id -> Q (Done (Ok tt)) w') ->
  (forall e w', gpu_device w' = None -> Q (Done (Err e)) w') ->
  wp exec (gpu_worker_init device_id) Q w.
Proof.
  intros H0 HS HE. unfold gpu_worker_init, GpuWorker_new. simpl.
  intros r w1 E1. pose proof (exec_device _ _ _ _ _ E1) as D1. simpl in D1. rewrite H0 in D1.
  destruct r as [[]|e]; [|by apply HE]. simpl.
  intros r w2 E2. pose proof (exec_device _ _ _ _ _ E2) as D2. simpl in D2. rewrite D1 in D2.
  destruct r as [[]|e]; [|by apply HE]. simpl.
  intros b w3 E3. pose proof (exec_device _ _ _ _ _ E3) as D3. simpl in D3. rewrite D2 in D3.
  destruct D3 as [-> D3]. by apply HS.
Qed.
End Spec.
