(* ===== verification/RedisManager.v ===== *)
(** [RedisManager] (gateway-rs/src/redis_manager.rs): the typed Redis
    operations of the gateway, and the cache statistics task
    (gateway-rs/src/cache_manager.rs) built on them. *)

From Stdlib Require Import ZArith Lia List String Ascii.
From stdpp Require Import base tactics list strings gmap.
From S2P Require Import Prelude Strs Scalar Json Config Effects Runtime.
Local Open Scope string_scope.

(** ** Definitions *)

Section Redis.
Context (env : environment) `{SJ : SerdeJson}.

(** Low-level helpers *)

Definition set_ex (key value : string) (ttl : Z) : prog (result () string) :=
  call (RedisSetEx key (as_bytes value) ttl).

Definition get_bytes (key : string) : prog (result (option (list ascii)) string) :=
  call (RedisGet key).

Definition get_str (key : string) : prog (result (option string) string) :=
  call (RedisGetStr key).

Definition redis_exists (key : string) : prog bool :=
  let! r := call (RedisExists key) in Ret (unwrap_or false (ok r)).

Definition redis_ttl (key : string) : prog Z :=
  let! r := call (RedisTtl key) in Ret (unwrap_or (-1)%Z (ok r)).

Definition keys_by_pattern (pattern : string) : prog (list string) :=
  let! r := call (RedisKeys pattern) in Ret (unwrap_or [] (ok r)).

(** Domain operations *)

Definition set_job_metadata (job_id : string) (meta : JobMetadata) : prog (result () string) :=
  let key := metadata_key job_id in
  try! value := Ret (metadata_to_string meta) in
  set_ex key value (metadata_ttl env).

Definition get_job_metadata (job_id : string) : prog (result (option JobMetadata) string) :=
  let key := metadata_key job_id in
  try! r := get_str key in
  match r with
  | None => Ret (Ok None)
  | Some s => Ret (let? m := metadata_from_str s in Ok (Some m))
  end.

Definition update_progress (job_id status : string) : prog (result () string) :=
  let key := progress_key job_id in
  let! now := call SystemNow in
  let value := progress_to_string job_id status now in
  set_ex key value (progress_ttl env).

Definition store_final_result (job_id result_json : string) : prog (result () string) :=
  let key := result_key job_id in
  try! _ := set_ex key result_json (result_ttl env) in
  try! _ := update_progress job_id "completed" in
  Ret (Ok tt).

(** [get_completed_slice_count]: one EXISTS per slice *)
Definition get_completed_slice_count (job_id : string) (total_slices : nat) : prog nat :=
  for_state (seq 0 total_slices) (fun i count =>
    let! b := redis_exists (slice_key job_id (Z.of_nat i)) in
    Ret (if b then S count else count)) 0.

(** [run_cleanup]: count the keys, and those that expired since KEYS returned
    them; nothing is deleted.  The result is the line that is logged: total,
    result, metadata, progress, expired. *)
Definition run_cleanup : prog (nat * nat * nat * nat * nat) :=
  let! result_keys := keys_by_pattern "result:*" in
  let! metadata_keys := keys_by_pattern "metadata:*" in
  let! progress_keys := keys_by_pattern "progress:*" in
  let total := length result_keys + length metadata_keys + length progress_keys in
  let! expired := for_state (app result_keys (app metadata_keys progress_keys))
    (fun key expired =>
       let! t := redis_ttl key in
       Ret (if (t =? -2)%Z then S expired else expired)) 0 in
  Ret (total, length result_keys, length metadata_keys, length progress_keys, expired).

(** [spawn]: sleep, clean up, for ever; [n] rounds of it. *)
Definition cache_manager (interval_minutes : Z) (n : nat) : prog () :=
  for_state (seq 0 n) (fun _ _ =>
    let! _ := call (Sleep (wrap 64 (interval_minutes * 60) * 1000000000)) in
    let! _ := run_cleanup in
    Ret tt) tt.
End Redis.

(** ** Lemmas *)

(** Reading leaves Redis as it is. *)
Definition read_only {X} (c : cmd X) : Prop :=
  match c with RedisSet _ _ | RedisSetEx _ _ _ => False | _ => True end.

Lemma read_only_store {X} (c : cmd X) s x s' :
  read_only c -> store_step c s x s' -> s' = s.
Proof.
  intros Hr. destruct c; try (by destruct Hr); simpl.
  all: try (by intros ->).
  all: by intros [-> _].
Qed.

Section Spec.
Context {W : Type} (exec : executor W) `{RT : !Runtime exec}.

(** The loop rule: an invariant indexed by the position in the list. *)
Lemma wp_for_state {I S} (Inv : nat -> S -> W -> Prop) (l : list I) (body : I -> S -> prog S) Q :
  forall k s w,
  (forall j i s w, l !! j = Some i -> Inv (k + j) s w ->
     wp exec (body i s) (fun o w' => match o with
       | Done s' => Inv (k + Datatypes.S j) s' w' | Panicked => Q Panicked w' | Exhausted => Q Exhausted w' end) w) ->
  (forall s w, Inv (k + length l) s w -> Q (Done s) w) ->
  Inv k s w -> wp exec (for_state l body s) Q w.
Proof.
  induction l as [|i l IH]; intros k s w Hb Hend Hi; simpl.
  - apply Hend. by rewrite Nat.add_0_r.
  - apply wp_bind. eapply wp_mono; [|apply (Hb 0 i s w); [done|by rewrite Nat.add_0_r]].
    intros [s'| |] w'; [|done..]. intros Hs. apply (IH (k + 1) s' w').
    + intros j i' s0 w0 Hj H0. rewrite <- Nat.add_assoc in H0.
      rewrite <- (Nat.add_assoc k 1). exact (Hb (Datatypes.S j) i' s0 w0 Hj H0).
    + intros s0 w0 H0. apply Hend. simpl. by rewrite <- Nat.add_assoc in H0.
    + by rewrite Nat.add_1_r in Hs |- *.
Qed.

(** The same for a loop that stops at the first error. *)
Lemma wp_for_result {I E} (Inv : nat -> W -> Prop) (l : list I)
    (body : I -> prog (result () E)) (Q : outcome (result () E) -> W -> Prop) :
  forall k w,
  (forall j i w, l !! j = Some i -> Inv (k + j) w ->
     wp exec (body i) (fun o w' => match o with
       | Done (Ok _) => Inv (k + S j) w'
       | Done (Err e) => Q (Done (Err e)) w'
       | Panicked => Q Panicked w' | Exhausted => Q Exhausted w' end) w) ->
  (forall w, Inv (k + length l) w -> Q (Done (Ok tt)) w) ->
  Inv k w -> wp exec (for_result l body) Q w.
Proof.
  induction l as [|i l IH]; intros k w Hb Hend Hi; simpl.
  - apply Hend. by rewrite Nat.add_0_r.
  - apply wp_bind. eapply wp_mono; [|apply (Hb 0 i w); [done|by rewrite Nat.add_0_r]].
    intros [[u|e]| |] w'; [|done..]. intros Hs. apply (IH (k + 1) w'); [| |done].
    + intros j i' w0 Hj H0. rewrite <- Nat.add_assoc in H0.
      rewrite <- (Nat.add_assoc k 1). exact (Hb (Datatypes.S j) i' w0 Hj H0).
    + intros w0 H0. apply Hend. simpl. by rewrite <- Nat.add_assoc in H0.
Qed.
End Spec.
