(* ===== verification/Notifier.v ===== *)
(** [SliceNotifier] (gateway-rs/src/slice_notifier.rs): the per-job watch
    channels and the pub/sub subscriber that bumps them. *)

From Stdlib Require Import ZArith Lia List String Ascii.
From stdpp Require Import base tactics list strings gmap.
From S2P Require Import Prelude Strs Effects Runtime.
Local Open Scope string_scope.

(** ** Definitions *)

(** [register_job]: a new channel replaces the job's entry, whose sender it
    drops. *)
Definition register_job (job_id : string) : prog nat :=
  let! count := call WatchChannel in
  let! _ := call (JobsInsert job_id count) in
  Ret count.

Definition unregister_job (job_id : string) : prog () :=
  call (JobsRemove job_id).

(** The body of the subscriber's message loop. *)
Definition subscriber_message (channel : string) : prog () :=
  match strip_prefix "slice_done:" channel with
  | Some job_id =>
      let! state := call (JobsGet job_id) in
      match state with
      | Some chan => call (WatchSend chan)
      | None => Ret tt
      end
  | None => Ret tt
  end.

(** [while let Some(msg) = stream.next().await] *)
Fixpoint subscriber_stream (fuel : nat) : prog () :=
  match fuel with
  | O => OutOfFuel
  | S fuel' =>
      let! msg := call PubsubNext in
      match msg with
      | Some channel => let! _ := subscriber_message channel in subscriber_stream fuel'
      | None => Ret tt
      end
  end.

Definition one_second : Z := 1000000000.

(** [subscriber_loop]: reconnect for ever; [fuel] bounds the connections and
    the messages of each. *)
Fixpoint subscriber_loop (fuel : nat) : prog () :=
  match fuel with
  | O => OutOfFuel
  | S fuel' =>
      let! r := call PubsubConnect in
      match r with
      | Ok _ =>
          let! s := call (PubsubSubscribe "slice_done:*") in
          match s with
          | Err _ =>
              let! _ := call (Sleep one_second) in subscriber_loop fuel'
          | Ok _ =>
              let! _ := subscriber_stream fuel in subscriber_loop fuel'
          end
      | Err _ =>
          let! _ := call (Sleep one_second) in subscriber_loop fuel'
      end
  end.

(** [SliceNotifier::new]: the map starts empty and the subscriber runs in the
    background. *)
Definition SliceNotifier_new (redis_url : string) : prog (result () string) :=
  try! _ := call (RedisOpen redis_url) in
  let! _ := call (TokioSpawn (SubscriberTask redis_url)) in
  Ret (Ok tt).

(** ** Lemmas *)

Section Spec.
Context {W : Type} (exec : executor W) `{RT : !Runtime exec}.

(** A channel whose sender nobody holds any more: [changed()] on it returns an
    error at once. *)
Definition closed (w : W) (ch : nat) : Prop := forall j, (jobs w).1 !! j <> Some ch.

Lemma wp_register job w (Q : outcome nat -> W -> Prop) :
  (forall ch w', (jobs w').1 = <[job := ch]> (jobs w).1 ->
     (jobs w').2 = <[ch := 0%Z]> (jobs w).2 -> (jobs w).2 !! ch = None ->
     (forall j, (jobs w).1 !! j <> Some ch) ->
     store w' = store w -> (clock w <= clock w')%Z -> Q (Done ch) w') ->
  wp exec (register_job job) Q w.
Proof.
  intros HQ ch w1 E1 u w2 E2. simpl.
  pose proof (exec_jobs _ _ _ _ _ E1) as (J1 & J2 & J3).
  pose proof (exec_jobs _ _ _ _ _ E2) as J4. simpl in J4.
  pose proof (exec_store _ _ _ _ _ E1) as S1. pose proof (exec_store _ _ _ _ _ E2) as S2.
  pose proof (exec_clock _ _ _ _ _ E1) as C1. pose proof (exec_clock _ _ _ _ _ E2) as C2.
  simpl in S1, S2, C1, C2. apply HQ; try done.
  - by rewrite J4, J3.
  - by rewrite J4, J3.
  - congruence.
  - lia.
Qed.

(** A message bumps the counter of its job's channel, and nothing else; a
    message for a job that is not registered, or from another channel, changes
    nothing. *)
Lemma wp_subscriber_message channel w (Q : outcome () -> W -> Prop) :
  (forall w', store w' = store w -> (jobs w').1 = (jobs w).1 ->
     (jobs w').2 = match strip_prefix "slice_done:" channel with
                   | Some job => match (jobs w).1 !! job with
                                 | Some ch => alter Z.succ ch (jobs w).2
                                 | None => (jobs w).2
                                 end
                   | None => (jobs w).2
                   end -> Q (Done tt) w') ->
  wp exec (subscriber_message channel) Q w.
Proof.
  intros HQ. unfold subscriber_message.
  destruct (strip_prefix "slice_done:" channel) as [job|]; [|by apply HQ].
  intros r w1 E1. pose proof (exec_jobs _ _ _ _ _ E1) as [-> J1].
  pose proof (exec_store _ _ _ _ _ E1) as S1. simpl in S1.
  destruct ((jobs w).1 !! job) as [ch|] eqn:E.
  - intros u w2 E2. pose proof (exec_jobs _ _ _ _ _ E2) as J2.
    pose proof (exec_store _ _ _ _ _ E2) as S2. simpl in J2, S2. destruct u.
    apply HQ; rewrite ?J2, ?J1; [congruence|done|done].
  - apply HQ; by rewrite ?J1.
Qed.
End Spec.

(** ** Properties *)

Section Properties.
Context {W : Type} (exec : executor W) `{RT : !Runtime exec}.

(** A second request with the same job id replaces the channel of the first,
    which is closed from then on: its waits return at once, and when the first
    request ends it removes the entry of the second. *)
Theorem register_twice_closes job w :
  wp exec (let! rx1 := register_job job in let! rx2 := register_job job in Ret (rx1, rx2))
    (fun o w' => exists rx1 rx2, o = Done (rx1, rx2) /\ closed exec w' rx1
       /\ (jobs w').1 !! job = Some rx2) w.
Proof.
  apply wp_bind, (wp_register exec). intros rx1 w1 J1 _ _ F1 _ _.
  apply wp_bind, (wp_register exec). intros rx2 w2 J2 _ _ F2 _ _.
  exists rx1, rx2. split; [done|]. rewrite J2. split; [|apply lookup_insert_eq].
  intros j. rewrite J2. rewrite lookup_insert. case_decide as E.
  - intros ?. simplify_eq. apply (F2 j). rewrite J1. apply lookup_insert_eq.
  - rewrite J1, lookup_insert_ne by done. apply F1.
Qed.
End Properties.
