(* ===== verification/Publisher.v ===== *)
(** The ZMQ publishers (gateway-rs/src/publisher/): one PUSH socket, or one per
    NCCL rank with the rank as the subject. *)

From Stdlib Require Import ZArith Lia List String Ascii.
From stdpp Require Import base tactics list strings gmap.
From S2P Require Import Prelude Strs Config Effects.
Local Open Scope string_scope.

(** ** Definitions *)

(** The [Publisher] trait *)
Class Publisher (P : Type) := {
  publish : P -> string -> string -> prog (result () string);
  is_connected : P -> bool;
}.

(** [ZmqPublisher]: the sender of the socket's thread. *)
Record ZmqPublisher := { sender : nat }.

Definition ZmqPublisher_new (env : environment) : prog (result ZmqPublisher string) :=
  let endpoint := push_endpoint env in
  try! tx := call (SocketOpen endpoint 50000) in
  Ret (Ok {| sender := tx |}).

(** The subject is ignored. *)
#[export] Instance ZmqPublisher_publisher : Publisher ZmqPublisher := {|
  publish := fun self _ payload =>
    let! r := call (SocketSend (sender self) (as_bytes payload)) in
    Ret (map_err (fun e => "ZMQ channel send failed: " +:+ e) r);
  is_connected := fun _ => true;
|}.

(** [ZmqMultiPublisher]: one sender per rank. *)
Record ZmqMultiPublisher := { senders : list nat }.

Fixpoint open_ranks (env : environment) (ranks : list nat) : prog (result (list nat) string) :=
  match ranks with
  | [] => Ret (Ok [])
  | rank :: ranks' =>
      try! tx := call (SocketOpen (multi_endpoint env (Z.of_nat rank)) 100000) in
      try! txs := open_ranks env ranks' in
      Ret (Ok (tx :: txs))
  end.

(** [Vec::with_capacity(n)] panics when the bytes of [n] senders, each a tag and
    a pointer of a 64-bit host, exceed [isize::MAX]. *)
Definition SENDER_BYTES : Z := 16.
Definition capacity_overflow (n : Z) : bool := (2 ^ 63 - 1 <? n * SENDER_BYTES)%Z.

Definition ZmqMultiPublisher_new (env : environment) (world_size : nat)
  : prog (result ZmqMultiPublisher string) :=
  if capacity_overflow (Z.of_nat world_size) then Panic
  else
    try! txs := open_ranks env (seq 0 world_size) in
    Ret (Ok {| senders := txs |}).

(** The subject is the rank in decimal. *)
#[export] Instance ZmqMultiPublisher_publisher : Publisher ZmqMultiPublisher := {|
  publish := fun self subject payload =>
    match parse_uint 64 subject with
    | None => Ret (Err (concat_strs ["ZmqMultiPublisher: invalid rank '"; subject; "'"]))
    | Some rank =>
        match senders self !! Z.to_nat rank with
        | None => Ret (Err (concat_strs ["ZmqMultiPublisher: rank "; print_uint rank; " out of range"]))
        | Some tx =>
            let! r := call (SocketSend tx (as_bytes payload)) in
            Ret (map_err (fun e =>
                   concat_strs ["ZMQ rank "; print_uint rank; " channel send failed: "; e]) r)
        end
    end;
  is_connected := fun _ => true;
|}.

(** ** Lemmas *)

(** A job's slice [i], published under the subject ["i"], goes to the socket of
    rank [i] and to no other. *)
Lemma multi_publish_rank (p : ZmqMultiPublisher) i tx payload :
  in_width 64 (Z.of_nat i) -> senders p !! i = Some tx ->
  publish p (print_nat i) payload =
    bind (call (SocketSend tx (as_bytes payload))) (fun r =>
      Ret (map_err (fun e => concat_strs
        ["ZMQ rank "; print_nat i; " channel send failed: "; e]) r)).
Proof.
  intros Hi Ht. simpl. unfold print_nat. rewrite parse_print_uint by done.
  by rewrite Nat2Z.id, Ht.
Qed.

Lemma multi_publish_out_of_range (p : ZmqMultiPublisher) i payload :
  in_width 64 (Z.of_nat i) -> length (senders p) <= i ->
  publish p (print_nat i) payload =
    Ret (Err (concat_strs ["ZmqMultiPublisher: rank "; print_nat i; " out of range"])).
Proof.
  intros Hi Hl. simpl. unfold print_nat. rewrite parse_print_uint by done.
  by rewrite Nat2Z.id, lookup_ge_None_2.
Qed.
