(* ===== verification/Aggregator.v ===== *)
(** [ResultAggregator] (gateway-rs/src/aggregator.rs): wait until every slice
    of a job can be read from Redis, combine the slices, store the result. *)

From Stdlib Require Import ZArith Lia List String Ascii.
From stdpp Require Import base tactics list strings gmap.
From S2P Require Import Prelude Strs Scalar Ieee Softmax Kernels GpuWorker Json Demo Wire.
From S2P Require Import Config Effects Runtime Devices RedisManager Notifier.
Local Open Scope string_scope.
Local Open Scope list_scope.

(** ** Definitions *)

Definition ms : Z := 1000000.

(** The three local variables of [wait_for_all_slices]. *)
Record collection `{LM : Libm} := {
  stats : list SliceStats;
  have : list bool;
  remaining : nat;
}.

(** [ResultAggregator], without the Redis and notifier handles. *)
Record ResultAggregator := {
  slice_timeout : Z;
  ra_gpu : option GpuAggregator;
}.

(** [ResultAggregator::new], once per request: the timeout from the environment,
    the device from the static cell of the [cuda] build. *)
Definition ResultAggregator_new (cuda_build : bool) (env : environment)
    (cuda : string -> option string) (for_num_elems : Z -> nat * nat)
    (cell : option (option GpuAggregator)) : ResultAggregator * option (option GpuAggregator) :=
  let '(gpu, cell') :=
    if cuda_build then aggregator_global cuda for_num_elems 0 cell else (None, cell) in
  ({| slice_timeout := slice_timeout_ms env * ms; ra_gpu := gpu |}, cell').

(** The aggregators of successive requests; each finds the driver and the
    environment as they are at its time. *)
Fixpoint aggregators (cuda_build : bool) (for_num_elems : Z -> nat * nat)
    (times : list (environment * (string -> option string)))
    (cell : option (option GpuAggregator)) : list ResultAggregator :=
  match times with
  | [] => []
  | (env, cuda) :: times' =>
      let '(agg, cell') := ResultAggregator_new cuda_build env cuda for_num_elems cell in
      agg :: aggregators cuda_build for_num_elems times' cell'
  end.

Section Aggregator.
(** [env] is read for [SLICE_TIMEOUT_MS]; [gpu] is [GpuAggregator::global(0)],
    [None] without the [cuda] feature; [fuel] bounds the polls. *)
Context `{LM : Libm} (big_endian : bool) (env : environment) `{SJ : !SerdeJson}.
Context (gpu : option GpuAggregator) (fuel : nat).

Definition read_slice (job_id : string) (idx : nat) : prog (result (option SliceStats) string) :=
  let key := slice_key job_id (Z.of_nat idx) in
  try! raw := get_bytes key in
  Ret (decode_slice big_endian idx raw).

Definition collection_new (total_slices : nat) : collection := {|
  stats := replicate total_slices SliceStats_default;
  have := replicate total_slices false;
  remaining := total_slices |}.

(** [stats[i] = s; have[i] = true; remaining -= 1] *)
Definition collect (i : nat) (s : SliceStats) (c : collection) : collection := {|
  stats := <[i := s]> (stats c);
  have := <[i := true]> (have c);
  remaining := remaining c - 1 |}.

(** One pass over the slices not held yet; a read that fails counts as absent. *)
Definition read_missing (job_id : string) (total_slices : nat) (c : collection)
  : prog collection :=
  for_state (seq 0 total_slices) (fun i c =>
    match have c !! i with
    | Some true => Ret c
    | _ =>
        let! r := read_slice job_id i in
        Ret (match r with Ok (Some s) => collect i s c | _ => c end)
    end) c.

Fixpoint wait_loop (fuel : nat) (job_id : string) (total_slices rx : nat) (deadline : Z)
    (c : collection) : prog (result (list SliceStats) string) :=
  match fuel with
  | O => OutOfFuel
  | S fuel' =>
      let! c := read_missing job_id total_slices c in
      if Nat.eqb (remaining c) 0 then Ret (Ok (stats c))
      else
        let! now := call InstantNow in
        if (deadline <=? now)%Z
        then Ret (Err ("Timeout waiting for slices for job " +:+ job_id))
        else
          let step := Z.min (deadline - now) (100 * ms) in
          let! _ := call (WaitChanged rx step) in
          wait_loop fuel' job_id total_slices rx deadline c
  end.

Definition wait_for_all_slices (job_id : string) (total_slices : nat)
  : prog (result (list SliceStats) string) :=
  let! rx := register_job job_id in
  let! now := call InstantNow in
  let deadline := (now + slice_timeout_ms env * ms)%Z in
  let! outcome := wait_loop fuel job_id total_slices rx deadline (collection_new total_slices) in
  let! _ := unregister_job job_id in
  Ret outcome.

(** The three ways the slices are combined; a kernel that leaves its arrays has
    no defined behaviour. *)
Definition combine_stats (st : list SliceStats) : prog (result string string) :=
  if match st with s :: _ => is_normalized s | [] => false end
  then Ret (vec_to_string (concat (map exp_values st)))
  else
    match gpu with
    | Some g =>
        match aggregate_gpu (driver g) (launch_config g) st with
        | Ok result_f32 => Ret (vec_to_string (map as_f64 result_f32))
        | Err (CudaError e) => Ret (Err e)
        | Err OutOfBounds => Panic
        end
    | None => Ret (vec_to_string (aggregate_softmax_cpu st))
    end.

Definition aggregate (job_id : string) (total_slices : nat) : prog (result string string) :=
  try! st := wait_for_all_slices job_id total_slices in
  try! result_json := combine_stats st in
  try! _ := store_final_result env job_id result_json in
  Ret (Ok result_json).
End Aggregator.

(** ** Lemmas *)

(** The slots that are filled hold slices that were read; [remaining] counts
    the others. *)
Section Collection.
Context `{LM : Libm} (good : nat -> SliceStats -> Prop).

Record collected (total : nat) (c : collection) : Prop := {
  collected_stats : length (stats c) = total;
  collected_have : length (have c) = total;
  collected_remaining : remaining c = count_occ Bool.bool_dec (have c) false;
  collected_good i s : have c !! i = Some true -> stats c !! i = Some s -> good i s;
}.

Lemma count_occ_insert (l : list bool) i :
  l !! i = Some false ->
  count_occ Bool.bool_dec (<[i := true]> l) false = count_occ Bool.bool_dec l false - 1.
Proof.
  revert i. induction l as [|b l IH]; intros [|i] H; simplify_eq/=; [lia|].
  destruct b; simpl; rewrite IH by done; [done|].
  assert (count_occ Bool.bool_dec l false <> 0); [|lia].
  intros E. apply count_occ_not_In in E. apply E, list_elem_of_In. by eapply list_elem_of_lookup_2.
Qed.

Lemma collect_collected total c i s :
  collected total c -> have c !! i = Some false -> good i s ->
  collected total (collect i s c).
Proof.
  intros [H1 H2 H3 H4] Hi Hs. split; simpl; rewrite ?length_insert; try done.
  - by rewrite count_occ_insert, H3.
  - intros j t Hj Ht. apply list_lookup_insert_Some in Hj, Ht.
    destruct Ht as [(-> & -> & _)|(Hn & Ht)]; [done|].
    destruct Hj as [(-> & _)|(_ & Hj)]; [done|eauto].
Qed.

Lemma all_held total c :
  collected total c -> remaining c = 0 ->
  length (stats c) = total /\ forall i s, stats c !! i = Some s -> good i s.
Proof.
  intros [H1 H2 H3 H4] H0. split; [done|]. intros i s Hs. apply H4; [|done].
  destruct (have c !! i) as [[]|] eqn:E; [done| |].
  - exfalso. rewrite H3 in H0. apply count_occ_not_In in H0. apply H0, list_elem_of_In.
    by eapply list_elem_of_lookup_2.
  - apply lookup_ge_None in E. apply lookup_lt_Some in Hs. lia.
Qed.
End Collection.

Lemma collection_new_collected `{LM : Libm} good total :
  collected good total (collection_new total).
Proof.
  split; simpl; rewrite ?length_replicate; try done.
  - induction total as [|n IH]; simpl; [done|by rewrite <- IH].
  - intros i s H _. apply lookup_replicate in H as [? ?]. done.
Qed.

(** What the polling loop achieves, for any world in which reading preserves
    [J] and a slice read under [J] is one of [V]. *)
Section Waiting.
Context `{LM : Libm} (big_endian : bool) (env : environment) `{SJ : !SerdeJson}.
Context {W : Type} (exec : executor W) (job_id : string) (total : nat).
Context (J : W -> Prop) (V : nat -> list ascii -> Prop).
Context (HJ : forall X (c : cmd X) w x w', read_only c -> exec X c w x w' -> J w -> J w').
Context (HV : forall i w raw w', i < total -> J w ->
  exec _ (RedisGet (slice_key job_id (Z.of_nat i))) w (Ok (Some raw)) w' -> V i raw).

(** A slice that was decoded from a value that was read. *)
Definition decoded (i : nat) (s : SliceStats) : Prop :=
  exists raw, V i raw /\ decode_slice big_endian i (Some raw) = Ok (Some s).

Lemma wp_read_slice i w (Q : outcome (result (option SliceStats) string) -> W -> Prop) :
  i < total -> J w ->
  (forall r w', J w' -> (forall s, r = Ok (Some s) -> decoded i s) -> Q (Done r) w') ->
  wp exec (read_slice big_endian job_id i) Q w.
Proof.
  intros Hi Hw HQ r w' E. assert (J w') as Hw' by (eapply HJ; [|exact E|done]; done).
  destruct r as [[raw|]|e]; simpl; apply HQ; try done.
  intros s Hs. exists raw. split; [exact (HV _ _ _ _ Hi Hw E)|done].
Qed.

Lemma wp_read_missing c w :
  collected decoded total c -> J w ->
  wp exec (read_missing big_endian job_id total c) (fun o w' =>
    exists c', o = Done c' /\ collected decoded total c' /\ J w') w.
Proof.
  intros Hc Hw. unfold read_missing.
  apply (wp_for_state exec (fun _ c w => collected decoded total c /\ J w) _ _ _ 0); [|by eauto|done].
  intros j i s w0 Hi [Hs H0]. apply lookup_seq in Hi as [Ei Hi].
  simpl in Ei. subst i. cbv beta.
  pose proof (collected_have _ _ _ Hs) as Hl.
  destruct (have s !! j) as [[]|] eqn:E; [done| |apply lookup_ge_None in E; lia].
  apply wp_bind, wp_read_slice; [done..|]. intros r w' Hw' Hr. simpl.
  destruct r as [[t|]|e]; [|done..]. split; [|done]. apply collect_collected; auto.
Qed.

Definition waited (o : outcome (result (list SliceStats) string)) : Prop :=
  match o with
  | Done (Ok st) => length st = total /\ forall i s, st !! i = Some s -> decoded i s
  | Done (Err e) => e = "Timeout waiting for slices for job " +:+ job_id
  | Panicked => False
  | Exhausted => True
  end.

Lemma wp_wait_loop fuel : forall rx deadline c w,
  collected decoded total c -> J w ->
  wp exec (wait_loop big_endian fuel job_id total rx deadline c) (fun o w' => J w' /\ waited o) w.
Proof.
  induction fuel as [|fuel IH]; intros rx deadline c w Hc Hw; [done|]. simpl.
  apply wp_bind. eapply wp_mono; [|exact (wp_read_missing c w Hc Hw)].
  intros o w1 (c' & -> & Hc' & H1). destruct (Nat.eqb_spec (remaining c') 0) as [H0|H0].
  - split; [done|]. by apply all_held.
  - simpl. intros now w2 E2. assert (J w2) as H2 by (eapply HJ; [|exact E2|done]; done).
    case_match; [done|]. simpl. intros u w3 E3. apply IH; [done|].
    eapply HJ; [|exact E3|done]; done.
Qed.

(** The whole function; [U] is what removing the job from the map leaves. *)
Lemma wp_wait_for_all_slices fuel (U : W -> Prop) w :
  (forall w1 w', exec _ (JobsRemove job_id) w1 tt w' -> U w') -> J w ->
  wp exec (wait_for_all_slices big_endian env fuel job_id total) (fun o w' =>
    J w' /\ waited o /\ (o <> Exhausted -> U w')) w.
Proof.
  intros HU Hw. simpl. intros rx w1 E1 [] w2 E2 now w3 E3.
  assert (J w3) as H3.
  { eapply HJ; [|exact E3|eapply HJ; [|exact E2|eapply HJ; [|exact E1|done]]]; done. }
  apply wp_bind. eapply wp_mono; [|apply wp_wait_loop; [apply collection_new_collected|done]].
  intros [r| |] w4 [H4 Hr]; [|done..]. simpl. intros [] w5 E5.
  split; [eapply HJ; [|exact E5|done]; done|]. split; [done|eauto].
Qed.
End Waiting.

(** The loop ends: a wait lasts its timeout, unless it is cut short by one of
    finitely many wake-ups ([budget]); the monotonic clock does the rest. *)
Record patient {W : Type} (exec : executor W) (clk : W -> Z) (budget : W -> nat) : Prop := {
  patient_mono X (c : cmd X) w x w' :
    exec X c w x w' -> (clk w <= clk w')%Z /\ budget w' <= budget w;
  patient_now w x w' : exec _ InstantNow w x w' -> (clk w <= x <= clk w')%Z;
  patient_wait ch ns w x w' :
    exec _ (WaitChanged ch ns) w x w' -> (clk w + ns <= clk w')%Z \/ budget w' < budget w;
}.

Section Termination.
Context `{LM : Libm} (big_endian : bool) (env : environment) `{SJ : !SerdeJson}.
Context {W : Type} (exec : executor W) (clk : W -> Z) (budget : W -> nat).
Context (HP : patient exec clk budget) (job_id : string) (total : nat).

(** The polls that are left before [deadline]. *)
Definition polls (deadline : Z) (w : W) : nat :=
  Z.to_nat ((deadline - clk w + (100 * ms - 1)) / (100 * ms)) + budget w.

Definition later (w w' : W) : Prop := (clk w <= clk w')%Z /\ budget w' <= budget w.

Lemma later_step X (c : cmd X) w0 w x w' :
  exec X c w x w' -> later w0 w -> later w0 w'.
Proof.
  intros E [H1 H2]. destruct (patient_mono _ _ _ HP _ _ _ _ _ E). split; lia.
Qed.

Lemma polls_later deadline w w' : later w w' -> polls deadline w' <= polls deadline w.
Proof.
  intros [H1 H2]. unfold polls, ms.
  pose proof (Z.div_le_mono (deadline - clk w' + (100 * 1000000 - 1))
    (deadline - clk w + (100 * 1000000 - 1)) (100 * 1000000) ltac:(lia) ltac:(lia)). lia.
Qed.

Lemma polls_wait deadline now w w' :
  (clk w <= now < deadline)%Z -> (now + Z.min (deadline - now) (100 * ms) <= clk w')%Z ->
  budget w' <= budget w -> polls deadline w' < polls deadline w.
Proof.
  intros Hn Hw Hb. unfold polls, ms in *.
  set (a := (deadline - clk w)%Z) in *. set (b := (deadline - clk w')%Z) in *.
  assert (0 < a)%Z by lia. assert (b <= 0 \/ b + 100000000 <= a)%Z as Hab by lia.
  change (100 * 1000000)%Z with 100000000%Z in *.
  enough (Z.to_nat ((b + (100000000 - 1)) / 100000000)
          < Z.to_nat ((a + (100000000 - 1)) / 100000000)) by lia.
  assert (1 <= (a + (100000000 - 1)) / 100000000)%Z by (apply Z.div_le_lower_bound; lia).
  destruct Hab as [Hab|Hab].
  - assert ((b + (100000000 - 1)) / 100000000 < 1)%Z by (apply Z.div_lt_upper_bound; lia). lia.
  - pose proof (Z.div_le_mono (b + (100000000 - 1) + 1 * 100000000) (a + (100000000 - 1))
      100000000 ltac:(lia) ltac:(lia)) as H1.
    rewrite Z.div_add in H1 by lia. lia.
Qed.

Lemma wait_loop_ends fuel : forall rx deadline c w,
  collected (decoded big_endian (fun _ _ => True)) total c -> polls deadline w < fuel ->
  wp exec (wait_loop big_endian fuel job_id total rx deadline c) (fun o _ => o <> Exhausted) w.
Proof.
  induction fuel as [|fuel IH]; intros rx deadline c w Hc Hf; [lia|]. simpl.
  apply wp_bind. eapply wp_mono; [|apply (wp_read_missing big_endian exec job_id total
    (later w) (fun _ _ => True)); [|done..|split; lia]].
  2: { intros X c0 w0 x w' _. apply later_step. }
  intros o w1 (c' & -> & Hc' & H1). case_match; [done|]. simpl. intros now w2 E2.
  pose proof (patient_now _ _ _ HP _ _ _ E2).
  destruct (Z.leb_spec deadline now); [done|]. simpl. intros u w3 E3. apply IH; [done|].
  pose proof (polls_later deadline _ _ H1).
  destruct (patient_mono _ _ _ HP _ _ _ _ _ E2), (patient_mono _ _ _ HP _ _ _ _ _ E3).
  destruct (patient_wait _ _ _ HP _ _ _ _ _ E3) as [Hw|Hw].
  - enough (polls deadline w3 < polls deadline w1) by lia.
    apply (polls_wait _ now); lia.
  - assert (polls deadline w2 <= polls deadline w1) by (apply polls_later; split; lia).
    enough (polls deadline w3 < polls deadline w2) by lia.
    unfold polls in *.
    pose proof (Z.div_le_mono (deadline - clk w3 + (100 * ms - 1))
      (deadline - clk w2 + (100 * ms - 1)) (100 * ms) ltac:(unfold ms; lia) ltac:(lia)). lia.
Qed.

(** The polls a job can need: one per 100 ms of the timeout, rounded up, one
    per wake-up, and the last. *)
Definition enough_fuel (w : W) : nat :=
  Z.to_nat ((slice_timeout_ms env + 99) / 100) + budget w + 1.

Lemma wait_for_all_slices_ends fuel w :
  enough_fuel w <= fuel ->
  wp exec (wait_for_all_slices big_endian env fuel job_id total) (fun o _ => o <> Exhausted) w.
Proof.
  intros Hf. simpl. intros rx w1 E1 [] w2 E2 now w3 E3.
  pose proof (patient_now _ _ _ HP _ _ _ E3).
  assert (later w w3) as [H1 H2].
  { eapply later_step; [exact E3|eapply later_step; [exact E2|eapply later_step; [exact E1|]]].
    split; lia. }
  apply wp_bind. eapply wp_mono; [|apply wait_loop_ends; [apply collection_new_collected|]].
  - intros [r| |] w4 Hr; done.
  - eapply Nat.lt_le_trans; [|exact Hf]. unfold enough_fuel, polls.
    assert ((now + slice_timeout_ms env * ms - clk w3 + (100 * ms - 1)) / (100 * ms)
            <= (slice_timeout_ms env + 99) / 100)%Z; [|lia].
    change (100 * ms)%Z with (ms * 100)%Z. rewrite <- Z.div_div by (unfold ms; lia).
    apply Z_div_le; [lia|]. transitivity ((slice_timeout_ms env * ms + (ms * 100 - 1)) / ms)%Z.
    + apply Z_div_le; unfold ms; lia.
    + rewrite Z.div_add_l by (unfold ms; lia). by apply Z.add_le_mono_l.
Qed.
End Termination.

(** Waiting only reads Redis, and storing writes only the job's result. *)
Section Calls.
Context `{LM : Libm} (big_endian : bool) (env : environment) `{SJ : !SerdeJson}.
Context (gpu : option GpuAggregator).

Definition result_call (job_id : string) {X} (c : cmd X) : Prop :=
  match c with
  | RedisSetEx k _ _ => k = result_key job_id \/ k = progress_key job_id
  | _ => read_only c
  end.

Lemma read_missing_calls job_id total c : uses (@read_only) (read_missing big_endian job_id total c).
Proof.
  apply uses_for_state. intros i c'. destruct (have c' !! i) as [[]|]; try exact I.
  all: unfold read_slice, get_bytes; simpl; split; [exact I|]; by intros [[b|]|e].
Qed.

Lemma wait_loop_calls fuel job_id total rx deadline : forall c,
  uses (@read_only) (wait_loop big_endian fuel job_id total rx deadline c).
Proof.
  induction fuel as [|fuel IH]; intros c; [exact I|]. cbn [wait_loop].
  apply uses_bind; [apply read_missing_calls|]. intros c'.
  destruct (Nat.eqb (remaining c') 0); [exact I|]. split; [exact I|]. intros now. cbn [bind].
  destruct (deadline <=? now)%Z; [exact I|]. split; [exact I|]. intros u. apply IH.
Qed.

Lemma wait_calls fuel job_id total :
  uses (@read_only) (wait_for_all_slices big_endian env fuel job_id total).
Proof.
  split; [exact I|]. intros ch. split; [exact I|]. intros u. split; [exact I|]. intros now.
  cbn [bind]. apply uses_bind; [apply wait_loop_calls|]. intros r. split; [exact I|]. by intros [].
Qed.

Lemma aggregate_calls fuel job_id total :
  uses (@result_call job_id) (aggregate big_endian env gpu fuel job_id total).
Proof.
  unfold aggregate. apply uses_bind.
  - apply (uses_mono (@read_only)); [by intros X []|apply wait_calls].
  - intros [st|e]; [|exact I]. apply uses_bind; [|intros [s|e]; [|exact I]].
    + unfold combine_stats. repeat case_match; exact I.
    + split; [by left|]. intros [[]|e]; [|exact I]. split; [exact I|]. intros now.
      split; [by right|]. by intros [[]|e].
Qed.
End Calls.

(** A job whose slices can all be read is complete after one pass. *)
Section Ready.
Context `{LM : Libm} (big_endian : bool) (env : environment) `{SJ : !SerdeJson}.
Context {W : Type} (exec : executor W) (job_id : string) (total : nat).
Context (J : W -> Prop) (V : nat -> list ascii -> Prop).
Context (HJ : forall X (c : cmd X) w x w', read_only c -> exec X c w x w' -> J w -> J w').
Context (HV : forall i w r w', i < total -> J w ->
  exec _ (RedisGet (slice_key job_id (Z.of_nat i))) w r w' ->
  exists raw s, r = Ok (Some raw) /\ V i raw /\ decode_slice big_endian i (Some raw) = Ok (Some s)).

Lemma held_all total' (c : collection) good :
  collected good total' c -> (forall i, i < total' -> have c !! i = Some true) ->
  remaining c = 0.
Proof.
  intros [H1 H2 H3 H4] H. rewrite H3. apply count_occ_not_In.
  intros Hin%list_elem_of_In. apply list_elem_of_lookup in Hin as [i Hi].
  rewrite H in Hi; [done|]. rewrite <- H2. by eapply lookup_lt_Some.
Qed.

Lemma wp_read_all c w :
  collected (decoded big_endian V) total c -> J w ->
  wp exec (read_missing big_endian job_id total c) (fun o w' =>
    exists c', o = Done c' /\ collected (decoded big_endian V) total c' /\ remaining c' = 0 /\ J w') w.
Proof.
  intros Hc Hw. unfold read_missing.
  apply (wp_for_state exec (fun k c w => collected (decoded big_endian V) total c /\ J w
    /\ forall i, i < k -> have c !! i = Some true) _ _ _ 0).
  3: by split_and!; [..|lia].
  2: { intros s w0 (Hs & H0 & Ha). exists s. split_and!; [done..| |done].
       eapply held_all; [done|]. intros i Hi. apply Ha. by rewrite length_seq. }
  intros j i s w0 Hi (Hs & H0 & Ha). apply lookup_seq in Hi as [Ei Hi].
  simpl in Ei. subst i. cbv beta.
  pose proof (collected_have _ _ _ Hs) as Hl.
  assert (forall s' : collection, have s' = <[j := true]> (have s) ->
    forall i, i < S j -> have s' !! i = Some true) as Hstep.
  { intros s' -> i Hij. destruct (decide (i = j)) as [->|Hn].
    - apply list_lookup_insert_eq. lia.
    - rewrite list_lookup_insert_ne by done. apply Ha. lia. }
  destruct (have s !! j) as [[]|] eqn:E; [| |apply lookup_ge_None in E; lia].
  - simpl. split_and!; [done..|]. apply Hstep. by rewrite list_insert_id.
  - simpl. intros r w' Hr. destruct (HV _ _ _ _ Hi H0 Hr) as (raw & t & -> & Hv & Ht).
    simpl. simpl in Ht. rewrite Ht. split_and!.
    + apply collect_collected; [done..|]. by exists raw.
    + eapply HJ; [|exact Hr|]; done.
    + by apply Hstep.
Qed.

Lemma wp_wait_ready fuel w :
  0 < fuel -> J w ->
  wp exec (wait_for_all_slices big_endian env fuel job_id total) (fun o w' =>
    exists st, o = Done (Ok st) /\ length st = total
      /\ forall i s, st !! i = Some s -> decoded big_endian V i s) w.
Proof.
  intros Hf Hw. destruct fuel as [|fuel]; [lia|].
  simpl. intros rx w1 E1 [] w2 E2 now w3 E3.
  assert (J w3) as H3.
  { eapply HJ; [|exact E3|eapply HJ; [|exact E2|eapply HJ; [|exact E1|done]]]; done. }
  apply wp_bind. simpl. apply wp_bind.
  eapply wp_mono; [|apply wp_read_all; [apply collection_new_collected|done]].
  intros o w4 (c & -> & Hc & H0 & H4). rewrite H0. simpl. intros u w5 E5.
  exists (stats c). split; [done|]. by apply all_held.
Qed.
End Ready.

(** Storing the result writes the result and the progress of the job. *)
Section Storing.
Context (env : environment) `{LM : Libm} `{SJ : !SerdeJson}.
Context {W : Type} (exec : executor W) `{RT : !Runtime exec} (R : W -> W -> Prop) (job_id : string).

Lemma wp_store_final_result s w (Q : outcome (result () string) -> W -> Prop) :
  (forall w w', R w w' -> store w' !! result_key job_id = store w !! result_key job_id) ->
  (forall w', store w' !! result_key job_id = Some (as_bytes s) ->
     is_Some (store w' !! progress_key job_id) ->
     (0 < result_ttl env)%Z -> (0 < progress_ttl env)%Z -> Q (Done (Ok tt)) w') ->
  (forall e w', Q (Done (Err e)) w') ->
  wp (under R exec) (store_final_result env job_id s) Q w.
Proof.
  intros HR HQ HE. simpl. intros r w1 (w0 & _ & E1).
  pose proof (exec_store _ _ _ _ _ E1) as S1. simpl in S1.
  destruct r as [[]|e]; [|apply HE]. destruct S1 as [T1 S1]. simpl.
  intros now w2 (w1' & R1 & E2) r w3 (w2' & R2 & E3).
  pose proof (exec_store _ _ _ _ _ E2) as S2. pose proof (exec_store _ _ _ _ _ E3) as S3.
  simpl in S2, S3. destruct r as [[]|e]; [|apply HE]. destruct S3 as [T3 S3]. simpl.
  apply HQ; [| |done..].
  - rewrite S3, lookup_insert_ne by apply progress_result_key.
    rewrite (HR _ _ R2), S2, (HR _ _ R1), S1. apply lookup_insert_eq.
  - rewrite S3, lookup_insert_eq. by eexists.
Qed.
End Storing.

Lemma aggregators_initialised cuda_build lc times gpu :
  (cuda_build = false -> gpu = None) ->
  Forall (fun agg => ra_gpu agg = gpu) (aggregators cuda_build lc times (Some gpu)).
Proof.
  intros Hb. induction times as [|[env cuda] times IH]; simpl; [constructor|].
  unfold ResultAggregator_new. destruct cuda_build; simpl; (constructor; [|done]); [done|].
  by rewrite Hb.
Qed.

Lemma aggregators_cpu lc times cell :
  Forall (fun agg => ra_gpu agg = None) (aggregators false lc times cell).
Proof. revert cell. induction times as [|[env cuda] times IH]; intros cell; simpl; constructor; auto. Qed.

(** ** Properties *)

Section Properties.
Context `{LM : Libm} (big_endian : bool) (env : environment) `{SJ : !SerdeJson}.
Context (gpu : option GpuAggregator).
Context {W : Type} (exec : executor W) `{RT : !Runtime exec} (R : W -> W -> Prop).

(** Whatever is stored under the job's slice keys is one of [V]. *)
Definition slots_hold (V : nat -> list ascii -> Prop) (job_id : string) (total : nat) (w : W) : Prop :=
  forall i raw, i < total -> store w !! slice_key job_id (Z.of_nat i) = Some raw -> V i raw.

Definition slots_filled (V : nat -> list ascii -> Prop) (job_id : string) (total : nat) (w : W) : Prop :=
  forall i, i < total -> exists raw, store w !! slice_key job_id (Z.of_nat i) = Some raw /\ V i raw.

Lemma under_read_only (J : W -> Prop) :
  (forall w w', R w w' -> J w -> J w') -> (forall w w', store w' = store w -> J w -> J w') ->
  forall X (c : cmd X) w x w', read_only c -> under R exec X c w x w' -> J w -> J w'.
Proof.
  intros HR HS X c w x w' Hc (w1 & H1 & E) Hw. apply (HS w1); [|eauto].
  eapply read_only_store; [done|]. by apply exec_store.
Qed.

Lemma slots_hold_get V job_id total i w raw w' :
  (forall w w', R w w' -> slots_hold V job_id total w -> slots_hold V job_id total w') ->
  i < total -> slots_hold V job_id total w ->
  under R exec _ (RedisGet (slice_key job_id (Z.of_nat i))) w (Ok (Some raw)) w' -> V i raw.
Proof.
  intros HR Hi Hw (w1 & H1 & E). apply exec_store in E as [_ E]. eapply HR; eauto.
Qed.

(** C7: whatever other tasks do between its calls, [wait_for_all_slices]
    returns either one entry per slice, entry [i] decoded from a value that was
    stored under slice [i]'s key, or the timeout error; it does not panic.
    What others store is described by [V]. *)
Theorem wait_collects fuel V job_id total w :
  (forall w w', R w w' -> slots_hold V job_id total w -> slots_hold V job_id total w') ->
  slots_hold V job_id total w ->
  wp (under R exec) (wait_for_all_slices big_endian env fuel job_id total) (fun o _ =>
    match o with
    | Done (Ok st) => length st = total /\ forall i s, st !! i = Some s ->
        exists raw, V i raw /\ decode_slice big_endian i (Some raw) = Ok (Some s)
    | Done (Err e) => e = "Timeout waiting for slices for job " +:+ job_id
    | Panicked => False
    | Exhausted => True
    end) w.
Proof.
  intros HR Hw. eapply wp_mono; [|eapply (wp_wait_for_all_slices big_endian env (under R exec)
    job_id total (slots_hold V job_id total) V) with (U := fun _ => True); try done].
  - intros o w' (_ & Ho & _). exact Ho.
  - apply under_read_only; [done|]. intros w1 w2 E H i raw. rewrite E. apply H.
  - intros. by eapply slots_hold_get.
Qed.

(** On every outcome, timeout included, [wait_for_all_slices] leaves no
    entry for the job in the notifier's map. *)
Theorem wait_unregisters fuel job_id total w :
  wp (under R exec) (wait_for_all_slices big_endian env fuel job_id total) (fun o w' =>
    o <> Exhausted -> (jobs w').1 !! job_id = None) w.
Proof.
  eapply wp_mono; [|apply (wp_wait_for_all_slices big_endian env (under R exec)
    job_id total (fun _ => True) (fun _ _ => True)) with
      (U := fun w' => (jobs w').1 !! job_id = None); try done].
  - intros o w' (_ & _ & H). exact H.
  - intros w1 w' (w0 & _ & E). apply exec_jobs in E. simpl in E. rewrite E. apply lookup_delete_eq.
Qed.

(** C9: [wait_for_all_slices] terminates: with one poll per 100 ms of the
    timeout, one per notification and one more, it returns a result. *)
Theorem wait_terminates clk budget fuel job_id total w :
  patient (under R exec) clk budget -> enough_fuel env budget w <= fuel ->
  wp (under R exec) (wait_for_all_slices big_endian env fuel job_id total) (fun o _ =>
    exists r, o = Done r) w.
Proof.
  intros HP Hf. eapply wp_mono; [|apply wp_and;
    [by apply (wait_for_all_slices_ends big_endian env _ clk budget HP)
    |apply (wp_wait_for_all_slices big_endian env (under R exec) job_id total (fun _ => True)
       (fun _ _ => True)) with (U := fun _ => True); done]].
  intros [r| |] w' (H1 & _ & H2 & _); [by eexists|done..].
Qed.

(** C33: when every slice is already stored in a form that decodes, the job
    completes in a single pass, before any wait and whatever the timeout is. *)
Theorem wait_complete_at_once fuel V job_id total w :
  0 < fuel ->
  (forall k w r w', exec _ (RedisGet k) w r w' -> is_ok r = true) ->
  (forall i raw, V i raw -> exists s, decode_slice big_endian i (Some raw) = Ok (Some s)) ->
  (forall w w', R w w' -> slots_filled V job_id total w -> slots_filled V job_id total w') ->
  slots_filled V job_id total w ->
  wp (under R exec) (wait_for_all_slices big_endian env fuel job_id total) (fun o _ =>
    exists st, o = Done (Ok st) /\ length st = total /\ forall i s, st !! i = Some s ->
      exists raw, V i raw /\ decode_slice big_endian i (Some raw) = Ok (Some s)) w.
Proof.
  intros Hf Hok HV HR Hw. apply (wp_wait_ready big_endian env (under R exec) job_id total
    (slots_filled V job_id total) V); [| |done|done].
  - apply under_read_only; [done|]. intros w1 w2 E H i Hi. rewrite E. by apply H.
  - intros i w0 r w' Hi H0 (w1 & H1 & E). pose proof (Hok _ _ _ _ E) as Hr.
    apply exec_store in E as [_ E]. destruct r as [o|]; [|done]. subst o.
    destruct (HR _ _ H1 H0 i Hi) as (raw & -> & Hv).
    destruct (HV _ _ Hv) as [s Hs]. eauto.
Qed.

(** C10: if one slice never arrives in a form that decodes, the call ends with
    the timeout error: a partial result is never returned. *)
Theorem missing_slice_times_out clk budget fuel V job_id total k w :
  patient (under R exec) clk budget -> enough_fuel env budget w <= fuel ->
  (forall w w', R w w' -> slots_hold V job_id total w -> slots_hold V job_id total w') ->
  slots_hold V job_id total w ->
  k < total ->
  (forall raw s, V k raw -> decode_slice big_endian k (Some raw) <> Ok (Some s)) ->
  wp (under R exec) (wait_for_all_slices big_endian env fuel job_id total) (fun o _ =>
    o = Done (Err ("Timeout waiting for slices for job " +:+ job_id))) w.
Proof.
  intros HP Hf HR Hw Hk Hbad. eapply wp_mono; [|apply wp_and;
    [by apply (wait_for_all_slices_ends big_endian env _ clk budget HP)
    |eapply (wp_wait_for_all_slices big_endian env (under R exec)
       job_id total (slots_hold V job_id total) V) with (U := fun _ => True); try done]].
  - intros [[st|e]| |] w' (H1 & _ & H2 & _); [|by rewrite H2|done..].
    destruct H2 as [Hl Hs]. destruct (lookup_lt_is_Some_2 st k) as [s Es]; [lia|].
    destruct (Hs _ _ Es) as (raw & Hv & Hd). by destruct (Hbad _ _ Hv Hd).
  - apply under_read_only; [done|]. intros w1 w2 E H i raw. rewrite E. apply H.
  - intros. by eapply slots_hold_get.
Qed.

(** C8: a successful [aggregate] returns the combination of one decoded entry
    per slice, in slice order, and has stored exactly that text under the
    job's result key, with a progress record. *)
Theorem aggregate_stores fuel V job_id total w :
  (forall w w', R w w' -> slots_hold V job_id total w -> slots_hold V job_id total w') ->
  (forall w w', R w w' -> store w' !! result_key job_id = store w !! result_key job_id) ->
  slots_hold V job_id total w ->
  wp (under R exec) (aggregate big_endian env gpu fuel job_id total) (fun o w' =>
    forall s, o = Done (Ok s) ->
      store w' !! result_key job_id = Some (as_bytes s)
      /\ is_Some (store w' !! progress_key job_id)
      /\ exists st, combine_stats gpu st = Ret (Ok s) /\ length st = total
         /\ forall i e, st !! i = Some e ->
              exists raw, V i raw /\ decode_slice big_endian i (Some raw) = Ok (Some e)) w.
Proof.
  intros HR HK Hw. apply wp_bind. eapply wp_mono;
    [|eapply (wp_wait_for_all_slices big_endian env (under R exec)
       job_id total (slots_hold V job_id total) V) with (U := fun _ => True); try done].
  2: { apply under_read_only; [done|]. intros w1 w2 E H i raw. rewrite E. apply H. }
  2: { intros. by eapply slots_hold_get. }
  intros [[st|e]| |] w1 (_ & H1 & _); [|done..]. destruct H1 as [Hl Hs].
  apply wp_bind. destruct (combine_stats gpu st) as [[s|e]| | |] eqn:Ec; try done.
  - apply wp_bind. apply (wp_store_final_result env exec R job_id); [done| |done].
    intros w2 Hr Hp _ _ s' E. simplify_eq. split_and!; [done..|]. by exists st.
  - exfalso. unfold combine_stats in Ec. repeat case_match; done.
Qed.

(** C40: with [REDIS_TTL_HOURS=0] (or a value whose seconds are a multiple of
    2^64) Redis refuses the SETEX of the result, so every job ends in an
    error after its slices have been computed. *)
Theorem zero_ttl_fails fuel job_id total w :
  result_ttl env = 0%Z ->
  wp (under R exec) (aggregate big_endian env gpu fuel job_id total) (fun o _ =>
    forall s, o <> Done (Ok s)) w.
Proof.
  intros HT. apply wp_bind. eapply wp_mono;
    [|apply (wp_wait_for_all_slices big_endian env (under R exec)
       job_id total (fun _ => True) (fun _ _ => True)) with (U := fun _ => True); done].
  intros [[st|e]| |] w1 _; [|done..].
  apply wp_bind. destruct (combine_stats gpu st) as [[s|e]| | |] eqn:Ec; try done.
  - simpl. intros r w2 (w0 & _ & E). apply exec_store in E. simpl in E. rewrite HT in E.
    destruct r as [[]|e]; [lia|done].
  - exfalso. unfold combine_stats in Ec. repeat case_match; done.
Qed.
End Properties.

(** C35: the gateway's device is initialised at most once: whatever the driver
    answers later, all requests of the process aggregate on the device the first
    one found, and if it found none, on the CPU for ever. *)
Theorem aggregators_share_device cuda_build lc times :
  exists gpu, Forall (fun agg => ra_gpu agg = gpu) (aggregators cuda_build lc times None)
    /\ forall env cuda times', times = (env, cuda) :: times' -> cuda_build = true ->
         gpu = match cuda "CudaContext::new 0", cuda "compile_ptx" with
               | None, None => Some {| driver := cuda; launch_config := lc |}
               | _, _ => None
               end.
Proof.
  destruct times as [|[env cuda] times]; [exists None; by split|].
  destruct cuda_build; [|exists None; split; [apply aggregators_cpu|done]].
  exists (try_new cuda lc 0). split.
  - simpl. constructor; [done|]. by apply aggregators_initialised.
  - intros env' cuda' times' E _. simplify_eq. unfold try_new, GpuAggregator_init.
    change ("CudaContext::new " +:+ print_uint 0) with "CudaContext::new 0".
    by destruct (cuda' "CudaContext::new 0"), (cuda' "compile_ptx").
Qed.

(** ** Witnesses *)

(** Other tasks let time pass and leave Redis as it is. *)
Definition idle (w w' : sim) : Prop :=
  sim_store w' = sim_store w /\ (sim_clock w <= sim_clock w')%Z.
Definition demo_exec : executor sim := under idle (handles sim_handler).
Definition demo_environment : environment := fun _ => None.

Lemma demo_patient : patient demo_exec sim_clock (fun _ => 0).
Proof.
  split.
  - intros X c w x w' (w1 & [_ H1] & E). split; [|lia].
    pose proof (exec_clock _ _ _ _ _ E) as Hc. cbn [clock sim_runtime] in Hc.
    destruct c; cbn [clock_step] in Hc; try lia.
    unfold handles in E. cbn in E. simplify_eq. simpl. lia.
  - intros w x w' (w1 & [_ H1] & E). unfold handles in E. cbn in E. simplify_eq. lia.
  - intros ch ns w x w' (w1 & [_ H1] & E). left. unfold handles in E. cbn in E. simplify_eq. simpl. lia.
Qed.

(** Slice 0 of "job" is stored, slice 1 is not. *)
Definition demo_slot : list ascii := encode_partial (softmax_partial demo_data).
Definition demo_world : sim :=
  sim_set_store {[slice_key "job" 0 := demo_slot]} (sim_init []).
Definition demo_value (i : nat) (raw : list ascii) : Prop := i = 0 /\ raw = demo_slot.

Lemma demo_holds total : slots_hold (handles sim_handler) demo_value "job" total demo_world.
Proof.
  intros i raw _ H. cbn [store sim_runtime demo_world sim_set_store sim_store] in H.
  apply lookup_singleton_Some in H as [Hk <-].
  apply slice_key_inj in Hk as [_ Hk]; [|lia..]. split; [lia|done].
Qed.

Lemma demo_holds_idle total w w' :
  idle w w' -> slots_hold (handles sim_handler) demo_value "job" total w ->
  slots_hold (handles sim_handler) demo_value "job" total w'.
Proof. intros [E _] H i raw Hi Hr. apply H; [done|]. cbn in *. by rewrite <- E. Qed.

Lemma demo_slot_decodes raw i :
  demo_value i raw -> exists s, decode_slice false i (Some raw) = Ok (Some s).
Proof.
  intros [_ ->]. eexists. apply decode_slice_partial, softmax_partial_wire_ok.
  unfold in_width. simpl. lia.
Qed.

Lemma wait_collects_witness :
  wp demo_exec (wait_for_all_slices false demo_environment 400 "job" 1) (fun o _ =>
    match o with
    | Done (Ok st) => length st = 1 /\ forall i s, st !! i = Some s ->
        exists raw, demo_value i raw /\ decode_slice false i (Some raw) = Ok (Some s)
    | Done (Err e) => e = "Timeout waiting for slices for job job"
    | Panicked => False
    | Exhausted => True
    end) demo_world.
Proof.
  apply (wait_collects false demo_environment (handles sim_handler) idle 400 demo_value "job" 1);
    [apply demo_holds_idle|apply demo_holds].
Defined.

Lemma wait_terminates_witness :
  wp demo_exec (wait_for_all_slices false demo_environment 301 "job" 2) (fun o _ =>
    exists r, o = Done r) demo_world.
Proof.
  apply (wait_terminates false demo_environment (handles sim_handler) idle sim_clock (fun _ => 0));
    [apply demo_patient|vm_compute; lia].
Defined.

Lemma wait_complete_at_once_witness :
  wp demo_exec (wait_for_all_slices false demo_environment 1 "job" 1) (fun o _ =>
    exists st, o = Done (Ok st) /\ length st = 1 /\ forall i s, st !! i = Some s ->
      exists raw, demo_value i raw /\ decode_slice false i (Some raw) = Ok (Some s)) demo_world.
Proof.
  apply (wait_complete_at_once false demo_environment (handles sim_handler) idle 1 demo_value "job" 1).
  - lia.
  - intros k w r w' E. unfold handles in E. cbn in E. by simplify_eq.
  - intros i raw. apply demo_slot_decodes.
  - intros w w' [E _] H i Hi. cbn in *. rewrite E. by apply H.
  - intros i Hi. exists demo_slot. assert (i = 0) as -> by lia. split; [|done].
    apply lookup_singleton_eq.
Defined.

Lemma missing_slice_times_out_witness :
  wp demo_exec (wait_for_all_slices false demo_environment 301 "job" 2) (fun o _ =>
    o = Done (Err "Timeout waiting for slices for job job")) demo_world.
Proof.
  apply (missing_slice_times_out false demo_environment (handles sim_handler) idle
    sim_clock (fun _ => 0) 301 demo_value "job" 2 1);
    [apply demo_patient|vm_compute; lia|apply demo_holds_idle|apply demo_holds|lia|].
  intros raw s [? _]. lia.
Defined.

Lemma aggregate_stores_witness :
  wp demo_exec (aggregate false demo_environment None 1 "job" 1) (fun o w' =>
    forall s, o = Done (Ok s) ->
      store (exec := handles sim_handler) w' !! result_key "job" = Some (as_bytes s)
      /\ is_Some (store (exec := handles sim_handler) w' !! progress_key "job")
      /\ exists st, combine_stats None st = Ret (Ok s) /\ length st = 1
         /\ forall i e, st !! i = Some e ->
              exists raw, demo_value i raw /\ decode_slice false i (Some raw) = Ok (Some e)) demo_world.
Proof.
  apply (aggregate_stores false demo_environment None (handles sim_handler) idle 1 demo_value "job" 1);
    [apply demo_holds_idle| |apply demo_holds].
  intros w w' [E _]. exact (f_equal (fun m : gmap string (list ascii) => m !! result_key "job") E).
Defined.

Definition zero_environment : environment := fun k =>
  if String.eqb k "REDIS_TTL_HOURS" then Some "0" else None.

Lemma zero_ttl_fails_witness :
  wp demo_exec (aggregate false zero_environment None 1 "job" 1) (fun o _ =>
    forall s, o <> Done (Ok s)) demo_world.
Proof. by apply (zero_ttl_fails false zero_environment None (handles sim_handler) idle 1 "job" 1). Defined.
