(* ===== verification/Wakeup.v ===== *)
(** No wake-up of the aggregator is lost (gateway-rs/src/slice_notifier.rs and
    aggregator.rs together): the watch channel between the subscriber and
    [wait_for_all_slices], with the receiver's memory of what it has seen. *)

From Stdlib Require Import ZArith Lia List String Ascii.
From stdpp Require Import base tactics list strings gmap.
From S2P Require Import Prelude Strs Scalar Ieee Softmax Kernels GpuWorker Json Demo Wire.
From S2P Require Import Config Effects Runtime Devices RedisManager Notifier Aggregator.
Local Open Scope string_scope.
Local Open Scope list_scope.

(** ** Definitions *)

(** What the program does not see: for each channel the value its receiver has
    seen last, and the slices of the job that the subscriber has announced. *)
Record watch_state := {
  seen : gmap nat Z;
  announced : gset nat;
}.

Section Watch.
Context {W : Type} (exec : executor W) `{RT : !Runtime exec}.

(** tokio's [watch]: a new receiver has seen the initial value; when
    [changed()] returns, or is given up with nothing unseen, the receiver has
    seen the current one. *)
Definition receive {X} (c : cmd X) : X -> W -> gmap nat Z -> gmap nat Z :=
  match c in cmd X return X -> W -> gmap nat Z -> gmap nat Z with
  | WatchChannel => fun ch _ s => <[ch := 0%Z]> s
  | WaitChanged ch _ => fun _ w s => <[ch := default 0%Z ((jobs w).2 !! ch)]> s
  | _ => fun _ _ s => s
  end.

Definition watching : executor (W * watch_state) := fun X c w x w' =>
  exec X c w.1 x w'.1
  /\ w'.2 = {| seen := receive c x w'.1 (seen w.2); announced := announced w.2 |}.

(** The receiver of channel [ch] has a value to see: [changed()] returns at
    once. *)
Definition unseen (ch : nat) (w : W * watch_state) : Prop :=
  exists s v, seen w.2 !! ch = Some s /\ (jobs w.1).2 !! ch = Some v /\ (s < v)%Z.

Context `{LM : Libm} (big_endian : bool) (env : environment) `{SJ : !SerdeJson} (job_id : string).

Definition readable (i : nat) (w : W) : Prop :=
  exists raw s, store w !! slice_key job_id (Z.of_nat i) = Some raw
    /\ decode_slice big_endian i (Some raw) = Ok (Some s).

Definition announced_readable (w : W * watch_state) : Prop :=
  forall i, i ∈ announced w.2 -> readable i w.1.

(** What other tasks do while the job waits: a slice that is announced has been
    stored and stays stored, and the counter of the job's channel goes up with
    it; nobody else registers the job. *)
Record announces (w w' : W * watch_state) : Prop := {
  announces_seen : seen w'.2 = seen w.2;
  announces_more : announced w.2 ⊆ announced w'.2;
  announces_entry : (jobs w'.1).1 !! job_id = (jobs w.1).1 !! job_id;
  announces_count ch v : (jobs w.1).2 !! ch = Some v ->
    exists v', (jobs w'.1).2 !! ch = Some v' /\ (v <= v')%Z;
  announces_new i ch v : i ∈ announced w'.2 -> i ∉ announced w.2 ->
    (jobs w.1).1 !! job_id = Some ch -> (jobs w.1).2 !! ch = Some v ->
    exists v', (jobs w'.1).2 !! ch = Some v' /\ (v < v')%Z;
  announces_readable : announced_readable w -> announced_readable w';
}.

(** At a wait: once every slice is announced there is a value to see. *)
Definition wakes (total : nat) X (c : cmd X) (w : W * watch_state) : Prop :=
  match c with
  | WaitChanged ch _ => (forall i, i < total -> i ∈ announced w.2) -> unseen ch w
  | _ => True
  end.

(** ** Lemmas *)

(** The job is registered with channel [ch], and its receiver is not ahead. *)
Record listening (ch : nat) (w : W * watch_state) : Prop := {
  listening_entry : (jobs w.1).1 !! job_id = Some ch;
  listening_seen : exists s v, seen w.2 !! ch = Some s /\ (jobs w.1).2 !! ch = Some v /\ (s <= v)%Z;
  listening_readable : announced_readable w;
}.

Definition fresh (ch i : nat) (w : W * watch_state) : Prop := i ∈ announced w.2 -> unseen ch w.

Lemma listening_announces ch w w' : announces w w' -> listening ch w -> listening ch w'.
Proof.
  intros [A1 A2 A3 A4 A5 A6] [L1 (s & v & L2 & L3 & L4) L5]. split; [congruence| |auto].
  destruct (A4 _ _ L3) as (v' & H1 & H2). exists s, v'. rewrite A1. split_and!; [done..|lia].
Qed.

Lemma fresh_announces ch i w w' :
  announces w w' -> listening ch w -> fresh ch i w -> fresh ch i w'.
Proof.
  intros [A1 A2 A3 A4 A5 A6] [L1 (s & v & L2 & L3 & L4) L5] Hf Hi.
  destruct (decide (i ∈ announced w.2)) as [Ho|Hn].
  - destruct (Hf Ho) as (s1 & v1 & H1 & H2 & H3). destruct (A4 _ _ H2) as (v' & H4 & H5).
    exists s1, v'. rewrite A1. split_and!; [done..|lia].
  - destruct (A5 _ _ _ Hi Hn L1 L3) as (v' & H4 & H5). exists s, v'. rewrite A1. split_and!; [done..|lia].
Qed.
Lemma stays_readable (w w' : W * watch_state) :
  store w'.1 = store w.1 -> announced w'.2 = announced w.2 ->
  announced_readable w -> announced_readable w'.
Proof.
  intros Es Ea H i Hi. rewrite Ea in Hi. destruct (H i Hi) as (raw & t & H1 & H2).
  exists raw, t. by rewrite Es.
Qed.

(** A call after which everything the model sees is as before. *)
Lemma quiet_announces X (c : cmd X) w x w' :
  match c with RedisGet _ | InstantNow => True | _ => False end ->
  watching X c w x w' -> announces w w'.
Proof.
  intros Hc [E Eg]. pose proof (exec_store _ _ _ _ _ E) as Hs. pose proof (exec_jobs _ _ _ _ _ E) as Hj.
  assert (store w'.1 = store w.1 /\ jobs w'.1 = jobs w.1 /\ w'.2 = w.2) as (Es & Ej & Ew).
  { destruct w as [w []], w' as [w' []], c; try done; simpl in *; simplify_eq; try destruct Hs as [Hs _]; done. }
  split; rewrite ?Ej, ?Ew; try done.
  - intros ch v H. by exists v.
  - apply stays_readable; [done|by rewrite Ew].
Qed.

Lemma under_quiet ch (I : nat -> Prop) X (c : cmd X) w x w' :
  match c with RedisGet _ | InstantNow => True | _ => False end ->
  under announces watching X c w x w' -> listening ch w -> (forall i, I i -> fresh ch i w) ->
  listening ch w' /\ forall i, I i -> fresh ch i w'.
Proof.
  intros Hc (w1 & H1 & E) Hw Hf. apply quiet_announces in E; [|done].
  assert (listening ch w1) as Hw1 by (by eapply listening_announces). split; [by eapply listening_announces|].
  intros i Hi. eapply fresh_announces; [exact E|exact Hw1|]. eapply fresh_announces; eauto.
Qed.

(** After a wait the receiver has seen the current value. *)
Lemma wait_listening ch ns w x w' :
  under announces watching _ (WaitChanged ch ns) w x w' -> listening ch w -> listening ch w'.
Proof.
  intros (w1 & H1 & E & Eg) Hw. destruct (listening_announces _ _ _ H1 Hw) as [L1 (s & v & L2 & L3 & L4) L5].
  pose proof (exec_store _ _ _ _ _ E) as Hs. pose proof (exec_jobs _ _ _ _ _ E) as Hj. simpl in Hs, Hj.
  split; [by rewrite Hj| |].
  - exists v, v. rewrite Eg, Hj. simpl. rewrite lookup_insert_eq, Hj, L3. done.
  - eapply stays_readable; [exact Hs|by rewrite Eg|done].
Qed.

(** The subscriber that handles the notification of a stored slice does what the
    others may do: it announces the slice. *)
Lemma subscriber_announces ch i w :
  (jobs w.1).1 !! job_id = Some ch -> is_Some ((jobs w.1).2 !! ch) -> readable i w.1 ->
  wp exec (subscriber_message (concat_strs ["slice_done:"; job_id])) (fun o w' =>
    o = Done tt
    /\ announces w (w', {| seen := seen w.2; announced := {[i]} ∪ announced w.2 |})) w.1.
Proof.
  intros He [v Hv] Hi. apply (wp_subscriber_message exec). intros w' Es J1 J2.
  rewrite concat_strs_2, strip_prefix_app, He in J2. split; [done|].
  assert ((jobs w').2 !! ch = Some (Z.succ v)) as Hv' by (by rewrite J2, lookup_alter_eq, Hv).
  split; simpl; [done|set_solver|by rewrite J1| | |].
  - intros ch' u Hu. destruct (decide (ch' = ch)) as [->|Hn].
    + exists (Z.succ v). split; [done|]. rewrite Hv in Hu. injection Hu as <-. lia.
    + exists u. rewrite J2, lookup_alter_ne by done. done.
  - intros j ch' u _ _ He' Hu. rewrite He in He'. injection He' as <-. rewrite Hv in Hu. injection Hu as <-.
    exists (Z.succ v). split; [done|lia].
  - intros H j [->%elem_of_singleton|Hj]%elem_of_union; unfold readable; simpl; rewrite Es;
      [exact Hi|exact (H j Hj)].
Qed.

Context (Hok : forall k w r w', exec _ (RedisGet k) w r w' -> is_ok r = true).

(** A pass over the slices: one that is still missing afterwards was not
    announced when it was read. *)
Lemma wp_pass ch total c w :
  collected (fun _ _ => True) total c -> listening ch w ->
  wp (under announces watching) (read_missing big_endian job_id total c) (fun o w' =>
    exists c', o = Done c' /\ collected (fun _ _ => True) total c' /\ listening ch w'
      /\ forall i, have c' !! i = Some false -> fresh ch i w') w.
Proof.
  intros Hc Hw. unfold read_missing.
  apply (wp_for_state _ (fun k c w => collected (fun _ _ => True) total c /\ listening ch w
    /\ forall i, i < k /\ have c !! i = Some false -> fresh ch i w) _ _ _ 0).
  3: { split_and!; [done..|]. intros i [? _]. lia. }
  2: { intros c' w' (H1 & H2 & H3). exists c'. split_and!; [done..|]. intros i Hi. apply H3.
       split; [|done]. apply lookup_lt_Some in Hi. rewrite (collected_have _ _ _ H1) in Hi.
       rewrite length_seq. lia. }
  intros j i c0 w0 Hi (H1 & H2 & H3). apply lookup_seq in Hi as [Ei Hi]. simpl in Ei. subst i.
  cbv beta. destruct (have c0 !! j) as [[]|] eqn:Ej.
  - simpl. split_and!; [done..|]. intros i [Hi1 Hi2]. apply H3. split; [|done].
    assert (i <> j) by (intros ->; congruence). lia.
  - simpl. intros r w1 E.
    destruct (under_quiet ch (fun i => i < j /\ have c0 !! i = Some false) _ (RedisGet _) _ _ _ Logic.I E H2 H3)
      as [L1 F1].
    assert (forall i, i < S j -> i <> j -> have c0 !! i = Some false -> fresh ch i w1) as F2
      by (intros i Hi1 Hi2 Hi3; apply F1; split; [lia|done]).
    destruct E as (w2 & H4 & E & _). pose proof (Hok _ _ _ _ E) as Hr.
    pose proof (exec_store _ _ _ _ _ E) as [Es Er]. destruct r as [raw|]; [|done]. subst raw.
    rewrite <- Es. simpl.
    destruct (decode_slice big_endian j (store w1.1 !! slice_key job_id (Z.of_nat j))) as [[t|]|e] eqn:Ed;
      [simpl; split_and!; [by apply collect_collected|done|]|simpl; split_and!; [done..|]
      |simpl; split_and!; [done..|]]; intros i [Hi1 Hi2];
      destruct (decide (i = j)) as [->|Hn]; try by apply F2.
    3,4: intros Ha; destruct (listening_readable _ _ L1 j Ha) as (raw & t & E1 & E2); congruence.
    + simpl in Hi2. apply list_lookup_insert_Some in Hi2 as [(_ & ? & _)|[? _]]; done.
    + simpl in Hi2. rewrite list_lookup_insert_ne in Hi2 by done. by apply F2.
  - apply lookup_ge_None in Ej. rewrite (collected_have _ _ _ H1) in Ej. lia.
Qed.
Lemma some_missing total c :
  collected (fun _ _ => True) total c -> remaining c <> 0 ->
  exists i, i < total /\ have c !! i = Some false.
Proof.
  intros Hc H0. rewrite (collected_remaining _ _ _ Hc) in H0.
  assert (In false (have c)) as [i Hi]%list_elem_of_In%list_elem_of_lookup
    by (apply (count_occ_In Bool.bool_dec); lia).
  exists i. split; [|done]. rewrite <- (collected_have _ _ _ Hc). by eapply lookup_lt_Some.
Qed.

Lemma read_missing_quiet total c :
  uses (fun X c => forall w, wakes total X c w) (read_missing big_endian job_id total c).
Proof.
  apply uses_for_state. intros i c'. destruct (have c' !! i) as [[]|]; simpl; try done; (split; [done|]);
    intros r; apply uses_bind; try (by destruct r); by intros [[]|].
Qed.

Lemma wp_at_wait_loop fuel : forall ch total deadline c w,
  collected (fun _ _ => True) total c -> listening ch w ->
  wp_at (wakes total) (under announces watching)
    (wait_loop big_endian fuel job_id total ch deadline c) (fun _ _ => True) w.
Proof.
  induction fuel as [|fuel IH]; intros ch total deadline c w Hc Hw; [done|]. simpl.
  apply wp_at_bind, wp_at_uses; [apply read_missing_quiet|].
  eapply wp_mono; [|by apply wp_pass]. intros o w1 (c' & -> & Hc' & H1 & F1).
  destruct (Nat.eqb_spec (remaining c') 0) as [H0|H0]; [done|]. simpl. split; [done|].
  intros now w2 E2. destruct (under_quiet ch _ _ InstantNow _ _ _ Logic.I E2 H1 F1) as [H2 F2].
  destruct (deadline <=? now)%Z; [done|]. simpl. split.
  - intros Ha. destruct (some_missing _ _ Hc' H0) as (i & Hi & Hm). exact (F2 i Hm (Ha i Hi)).
  - intros u w3 E3. apply IH; [done|]. by eapply wait_listening.
Qed.
End Watch.

(** ** Properties *)

(** C11: no wake-up is lost.  Other tasks store slices and announce them, in this
    order; whenever [wait_for_all_slices] goes to sleep after every slice has
    been announced, at whatever moment relative to its registration and its
    reads, its receiver has an unseen value, so that the wait returns at once
    and not at the timeout. *)
Theorem no_lost_wakeup {W} (exec : executor W) `{RT : !Runtime exec} `{LM : Libm} big_endian env
    `{SJ : !SerdeJson} fuel job_id total (w : W * watch_state) :
  (forall k w r w', exec _ (RedisGet k) w r w' -> is_ok r = true) ->
  announced_readable exec big_endian job_id w ->
  wp_at (wakes exec total) (under (announces exec big_endian job_id) (watching exec))
    (wait_for_all_slices big_endian env fuel job_id total) (fun _ _ => True) w.
Proof.
  intros Hok Hw. simpl. split; [done|]. intros rx w1 (w0 & A0 & E1 & G1).
  apply (announces_readable _ _ _ _ _ A0) in Hw. pose proof (exec_store _ _ _ _ _ E1) as S1.
  pose proof (exec_jobs _ _ _ _ _ E1) as (_ & _ & J1). simpl in S1.
  apply (stays_readable exec big_endian job_id _ w1) in Hw; [|done|by rewrite G1].
  split; [done|]. intros u w2 E2.
  assert (listening exec big_endian job_id rx w2) as L2.
  { destruct E2 as (w1' & A1 & E2 & G2). pose proof (exec_store _ _ _ _ _ E2) as S2.
    pose proof (exec_jobs _ _ _ _ _ E2) as J2. simpl in S2, J2.
    destruct (announces_count _ _ _ _ _ A1 rx 0%Z) as (v & V1 & V2);
      [rewrite J1; apply lookup_insert_eq|].
    split; [rewrite J2; apply lookup_insert_eq| |].
    - exists 0%Z, v. rewrite G2, J2. simpl. rewrite (announces_seen _ _ _ _ _ A1), G1.
      simpl. rewrite lookup_insert_eq. by split_and!.
    - apply (announces_readable _ _ _ _ _ A1) in Hw. eapply stays_readable; [exact S2|by rewrite G2|done]. }
  split; [done|]. intros now w3 E3.
  destruct (under_quiet exec big_endian job_id rx (fun _ => False) _ InstantNow _ _ _ I E3 L2) as [L3 _];
    [done|].
  apply wp_at_bind. eapply wp_at_mono; [|apply wp_at_wait_loop;
    [exact Hok|apply collection_new_collected|exact L3]].
  intros [r| |] w4 _; done.
Qed.

(** ** Witnesses *)

(** Slice 0 of "job" is stored and announced before the job is registered. *)
Lemma no_lost_wakeup_witness :
  wp_at (wakes (handles sim_handler) 1)
    (under (announces (handles sim_handler) false "job") (watching (handles sim_handler)))
    (wait_for_all_slices false demo_environment 400 "job" 1) (fun _ _ => True)
    (demo_world, {| seen := ∅; announced := {[0]} |}).
Proof.
  apply (no_lost_wakeup (handles sim_handler) false demo_environment 400 "job" 1).
  - intros k w r w' E. unfold handles in E. cbn in E. injection E as <- _. reflexivity.
  - intros i Hi. simpl in Hi. apply elem_of_singleton in Hi as ->.
    destruct (demo_slot_decodes demo_slot 0) as [t Ht]; [done|]. exists demo_slot, t.
    split; [apply lookup_singleton_eq|exact Ht].
Defined.
