(* ===== verification/Service.v ===== *)
(** [GatewayService] (gateway-rs/src/service.rs): the two gRPC methods. *)

From Stdlib Require Import ZArith Lia List String Ascii.
From stdpp Require Import base tactics list strings gmap.
From S2P Require Import Prelude Strs Slicing Scalar Ieee Softmax Json Demo Config Effects.
From S2P Require Import Runtime Devices RedisManager Publisher Aggregator Wire.
Local Open Scope string_scope.
Local Open Scope list_scope.

(** ** Definitions *)

(** [tonic::Status], for the two codes the service uses. *)
Inductive Status := InvalidArgument (message : string) | Internal (message : string).

Record TaskRequest `{LM : Libm} := {
  rq_job_id : string;
  rq_task : string;
  rq_vector : list f32;
}.

Record TaskResponse `{LM : Libm} := {
  rs_message : string;
  rs_result : list f32;
}.

Record ResultResponse `{LM : Libm} := {
  rr_job_id : string;
  rr_status : string;
  rr_result : list f32;
  rr_message : string;
  rr_completed_slices : Z;
  rr_total_slices : Z;
}.

(** [GatewayService]; the Redis and notifier handles are the environment of
    the calls. *)
Record GatewayService (P : Type) := {
  publisher : P;
  nccl_dispatch : bool;
  svc_world_size : Z;
}.
Arguments publisher {P} _.
Arguments nccl_dispatch {P} _.
Arguments svc_world_size {P} _.

(** [GatewayService::new] *)
Definition GatewayService_new {P} (publisher : P) (nccl_dispatch : bool) (world_size : Z)
  : GatewayService P := {|
  publisher := publisher; nccl_dispatch := nccl_dispatch; svc_world_size := world_size |}.

Section Service.
Context `{LM : Libm} (big_endian : bool) (env : environment) `{SJ : !SerdeJson}.
Context (gpu : option GpuAggregator) (fuel : nat) `{PB : Publisher P} (self : GatewayService P).

(** The slices of the vector; [None] is a panic. *)
Definition slices_of (vector : list f64) : result (option (list (list f64))) Status :=
  let vector_size := Z.of_nat (length vector) in
  if nccl_dispatch self then
    if (vector_size <? svc_world_size self)%Z
    then Err (InvalidArgument (concat_strs
           ["vector length "; print_uint vector_size; " < world_size ";
            print_uint (svc_world_size self);
            ": cannot give every GPU rank a non-empty slice in NCCL mode"]))
    else Ok (even_chunks vector (Z.to_nat (svc_world_size self)))
  else Ok (standard_slices vector (num_slices env)).

(** [nccl_dispatch] selects the rank as the subject. *)
Definition subject_of (slice_id : nat) : string :=
  if nccl_dispatch self then print_nat slice_id else "task_queue".

Definition task_of (job_id task : string) (slice_id : nat) (data : list f64) : TaskMessage := {|
  tm_job_id := job_id; tm_slice_id := Z.of_nat slice_id; tm_task := task; tm_data := data |}.

(** Publish each slice to the message bus. *)
Definition publish_slices (job_id task : string) (slices : list (list f64))
  : prog (result () Status) :=
  for_result (combine (seq 0 (length slices)) slices) (fun '(slice_id, data) =>
    let msg := task_to_string (task_of job_id task slice_id data) in
    let! r := publish (publisher self) (subject_of slice_id) msg in
    Ret (map_err (fun e => Internal ("Publish failed: " +:+ e)) r)).

(** [serde_json::from_str::<Vec<f64>>(s)?.map(|v| v as f32)] *)
Definition parse_result (s : string) : result (list f32) string :=
  let? v := vec_from_str s in Ok (map as_f32 v).

Definition submit_task (req : TaskRequest) : prog (result TaskResponse Status) :=
  if negb (String.eqb (rq_task req) "softmax")
  then Ret (Err (InvalidArgument "only softmax task supported"))
  else
    let vector := map as_f64 (rq_vector req) in
    if Nat.eqb (length vector) 0
    then Ret (Err (InvalidArgument "empty input vector"))
    else
      match slices_of vector with
      | Err e => Ret (Err e)
      | Ok None => Panic
      | Ok (Some slices) =>
          let total_slices := length slices in
          let! now := call SystemNow in
          let metadata := {|
            jm_job_id := rq_job_id req; jm_task_type := rq_task req;
            jm_total_slices := Z.of_nat total_slices; jm_created_at := now;
            jm_status := "submitted" |} in
          let! r := set_job_metadata env (rq_job_id req) metadata in
          match r with
          | Err _ => Ret (Err (Internal "Failed to store job metadata"))
          | Ok _ =>
              try! _ := publish_slices (rq_job_id req) (rq_task req) slices in
              let! r := aggregate big_endian env gpu fuel (rq_job_id req) total_slices in
              match r with
              | Err e => Ret (Err (Internal ("Aggregation failed: " +:+ e)))
              | Ok result_str =>
                  match parse_result result_str with
                  | Err e => Ret (Err (Internal ("Failed to parse result: " +:+ e)))
                  | Ok result_floats =>
                      Ret (Ok {| rs_message := "OK"; rs_result := result_floats |})
                  end
              end
          end
      end.

Definition response (job_id status message : string) : ResultResponse := {|
  rr_job_id := job_id; rr_status := status; rr_result := []; rr_message := message;
  rr_completed_slices := 0; rr_total_slices := 0 |}.

(** The status and the message of a job without a result. *)
Definition progress_of (completed total_slices : Z) : string * string :=
  if (completed =? 0)%Z
  then ("pending", "Job submitted, waiting for processing to start")
  else if (completed <? total_slices)%Z
  then ("running", concat_strs ["Processing in progress: "; print_uint completed; "/";
                                print_uint total_slices; " slices completed"])
  else ("running", "All slices completed, aggregating results...").

Definition get_result (job_id : string) : prog (result ResultResponse Status) :=
  let! r := get_job_metadata job_id in
  match r with
  | Ok None => Ret (Ok (response job_id "not_found" "Job not found or expired"))
  | Err e => Ret (Err (Internal ("Redis error: " +:+ e)))
  | Ok (Some metadata) =>
      let total_slices := jm_total_slices metadata in
      let final_key := result_key job_id in
      let! raw := get_str final_key in
      match raw with
      | Ok (Some raw) =>
          let! ttl := redis_ttl final_key in
          let message :=
            if (0 <? ttl)%Z
            then concat_strs ["Result ready (expires in "; print_uint ttl; " seconds)"]
            else "Result ready" in
          Ret (Ok (match parse_result raw with
            | Ok result => {|
                rr_job_id := job_id; rr_status := "ready"; rr_result := result;
                rr_message := message; rr_completed_slices := as_i32 total_slices;
                rr_total_slices := as_i32 total_slices |}
            | Err e => {|
                rr_job_id := job_id; rr_status := "failed"; rr_result := [];
                rr_message := "Failed to parse result: " +:+ e;
                rr_completed_slices := as_i32 total_slices;
                rr_total_slices := as_i32 total_slices |}
            end))
      | _ =>
          let! completed := get_completed_slice_count job_id (Z.to_nat total_slices) in
          let '(status, message) := progress_of (Z.of_nat completed) total_slices in
          Ret (Ok {|
            rr_job_id := job_id; rr_status := status; rr_result := [];
            rr_message := message; rr_completed_slices := as_i32 (Z.of_nat completed);
            rr_total_slices := as_i32 total_slices |})
      end
  end.
End Service.

(** ** Lemmas *)

(** What a trace sent over the sockets, in order. *)
Definition sends (tr : list event) : list (nat * list ascii) :=
  omap (fun e => match e with
                 | @Event _ c _ => match c with SocketSend s p => Some (s, p) | _ => None end
                 end) tr.

Definition no_send {X} (c : cmd X) : Prop :=
  match c with SocketSend _ _ => False | _ => True end.

Lemma sends_app tr1 tr2 : sends (tr1 ++ tr2) = sends tr1 ++ sends tr2.
Proof. apply omap_app. Qed.

Lemma sends_step X (c : cmd X) tr x tr' :
  no_send c -> tracing X c tr x tr' -> sends tr' = sends tr.
Proof.
  intros Hc ->. rewrite sends_app. rewrite <- (app_nil_r (sends tr)) at 2. f_equal.
  by destruct c.
Qed.

Lemma wp_no_send {A} (p : prog A) tr :
  uses (@no_send) p -> wp tracing p (fun _ tr' => sends tr' = sends tr) tr.
Proof.
  intros Hp. apply (wp_uses (@no_send)); [|done|done].
  intros X c w x w' Hc E <-. by eapply sends_step.
Qed.

Ltac uses_calls := repeat first
  [ progress intros | apply uses_for_state | apply uses_for_result | apply uses_bind
  | case_match | split | exact I ].

Section Silent.
Context `{LM : Libm} (big_endian : bool) (env : environment) `{SJ : !SerdeJson}.
Context (gpu : option GpuAggregator).

Lemma wait_loop_silent fuel : forall job total rx d c,
  uses (@no_send) (wait_loop big_endian fuel job total rx d c).
Proof.
  induction fuel as [|fuel IH]; intros; simpl; [done|].
  apply uses_bind; [unfold read_missing, read_slice; uses_calls|]. uses_calls. apply IH.
Qed.

Lemma aggregate_silent fuel job total :
  uses (@no_send) (aggregate big_endian env gpu fuel job total).
Proof.
  apply uses_bind.
  - apply uses_bind; [uses_calls|intros rx]. apply uses_bind; [done|intros now].
    apply uses_bind; [apply wait_loop_silent|]. uses_calls.
  - intros [st|e]; [|done]. apply uses_bind; [unfold combine_stats; uses_calls|]. uses_calls.
Qed.
End Silent.

(** Dispatch: slice [i] goes to the socket [route i]. *)
Section Dispatch.
Context `{LM : Libm} (env : environment) `{SJ : !SerdeJson} `{PB : Publisher P}.
Context (self : GatewayService P) (route : nat -> nat) (limit : nat).

Definition routed : Prop := forall i payload, i < limit ->
  exists err, publish (publisher self) (subject_of self i) payload
    = bind (call (SocketSend (route i) (as_bytes payload))) (fun r => Ret (map_err err r)).

Definition messages (job_id task : string) (l : list (nat * list f64)) : list (nat * list ascii) :=
  map (fun '(i, d) => (route i, as_bytes (task_to_string (task_of job_id task i d)))) l.

Lemma wp_publish (Hr : routed) job_id task l : forall tr,
  Forall (fun '(i, _) => i < limit) l ->
  wp tracing (for_result l (fun '(i, d) =>
      let msg := task_to_string (task_of job_id task i d) in
      let! r := publish (publisher self) (subject_of self i) msg in
      Ret (map_err (fun e => Internal ("Publish failed: " +:+ e)) r)))
    (fun o tr' => exists n, sends tr' = sends tr ++ take n (messages job_id task l)
       /\ tr `prefix_of` tr' /\ (n = 0 -> tr' = tr)
       /\ match o with
          | Done (Ok _) => n = length l
          | Done (Err _) => 0 < n
          | _ => False
          end) tr.
Proof.
  induction l as [|[i d] l IH]; intros tr Hl; simpl.
  { exists 0. split_and!; [by rewrite app_nil_r|done..]. }
  apply Forall_cons in Hl as [Hi Hl]. destruct (Hr i (task_to_string (task_of job_id task i d)) Hi)
    as [err ->]. simpl. intros r tr1 ->.
  set (m := (route i, as_bytes (task_to_string (task_of job_id task i d)))).
  assert (sends (tr ++ [Event (SocketSend m.1 m.2) r]) = sends tr ++ [m]) as Hm
    by (by rewrite sends_app).
  destruct r as [[]|e]; simpl.
  - eapply wp_mono; [|by apply IH]. intros o tr2 (n & H1 & H2 & H3 & H4). exists (S n).
    rewrite H1. fold m in Hm |- *. simpl in Hm |- *. rewrite Hm, <- app_assoc. split_and!; try done.
    + etransitivity; [|exact H2]. by apply prefix_app_r.
    + destruct o as [[u|e]| |]; cbn in *; try done; lia.
  - exists 1. fold m in Hm. simpl in Hm |- *. rewrite Hm. fold m. split_and!; try done; [|lia].
    by apply prefix_app_r.
Qed.
End Dispatch.

Lemma combine_seq_bound {A} (slices : list A) a :
  Forall (fun '(i, _) => i < a + length slices) (combine (seq a (length slices)) slices).
Proof.
  apply Forall_forall. intros [i d] H%list_elem_of_In%in_combine_l.
  apply list_elem_of_In, elem_of_seq in H. lia.
Qed.

#[local] Opaque aggregate.

Section Submit.
Context `{LM : Libm} (big_endian : bool) (env : environment) `{SJ : !SerdeJson}.
Context (gpu : option GpuAggregator) (fuel : nat) `{PB : Publisher P} (self : GatewayService P).

(** The record stored before anything is published. *)
Definition submitted (req : TaskRequest) (total : nat) (now : Z) : JobMetadata := {|
  jm_job_id := rq_job_id req; jm_task_type := rq_task req; jm_total_slices := Z.of_nat total;
  jm_created_at := now; jm_status := "submitted" |}.

Definition metadata_first (req : TaskRequest) (total : nat) (tr : list event) : Prop :=
  exists now m rest, metadata_to_string (submitted req total now) = Ok m
    /\ tr = Event SystemNow now
         :: Event (RedisSetEx (metadata_key (rq_job_id req)) (as_bytes m) (metadata_ttl env)) (Ok tt)
         :: rest.

Lemma metadata_first_prefix req total tr tr' :
  tr `prefix_of` tr' -> metadata_first req total tr -> metadata_first req total tr'.
Proof.
  intros [k ->] (now & m & rest & H1 & ->). exists now, m, (rest ++ k). by rewrite H1.
Qed.

Lemma prefix_tracing {A} (p : prog A) : forall tr0 tr,
  tr0 `prefix_of` tr -> wp tracing p (fun _ tr' => tr0 `prefix_of` tr') tr.
Proof.
  induction p as [a|X c k IH| |]; intros tr0 tr H; simpl; try done.
  intros x tr' ->. apply IH. by apply prefix_app_r.
Qed.

Lemma submit_trace req route limit slices :
  routed self route limit ->
  rq_task req = "softmax" -> rq_vector req <> [] ->
  slices_of env self (map as_f64 (rq_vector req)) = Ok (Some slices) ->
  length slices <= limit ->
  wp tracing (submit_task big_endian env gpu fuel self req) (fun o tr =>
    (sends tr <> [] -> metadata_first req (length slices) tr)
    /\ sends tr `prefix_of` messages route (rq_job_id req) (rq_task req)
         (combine (seq 0 (length slices)) slices)
    /\ (forall resp, o = Done (Ok resp) ->
        sends tr = messages route (rq_job_id req) (rq_task req)
          (combine (seq 0 (length slices)) slices))) [].
Proof.
  intros Hr Ht Hv Hs Hl. unfold submit_task. rewrite Hs. rewrite Ht at 1. simpl.
  rewrite length_map. destruct (rq_vector req) as [|v vs] eqn:Ev; [done|]. clear Ev. simpl.
  intros now tr1 ->. unfold set_job_metadata.
  change ({| jm_job_id := _; jm_task_type := _; jm_total_slices := _; jm_created_at := now;
             jm_status := _ |}) with (submitted req (length slices) now).
  destruct (metadata_to_string (submitted req (length slices) now)) as [m|e] eqn:Em.
  2: { simpl. split_and!; [done|apply prefix_nil|done]. }
  simpl. intros [[]|e] tr2 ->.
  2: { simpl. split_and!; [done|apply prefix_nil|done]. }
  apply wp_bind. eapply wp_mono; [|apply (wp_publish self route limit Hr)].
  2: { eapply Forall_impl; [apply combine_seq_bound|].
       intros [i d] Hi. cbn in Hi. by eapply Nat.lt_le_trans. }
  intros o tr3 (n & H1 & H2 & _ & H4). simpl in H1.
  assert (metadata_first req (length slices) tr3) as Hm.
  { eapply metadata_first_prefix; [exact H2|]. by eexists now, m, []. }
  set (full := messages _ _ _ _) in *.
  assert (sends tr3 `prefix_of` full) as Hp.
  { rewrite H1. exists (drop n full). by rewrite take_drop. }
  destruct o as [[[]|e]| |]; try (by split_and!).
  assert (sends tr3 = full) as Hf.
  { rewrite H1, firstn_all2; [done|]. unfold full, messages. rewrite length_map. cbn in H4. by rewrite H4. }
  simpl. apply wp_bind. eapply wp_mono; [|apply wp_and;
    [apply wp_no_send, aggregate_silent|apply prefix_tracing; reflexivity]].
  intros o tr4 [E Hpre].
  assert (metadata_first req (length slices) tr4) as Hm4 by by eapply metadata_first_prefix.
  cbv beta in E. rewrite <- Hf, <- E.
  destruct o as [[s|e]| |]; simpl; try by split_and!.
  destruct (parse_result s); by split_and!.
Qed.
End Submit.

(** What a client is told of a job, as a function of what Redis holds. *)
Section Views.
Context `{LM : Libm} `{SJ : !SerdeJson}.

Inductive view :=
| VNotFound
| VUnreadable
| VReady (values : list f32)
| VFailed
| VProgress (completed total : Z).

Definition stored_slices (s : gmap string (list ascii)) (job_id : string) (n : nat) : nat :=
  length (List.filter (fun i => bool_decide (is_Some (s !! slice_key job_id (Z.of_nat i)))) (seq 0 n)).

Definition view_of (s : gmap string (list ascii)) (job_id : string) : view :=
  match s !! metadata_key job_id with
  | None => VNotFound
  | Some b =>
      match (t ← from_utf8 b; ok (metadata_from_str t)) with
      | None => VUnreadable
      | Some m =>
          match s !! result_key job_id ≫= from_utf8 with
          | Some raw => match parse_result raw with Ok v => VReady v | Err _ => VFailed end
          | None => VProgress (Z.of_nat (stored_slices s job_id (Z.to_nat (jm_total_slices m))))
                      (jm_total_slices m)
          end
      end
  end.

Definition shows (job_id : string) (v : view) (r : result ResultResponse Status) : Prop :=
  match v, r with
  | VNotFound, Ok p => rr_status p = "not_found" /\ rr_job_id p = job_id /\ rr_result p = []
  | VUnreadable, Err (Internal _) => True
  | VReady values, Ok p => rr_status p = "ready" /\ rr_job_id p = job_id /\ rr_result p = values
  | VFailed, Ok p => rr_status p = "failed" /\ rr_job_id p = job_id /\ rr_result p = []
  | VProgress completed total, Ok p =>
      rr_status p = (if (completed =? 0)%Z then "pending" else "running")
      /\ rr_job_id p = job_id /\ rr_result p = []
      /\ rr_completed_slices p = as_i32 completed /\ rr_total_slices p = as_i32 total
  | _, _ => False
  end.
End Views.

(** Redis answers every read; GET as a string fails on a value that is not
    UTF-8. *)
Record reliable_reads {W} (exec : executor W) `{RT : !Runtime exec} : Prop := {
  reliable_str k w e w' : exec _ (RedisGetStr k) w (Err e) w' ->
    exists b, store w !! k = Some b /\ from_utf8 b = None;
  reliable_exists k w e w' : ~ exec _ (RedisExists k) w (Err e) w';
}.

Section Reading.
Context {W : Type} (exec : executor W) `{RT : !Runtime exec} (HR : reliable_reads exec).

Lemma wp_get_str k w (Q : outcome (result (option string) string) -> W -> Prop) :
  (forall w', store w' = store w -> store w !! k = None -> Q (Done (Ok None)) w') ->
  (forall w' b t, store w' = store w -> store w !! k = Some b -> from_utf8 b = Some t ->
     Q (Done (Ok (Some t))) w') ->
  (forall w' e b, store w' = store w -> store w !! k = Some b -> from_utf8 b = None ->
     Q (Done (Err e)) w') ->
  wp exec (get_str k) Q w.
Proof.
  intros HN HS HE r w' E. pose proof (exec_store _ _ _ _ _ E) as [Es Hr].
  destruct r as [[t|]|e].
  - destruct Hr as (b & Hb & Ht). by eapply HS.
  - by apply HN.
  - destruct (reliable_str _ HR _ _ _ _ E) as (b & Hb & Hn). by eapply HE.
Qed.

Lemma filter_seq_snoc (f : nat -> bool) k :
  length (List.filter f (seq 0 (S k))) = length (List.filter f (seq 0 k)) + (if f k then 1 else 0).
Proof. rewrite seq_S, List.filter_app, length_app. simpl. by destruct (f k). Qed.

Lemma wp_completed job n w (Q : outcome nat -> W -> Prop) :
  (forall w', store w' = store w -> Q (Done (stored_slices (store w) job n)) w') ->
  wp exec (get_completed_slice_count job n) Q w.
Proof.
  intros HQ. unfold get_completed_slice_count.
  apply (wp_for_state exec (fun k c w' => store w' = store w
           /\ c = stored_slices (store w) job k) _ _ _ 0); [| |done].
  - intros j i c w1 Hi [E1 ->]. apply lookup_seq in Hi as [Ei Hi]. simpl in Ei. subst i.
    simpl. intros r w2 E2. pose proof (exec_store _ _ _ _ _ E2) as [Es Hr].
    destruct r as [b|e]; [|by destruct (reliable_exists _ HR _ _ _ _ E2)]. simpl.
    split; [congruence|]. unfold stored_slices. rewrite filter_seq_snoc, Hr, E1.
    destruct (bool_decide (is_Some (store w !! slice_key job (Z.of_nat j)))); lia.
  - intros c w' [E ->]. rewrite length_seq. by apply HQ.
Qed.

Lemma wp_progress `{LM : Libm} job_id total s w :
  store w = s ->
  wp exec (let! completed := get_completed_slice_count job_id (Z.to_nat total) in
     let '(status, message) := progress_of (Z.of_nat completed) total in
     Ret (Ok {| rr_job_id := job_id; rr_status := status; rr_result := [];
                rr_message := message; rr_completed_slices := as_i32 (Z.of_nat completed);
                rr_total_slices := as_i32 total |}))
   (fun o w' => store w' = s /\ exists r, o = Done r
     /\ shows job_id (VProgress (Z.of_nat (stored_slices s job_id (Z.to_nat total))) total) r) w.
Proof.
  intros <-. apply wp_bind, wp_completed. intros w' E. unfold progress_of.
  set (c := stored_slices _ _ _). simpl.
  destruct (Z.of_nat c =? 0)%Z eqn:E0; [|destruct (Z.of_nat c <? total)%Z];
    (split; [done|]); eexists; (split; [done|]); cbn -[Z.eqb Z.of_nat as_i32]; by rewrite ?E0.
Qed.
End Reading.

(** ** Properties *)

Section Properties.
Context `{LM : Libm} (big_endian : bool) (env : environment) `{SJ : !SerdeJson}.
Context (gpu : option GpuAggregator) (fuel : nat).

(** C32: a request that is not a softmax task, has an empty vector or is too
    short for the NCCL ranks is refused with INVALID_ARGUMENT, and nothing is
    read, stored or published. *)
Theorem submit_rejects `{PB : Publisher P} (self : GatewayService P) req :
  (rq_task req <> "softmax" ->
     submit_task big_endian env gpu fuel self req
     = Ret (Err (InvalidArgument "only softmax task supported")))
  /\ (rq_task req = "softmax" -> rq_vector req = [] ->
     submit_task big_endian env gpu fuel self req
     = Ret (Err (InvalidArgument "empty input vector")))
  /\ (rq_task req = "softmax" -> rq_vector req <> [] -> nccl_dispatch self = true ->
     (Z.of_nat (length (rq_vector req)) < svc_world_size self)%Z ->
     exists msg, submit_task big_endian env gpu fuel self req = Ret (Err (InvalidArgument msg))).
Proof.
  unfold submit_task. split_and!.
  - intros H. by destruct (String.eqb_spec (rq_task req) "softmax").
  - intros -> ->. done.
  - intros -> Hv Hn Hl. destruct (rq_vector req) as [|v vs] eqn:E; [done|].
    unfold slices_of. rewrite Hn, length_map. destruct (Z.ltb_spec (Z.of_nat (length (v :: vs)))
      (svc_world_size self)); [|lia]. by eexists.
Qed.

(** C12: in NCCL mode the vector is cut into one non-empty slice per rank, and
    slice [i] is sent to the socket of rank [i] and to no other, in rank
    order; nothing is sent before the job's metadata is stored, and a
    successful reply means that every rank was sent its slice. *)
Theorem nccl_dispatch_order (self : GatewayService ZmqMultiPublisher) req ranks :
  senders (publisher self) = ranks -> nccl_dispatch self = true ->
  svc_world_size self = Z.of_nat (length ranks) ->
  0 < length ranks <= length (rq_vector req) -> in_width 64 (Z.of_nat (length ranks)) ->
  rq_task req = "softmax" ->
  exists slices,
    concat slices = map as_f64 (rq_vector req) /\ length slices = length ranks
    /\ Forall (fun s => s <> []) slices
    /\ wp tracing (submit_task big_endian env gpu fuel self req) (fun o tr =>
        (sends tr <> [] -> metadata_first env req (length slices) tr)
        /\ sends tr `prefix_of` messages (fun i => nth i ranks 0) (rq_job_id req) (rq_task req)
             (combine (seq 0 (length slices)) slices)
        /\ (forall resp, o = Done (Ok resp) ->
            sends tr = messages (fun i => nth i ranks 0) (rq_job_id req) (rq_task req)
              (combine (seq 0 (length slices)) slices))) [].
Proof.
  intros Hs Hn Hw Hl Hwd Ht.
  destruct (even_chunks_total (map as_f64 (rq_vector req)) (length ranks)) as (cs & H1 & H2 & H3);
    [lia|].
  assert (length cs = length ranks) as Hlen.
  { rewrite <- (length_map (@length _) cs), H3. by rewrite length_map, length_seq. }
  exists cs. split_and!; [done..| |].
  - apply Forall_forall. intros c Hc ->. apply (list_elem_of_fmap_2 length) in Hc.
    change (fmap length cs) with (map length cs) in Hc. rewrite H3 in Hc.
    apply list_elem_of_fmap in Hc as (i & Hi & _). simpl in Hi. unfold even_size in Hi.
    rewrite length_map in Hi.
    symmetry in Hi. apply Nat.eq_add_0 in Hi as [Hi _].
    apply Nat.div_small_iff in Hi; change (@f32 ieee) with Z in *; lia.
  - apply (submit_trace big_endian env gpu fuel self req _ (length ranks)); [|done|..|lia].
    + intros i payload Hi. destruct (lookup_lt_is_Some_2 ranks i Hi) as [tx Hx].
      eexists. unfold subject_of. rewrite Hn.
      rewrite (multi_publish_rank _ _ tx); [|unfold in_width in *; lia|by rewrite Hs].
      by rewrite (nth_lookup_Some _ _ _ _ Hx).
    + intros E. rewrite E in Hl. simpl in Hl. lia.
    + unfold slices_of. rewrite Hn, length_map, Hw, Nat2Z.id.
      destruct (Z.ltb_spec (Z.of_nat (length (rq_vector req))) (Z.of_nat (length ranks))); [lia|].
      by rewrite H1.
Qed.

(** C13: in the standard mode every slice is sent, in order, over the one PUSH
    socket, after the metadata; there are at most [NUM_SLICES] of them, none
    empty, and together they are the vector. *)
Theorem standard_dispatch_order (self : GatewayService ZmqPublisher) req :
  nccl_dispatch self = false -> rq_task req = "softmax" -> rq_vector req <> [] ->
  (Z.of_nat (length (rq_vector req)) + num_slices env < 2 ^ 64)%Z ->
  exists slices,
    concat slices = map as_f64 (rq_vector req)
    /\ (Z.of_nat (length slices) <= num_slices env)%Z /\ Forall (fun s => s <> []) slices
    /\ wp tracing (submit_task big_endian env gpu fuel self req) (fun o tr =>
        (sends tr <> [] -> metadata_first env req (length slices) tr)
        /\ sends tr `prefix_of` messages (fun _ => sender (publisher self)) (rq_job_id req)
             (rq_task req) (combine (seq 0 (length slices)) slices)
        /\ (forall resp, o = Done (Ok resp) ->
            sends tr = messages (fun _ => sender (publisher self)) (rq_job_id req)
              (rq_task req) (combine (seq 0 (length slices)) slices))) [].
Proof.
  intros Hn Ht Hv Hw.
  destruct (standard_slices_total (map as_f64 (rq_vector req)) (num_slices env)) as (cs & H1 & H2 & H3 & H4);
    [by destruct (rq_vector req)|apply num_slices_pos|by rewrite length_map|].
  exists cs. split_and!; [done|lia| |].
  - eapply Forall_impl; [exact H3|]. intros c Hc ->. simpl in Hc. lia.
  - apply (submit_trace big_endian env gpu fuel self req _ (length cs)); [|done|done| |done].
    + intros i payload Hi. eexists. done.
    + unfold slices_of. by rewrite Hn, H1.
Qed.

(** C14: [get_result] changes nothing and tells exactly what Redis holds:
    not_found without metadata, ready with the stored values, failed when the
    stored result does not parse, otherwise pending or running with the number
    of slices that are stored. *)
Theorem get_result_refines {W} (exec : executor W) `{RT : !Runtime exec} job_id w :
  reliable_reads exec ->
  wp exec (get_result job_id) (fun o w' =>
    store w' = store w
    /\ exists r, o = Done r /\ shows job_id (view_of (store w) job_id) r) w.
Proof.
  intros HR. unfold get_result, get_job_metadata. apply wp_bind. unfold bind_result. apply wp_bind.
  apply (wp_get_str exec HR).
  - intros w1 E1 H1. split; [done|]. eexists. split; [done|]. unfold view_of. by rewrite H1.
  - intros w1 b t E1 H1 Ht. cbv beta iota. unfold view_of. rewrite H1. cbn [mbind option_bind].
    rewrite Ht. cbn [mbind option_bind].
    destruct (metadata_from_str t) as [m|e]; cbn [result_bind ok]; [|split; [done|]; by eexists].
    apply wp_bind, (wp_get_str exec HR); rewrite E1.
    + intros w2 E2 ->. by apply wp_progress.
    + intros w2 b' raw E2 -> Hraw. simpl. rewrite Hraw. intros ttl w3 E3.
      pose proof (exec_store _ _ _ _ _ E3) as Es. simpl in Es.
      split; [congruence|]. eexists. split; [done|].
      destruct (parse_result raw); done.
    + intros w2 e b' E2 -> Hraw. simpl. rewrite Hraw. by apply wp_progress.
  - intros w1 e b E1 H1 Hb. split; [done|]. eexists. split; [done|]. unfold view_of.
    by rewrite H1; simpl; rewrite Hb.
Qed.
End Properties.

(** ** Witnesses *)

Definition demo_single : GatewayService ZmqPublisher := {|
  publisher := {| sender := 7 |}; nccl_dispatch := false; svc_world_size := 4 |}.
Definition demo_multi : GatewayService ZmqMultiPublisher := {|
  publisher := {| senders := [5; 6] |}; nccl_dispatch := true; svc_world_size := 2 |}.
(** The vector [1, 2, 3]. *)
Definition three_request : TaskRequest := {|
  rq_job_id := "job"; rq_task := "softmax";
  rq_vector := [0x3F800000; 0x40000000; 0x40400000]%Z |}.

Lemma nccl_dispatch_order_witness : exists slices,
  concat slices = map as_f64 (rq_vector three_request) /\ length slices = 2
  /\ Forall (fun s => s <> []) slices
  /\ wp tracing (submit_task false demo_environment None 1 demo_multi three_request) (fun o tr =>
      (sends tr <> [] -> metadata_first demo_environment three_request (length slices) tr)
      /\ sends tr `prefix_of` messages (fun i => nth i [5; 6] 0) "job" "softmax"
           (combine (seq 0 (length slices)) slices)
      /\ (forall resp, o = Done (Ok resp) ->
          sends tr = messages (fun i => nth i [5; 6] 0) "job" "softmax"
            (combine (seq 0 (length slices)) slices))) [].
Proof.
  apply (nccl_dispatch_order false demo_environment None 1 demo_multi three_request [5; 6]);
    try reflexivity; [simpl; lia|unfold in_width; simpl; lia].
Defined.

Lemma standard_dispatch_order_witness : exists slices,
  concat slices = map as_f64 (rq_vector three_request)
  /\ (Z.of_nat (length slices) <= num_slices demo_environment)%Z /\ Forall (fun s => s <> []) slices
  /\ wp tracing (submit_task false demo_environment None 1 demo_single three_request) (fun o tr =>
      (sends tr <> [] -> metadata_first demo_environment three_request (length slices) tr)
      /\ sends tr `prefix_of` messages (fun _ => 7) "job" "softmax"
           (combine (seq 0 (length slices)) slices)
      /\ (forall resp, o = Done (Ok resp) ->
          sends tr = messages (fun _ => 7) "job" "softmax"
            (combine (seq 0 (length slices)) slices))) [].
Proof.
  apply (standard_dispatch_order false demo_environment None 1 demo_single three_request);
    try reflexivity. discriminate.
Defined.

Lemma sim_reliable : reliable_reads (handles sim_handler).
Proof.
  split.
  - intros k w e w' E. unfold handles in E. cbn in E. cbn [store sim_runtime].
    destruct (sim_store w !! k) as [b|] eqn:Eb; [|by simplify_eq].
    destruct (from_utf8 b) eqn:Eu; [by simplify_eq|]. by exists b.
  - intros k w e w' E. unfold handles in E. cbn in E. by simplify_eq.
Qed.

Lemma get_result_refines_witness :
  wp (handles sim_handler) (get_result "job") (fun o w' =>
    store (exec := handles sim_handler) w' = store (exec := handles sim_handler) demo_world
    /\ exists r, o = Done r
       /\ shows "job" (view_of (store (exec := handles sim_handler) demo_world) "job") r) demo_world.
Proof. apply (get_result_refines (handles sim_handler) "job" demo_world sim_reliable). Defined.
