(* ===== verification/Handler.v ===== *)
(** The worker's message handler (worker-rs/src/handler.rs): decode a task,
    compute the partial statistics, store them, notify the gateway. *)

From Stdlib Require Import ZArith Lia List String Ascii.
From stdpp Require Import base tactics list strings gmap.
From S2P Require Import Prelude Strs Scalar Ieee Softmax Kernels GpuWorker Json Demo Wire.
From S2P Require Import Config Effects Runtime RedisManager Devices.
Local Open Scope string_scope.
Local Open Scope list_scope.

(** ** Definitions *)

(** [str::is_char_boundary(i)] for [i <= len]: not inside a UTF-8 sequence. *)
Definition is_char_boundary (s : string) (i : nat) : bool :=
  match list_ascii_of_string s !! i with
  | Some b => negb (cont b)
  | None => true
  end.

(** [&job_id[..job_id.len().min(8)]] of the log lines; panics off a boundary. *)
Definition log_prefix (job_id : string) : option string :=
  let n := Nat.min (String.length job_id) 8 in
  if is_char_boundary job_id n then Some (String.substring 0 n job_id) else None.

Section Handler.
(** [device]: the CUDA driver of the [cuda] feature; [info_enabled]: whether
    the log filter lets INFO lines through, so that their fields are
    evaluated. *)
Context `{LM : Libm} `{SJ : !SerdeJson} (device : option (string -> option string)).
Context (info_enabled : bool).

Definition write_result (job_id : string) (slice_id : Z) (payload : list ascii)
  : prog (result () string) :=
  let result_key := concat_strs ["result:"; job_id; ":"; print_uint slice_id] in
  let pub_channel := concat_strs ["slice_done:"; job_id] in
  let! r := call (RedisSet result_key payload) in
  try! _ := Ret (map_err (fun _ => concat_strs ["Redis SET "; result_key]) r) in
  let! r := call (RedisPublish pub_channel (print_uint slice_id)) in
  try! _ := Ret (map_err (fun _ => concat_strs ["Redis PUBLISH "; pub_channel]) r) in
  Ret (Ok tt).

(** The CUDA calls run on a blocking thread, whose panic, as that of
    [gpu_worker::global()] on a process without a device, comes back as an
    error.  (An access outside an array has no defined behaviour; the theorems
    exclude it.) *)
Definition compute_partial (data : list f64) : prog (result PartialStats string) :=
  match device with
  | Some cuda =>
      let! joined := spawn_blocking
        (let data_f32 := map as_f32 data in
         global_worker
           match partial_softmax cuda data_f32 with
           | Ok stats => Ret (Ok stats)
           | Err (CudaError e) => Ret (Err e)
           | Err OutOfBounds => Panic
           end) in
      try! stats := Ret (map_err (fun _ => "spawn_blocking panicked") joined) in
      Ret stats
  | None => Ret (Ok (softmax_partial data))
  end.

(** The INFO line of a finished slice. *)
Definition log_done (job_id : string) : prog () :=
  if info_enabled
  then match log_prefix job_id with Some _ => Ret tt | None => Panic end
  else Ret tt.

Definition handle_task (raw : list ascii) : prog (result () string) :=
  match map_err (fun _ => "deserialize task message") (task_from_slice raw) with
  | Err e => Ret (Err e)
  | Ok msg =>
      if negb (String.eqb (tm_task msg) "softmax")
      then Ret (Err (concat_strs
             ["unknown task '"; tm_task msg; "' — only 'softmax' is supported"]))
      else if Nat.eqb (length (tm_data msg)) 0
      then Ret (Err (concat_strs
             ["empty data slice for job "; tm_job_id msg; " slice "; print_uint (tm_slice_id msg)]))
      else
        try! stats := compute_partial (tm_data msg) in
        let payload := encode_partial stats in
        try! _ := write_result (tm_job_id msg) (tm_slice_id msg) payload in
        let! _ := log_done (tm_job_id msg) in
        Ret (Ok tt)
  end.
End Handler.

(** ** Lemmas *)

Section Lemmas.
Context `{LM : Libm} `{SJ : !SerdeJson}.

(** The statistics a worker stores for a slice. *)
Definition slice_stats (device : option (string -> option string)) (data : list f64) : PartialStats :=
  match device with Some _ => gpu_stats (map as_f32 data) | None => softmax_partial data end.

Definition device_fits (device : option (string -> option string)) (data : list f64) : Prop :=
  match device with Some _ => fits_int (length data) | None => True end.

(** An error the CUDA driver reports. *)
Definition driver_error (device : option (string -> option string)) (e : string) : Prop :=
  match device with Some cuda => exists what, cuda what = Some e | None => False end.

(** [p] is [q], if the build has no device or the process finds its device,
    and an error if it does not. *)
Definition runs_on (device : option (string -> option string)) {A} (p q : prog (result A string))
  : Prop :=
  match device with
  | None => p = q
  | Some _ => exists k, p = Vis GpuWorkerGet k
      /\ k None = Ret (Err "spawn_blocking panicked") /\ forall d, k (Some d) = q
  end.

Lemma runs_on_bind device {A B} (p q : prog (result A string)) (f : A -> prog (result B string)) :
  runs_on device p q -> runs_on device (bind_result p f) (bind_result q f).
Proof.
  destruct device as [cuda|]; simpl; [|by intros ->]. intros (k & -> & H0 & H1).
  exists (fun x => bind_result (k x) f). split; [done|]. split; [by rewrite H0|]. intros d. by rewrite H1.
Qed.

Lemma runs_on_uses (P : forall X, cmd X -> Prop) device {A} (p q : prog (result A string)) :
  runs_on device p q -> P _ GpuWorkerGet -> uses P q -> uses P p.
Proof.
  destruct device as [cuda|]; simpl; [|by intros ->]. intros (k & -> & H0 & H1) HP Hq.
  split; [done|]. intros [d|]; [by rewrite H1|by rewrite H0].
Qed.

Lemma runs_on_wp {W} (exec : executor W) device {A} (p q : prog (result A string)) Q w :
  runs_on device p q ->
  (device = None -> wp exec q Q w) ->
  (forall d w', device <> None -> exec _ GpuWorkerGet w (Some d) w' -> wp exec q Q w') ->
  (forall w', device <> None -> exec _ GpuWorkerGet w None w' ->
     Q (Done (Err "spawn_blocking panicked")) w') ->
  wp exec p Q w.
Proof.
  destruct device as [cuda|]; simpl; [|intros ->; auto]. intros (k & -> & H0 & H1) _ HS HN.
  intros [d|] w' E; [rewrite H1; eauto|rewrite H0; by apply HN].
Qed.

Lemma compute_partial_spec device data :
  device_fits device data ->
  runs_on device (compute_partial device data) (Ret (Ok (slice_stats device data)))
  \/ exists e, driver_error device e /\ runs_on device (compute_partial device data) (Ret (Err e)).
Proof.
  unfold compute_partial, slice_stats, device_fits. destruct device as [cuda|]; [|by left].
  intros Hf. assert (fits_int (length (map as_f32 data))) as Hf' by by rewrite length_map.
  destruct (partial_softmax_yields cuda (map as_f32 data) Hf') as [->|(what & e & He & ->)];
    [left|right; exists e; split; [by exists what|]]; by eexists.
Qed.

Lemma slice_stats_wire_ok device (data : list f64) :
  in_width 32 (Z.of_nat (length data)) -> wire_ok (slice_stats device data).
Proof.
  intros Hn. destruct device as [cuda|]; [|by apply softmax_partial_wire_ok].
  unfold slice_stats, gpu_stats. cbv zeta. split; cbn [ps_local_max ps_partial_sum ps_exp_values].
  - apply (to_bits_in_width binary64).
  - apply (to_bits_in_width binary64).
  - apply List.Forall_forall. intros y (x & <- & _)%in_map_iff. by apply wrap_in_width.
  - unfold exps. by rewrite !length_map.
Qed.

(** A message that is refused before anything is computed. *)
Definition refused (raw : list ascii) : Prop :=
  match task_from_slice raw with
  | Err _ => True
  | Ok msg => tm_task msg <> "softmax" \/ tm_data msg = []
  end.

Lemma handle_task_refused device info raw :
  refused raw -> exists e, handle_task device info raw = Ret (Err e).
Proof.
  unfold refused, handle_task. destruct (task_from_slice raw) as [msg|e]; simpl; [|by eexists].
  intros [H|H].
  - destruct (String.eqb_spec (tm_task msg) "softmax"); [done|by eexists].
  - rewrite H. destruct (String.eqb _ _); by eexists.
Qed.

(** A message that is not refused, once its statistics are known. *)
Lemma handle_task_accepted device info raw msg :
  task_from_slice raw = Ok msg -> tm_task msg = "softmax" -> tm_data msg <> [] ->
  device_fits device (tm_data msg) ->
  runs_on device (handle_task device info raw)
    (try! _ := write_result (tm_job_id msg) (tm_slice_id msg)
         (encode_partial (slice_stats device (tm_data msg))) in
     let! _ := log_done info (tm_job_id msg) in Ret (Ok tt))
  \/ exists e, driver_error device e /\ runs_on device (handle_task device info raw) (Ret (Err e)).
Proof.
  intros Hm Ht Hd Hf. unfold handle_task. rewrite Hm. simpl. rewrite Ht. simpl.
  match goal with |- context [Nat.eqb ?n 0] => destruct (Nat.eqb_spec n 0) as [E|_] end.
  { by apply length_zero_iff_nil in E. }
  destruct (compute_partial_spec device (tm_data msg) Hf) as [H|(e & He & H)];
    [left|right; exists e; split; [done|]]; exact (runs_on_bind _ _ _ _ H).
Qed.
End Lemmas.

(** The traces of a handler after the calls [pre]: an error; SET fails; SET
    succeeds and PUBLISH fails; both succeed. *)
Section Traces.
Context `{LM : Libm} `{SJ : !SerdeJson} (info : bool).

Definition stored_then_notified (msg : TaskMessage) (payload : list ascii) (pre : list event)
    (o : outcome (result () string)) (tr : list event) : Prop :=
  let set := RedisSet (slice_key (tm_job_id msg) (tm_slice_id msg)) payload in
  let notify := RedisPublish (concat_strs ["slice_done:"; tm_job_id msg])
                  (print_uint (tm_slice_id msg)) in
  (tr = pre /\ exists e, o = Done (Err e))
  \/ (exists e, tr = pre ++ [Event set (Err e)] /\ exists e', o = Done (Err e'))
  \/ (exists e, tr = pre ++ [Event set (Ok tt); Event notify (Err e)] /\ exists e', o = Done (Err e'))
  \/ (tr = pre ++ [Event set (Ok tt); Event notify (Ok tt)] /\ (o = Done (Ok tt) \/ o = Panicked)).

(** With a GPU the first call asks for the device. *)
Definition asked (device : option (string -> option string)) (pre : list event) : Prop :=
  match device with
  | None => pre = []
  | Some _ => exists d, pre = [Event GpuWorkerGet (Some d)]
  end.

Lemma wp_store_then_notify msg payload pre :
  wp tracing (try! _ := write_result (tm_job_id msg) (tm_slice_id msg) payload in
              let! _ := log_done info (tm_job_id msg) in Ret (Ok tt))
    (stored_then_notified msg payload pre) pre.
Proof.
  simpl. intros [[]|e] tr ->; simpl; [|right; left; exists e; split; [done|by eexists]].
  intros [[]|e] tr ->; rewrite <- app_assoc; simpl;
    [|right; right; left; exists e; split; [done|by eexists]].
  unfold log_done. destruct info; [destruct (log_prefix (tm_job_id msg))|]; simpl;
    right; right; right; (split; [done|]); [by left|by right|by left].
Qed.
End Traces.

(** The calls of the handler: one SET of the slice, one PUBLISH. *)
Section Calls.
Context `{LM : Libm} `{SJ : !SerdeJson} (device : option (string -> option string)) (info : bool).

Definition worker_call (raw : list ascii) {X} (c : cmd X) : Prop :=
  match c with
  | RedisSet k v => exists msg, task_from_slice raw = Ok msg
      /\ k = slice_key (tm_job_id msg) (tm_slice_id msg)
      /\ v = encode_partial (slice_stats device (tm_data msg))
  | RedisPublish ch p => exists msg, task_from_slice raw = Ok msg
      /\ ch = concat_strs ["slice_done:"; tm_job_id msg] /\ p = print_uint (tm_slice_id msg)
  | GpuWorkerGet => True
  | _ => False
  end.

Definition fits (raw : list ascii) : Prop :=
  forall msg, task_from_slice raw = Ok msg -> device_fits device (tm_data msg).

Lemma handle_task_calls raw :
  fits raw -> uses (@worker_call raw) (handle_task device info raw).
Proof.
  intros Hf. destruct (task_from_slice raw) as [msg|e] eqn:Em.
  2: { destruct (handle_task_refused device info raw) as [e' ->]; [|done].
       unfold refused. by rewrite Em. }
  destruct (decide (tm_task msg = "softmax")) as [Ht|Ht].
  2: { destruct (handle_task_refused device info raw) as [e' ->]; [|done].
       unfold refused. rewrite Em. by left. }
  destruct (decide (length (tm_data msg) = 0)) as [Hd|Hd].
  { destruct (handle_task_refused device info raw) as [e' ->]; [|done].
    unfold refused. rewrite Em. right. by apply length_zero_iff_nil. }
  destruct (handle_task_accepted device info raw msg) as [H|(e & _ & H)]; try done.
  { intros E. by rewrite E in Hd. }
  { by apply Hf. }
  - eapply runs_on_uses; [exact H|done|]. apply uses_bind.
    + simpl. split; [by exists msg|]. intros [[]|e]; [|done]. split; [by exists msg|].
      intros [[]|e]; done.
    + intros [[]|e]; [|done]. unfold log_done. by repeat case_match.
  - by eapply runs_on_uses; [exact H|..].
Qed.
End Calls.

(** ** Properties *)

Section Properties.
Context `{LM : Libm} `{SJ : !SerdeJson} (info : bool).

(** A message that is not a task, names another task or carries no data is
    refused with an error, before anything is computed or stored. *)
Theorem handler_refuses device raw :
  refused raw -> exists e, handle_task device info raw = Ret (Err e).
Proof. apply handle_task_refused. Qed.

(** C15: the gateway is notified of a slice only after the slice was stored
    without error: the calls are the SET of the encoded statistics under the
    slice's key, then, if it succeeded, the PUBLISH of the slice number on the
    job's channel; a success means both succeeded.  In the CUDA build the
    device is asked for first; a process that has none answers with an error,
    without a call to Redis. *)
Theorem handler_stores_then_notifies device raw msg :
  task_from_slice raw = Ok msg -> tm_task msg = "softmax" -> tm_data msg <> [] ->
  device_fits device (tm_data msg) ->
  wp tracing (handle_task device info raw) (fun o tr =>
    (device <> None /\ tr = [Event GpuWorkerGet None]
       /\ o = Done (Err "spawn_blocking panicked"))
    \/ exists pre, asked device pre
       /\ stored_then_notified msg (encode_partial (slice_stats device (tm_data msg))) pre o tr) [].
Proof.
  intros Hm Ht Hd Hf.
  destruct (handle_task_accepted device info raw msg Hm Ht Hd Hf) as [H|(e & _ & H)];
    (eapply runs_on_wp; [exact H|intros E|intros d w' Hn ->|intros w' Hn ->; left; done]).
  - eapply wp_mono; [|apply wp_store_then_notify]. intros o tr Ho. right. exists [].
    split; [by rewrite E|exact Ho].
  - eapply wp_mono; [|apply wp_store_then_notify]. intros o tr Ho. right. eexists. split; [|exact Ho].
    destruct device; [by exists d|done].
  - right. exists []. rewrite E. split; [done|]. left. split; [done|by exists e].
  - right. eexists. split; [|left; split; [done|by exists e]]. destruct device; [by exists d|done].
Qed.

(** C16: once the CPU handler returns Ok, the gateway's [read_slice] decodes
    from Redis exactly the statistics of the slice, widened to f64, provided
    nobody else writes that slice's key. *)
Theorem handler_result_readable {W} (exec : executor W) `{RT : !Runtime exec}
    (R : W -> W -> Prop) raw msg w :
  task_from_slice raw = Ok msg -> tm_task msg = "softmax" -> tm_data msg <> [] ->
  in_width 32 (Z.of_nat (length (tm_data msg))) ->
  (forall w w', R w w' -> store w' !! slice_key (tm_job_id msg) (tm_slice_id msg)
     = store w !! slice_key (tm_job_id msg) (tm_slice_id msg)) ->
  wp (under R exec) (handle_task None info raw) (fun o w' =>
    o = Done (Ok tt) -> forall idx,
    decode_slice false idx (store w' !! slice_key (tm_job_id msg) (tm_slice_id msg))
    = Ok (Some (received (softmax_partial (tm_data msg))))) w.
Proof.
  intros Hm Ht Hd Hn HR.
  destruct (handle_task_accepted None info raw msg Hm Ht Hd I) as [E|(e & _ & E)];
    unfold runs_on in E; rewrite E; [|done].
  simpl. intros r w1 (w0 & _ & E1). pose proof (exec_store _ _ _ _ _ E1) as S1. simpl in S1.
  destruct r as [[]|e]; [|done]. simpl. intros r w2 (w1' & R1 & E2).
  pose proof (exec_store _ _ _ _ _ E2) as S2. simpl in S2.
  destruct r as [[]|e]; [|done]. simpl. unfold log_done.
  assert (forall idx, decode_slice false idx (store w2 !! slice_key (tm_job_id msg) (tm_slice_id msg))
    = Ok (Some (received (softmax_partial (tm_data msg))))) as Hdec.
  { intros idx. rewrite S2, (HR _ _ R1), S1.
    change (concat_strs _) with (slice_key (tm_job_id msg) (tm_slice_id msg)).
    rewrite lookup_insert_eq. apply decode_slice_partial. by apply softmax_partial_wire_ok. }
  destruct info; [destruct (log_prefix (tm_job_id msg))|]; simpl;
    [exact (fun _ => Hdec)|done|exact (fun _ => Hdec)].
Qed.

(** How a handler ends when the process has its device: it stored and notified,
    or it reports an error of the message, of the CUDA driver or of Redis. *)
Definition handled (device : option (string -> option string)) (raw : list ascii)
    (o : outcome (result () string)) : Prop :=
  (refused raw /\ exists e, o = Done (Err e))
  \/ exists msg, task_from_slice raw = Ok msg
      /\ (o = Done (Ok tt)
          \/ (exists e, driver_error device e /\ o = Done (Err e))
          \/ o = Done (Err (concat_strs ["Redis SET "; slice_key (tm_job_id msg) (tm_slice_id msg)]))
          \/ o = Done (Err (concat_strs ["Redis PUBLISH "; concat_strs ["slice_done:"; tm_job_id msg]]))).

(** On a process whose device is set the handler always finds it. *)
Lemma handler_finds_device {W} (exec : executor W) `{RT : !Runtime exec} (R : W -> W -> Prop)
    device raw d w :
  (forall w w', R w w' -> gpu_device w = Some d -> gpu_device w' = Some d) ->
  fits device raw -> gpu_device w = Some d ->
  wp (under R exec) (handle_task device false raw) (fun o _ => handled device raw o) w.
Proof.
  intros HR Hf Hw. assert (refused raw \/ exists msg, task_from_slice raw = Ok msg
    /\ tm_task msg = "softmax" /\ tm_data msg <> []) as [Hr|(msg & Hm & Ht & Hd)].
  { unfold refused. destruct (task_from_slice raw) as [msg|e]; [|by left].
    destruct (decide (tm_task msg = "softmax")); [|by left; left].
    destruct (tm_data msg) eqn:E; [by left; right|right]. exists msg. by rewrite E. }
  { destruct (handle_task_refused device false raw Hr) as [e ->]. left. split; [done|by eexists]. }
  destruct (handle_task_accepted device false raw msg Hm Ht Hd (Hf msg Hm)) as [H|(e & He & H)];
    (eapply runs_on_wp; [exact H|intros E|intros d' w' _ _|
      intros w' _ (w0 & H0 & E); apply (exec_device _ _ _ _ _) in E as [E _];
      by rewrite (HR _ _ H0 Hw) in E]); simpl.
  3,4: right; exists msg; split; [done|]; right; left; by exists e.
  all: intros [[]|e] w1 _; simpl; [|right; exists msg; split; [done|]; do 2 right; by left].
  all: intros [[]|e] w2 _; simpl; right; exists msg; (split; [done|]); [by left|do 3 right; done].
Qed.

(** C39: with INFO logging on, a job id that is longer than eight bytes and
    whose ninth byte is inside a UTF-8 sequence makes the log line of the
    finished slice panic; such a job's tasks never end well. *)
Theorem log_prefix_panics job_id :
  log_prefix job_id = None <->
  exists b, list_ascii_of_string job_id !! 8 = Some b /\ cont b = true.
Proof.
  unfold log_prefix, is_char_boundary.
  assert (String.length job_id = length (list_ascii_of_string job_id)) as ->
    by (induction job_id as [|a s IH]; simpl; congruence).
  set (l := list_ascii_of_string job_id). split.
  - destruct (l !! (length l `min` 8)) as [b|] eqn:E; [|done].
    pose proof (lookup_lt_Some _ _ _ E). rewrite Nat.min_r in E by lia.
    destruct (cont b) eqn:Ec; [|done]. intros _. by exists b.
  - intros (b & E & Hc). pose proof (lookup_lt_Some _ _ _ E).
    rewrite Nat.min_r by lia. by rewrite E, Hc.
Qed.
End Properties.

(** ** Witnesses *)

Definition demo_message : TaskMessage := {|
  tm_job_id := "job"; tm_slice_id := 3; tm_task := "softmax"; tm_data := demo_data |}.
Definition demo_raw : list ascii := as_bytes (task_to_string demo_message).

Lemma demo_raw_parses : task_from_slice demo_raw = Ok demo_message.
Proof. exact (task_finite (SerdeJsonLaws := demo_json_laws) demo_message eq_refl). Qed.

Lemma handler_stores_then_notifies_witness :
  wp tracing (handle_task None true demo_raw) (fun o tr =>
    (None (A := string -> option string) <> None /\ tr = [Event GpuWorkerGet None]
       /\ o = Done (Err "spawn_blocking panicked"))
    \/ exists pre, asked None pre
       /\ stored_then_notified demo_message (encode_partial (softmax_partial demo_data)) pre o tr) [].
Proof.
  apply (handler_stores_then_notifies true None demo_raw demo_message);
    [apply demo_raw_parses|reflexivity|discriminate|exact I].
Defined.

Lemma handler_result_readable_witness :
  wp (under eq (handles sim_handler)) (handle_task None true demo_raw) (fun o w' =>
    o = Done (Ok tt) -> forall idx,
    decode_slice false idx (store (exec := handles sim_handler) w' !! slice_key "job" 3)
    = Ok (Some (received (softmax_partial demo_data)))) (sim_init []).
Proof.
  apply (handler_result_readable true (handles sim_handler) eq demo_raw demo_message);
    [apply demo_raw_parses|reflexivity|discriminate|unfold in_width; simpl; lia|].
  by intros w w' <-.
Defined.

(** A job id in Japanese: three bytes per character. *)
Example log_prefix_japanese : log_prefix "ソフト" = None /\ log_prefix "softmax-1" <> None.
Proof. split; [reflexivity|discriminate]. Qed.
