(* ===== verification/System.v ===== *)
(** The gateway and the workers together, in the standard mode:
    one call of [submit_task] interleaved, call by call, with any number of
    [handle_task] programs and of other requests that share Redis with it. *)

From Stdlib Require Import ZArith Lia List String Ascii.
From stdpp Require Import base tactics list strings gmap relations.
From S2P Require Import Prelude Strs Slicing Scalar Ieee Softmax Kernels GpuWorker Json Demo Wire Config Effects.
From S2P Require Import Runtime Devices RedisManager Notifier Publisher Aggregator Service Handler.
Local Open Scope string_scope.
Local Open Scope list_scope.
#[local] Opaque aggregate.

(** ** Definitions *)

Section System.
Context `{LM : Libm} `{SJ : !SerdeJson} (reparse : f64 -> f64).
Context (device : option (string -> option string)) (gpu : option GpuAggregator).

(** What the workers compute for the slices of a job, after the JSON transport. *)
Definition job_stats (slices : list (list f64)) : list SliceStats :=
  map (fun d => received (slice_stats device (map reparse d))) slices.

(** What the gateway makes of them: on its GPU, or on the CPU. *)
Definition combined (st : list SliceStats) : list f64 :=
  match gpu with
  | Some _ => map as_f64 (gpu_result st)
  | None => aggregate_softmax_cpu st
  end.

(** The sizes the gateway's kernel can index. *)
Definition gpu_fits (slices : list (list f64)) : Prop :=
  match gpu with
  | Some g => covers (launch_config g) /\ (Z.of_nat (length slices) < 2 ^ 31)%Z
      /\ (Z.of_nat (length (concat slices)) + 1024 <= 2 ^ 31)%Z
  | None => True
  end.

(** The values that may be stored for slice [i]. *)
Definition slice_values (slices : list (list f64)) (i : nat) (raw : list ascii) : Prop :=
  exists d, slices !! i = Some d /\ raw = encode_partial (slice_stats device (map reparse d)).

(** A message that, if it is of this job, carries one of its slices. *)
Definition honest (job_id : string) (slices : list (list f64)) (raw : list ascii) : Prop :=
  forall msg, task_from_slice raw = Ok msg -> (0 <= tm_slice_id msg)%Z /\
    (tm_job_id msg = job_id ->
    exists i d, tm_slice_id msg = Z.of_nat i /\ slices !! i = Some d /\ tm_data msg = map reparse d).

(** The publisher leaves the keys of Redis alone. *)
Definition store_neutral `{PB : Publisher P} (p : P) : Prop :=
  forall subject payload, uses (@read_only) (publish p subject payload).
End System.

(** ** Lemmas *)

Lemma zmq_store_neutral (p : ZmqPublisher) : store_neutral p.
Proof. by split. Qed.

Lemma zmq_multi_store_neutral (p : ZmqMultiPublisher) : store_neutral p.
Proof. intros subject payload. simpl. by repeat case_match. Qed.

Section Honest.
Context `{LM : Libm} `{SJ : !SerdeJson} (finite : f64 -> bool) (reparse : f64 -> f64).
Context {HJ : SerdeJsonLaws finite reparse}.

(** What [submit_task] publishes is honest, for its job and for any other. *)
Lemma published_honest job job' slices slices' i d :
  forallb finite d = true -> slices' !! i = Some d ->
  (job = job' -> slices = slices') ->
  honest reparse job slices (as_bytes (task_to_string (task_of job' "softmax" i d))).
Proof.
  intros Hd Hi Hj msg Hm. unfold as_bytes in Hm. rewrite (task_finite (task_of job' "softmax" i d)) in Hm by done.
  simplify_eq/=. split; [lia|]. intros E. rewrite Hj by done. by exists i, d.
Qed.
End Honest.

(** *** One job among other tasks, whatever is stored in its slots *)

Section Job.
Context `{LM : Libm} (env : environment) `{SJ : !SerdeJson}.
Context (finite : f64 -> bool) (reparse : f64 -> f64) {HJ : SerdeJsonLaws finite reparse}.
Context (gpu : option GpuAggregator) (fuel : nat) {W : Type} (exec : executor W) `{RT : !Runtime exec}.
(** [V i raw]: [raw] may be stored for slice [i] of the job's [total]. *)
Context (V : nat -> list ascii -> Prop) (job : string) (total : nat).

(** What others may do to the job's slots. *)
Definition keeps (w w' : W) : Prop :=
  slots_hold exec V job total w -> slots_hold exec V job total w'.

#[export] Instance keeps_preorder : PreOrder keeps.
Proof. split; [by intros w H|intros w1 w2 w3 H1 H2 H; by apply H2, H1]. Qed.

(** A call that stores nothing else in the job's slots. *)
Definition slot_writer {X} (c : cmd X) : Prop :=
  match c with
  | RedisSet k v | RedisSetEx k v _ =>
      forall i, i < total -> k = slice_key job (Z.of_nat i) -> V i v
  | _ => True
  end.

Lemma slot_writer_keeps X (c : cmd X) w x w' : slot_writer c -> exec X c w x w' -> keeps w w'.
Proof.
  intros Hc E Hw i raw Hi Hraw. pose proof (exec_store _ _ _ _ _ E) as Es.
  assert (forall k v, (forall i, i < total -> k = slice_key job (Z.of_nat i) -> V i v) ->
    store w' = store w \/ store w' = <[k := v]> (store w) -> V i raw) as Hset.
  { intros k v Hv [E'|E']; rewrite E' in Hraw; [by apply Hw|].
    apply lookup_insert_Some in Hraw as [[Hk <-]|[_ Hraw]]; [by apply Hv|by apply Hw]. }
  destruct c; simpl in Hc, Es; try (apply (Hset _ _ Hc); destruct x as [[]|e]; tauto);
    apply Hw; try done; destruct_and?; congruence.
Qed.

Lemma slot_writer_guarantees {B} (p : prog B) : uses (@slot_writer) p -> guarantees exec keeps p.
Proof. apply guarantees_uses. intros X c w x w'. apply slot_writer_keeps. Qed.

Lemma read_only_slot_writer X (c : cmd X) : read_only c -> slot_writer c.
Proof. by destruct c. Qed.

(** Another request, unless its result key is one of the job's slice keys. *)
Lemma submit_slot_writer `{PB : Publisher P} (self : GatewayService P) env' gpu' fuel' big req :
  store_neutral (publisher self) ->
  (forall i, rq_job_id req <> job +:+ String ":" (print_uint (Z.of_nat i))) ->
  uses (@slot_writer) (submit_task big env' gpu' fuel' self req).
Proof.
  intros Hp Hid. unfold submit_task. destruct (negb _); [exact I|]. destruct (Nat.eqb _ 0); [exact I|].
  destruct (slices_of _ _ _) as [[slices|]|e]; [|exact I..]. split; [exact I|]. intros now. cbn [bind].
  apply uses_bind.
  { unfold set_job_metadata. cbn [bind bind_result]. destruct (metadata_to_string _); [|exact I].
    split; [|by intros [[]|]]. intros i _ E. by apply metadata_slice_key in E. }
  intros [[]|e]; [|exact I]. apply uses_bind.
  { apply (uses_mono (@read_only)); [apply read_only_slot_writer|].
    apply uses_for_result. intros [i d]. apply uses_bind; [apply Hp|]. intros r. exact I. }
  intros [[]|e]; [|exact I]. apply uses_bind; [|intros [s|e]; [destruct (parse_result s)|]; exact I].
  apply (uses_mono (@result_call (rq_job_id req))); [|apply aggregate_calls].
  intros X c Hc. destruct c; try exact I; simpl in *; intros i Hi E; [done|].
  destruct Hc as [-> | ->]; [|by apply progress_slice_key in E].
  apply result_slice_key in E. by destruct (Hid i).
Qed.

(** [combine_stats] on slices that may be in the slots gives [out]. *)
Definition combines_to (out : list f64) : Prop :=
  forall st, length st = total ->
    (forall i s, st !! i = Some s -> decoded false V i s) ->
    combine_stats gpu st = Ret (vec_to_string out) \/ exists e, combine_stats gpu st = Ret (Err e).

Lemma wp_aggregate_value out w :
  combines_to out -> slots_hold exec V job total w ->
  wp (under keeps exec) (aggregate false env gpu fuel job total) (fun o _ => forall s,
      o = Done (Ok s) -> vec_to_string out = Ok s) w.
Proof.
  intros Hout Hw. set (J := slots_hold exec V job total) in *.
  with_strategy transparent [aggregate] unfold aggregate.
  apply wp_bind. eapply wp_mono;
    [|apply (wp_wait_for_all_slices false env (under keeps exec) job
        total J V) with (U := fun _ => True); [| |done|exact Hw]].
  - intros [[st|e]| |] w1 (_ & H1 & _); [|done..]. destruct H1 as [H1 H2].
    apply wp_bind. destruct (Hout st H1 H2) as [->|[e ->]]; cbn [wp]; [|done].
    destruct (vec_to_string _) as [s|e]; [|done].
    apply wp_bind. eapply wp_mono; [|apply wp_true].
    intros [[[]|e]| |] w2 _; try done. intros s' E. by simplify_eq.
  - apply (under_read_only exec); [by intros w1 w2 HK|]. intros w1 w2 E H i raw. rewrite E. apply H.
  - intros i w0 raw w' Hi H0 E. eapply (slots_hold_get exec); [|done|exact H0|exact E]. by intros w1 w2 HK.
Qed.

(** [submit_task] against the rely that the others guarantee. *)
Lemma wp_submit `{PB : Publisher P} (self : GatewayService P) req slices out w :
  store_neutral (publisher self) ->
  slices_of env self (map as_f64 (rq_vector req)) = Ok (Some slices) ->
  rq_job_id req = job -> length slices = total ->
  combines_to out -> slots_hold exec V job total w ->
  wp (under keeps exec) (submit_task false env gpu fuel self req)
    (fun o _ => forall resp, o = Done (Ok resp) ->
      exists s, vec_to_string out = Ok s /\ parse_result s = Ok (rs_result resp)) w.
Proof.
  intros Hp Hs Hj Ht Hout Hw. unfold submit_task. case_match; [done|]. rewrite Hs. case_match; [done|].
  rewrite Hj, Ht. set (J := slots_hold exec V job total) in *.
  assert (forall X (c : cmd X) w x w', slot_writer c -> under keeps exec X c w x w' -> J w -> J w') as HJw.
  { intros X c w1 x w2 Hc (w0 & Hk & E) H1. eapply slot_writer_keeps; [done..|]. by apply Hk. }
  apply wp_bind. intros now w1 E1. assert (J w1) as H1 by (eapply HJw; [|exact E1|]; done).
  cbn [wp]. apply wp_bind.
  eapply wp_mono; [|apply (wp_uses (@slot_writer) _ J); [exact HJw| |exact H1]].
  2: { unfold set_job_metadata. cbn [bind bind_result]. destruct (metadata_to_string _); [|exact I].
       split; [|by intros [[]|]]. intros i _ E. by apply metadata_slice_key in E. }
  intros [[[]|e]| |] w2 H2; [|done..]. apply wp_bind.
  eapply wp_mono; [|apply (wp_uses (@slot_writer) _ J); [exact HJw| |exact H2]].
  2: { apply (uses_mono (@read_only)); [apply read_only_slot_writer|].
       apply uses_for_result. intros [i d]. apply uses_bind; [apply Hp|]. intros r. exact I. }
  intros [[[]|e]| |] w3 H3; [|done..]. apply wp_bind.
  eapply wp_mono; [|apply (wp_aggregate_value out w3 Hout H3)].
  intros [[s|e]| |] w4 H4; [|done..]. destruct (parse_result s) as [v|e] eqn:Ep; [|done].
  intros resp E. simplify_eq. exists s. split; [by apply H4|done].
Qed.

(** The answer to a request among tasks that keep its slots. *)
Lemma job_answer `{PB : Publisher P} (self : GatewayService P) req slices out {B} (ps : list (prog B))
    w resp ps' w' :
  store_neutral (publisher self) ->
  slices_of env self (map as_f64 (rq_vector req)) = Ok (Some slices) ->
  rq_job_id req = job -> length slices = total ->
  combines_to out ->
  (forall i, i < total -> store w !! slice_key job (Z.of_nat i) = None) ->
  Forall (uses (@slot_writer)) ps ->
  rtc (pool_step exec) (submit_task false env gpu fuel self req, ps, w) (Ret (Ok resp), ps', w') ->
  rs_result resp = map (fun p => as_f32 (reparse p)) out.
Proof.
  intros Hp Hs Hj Ht Hout Hfresh Hps Hrun.
  destruct (pool_sound exec keeps
    (fun o _ => forall resp, o = Done (Ok resp) ->
      exists s, vec_to_string out = Ok s /\ parse_result s = Ok (rs_result resp))
    _ _ _ _ _ _ Hrun) as (w0 & _ & Hq).
  - exists w. split; [reflexivity|]. eapply wp_submit; try done.
    intros i raw Hi E. by rewrite Hfresh in E.
  - eapply Forall_impl; [exact Hps|]. intros p. apply slot_writer_guarantees.
  - destruct (Hq resp eq_refl) as (s & Hv & Hr). unfold parse_result in Hr.
    destruct (forallb finite out) eqn:Ef.
    + rewrite (vec_finite _ _ Ef Hv) in Hr. simplify_eq/=. rewrite <- Hr. apply map_map.
    + pose proof (vec_not_finite _ _ Ef Hv) as Hn. by destruct (vec_from_str s).
Qed.
End Job.

(** *** The standard mode *)

Section Standard.
Context `{LM : Libm} `{SJ : !SerdeJson} (reparse : f64 -> f64).
Context (device : option (string -> option string)) (gpu : option GpuAggregator) (info : bool).

(** A worker on an honest message stores nothing else in the job's slots. *)
Lemma worker_slot_writer job slices total raw :
  honest reparse job slices raw -> fits device raw ->
  uses (@slot_writer (slice_values reparse device slices) job total) (handle_task device info raw).
Proof.
  intros Hh Hfit. apply (uses_mono (@worker_call _ _ device raw)); [|by apply handle_task_calls].
  intros X c Hc. destruct c; try done. cbn [worker_call] in Hc. destruct Hc as (msg & Hm & -> & ->).
  destruct (Hh msg Hm) as [Hpos Hmine]. intros i Hi Hk.
  apply slice_key_inj in Hk as [Hj Hid]; [|done|lia].
  destruct (Hmine Hj) as (i' & d & Hi' & Hd & Hdata).
  assert (i' = i) as -> by lia. exists d. split; [done|]. by rewrite Hdata.
Qed.

(** The statistics that were collected are those of the slices. *)
Lemma collected_job_stats slices st :
  Forall (fun d => in_width 32 (Z.of_nat (length d))) slices ->
  length st = length slices ->
  (forall i s, st !! i = Some s -> decoded false (slice_values reparse device slices) i s) ->
  st = job_stats reparse device slices.
Proof.
  intros Hw Hl Hs. unfold job_stats. apply list_eq. intros i. rewrite lookup_map.
  destruct (st !! i) as [s|] eqn:E.
  - destruct (Hs _ _ E) as (raw & (d & Hd & ->) & Hdec). rewrite Hd. simpl.
    rewrite decode_slice_partial in Hdec; [by simplify_eq|].
    apply slice_stats_wire_ok. rewrite length_map.
    exact (Forall_lookup_1 _ _ _ _ Hw Hd).
  - apply lookup_ge_None in E. by rewrite lookup_ge_None_2 by lia.
Qed.

Lemma slice_stats_length (data : list f64) : length (ps_exp_values (slice_stats device data)) = length data.
Proof.
  destruct device as [cuda|]; [|exact (softmax_partial_length (SC := ieee) data)].
  cbn. unfold exps. by rewrite !length_map.
Qed.

Lemma job_stats_total slices :
  sum_list (map (fun s => length (exp_values s)) (job_stats reparse device slices))
  = length (concat slices).
Proof.
  unfold job_stats. induction slices as [|d slices IH]; [done|].
  cbn [map concat]. rewrite length_app, <- IH. cbn [sum_list sum_list_with].
  apply f_equal2; [|done]. unfold received. cbn [exp_values].
  by rewrite length_map, slice_stats_length, length_map.
Qed.

Lemma combine_job_stats slices :
  gpu_fits gpu slices ->
  combine_stats gpu (job_stats reparse device slices)
    = Ret (vec_to_string (combined gpu (job_stats reparse device slices)))
  \/ exists e, combine_stats gpu (job_stats reparse device slices) = Ret (Err e).
Proof.
  intros Hf. assert (forall st : list SliceStats, match st with s :: _ => is_normalized s | [] => false end = false ->
    combine_stats gpu st = match gpu with
      | Some g => match aggregate_gpu (driver g) (launch_config g) st with
                  | Ok r => Ret (vec_to_string (map as_f64 r))
                  | Err (CudaError e) => Ret (Err e)
                  | Err OutOfBounds => Panic
                  end
      | None => Ret (vec_to_string (aggregate_softmax_cpu st))
      end) as E.
  { intros st Hst. unfold combine_stats. by rewrite Hst. }
  rewrite E by (by destruct slices). unfold combined. destruct gpu as [g|]; [|by left].
  destruct Hf as (Hcov & Hn & Htot).
  destruct (aggregate_gpu_yields (driver g) (launch_config g) (job_stats reparse device slices) Hcov)
    as [->|(what & e & _ & ->)]; [| |by left|right; by eexists].
  - by rewrite job_stats_total.
  - unfold job_stats. by rewrite length_map.
Qed.

Lemma combines_to_stats slices :
  Forall (fun d => in_width 32 (Z.of_nat (length d))) slices -> gpu_fits gpu slices ->
  combines_to gpu (slice_values reparse device slices) (length slices)
    (combined gpu (job_stats reparse device slices)).
Proof.
  intros Hw Hf st Hl Hs. rewrite (collected_job_stats slices st Hw Hl Hs). by apply combine_job_stats.
Qed.
End Standard.

(** ** Properties *)

(** C1: end to end.  Run [submit_task] together with any number of workers on
    any honest messages (its own slices, possibly delivered twice, not at all
    or late, and the messages of other jobs) and any number of other requests,
    interleaved in any way, from a store without old slices of the job; the
    workers use the CPU or GPUs, and so does the gateway.  If the client is
    answered, it is answered the combination of the statistics of exactly the
    slices it submitted, in slice order, to the bit: no other job interferes
    (other than one that is named like a slice of this one). *)
Theorem end_to_end `{LM : Libm} (env : environment) `{SJ : !SerdeJson}
    (finite : f64 -> bool) (reparse : f64 -> f64) {HJ : SerdeJsonLaws finite reparse}
    device gpu fuel `{PB : Publisher P} (self : GatewayService P) info
    {W : Type} (exec : executor W) `{RT : !Runtime exec}
    (req : TaskRequest) slices raws others w resp ps' w' :
  store_neutral (publisher self) ->
  slices_of env self (map as_f64 (rq_vector req)) = Ok (Some slices) ->
  Forall (fun d => in_width 32 (Z.of_nat (length d))) slices -> gpu_fits gpu slices ->
  (forall i, i < length slices ->
     store w !! slice_key (rq_job_id req) (Z.of_nat i) = None) ->
  Forall (fun raw => honest reparse (rq_job_id req) slices raw /\ fits device raw) raws ->
  Forall (fun req' => forall i,
    rq_job_id req' <> rq_job_id req +:+ String ":" (print_uint (Z.of_nat i))) others ->
  rtc (pool_step exec)
    (submit_task false env gpu fuel self req,
     map (fun raw => forget (handle_task device info raw)) raws
     ++ map (fun req' => forget (submit_task false env gpu fuel self req')) others, w)
    (Ret (Ok resp), ps', w') ->
  rs_result resp
  = map (fun p => as_f32 (reparse p)) (combined gpu (job_stats reparse device slices)).
Proof.
  intros Hp Hs Hl Hfit Hfresh Hraws Hothers.
  apply (job_answer env finite reparse gpu fuel exec (slice_values reparse device slices)
    (rq_job_id req) (length slices) self req slices); try done; [by apply combines_to_stats|].
  apply Forall_app. split; apply Forall_map.
  - eapply Forall_impl; [exact Hraws|]. intros raw [Hr Hr']. by apply uses_forget, worker_slot_writer.
  - eapply Forall_impl; [exact Hothers|]. intros req' Hid. by apply uses_forget, submit_slot_writer.
Qed.

(** ** Witnesses *)

Definition demo_env : environment := fun _ => None.
Definition demo_service : GatewayService ZmqPublisher := {|
  publisher := {| sender := 0 |}; nccl_dispatch := false; svc_world_size := 4 |}.

(** The vector [1, 2]. *)
Definition demo_request : TaskRequest := {|
  rq_job_id := "job"; rq_task := "softmax"; rq_vector := [0x3F800000; 0x40000000]%Z |}.
Definition demo_slices : list (list Z) := [[0x3FF0000000000000]; [0x4000000000000000]]%Z.
Definition demo_raws : list (list ascii) :=
  map (fun '(i, d) => as_bytes (task_to_string (task_of "job" "softmax" i d)))
    (combine (seq 0 2) demo_slices).

(** Another request, whose job id is no slice of the first one. *)
Definition demo_other : TaskRequest := {|
  rq_job_id := "other"; rq_task := "softmax"; rq_vector := [0x3F800000]%Z |}.

Definition demo_pool : list (prog ()) :=
  map (fun raw => forget (handle_task None true raw)) demo_raws
  ++ map (fun req' => forget (submit_task false demo_env None 1 demo_service req')) [demo_other].

Definition demo_turns : list (option nat) :=
  [Some 2; Some 2; Some 2] ++ repeat None 4 ++ [Some 1; Some 0; Some 0; Some 1; Some 2] ++ repeat None 20.

Definition demo_run :=
  schedule sim_handler demo_turns
    (submit_task false demo_env None 1 demo_service demo_request, demo_pool, sim_init []).

Definition replied {A E} (p : prog (result A E)) : bool :=
  match p with Ret (Ok _) => true | _ => false end.

Lemma reply_inv {A E} (p : prog (result A E)) : replied p = true -> exists a, p = Ret (Ok a).
Proof. destruct p as [[a|e]| | |]; try done. by exists a. Qed.

Lemma demo_job_ids i : "other" <> "job" +:+ String ":" (print_uint i).
Proof. discriminate. Qed.

Lemma end_to_end_witness : exists resp ps' w',
  rtc (pool_step (handles sim_handler))
    (submit_task false demo_env None 1 demo_service demo_request, demo_pool, sim_init [])
    (Ret (Ok resp), ps', w')
  /\ rs_result resp = map as_f32 (distributed_softmax demo_slices)
  /\ rs_result resp = [0x3E89B2B1; 0x3F3B26A8]%Z.
Proof.
  destruct (reply_inv demo_run.1.1) as [resp E]; [vm_compute; reflexivity|].
  assert (rtc (pool_step (handles sim_handler))
    (submit_task false demo_env None 1 demo_service demo_request, demo_pool, sim_init [])
    (Ret (Ok resp), demo_run.1.2, demo_run.2)) as Hrun.
  { rewrite <- E, <- !surjective_pairing. by apply schedule_sound. }
  exists resp, demo_run.1.2, demo_run.2. split; [exact Hrun|].
  rewrite (end_to_end demo_env finite64 (fun x => x) None None 1 demo_service true (handles sim_handler)
    demo_request demo_slices demo_raws [demo_other] (sim_init []) resp demo_run.1.2 demo_run.2);
    [| | | |exact I| | | |exact Hrun].
  - split; vm_compute; reflexivity.
  - apply zmq_store_neutral.
  - vm_compute. reflexivity.
  - apply Forall_cons_2; [|apply Forall_cons_2; [|apply Forall_nil_2]];
      unfold in_width; cbn [length]; lia.
  - intros i _. apply lookup_empty.
  - apply Forall_map. apply Forall_cons_2; [|apply Forall_cons_2; [|apply Forall_nil_2]].
    + split; [|by intros msg _]. apply (published_honest finite64 (fun x => x) "job" "job" demo_slices demo_slices 0
        [0x3FF0000000000000%Z]); [vm_compute; reflexivity|reflexivity|done].
    + split; [|by intros msg _]. apply (published_honest finite64 (fun x => x) "job" "job" demo_slices demo_slices 1
        [0x4000000000000000%Z]); [vm_compute; reflexivity|reflexivity|done].
  - apply Forall_cons_2; [|apply Forall_nil_2]. intros i. apply demo_job_ids.
Defined.
