(* ===== verification/Transport.v ===== *)
(** The worker's PULL transport (worker-rs/src/transport/zmq.rs): a socket
    thread feeds an unbounded channel, a loop takes messages from it and
    spawns one task per message, at most [max_concurrent] at a time.  The three
    parties are a state machine; a step is one move of one of them.  The return
    of the loop ends the worker's [main] (worker-rs/src/main.rs) and cancels the
    tasks. *)

From Stdlib Require Import ZArith Lia List String Ascii.
From stdpp Require Import base tactics list strings relations.
From S2P Require Import Prelude Effects.
Local Open Scope string_scope.
Local Open Scope list_scope.

(** ** Definitions *)

Record ZmqConfig := { endpoint : string; max_concurrent : nat }.

(** The set-up of [run]: the socket thread reports whether it connected. *)
Definition run_setup (cfg : ZmqConfig) : prog (result nat string) :=
  call (SocketConnect (endpoint cfg)).

Section Machine.
Context {M : Type}.

(** [queue]: the mpsc channel; [held]: the message [rx.recv()] returned while
    the loop awaits a permit; [tasks]: the spawned tasks that have not ended;
    [ended]: those that have, the oldest first; [open]: the socket thread runs;
    [exited]: [run] has returned, and with it the worker's [main]. *)
Record pull := {
  queue : list M;
  held : option M;
  permits : nat;
  tasks : list M;
  ended : list M;
  open : bool;
  exited : bool;
}.

(** [Semaphore::new(permits)] panics above [Semaphore::MAX_PERMITS], which is
    [usize::MAX >> 3]. *)
Definition MAX_PERMITS : Z := Z.shiftr (2 ^ 64 - 1) 3.
Definition semaphore_new (permits : nat) : option nat :=
  if (Z.of_nat permits <=? MAX_PERMITS)%Z then Some permits else None.

(** The state in which the loop starts, unless the semaphore panics. *)
Definition pull_init (cfg : ZmqConfig) : option pull :=
  match semaphore_new (max_concurrent cfg) with
  | None => None
  | Some sem => Some {|
      queue := []; held := None; permits := sem; tasks := []; ended := [];
      open := true; exited := false |}
  end.

(** The channel is closed and drained: [rx.recv()] gives [None]. *)
Definition returned (s : pull) : bool :=
  match queue s, held s with [], None => negb (open s) | _, _ => false end.

(** What can happen: the socket delivers a message or fails, the loop takes a
    message, the loop gets a permit and spawns, the [i]-th task ends (whatever
    [handle_task] returned, and also when it panicked), the loop returns.  The
    worker's [main] returns after the loop, and the end of the runtime cancels
    the tasks that still run: nothing happens after [Return]. *)
Inductive label := Deliver (m : M) | RecvError | Take | Spawn | Finish (i : nat) | Return.

Definition pull_step (l : label) (s : pull) : option pull :=
  if exited s then None
  else
    match l with
    | Deliver m =>
        if open s
        then Some {| queue := queue s ++ [m]; held := held s; permits := permits s;
                     tasks := tasks s; ended := ended s; open := true; exited := false |}
        else None
    | RecvError =>
        if open s
        then Some {| queue := queue s; held := held s; permits := permits s;
                     tasks := tasks s; ended := ended s; open := false; exited := false |}
        else None
    | Take =>
        match held s, queue s with
        | None, m :: q =>
            Some {| queue := q; held := Some m; permits := permits s;
                    tasks := tasks s; ended := ended s; open := open s; exited := false |}
        | _, _ => None
        end
    | Spawn =>
        match held s, permits s with
        | Some m, S p =>
            Some {| queue := queue s; held := None; permits := p;
                    tasks := tasks s ++ [m]; ended := ended s; open := open s; exited := false |}
        | _, _ => None
        end
    | Finish i =>
        match tasks s !! i with
        | Some m =>
            Some {| queue := queue s; held := held s; permits := S (permits s);
                    tasks := delete i (tasks s); ended := ended s ++ [m]; open := open s;
                    exited := false |}
        | None => None
        end
    | Return =>
        if returned s
        then Some {| queue := queue s; held := held s; permits := permits s;
                     tasks := tasks s; ended := ended s; open := open s; exited := true |}
        else None
    end.

Inductive reaches (cfg : ZmqConfig) : list M -> pull -> Prop :=
| reaches_init s : pull_init cfg = Some s -> reaches cfg [] s
| reaches_step got l s s' :
    reaches cfg got s -> pull_step l s = Some s' ->
    reaches cfg (match l with Deliver m => got ++ [m] | _ => got end) s'.

Definition pending (s : pull) : list M :=
  match held s with Some m => m :: queue s | None => queue s end.

(** Moves that serve a received message. *)
Definition internal (l : label) : Prop :=
  match l with Take | Spawn | Finish _ => True | _ => False end.

(** ** Lemmas *)

Lemma finish_conserves (st en ts p : list M) n k i (m : M) :
  n + length ts = k -> st ≡ₚ en ++ ts -> ts !! i = Some m ->
  S n + length (delete i ts) = k
  /\ exists started, st ++ p = started ++ p /\ started ≡ₚ (en ++ [m]) ++ delete i ts.
Proof.
  intros Hn Hp Hi. pose proof (delete_Permutation _ _ _ Hi) as Hd.
  pose proof (lookup_lt_Some _ _ _ Hi). rewrite length_delete by (by eexists).
  split; [lia|]. exists st. split; [done|]. rewrite Hp, Hd at 1. solve_Permutation.
Qed.

(** Permits are neither lost nor made, and no message is lost or repeated. *)
Lemma reaches_inv cfg got s :
  reaches cfg got s ->
  permits s + length (tasks s) = max_concurrent cfg
  /\ exists started, got = started ++ pending s /\ started ≡ₚ ended s ++ tasks s.
Proof.
  induction 1 as [s Hi|got l s s' Hr [IH1 (st & -> & IH2)] Hs].
  { unfold pull_init, semaphore_new in Hi. case_match; [|done]. case_match; [|done]. simplify_eq/=.
    split; [lia|by exists []]. }
  unfold pending, pull_step in *. destruct (exited s); [done|].
  destruct l as [m| | | |i|]; simpl in Hs; repeat case_match; simplify_eq/=;
    rewrite ?length_app in *; simpl in *.
  all: try (split; [lia|]).
  all: try (exists st; split; [by rewrite <- ?app_assoc|done]).
  - exists (st ++ [m]). rewrite <- app_assoc. split; [done|]. rewrite IH2. solve_Permutation.
  - match goal with H : _ !! _ = Some _ |- _ => apply (finish_conserves _ _ _ _ _ _ _ _ IH1 IH2 H) end.
  - match goal with H : _ !! _ = Some _ |- _ => apply (finish_conserves _ _ _ _ _ _ _ _ IH1 IH2 H) end.
Qed.

(** The work left, in moves. *)
Definition work (s : pull) : nat :=
  3 * length (queue s) + (match held s with Some _ => 2 | None => 0 end) + length (tasks s).

Lemma work_step l s s' : internal l -> pull_step l s = Some s' -> work s' < work s.
Proof.
  unfold work, pull_step. destruct (exited s); [done|].
  destruct l as [m| | | |i|]; simpl; intros [] Hs; repeat case_match; simplify_eq/=;
    rewrite ?length_app; simpl; try lia.
  all: match goal with H : tasks _ !! _ = Some _ |- _ =>
         pose proof (lookup_lt_Some _ _ _ H); rewrite length_delete by (by eexists) end; lia.
Qed.

(** ** Properties *)

(** C30: the worker runs at most [NUM_WORKERS] handlers at once, starts the
    messages in the order it received them, and neither loses nor repeats one:
    what it received is what has ended, what is running and what waits. *)
Theorem pull_bounded_fifo cfg got s :
  reaches cfg got s ->
  length (tasks s) <= max_concurrent cfg
  /\ exists started, got = started ++ pending s /\ started ≡ₚ ended s ++ tasks s.
Proof. intros H. destruct (reaches_inv _ _ _ H) as [H1 H2]. split; [lia|done]. Qed.

(** Only a worker whose channel is closed and drained has exited. *)
Lemma reaches_exited cfg got s :
  reaches cfg got s -> exited s = true -> open s = false /\ pending s = [].
Proof.
  intros H He. destruct H as [s Hi|got l s s' _ Hs].
  { unfold pull_init in Hi. case_match; [|done]. by simplify_eq. }
  unfold pull_step in Hs. destruct (exited s); [done|]. unfold returned, pending in *.
  destruct l; repeat case_match; simplify_eq/=; try done.
  by match goal with H : negb ?b = true |- _ => destruct b end.
Qed.

(** C31: with at least one worker slot the transport makes progress: until the
    worker exits, as long as a received message has not ended one of its moves
    is possible, and every such move leaves less work.  The worker does not exit
    while its socket thread runs, so all messages of a healthy worker are
    handled.  It exits after a receive error, with every received message
    started, and what is still running then is never finished. *)
Theorem pull_progress cfg got s :
  reaches cfg got s -> 0 < max_concurrent cfg ->
  (forall l s', internal l -> pull_step l s = Some s' -> work s' < work s)
  /\ (exited s = false -> (exists l s', internal l /\ pull_step l s = Some s') \/ got ≡ₚ ended s)
  /\ (open s = true -> exited s = false)
  /\ (exited s = true -> got ≡ₚ ended s ++ tasks s /\ length (tasks s) <= max_concurrent cfg
       /\ forall l, pull_step l s = None).
Proof.
  intros H Hc. destruct (reaches_inv _ _ _ H) as [H1 (st & -> & H2)].
  split; [intros l s'; apply work_step|]. split_and!.
  - intros He. destruct (tasks s) as [|m ts] eqn:Et.
    2: { left. exists (Finish 0). eexists. split; [done|]. unfold pull_step. by rewrite He, Et. }
    unfold pending. destruct (held s) as [m|] eqn:Eh.
    { simpl in H1. destruct (permits s) as [|p] eqn:Ep; [lia|].
      left. exists Spawn. eexists. split; [done|]. unfold pull_step. by rewrite He, Eh, Ep. }
    destruct (queue s) as [|m q] eqn:Eq.
    + right. rewrite app_nil_r in H2. by rewrite app_nil_r.
    + left. exists Take. eexists. split; [done|]. unfold pull_step. by rewrite He, Eh, Eq.
  - intros Ho. destruct (exited s) eqn:He; [|done].
    destruct (reaches_exited _ _ _ H He) as [Ho' _]. congruence.
  - intros He. destruct (reaches_exited _ _ _ H He) as [_ ->]. rewrite app_nil_r.
    split; [done|]. split; [lia|]. intros l. unfold pull_step. by rewrite He.
Qed.

(** With [NUM_WORKERS=0], which the worker accepts, no message is ever
    handled: the loop waits for a permit for ever. *)
Theorem pull_zero_workers cfg got s :
  reaches cfg got s -> max_concurrent cfg = 0 -> tasks s = [] /\ ended s = [].
Proof.
  intros H H0. destruct (reaches_inv _ _ _ H) as [H1 _].
  assert (tasks s = []) as Ht by (apply length_zero_iff_nil; lia). split; [done|].
  induction H as [s Hi|got l s s' Hr IH Hs].
  { unfold pull_init in Hi. case_match; [|done]. by simplify_eq. }
  destruct (reaches_inv _ _ _ Hr) as [H2 _].
  assert (tasks s = []) as Ht' by (apply length_zero_iff_nil; lia).
  specialize (IH ltac:(lia) Ht'). unfold pull_step in Hs. destruct (exited s); [done|].
  destruct l as [m| | | |i|]; repeat case_match; simplify_eq/=; try done. rewrite Ht' in *. done.
Qed.
End Machine.
Arguments pull : clear implicits.
Arguments label : clear implicits.

(** ** Witnesses *)

Definition demo_pull (n : nat) : ZmqConfig := {| endpoint := "ipc:///tmp/softmax_tasks"; max_concurrent := n |}.

(** Nothing was received yet. *)
Definition idle_pull (n : nat) : pull string := {|
  queue := []; held := None; permits := n; tasks := []; ended := []; open := true; exited := false |}.

(** Two messages are delivered, the first is running, the second waits for the
    only permit. *)
Definition busy : pull string := {|
  queue := []; held := Some "b"; permits := 0; tasks := ["a"]; ended := []; open := true; exited := false |}.

Lemma busy_reached : reaches (demo_pull 1) ["a"; "b"] busy.
Proof.
  assert (reaches (demo_pull 1) ["a"] {| queue := ["a"]; held := None; permits := 1; tasks := [];
    ended := []; open := true; exited := false |}) as H1
    by exact (reaches_step _ [] (Deliver "a") _ _ (reaches_init (demo_pull 1) (idle_pull 1) eq_refl) eq_refl).
  assert (reaches (demo_pull 1) ["a"] {| queue := []; held := Some "a"; permits := 1; tasks := [];
    ended := []; open := true; exited := false |}) as H2 by exact (reaches_step _ _ Take _ _ H1 eq_refl).
  assert (reaches (demo_pull 1) ["a"] {| queue := []; held := None; permits := 0; tasks := ["a"];
    ended := []; open := true; exited := false |}) as H3 by exact (reaches_step _ _ Spawn _ _ H2 eq_refl).
  assert (reaches (demo_pull 1) ["a"; "b"] {| queue := ["b"]; held := None; permits := 0;
    tasks := ["a"]; ended := []; open := true; exited := false |}) as H4
    by exact (reaches_step _ _ (Deliver "b") _ _ H3 eq_refl).
  exact (reaches_step _ _ Take _ _ H4 eq_refl).
Qed.

Lemma pull_bounded_fifo_witness :
  length (tasks busy) <= 1
  /\ exists started, ["a"; "b"] = started ++ pending busy /\ started ≡ₚ ended busy ++ tasks busy.
Proof. apply (pull_bounded_fifo (demo_pull 1) ["a"; "b"] busy). apply busy_reached. Defined.

(** The same worker after a receive error: "b" runs when the loop returns. *)
Definition cut_off : pull string := {|
  queue := []; held := None; permits := 0; tasks := ["b"]; ended := ["a"]; open := false;
  exited := true |}.

Lemma cut_off_reached : reaches (demo_pull 1) ["a"; "b"] cut_off.
Proof.
  assert (forall s s1 s2 s3 s4, reaches (demo_pull 1) ["a"; "b"] s ->
    pull_step (Finish 0) s = Some s1 -> pull_step Spawn s1 = Some s2 ->
    pull_step RecvError s2 = Some s3 -> pull_step Return s3 = Some s4 ->
    reaches (demo_pull 1) ["a"; "b"] s4) as H.
  { intros s s1 s2 s3 s4 R0 E1 E2 E3 E4. eapply (reaches_step _ _ Return); [|exact E4].
    eapply (reaches_step _ _ RecvError); [|exact E3]. eapply (reaches_step _ _ Spawn); [|exact E2].
    eapply (reaches_step _ _ (Finish 0)); [exact R0|exact E1]. }
  eapply H; [exact busy_reached|reflexivity..].
Qed.

Lemma pull_progress_witness :
  ((exists l s', internal l /\ pull_step l busy = Some s') \/ ["a"; "b"] ≡ₚ ended busy)
  /\ (["a"; "b"] ≡ₚ ended cut_off ++ tasks cut_off /\ length (tasks cut_off) <= 1
      /\ forall l, pull_step l cut_off = None).
Proof.
  split.
  - apply (pull_progress (demo_pull 1) ["a"; "b"] busy); [apply busy_reached|simpl; lia|reflexivity].
  - apply (pull_progress (demo_pull 1) ["a"; "b"] cut_off); [apply cut_off_reached|simpl; lia|reflexivity].
Defined.

Definition stuck : pull string := {|
  queue := ["a"]; held := None; permits := 0; tasks := []; ended := []; open := true; exited := false |}.

Lemma pull_zero_workers_witness : tasks stuck = [] /\ ended stuck = [].
Proof.
  apply (pull_zero_workers (demo_pull 0) ["a"] stuck); [|reflexivity].
  exact (reaches_step _ [] (Deliver "a") _ _ (reaches_init (demo_pull 0) (idle_pull 0) eq_refl) eq_refl).
Defined.
