(* ===== verification/Nccl.v ===== *)
(** The NCCL mode of the worker: the rendezvous through Redis
    ([nccl_rendezvous], worker-rs/src/gpu_worker.rs), the message loop
    ([run_nccl], worker-rs/src/main.rs), and two ways in which the ranks lose step:
    a message one of them cannot parse, and two concurrent requests. *)

From Stdlib Require Import ZArith Lia List String Ascii.
From stdpp Require Import base tactics list strings gmap relations.
From S2P Require Import Prelude Strs Slicing Scalar Ieee Softmax Kernels GpuWorker Json Demo.
From S2P Require Import Wire Config Effects Runtime Devices RedisManager Publisher Aggregator Service.
From S2P Require Import Handler.
Local Open Scope string_scope.
Local Open Scope list_scope.
#[local] Arguments String.append : simpl nomatch.

(** ** Definitions *)

Definition NCCL_UID_KEY : string := "nccl_uid".
Definition NCCL_UID_TTL : Z := 60.
Definition ready_key (rank : Z) : string := concat_strs ["nccl_ready:"; print_uint rank].
Definition poll_interval : Z := 50 * ms.

(** The UID loop of a rank other than 0: at most [attempts] reads. *)
Fixpoint wait_uid (attempts : nat) : prog (result (option (list ascii)) string) :=
  match attempts with
  | O => Ret (Ok None)
  | S n =>
      let! r := call (RedisGet NCCL_UID_KEY) in
      match r with
      | Err _ => Ret (Err "Redis GET nccl_uid")
      | Ok (Some bytes) => Ret (Ok (Some bytes))
      | Ok None => let! _ := call (Sleep poll_interval) in wait_uid n
      end
  end.

(** One scan of the ready keys. *)
Fixpoint count_ready (ranks : list nat) (ready : nat) : prog (result nat string) :=
  match ranks with
  | [] => Ret (Ok ready)
  | r :: ranks' =>
      let! v := call (RedisGetStr (ready_key (Z.of_nat r))) in
      match v with
      | Err _ => Ret (Err "Redis GET nccl_ready")
      | Ok (Some _) => count_ready ranks' (S ready)
      | Ok None => count_ready ranks' ready
      end
  end.

(** The barrier: [left] scans are left, the last one without a sleep. *)
Fixpoint wait_ready (left : nat) (rank : Z) (world_size : nat) : prog (result () string) :=
  match left with
  | O => Ret (Ok tt)
  | S n =>
      try! ready := count_ready (seq 0 world_size) 0 in
      if Nat.eqb ready world_size then Ret (Ok tt)
      else if Nat.eqb n 0
      then Ret (Err (concat_strs ["rank "; print_uint rank; ": not all ranks ready in time"]))
      else let! _ := call (Sleep poll_interval) in wait_ready n rank world_size
  end.

(** Rank 0 generates the unique id and stores it, the others wait for it. *)
Definition obtain_uid (rank : Z) : prog (result (list ascii) string) :=
  if (rank =? 0)%Z then
    let! r := call NcclUniqueId in
    try! bytes := Ret (map_err (fun e => "NCCL Id::new: " +:+ e) r) in
    let! r := call (RedisSetEx NCCL_UID_KEY bytes NCCL_UID_TTL) in
    try! _ := Ret (map_err (fun _ => "Redis SET nccl_uid") r) in
    Ret (Ok bytes)
  else
    try! bytes := wait_uid 200 in
    Ret (ok_or (concat_strs ["rank "; print_uint rank; ": timed out waiting for NCCL UID"]) bytes).

Definition nccl_rendezvous (rank : Z) (world_size : nat) : prog (result (list ascii) string) :=
  try! id_bytes := obtain_uid rank in
  let! r := call (RedisSetEx (ready_key rank) (as_bytes "1") NCCL_UID_TTL) in
  try! _ := Ret (map_err (fun _ => "Redis SET nccl_ready") r) in
  try! _ := wait_ready 200 rank world_size in
  if negb (Nat.eqb (length id_bytes) 128)
  then Ret (Err "NCCL UID must be 128 bytes")
  else Ret (Ok id_bytes).

Section Loop.
(** [all_reduce k] is what the communicator answers to the rank's [k]-th pair
    of collectives. *)
Context `{LM : Libm} `{SJ : !SerdeJson} (cuda : string -> option string).
Context (all_reduce : nat -> ReduceOp -> f32 -> gpu f32) (info_enabled : bool).

(** A message is brought to a round, or skipped. *)
Definition joins (raw : list ascii) : option TaskMessage :=
  match task_from_slice raw with
  | Ok msg => if String.eqb (tm_task msg) "softmax" then Some msg else None
  | Err _ => None
  end.

(** The body of the loop, entered after [round] collective pairs. *)
Definition nccl_message (round : nat) (raw : list ascii) : prog (result nat string) :=
  match joins raw with
  | None => Ret (Ok round)
  | Some msg =>
      let data_f32 := map as_f32 (tm_data msg) in
      match all_reduce_softmax cuda (all_reduce round) data_f32 with
      | Err (CudaError e) => Ret (Err e)
      | Err OutOfBounds => Panic
      | Ok probs =>
          let payload := encode_normalized probs in
          try! _ := write_result (tm_job_id msg) (tm_slice_id msg) payload in
          let! _ := log_done info_enabled (tm_job_id msg) in
          Ret (Ok (S round))
      end
  end.

Fixpoint nccl_loop (fuel round sock : nat) : prog (result () string) :=
  match fuel with
  | O => OutOfFuel
  | S fuel' =>
      let! r := call (SocketRecv sock) in
      try! raw := Ret (map_err (fun e => "ZMQ recv: " +:+ e) r) in
      try! round' := nccl_message round raw in
      nccl_loop fuel' round' sock
  end.

(** [run_nccl]: rendezvous, communicator, socket, loop; the last three on
    blocking threads, whose panics come back as errors. *)
Definition run_nccl (fuel : nat) (rank : Z) (world_size : nat) (endpoint : string)
  : prog (result () string) :=
  try! nccl_id := nccl_rendezvous rank world_size in
  try! r := spawn_blocking (NcclWorker_new rank (Z.of_nat world_size) nccl_id) in
  try! _ := Ret (map_err (fun e => "NCCL init: " +:+ e) r) in
  try! r := spawn_blocking
    (let! r := call (SocketConnect endpoint) in
     try! sock := Ret (map_err (fun e => concat_strs ["ZMQ connect "; endpoint; ": "; e]) r) in
     nccl_loop fuel 0 sock) in
  Ret r.

(** The queue the gateway fills for rank [r] when jobs are submitted one after
    the other. *)
Definition rank_queue (jobs : list (string * list (list f64))) (r : nat) : list (list ascii) :=
  omap (fun '(job, slices) =>
    (fun d => as_bytes (task_to_string (task_of job "softmax" r d))) <$> slices !! r) jobs.

(** The jobs rank [r] brings to rounds 0, 1, 2, ... *)
Definition rounds (raws : list (list ascii)) : list string :=
  map tm_job_id (omap joins raws).
End Loop.

(** ** Lemmas *)



Section Rendezvous.
Context {W : Type} (exec : executor W) `{RT : !Runtime exec} (R : W -> W -> Prop).

(** [Seen r]: rank [r] has announced itself; [uid]: a value that may be
    stored as the unique id. *)
Context (J : W -> Prop) (uid : list ascii -> Prop) (Seen : nat -> Prop).
Context (HR : forall w w', R w w' -> J w -> J w').
Context (HS : forall w w', store w' = store w -> J w -> J w').
Context (HU : forall w b, J w -> store w !! NCCL_UID_KEY = Some b -> uid b).
Context (HN : forall w r b, J w -> store w !! ready_key (Z.of_nat r) = Some b -> Seen r).






End Rendezvous.

Section Alignment.
Context `{LM : Libm} `{SJ : !SerdeJson} (finite : f64 -> bool) (reparse : f64 -> f64).
Context {HJ : SerdeJsonLaws finite reparse}.

Lemma joins_finite job r d :
  forallb finite d = true ->
  exists msg, joins (as_bytes (task_to_string (task_of job "softmax" r d))) = Some msg
    /\ tm_job_id msg = job /\ tm_slice_id msg = Z.of_nat r /\ tm_data msg = map reparse d.
Proof.
  intros Hd. unfold joins, as_bytes. rewrite (task_finite (task_of job "softmax" r d) Hd).
  eexists. split; [reflexivity|done].
Qed.

Lemma joins_not_finite job r d :
  forallb finite d = false ->
  joins (as_bytes (task_to_string (task_of job "softmax" r d))) = None.
Proof.
  intros Hd. unfold joins, as_bytes.
  pose proof (task_not_finite (task_of job "softmax" r d) Hd) as H.
  by destruct (task_from_slice _).
Qed.

Lemma rounds_cons raw raws :
  rounds (raw :: raws)
  = match joins raw with Some m => tm_job_id m :: rounds raws | None => rounds raws end.
Proof. unfold rounds. simpl. by destruct (joins raw). Qed.

Lemma rank_queue_cons job slices jobs r d :
  slices !! r = Some d ->
  rank_queue ((job, slices) :: jobs) r
  = as_bytes (task_to_string (task_of job "softmax" r d)) :: rank_queue jobs r.
Proof. intros Hd. unfold rank_queue. simpl. change (@f64 ieee) with Z in *. by rewrite Hd. Qed.
End Alignment.

(** ** Properties *)

#[local] Opaque wait_ready wait_uid obtain_uid.


(** C28: a non-finite element breaks the alignment for good.  The gateway
    accepts it and publishes the slice with a null, which only the rank that
    receives it cannot parse; that rank skips the job while the others enter
    its round, so from then on the rank is one job ahead of them. *)
Theorem non_finite_desyncs `{LM : Libm} `{SJ : !SerdeJson} (finite : f64 -> bool) (reparse : f64 -> f64)
    {HJ : SerdeJsonLaws finite reparse} job slices jobs r d r' d' :
  slices !! r = Some d -> forallb finite d = false ->
  slices !! r' = Some d' -> forallb finite d' = true ->
  rounds (rank_queue ((job, slices) :: jobs) r) = rounds (rank_queue jobs r)
  /\ rounds (rank_queue ((job, slices) :: jobs) r') = job :: rounds (rank_queue jobs r').
Proof.
  intros H1 H2 H3 H4. rewrite (rank_queue_cons _ _ _ _ _ H1), (rank_queue_cons _ _ _ _ _ H3), !rounds_cons.
  rewrite (joins_not_finite finite reparse job r d H2).
  by destruct (joins_finite finite reparse job r' d' H4) as (m & -> & -> & _).
Qed.

(** Two jobs submitted at the same time to a gateway with two ranks. *)
Definition cross_service : GatewayService ZmqMultiPublisher := {|
  publisher := {| senders := [0; 1] |}; nccl_dispatch := true; svc_world_size := 2 |}.
Definition cross_request (job : string) : TaskRequest := {|
  rq_job_id := job; rq_task := "softmax"; rq_vector := [0x3F800000; 0x40000000]%Z |}.
Definition cross_submit (job : string) : prog (result TaskResponse Status) :=
  submit_task false (fun _ => None) None 1 cross_service (cross_request job).
(** What the gateway pushed to the socket of rank [r]. *)
Definition pushed (w : sim) (r : nat) : list (list ascii) :=
  map snd (List.filter (fun m => Nat.eqb m.1 r) (sim_sent w)).

(** C29: concurrent submissions break the order the ranks rely on.  The worker
    documents that the per-rank PUSH sockets guarantee one job order for all
    ranks; but the gateway publishes the slices of a job one by one without
    excluding other requests, and two jobs can reach rank 0 as a, b and rank 1
    as b, a, so that a's slice is reduced together with b's. *)
Theorem concurrent_jobs_cross : exists main ps w,
  rtc (pool_step (handles sim_handler)) (cross_submit "a", [cross_submit "b"], sim_init [])
    (main, ps, w)
  /\ rounds (pushed w 0) = ["a"; "b"] /\ rounds (pushed w 1) = ["b"; "a"].
Proof.
  set (ts := [None; None; None; Some 0; Some 0; Some 0; Some 0; None] : list (option nat)).
  set (c := schedule sim_handler ts (cross_submit "a", [cross_submit "b"], sim_init [])).
  exists c.1.1, c.1.2, c.2. rewrite <- !surjective_pairing.
  split; [by apply schedule_sound|]. split; vm_compute; reflexivity.
Qed.

(** ** Witnesses *)



(** A NaN in the slice of rank 1 of the first job. *)
Lemma non_finite_desyncs_witness :
  let nan : list Z := [0x7FF8000000000000]%Z in
  let ok : list Z := [one64] in
  rounds (rank_queue (("a", [ok; nan]) :: [("b", [ok; ok])]) 1) = rounds (rank_queue [("b", [ok; ok])] 1)
  /\ rounds (rank_queue (("a", [ok; nan]) :: [("b", [ok; ok])]) 0)
     = "a" :: rounds (rank_queue [("b", [ok; ok])] 0).
Proof.
  intros nan ok. apply (non_finite_desyncs finite64 (fun x => x) "a" [ok; nan] [("b", [ok; ok])]
    1 nan 0 ok); reflexivity.
Defined.
