(* ===== verification/NcclOrder.v ===== *)
(** The order the NCCL collectives rely on: jobs that the gateway submits one
    after the other (service.rs) reach every rank in one order, and every rank
    (worker main.rs) brings the same job to the same collective round. *)

From Stdlib Require Import ZArith Lia List String Ascii.
From stdpp Require Import base tactics list strings gmap.
From S2P Require Import Prelude Strs Slicing Scalar Ieee Softmax Kernels GpuWorker Json Demo.
From S2P Require Import Wire Config Effects Runtime Devices RedisManager Publisher Aggregator Service.
From S2P Require Import Handler Nccl.
Local Open Scope string_scope.
Local Open Scope list_scope.

(** ** Definitions *)

(** A send that was answered with an error. *)
Definition send_failed (e : event) : Prop :=
  match e with
  | @Event X c x =>
      match c in cmd X return X -> Prop with
      | SocketSend _ _ => fun r => is_ok r = false
      | _ => fun _ => False
      end x
  end.
Definition unfailed (tr : list event) : Prop := Forall (fun e => ~ send_failed e) tr.

(** What goes over one socket. *)
Definition received_by (socket : nat) (l : list (nat * list ascii)) : list (list ascii) :=
  map snd (List.filter (fun m => Nat.eqb m.1 socket) l).

Section Gateway.
Context `{LM : Libm} (big_endian : bool) (env : environment) `{SJ : !SerdeJson}.
Context (gpu : option GpuAggregator) (fuel : nat) `{PB : Publisher P} (self : GatewayService P).

(** Requests, each submitted when the one before was answered. *)
Fixpoint submit_all (reqs : list TaskRequest) : prog () :=
  match reqs with
  | [] => Ret tt
  | req :: reqs' =>
      let! _ := submit_task big_endian env gpu fuel self req in submit_all reqs'
  end.

(** A request that is a job, with its slices. *)
Definition accepted (req : TaskRequest) (js : string * list (list f64)) : Prop :=
  js.1 = rq_job_id req /\ rq_task req = "softmax"
  /\ slices_of env self (map as_f64 (rq_vector req)) = Ok (Some js.2).

(** The jobs are those of some of the requests, in their order. *)
Definition jobs_of (reqs : list TaskRequest) (jobs : list (string * list (list f64))) : Prop :=
  exists reqs', reqs' `sublist_of` reqs /\ Forall2 accepted reqs' jobs.
End Gateway.

(** What a rank receives, and its calls so far. *)
Definition rank_world : Type := list (list ascii) * list event.

(** The socket hands out the queue in order, or fails; everything else may be
    answered in any way. *)
Definition feeding : executor rank_world := fun X c w x w' =>
  match c in cmd X return X -> Prop with
  | SocketRecv _ => fun r =>
      match r with
      | Ok raw => w.1 = raw :: w'.1 /\ w'.2 = w.2
      | Err _ => w' = w
      end
  | _ => fun _ => w'.1 = w.1 /\ w'.2 = w.2 ++ [Event c x]
  end x.

(** The slices a rank stored, in order. *)
Definition stored (tr : list event) : list (string * list ascii) :=
  omap (fun e => match e with
                 | @Event _ c _ => match c with RedisSet k v => Some (k, v) | _ => None end
                 end) tr.

Section Rank.
Context `{LM : Libm} (cuda : string -> option string) (reparse : f64 -> f64).
Context (all_reduce : nat -> ReduceOp -> f32 -> gpu f32).

(** What rank [r] stores [k]-th is its slice of the [k]-th job, computed in
    round [k]. *)
Definition in_step (jobs : list (string * list (list f64))) (r : nat) (tr : list event) : Prop :=
  forall k key payload, stored tr !! k = Some (key, payload) ->
    exists job slices data probs,
      jobs !! k = Some (job, slices) /\ slices !! r = Some data
      /\ key = slice_key job (Z.of_nat r)
      /\ all_reduce_softmax cuda (all_reduce k) (map as_f32 (map reparse data)) = Ok probs
      /\ payload = encode_normalized probs.
End Rank.

(** ** Lemmas *)

(** *** Sending *)

Lemma unfailed_prefix tr tr' : tr `prefix_of` tr' -> unfailed tr' -> unfailed tr.
Proof. intros [k ->] H. by apply Forall_app in H as [H _]. Qed.

Section Sends.
Context `{LM : Libm} (big_endian : bool) (env : environment) `{SJ : !SerdeJson}.
Context (gpu : option GpuAggregator) (fuel : nat) `{PB : Publisher P} (self : GatewayService P).
Context (route : nat -> nat) (limit : nat) (Hroute : routed self route limit).

Lemma wp_publish_all job_id task l : forall tr,
  Forall (fun '(i, _) => i < limit) l ->
  wp tracing (for_result l (fun '(i, d) =>
      let msg := task_to_string (task_of job_id task i d) in
      let! r := publish (publisher self) (subject_of self i) msg in
      Ret (map_err (fun e => Internal ("Publish failed: " +:+ e)) r)))
    (fun o tr' => unfailed tr' -> sends tr' = sends tr ++ messages route job_id task l) tr.
Proof.
  induction l as [|[i d] l IH]; intros tr Hl; simpl; [by rewrite app_nil_r|].
  apply Forall_cons in Hl as [Hi Hl].
  destruct (Hroute i (task_to_string (task_of job_id task i d)) Hi) as [err ->]. simpl. intros r tr1 ->.
  destruct r as [[]|e]; simpl.
  - eapply wp_mono; [|by apply IH]. intros o tr2 H Hu. rewrite (H Hu), sends_app, <- app_assoc. done.
  - intros [_ [Hf _]%Forall_cons]%Forall_app. by destruct Hf.
Qed.

#[local] Opaque aggregate.

(** A request sends nothing, or all slices of its job. *)
Lemma wp_submit_sends req tr :
  (forall js, accepted env self req js -> length js.2 <= limit) ->
  wp tracing (submit_task big_endian env gpu fuel self req) (fun o tr' => unfailed tr' ->
    sends tr' = sends tr \/ exists js, accepted env self req js
      /\ sends tr' = sends tr ++ messages route js.1 "softmax" (combine (seq 0 (length js.2)) js.2)) tr.
Proof.
  intros Hl. unfold submit_task.
  destruct (String.eqb_spec (rq_task req) "softmax") as [Ht|]; [|by left]. cbn [negb].
  destruct (Nat.eqb _ 0); [by left|].
  destruct (slices_of _ _ _) as [[slices|]|e] eqn:Es; [|by left..].
  assert (accepted env self req (rq_job_id req, slices)) as Ha by done.
  simpl. intros now tr1 ->. unfold set_job_metadata.
  destruct (metadata_to_string _) as [m|e]; simpl; [|intros _; left; by rewrite sends_app, app_nil_r].
  intros [[]|e] tr2 ->; simpl; [|intros _; left; by rewrite !sends_app, !app_nil_r].
  apply wp_bind. eapply wp_mono; [|apply wp_publish_all].
  2: { eapply Forall_impl; [apply combine_seq_bound|]. intros [i d] Hi. cbn in Hi.
       specialize (Hl _ Ha). simpl in Hl. lia. }
  intros o tr3 H3. rewrite !sends_app, !app_nil_r in H3.
  assert (forall tr', tr3 `prefix_of` tr' -> sends tr' = sends tr3 -> unfailed tr' ->
    sends tr' = sends tr \/ exists js, accepted env self req js
      /\ sends tr' = sends tr ++ messages route js.1 "softmax" (combine (seq 0 (length js.2)) js.2)) as Hend.
  { intros tr' Hp E Hu. right. exists (rq_job_id req, slices). split; [done|].
    rewrite E, (H3 (unfailed_prefix _ _ Hp Hu)), Ht. done. }
  destruct o as [[[]|e]| |]; simpl; [|by apply Hend..].
  apply wp_bind. eapply wp_mono; [|apply wp_and;
    [apply wp_no_send, aggregate_silent|apply prefix_tracing; reflexivity]].
  intros o tr4 [E Hpre]. cbv beta in E, Hpre.
  destruct o as [[s|e]| |]; simpl; [destruct (parse_result s); simpl|..]; by apply Hend.
Qed.

(** The jobs of a sequence of requests, one after the other. *)
Lemma wp_submit_all reqs : forall tr,
  (forall req js, req ∈ reqs -> accepted env self req js -> length js.2 <= limit) ->
  wp tracing (submit_all big_endian env gpu fuel self reqs) (fun o tr' => unfailed tr' ->
    exists jobs, jobs_of env self reqs jobs
      /\ sends tr' = sends tr ++ concat (map (fun js =>
           messages route js.1 "softmax" (combine (seq 0 (length js.2)) js.2)) jobs)) tr.
Proof.
  induction reqs as [|req reqs IH]; intros tr Hl; simpl.
  { intros _. exists []. split; [exists []; by split|by rewrite app_nil_r]. }
  apply wp_bind. eapply wp_mono; [|apply wp_and; [apply (wp_submit_sends req)|
    apply (prefix_tracing _ tr tr); reflexivity]].
  2: { intros js. apply Hl. left. }
  intros o tr1 [H1 _]. cbv beta in H1.
  assert (unfailed tr1 -> exists jobs, jobs_of env self (req :: reqs) jobs
    /\ sends tr1 = sends tr ++ concat (map (fun js =>
           messages route js.1 "softmax" (combine (seq 0 (length js.2)) js.2)) jobs)) as Hone.
  { intros Hu. destruct (H1 Hu) as [E|(js & Ha & E)].
    - exists []. split; [exists []; split; [apply sublist_nil_l|done]|by rewrite E, app_nil_r].
    - exists [js]. split; [|by rewrite E; simpl; rewrite app_nil_r].
      exists [req]. split; [apply sublist_skip, sublist_nil_l|constructor; [exact Ha|constructor]]. }
  destruct o as [r| |]; [|exact Hone..]. clear Hone.
  eapply wp_mono; [|apply wp_and; [apply IH|apply (prefix_tracing _ tr1 tr1); reflexivity]].
  2: { intros req' js Hin. apply Hl. by right. }
  intros o tr2 [H2 Hp] Hu. cbv beta in H2, Hp.
  destruct (H2 Hu) as (jobs & (reqs' & Hs & Hf) & E2).
  destruct (H1 (unfailed_prefix _ _ Hp Hu)) as [E1|(js & Ha & E1)].
  - exists jobs. split; [exists reqs'; split; [by apply sublist_cons|done]|by rewrite E2, E1].
  - exists (js :: jobs). split; [exists (req :: reqs'); split; [by apply sublist_skip|by constructor]|].
    rewrite E2, E1. simpl. by rewrite app_assoc.
Qed.
End Sends.

(** *** The queue of a rank *)

Section Queues.
Context `{LM : Libm} `{SJ : !SerdeJson}.

Lemma received_by_app tx l1 l2 : received_by tx (l1 ++ l2) = received_by tx l1 ++ received_by tx l2.
Proof. unfold received_by. by rewrite List.filter_app, map_app. Qed.

(** Of a job, the socket of rank [r] gets slice [r]. *)
Lemma received_messages (ranks : list nat) job task r tx l : forall a,
  NoDup ranks -> ranks !! r = Some tx -> a + length l <= length ranks ->
  received_by tx (messages (fun i => nth i ranks 0) job task (combine (seq a (length l)) l))
  = match (if Nat.leb a r then l !! (r - a) else None) with
    | Some d => [as_bytes (task_to_string (task_of job task r d))]
    | None => []
    end.
Proof.
  induction l as [|d l IH]; intros a Hnd Hr Hl; [by destruct (Nat.leb a r)|].
  change (received_by tx ([(nth a ranks 0, as_bytes (task_to_string (task_of job task a d)))]
    ++ messages (fun i => nth i ranks 0) job task (combine (seq (S a) (length l)) l))
    = match (if Nat.leb a r then (d :: l) !! (r - a) else None) with
      | Some d => [as_bytes (task_to_string (task_of job task r d))] | None => [] end).
  assert (S a + length l <= length ranks) as Hl' by (cbn [length] in Hl; lia).
  assert (a < length ranks) as Hlt by lia.
  rewrite received_by_app, (IH (S a) Hnd Hr Hl'). unfold received_by. cbn [List.filter fst].
  destruct (lookup_lt_is_Some_2 ranks a Hlt) as [ta Ha]. rewrite (nth_lookup_Some _ _ _ _ Ha).
  destruct (Nat.eqb_spec ta tx) as [->|Hne].
  - assert (a = r) as -> by (by eapply NoDup_lookup). rewrite Nat.leb_refl, Nat.sub_diag. cbn [map snd].
    destruct (Nat.leb_spec (S r) r); [lia|reflexivity].
  - assert (a <> r) by congruence. cbn [map app].
    destruct (Nat.leb_spec (S a) r), (Nat.leb_spec a r); try lia; [|reflexivity].
    by replace (r - a) with (S (r - S a)) by lia.
Qed.

Lemma received_jobs (ranks : list nat) r tx (jobs : list (string * list (list f64))) :
  NoDup ranks -> ranks !! r = Some tx -> Forall (fun js => length js.2 = length ranks) jobs ->
  received_by tx (concat (map (fun js =>
    messages (fun i => nth i ranks 0) js.1 "softmax" (combine (seq 0 (length js.2)) js.2)) jobs))
  = rank_queue jobs r.
Proof.
  intros Hnd Hr. induction 1 as [|[job slices] jobs Hl _ IH]; [done|]. cbn [fst snd] in Hl.
  pose proof (lookup_lt_Some _ _ _ Hr).
  destruct (lookup_lt_is_Some_2 slices r) as [d Hd]; [change (@f64 ieee) with Z in *; lia|].
  cbn [map concat fst snd]. rewrite received_by_app, IH, (received_messages ranks _ _ r) by (try done; lia).
  rewrite (rank_queue_cons _ _ _ _ _ Hd). cbn [Nat.leb]. rewrite Nat.sub_0_r.
  change (@f64 ieee) with Z in *. by rewrite Hd.
Qed.

Lemma rank_queue_lookup (jobs : list (string * list (list f64))) n r k raw :
  r < n -> Forall (fun js => length js.2 = n) jobs -> rank_queue jobs r !! k = Some raw ->
  exists job slices d, jobs !! k = Some (job, slices) /\ slices !! r = Some d
    /\ raw = as_bytes (task_to_string (task_of job "softmax" r d)).
Proof.
  intros Hr H. revert k. induction H as [|[job slices] jobs Hl _ IH]; intros k Hk; [done|].
  cbn [snd] in Hl. destruct (lookup_lt_is_Some_2 slices r) as [d Hd]; [change (@f64 ieee) with Z in *; lia|].
  rewrite (rank_queue_cons _ _ _ _ _ Hd) in Hk. destruct k as [|k]; [|exact (IH k Hk)].
  cbn in Hk. exists job, slices, d. split_and!; [done..|congruence].
Qed.
End Queues.

(** *** The loop of a rank *)

Lemma stored_app tr1 tr2 : stored (tr1 ++ tr2) = stored tr1 ++ stored tr2.
Proof. apply omap_app. Qed.

Section Loop.
Context `{LM : Libm} `{SJ : !SerdeJson} (finite : f64 -> bool) (reparse : f64 -> f64).
Context {HJ : SerdeJsonLaws finite reparse}.
Context (cuda : string -> option string) (all_reduce : nat -> ReduceOp -> f32 -> gpu f32).
Context (jobs : list (string * list (list f64))) (n r : nat) (Hr : r < n).
Context (Hl : Forall (fun js => length js.2 = n) jobs).
Context (Hfin : Forall (fun js => Forall (fun d => forallb finite d = true) js.2) jobs).
Abbreviation in_step := (in_step cuda reparse all_reduce jobs r).

Lemma in_step_store tr job slices data probs v :
  in_step tr -> jobs !! length (stored tr) = Some (job, slices) -> slices !! r = Some data ->
  all_reduce_softmax cuda (all_reduce (length (stored tr))) (map as_f32 (map reparse data)) = Ok probs ->
  in_step (tr ++ [Event (RedisSet (slice_key job (Z.of_nat r)) (encode_normalized probs)) v]).
Proof.
  intros Hi Hj Hs Ha k key payload. rewrite stored_app.
  intros [Hk|[Hk E]]%lookup_app_Some; [by apply Hi|]. simpl in E.
  apply list_lookup_singleton_Some in E as [Ek E]. injection E as <- <-.
  assert (k = length (stored tr)) as -> by lia. by exists job, slices, data, probs.
Qed.

(** What a message adds to the trace is one slice of its job. *)
Lemma wp_nccl_loop info sock fuel : forall k w,
  w.1 = drop k (rank_queue jobs r) -> length (stored w.2) = k -> in_step w.2 ->
  wp feeding (nccl_loop cuda all_reduce info fuel k sock) (fun _ w' => in_step w'.2) w.
Proof.
  induction fuel as [|fuel IH]; intros k w Hq Hk Hi; simpl; [done|].
  intros [raw|e] w1 E1; simpl in E1; [|by subst]. destruct E1 as [Eq1 Et1]. rewrite Hq in Eq1. simpl.
  assert (rank_queue jobs r !! k = Some raw) as Hraw
    by (rewrite <- (Nat.add_0_r k), <- lookup_drop, Eq1; done).
  assert (w1.1 = drop (S k) (rank_queue jobs r)) as Hq1
    by (rewrite <- Nat.add_1_r, <- drop_drop, Eq1; done).
  destruct (rank_queue_lookup jobs n r k raw Hr Hl Hraw) as (job & slices & d & Hj & Hd & ->).
  destruct (joins_finite finite reparse job r d) as (msg & Em & E2 & E3 & E4).
  { exact (Forall_lookup_1 _ _ _ _ (Forall_lookup_1 _ _ _ _ Hfin Hj) Hd). }
  unfold nccl_message. cbn [bind_result bind map_err]. rewrite Em, E2, E3, E4. rewrite <- Et1 in Hi, Hk.
  destruct (all_reduce_softmax _ _ _) as [probs|[e|]] eqn:Ep; [|exact Hi..].
  rewrite <- Hk in Hj, Ep. simpl. intros v w2 [Eq2 Et2].
  assert (in_step w2.2) as H2 by (rewrite Et2; exact (in_step_store _ _ _ _ _ v Hi Hj Hd Ep)).
  assert (length (stored w2.2) = S k) as Hk2.
  { rewrite Et2, stored_app, length_app, Hk. simpl. lia. }
  destruct v as [[]|e]; [|exact H2]. simpl. intros v w3 [Eq3 Et3].
  assert (stored w3.2 = stored w2.2) as Es by (rewrite Et3, stored_app; apply app_nil_r).
  assert (in_step w3.2) as H3 by (unfold NcclOrder.in_step; rewrite Es; exact H2).
  destruct v as [[]|e]; [|exact H3]. simpl.
  assert (wp feeding (nccl_loop cuda all_reduce info fuel (S k) sock) (fun _ w' => in_step w'.2) w3) as Hrest
    by (apply IH; [congruence|congruence|exact H3]).
  unfold log_done. rewrite ?E2. destruct info; [destruct (log_prefix job)|]; simpl; [exact Hrest|exact H3|exact Hrest].
Qed.
End Loop.

(** The slices of a job in NCCL mode. *)
Lemma nccl_slices `{LM : Libm} (finite : f64 -> bool) env {P} (self : GatewayService P) n req js :
  nccl_dispatch self = true -> svc_world_size self = Z.of_nat n -> 0 < n ->
  forallb finite (map as_f64 (rq_vector req)) = true -> accepted env self req js ->
  length js.2 = n /\ Forall (fun d => forallb finite d = true) js.2.
Proof.
  intros Hd Hw Hn Hf (_ & _ & Hs). unfold slices_of in Hs. rewrite Hd, Hw, Nat2Z.id in Hs.
  destruct (_ <? _)%Z; [done|].
  destruct (even_chunks_total (map as_f64 (rq_vector req)) n) as (cs & E & Hc & Hl); [lia|].
  rewrite E in Hs. injection Hs as Ecs. subst cs. split.
  - apply (f_equal length) in Hl. by rewrite !length_map, length_seq in Hl.
  - apply Forall_forall. intros d Hin. apply forallb_forall. intros x Hx.
    eapply forallb_forall in Hf; [exact Hf|]. rewrite <- Hc. apply in_concat.
    exists d. split; [by apply list_elem_of_In|exact Hx].
Qed.

(** ** Properties *)

(** C27: the order the collectives rely on.  Submit any requests one after the
    other to a gateway in NCCL mode, with finite data and no send that fails.
    Then there is one list of jobs, those of the requests that were accepted,
    such that on every rank the message loop, fed with what the gateway sent to
    that rank's socket, stores as its k-th slice the rank's slice of the k-th
    job, computed with the collectives of round k, for as long as it runs: in
    every round all ranks work on the same job. *)
Theorem rounds_aligned `{LM : Libm} `{SJ : !SerdeJson} (finite : f64 -> bool) (reparse : f64 -> f64)
    {HJ : SerdeJsonLaws finite reparse} big_endian env gpu fuel
    (self : GatewayService ZmqMultiPublisher) ranks reqs :
  senders (publisher self) = ranks -> NoDup ranks -> nccl_dispatch self = true ->
  svc_world_size self = Z.of_nat (length ranks) ->
  0 < length ranks -> in_width 64 (Z.of_nat (length ranks)) ->
  Forall (fun req => forallb finite (map as_f64 (rq_vector req)) = true) reqs ->
  wp tracing (submit_all big_endian env gpu fuel self reqs) (fun _ tr => unfailed tr ->
    exists jobs, jobs_of env self reqs jobs
      /\ forall r socket cuda all_reduce info fuel' sock, ranks !! r = Some socket ->
        wp feeding (nccl_loop cuda all_reduce info fuel' 0 sock)
          (fun _ w => in_step cuda reparse all_reduce jobs r w.2)
          (received_by socket (sends tr), [])) [].
Proof.
  intros Hs Hnd Hd Hw Hn Hwd Hfin.
  assert (forall req js, req ∈ reqs -> accepted env self req js ->
    length js.2 = length ranks /\ Forall (fun d => forallb finite d = true) js.2) as Hjs.
  { intros req js Hin. apply nccl_slices; [done..|]. exact (proj1 (Forall_forall _ _) Hfin req Hin). }
  eapply wp_mono; [|apply (wp_submit_all _ _ _ _ _ (fun i => nth i ranks 0) (length ranks))].
  2: { intros i payload Hi. destruct (lookup_lt_is_Some_2 ranks i Hi) as [tx Hx].
       eexists. unfold subject_of. rewrite Hd.
       rewrite (multi_publish_rank _ _ tx); [|unfold in_width in *; lia|by rewrite Hs].
       by rewrite (nth_lookup_Some _ _ _ _ Hx). }
  2: { intros req js Hin Ha. by destruct (Hjs _ _ Hin Ha) as [-> _]. }
  intros o tr H Hu. destruct (H Hu) as (jobs & Hj & E). exists jobs. split; [done|].
  destruct Hj as (reqs' & Hsub & Hf).
  assert (Forall (fun js : string * list (list f64) => length js.2 = length ranks
    /\ Forall (fun d => forallb finite d = true) js.2) jobs) as [Hl Hok]%Forall_and.
  { eapply Forall2_Forall_r; [exact Hf|]. apply Forall_forall. intros req Hin js Ha.
    apply (Hjs req); [|done]. by eapply elem_of_sublist. }
  intros r socket cuda all_reduce info fuel' sock Hr.
  eapply (wp_nccl_loop finite reparse cuda all_reduce jobs (length ranks) r); [|exact Hl|exact Hok|..].
  - by eapply lookup_lt_Some.
  - rewrite E. by apply received_jobs.
  - done.
  - intros k key payload Hk. done.
Qed.

(** ** Witnesses *)

(** A communicator that answers as for one element per rank, and a rank that
    finds its queue on its socket. *)
Definition unit_collective (_ : nat) (op : ReduceOp) (_ : @f32 ieee) : gpu (@f32 ieee) :=
  Ok (match op with ReduceMax => 0x40000000%Z | ReduceSum => 0x3F800000%Z end).
Definition feeding_handler : handler rank_world := fun X c =>
  match c in cmd X return rank_world -> X * rank_world with
  | SocketRecv _ => fun w =>
      match w.1 with raw :: q => (Ok raw, (q, w.2)) | [] => (Err "no message", w) end
  | RedisSet k v => fun w => (Ok tt, (w.1, w.2 ++ [Event (RedisSet k v) (Ok tt)]))
  | RedisPublish ch p => fun w => (Ok tt, (w.1, w.2 ++ [Event (RedisPublish ch p) (Ok tt)]))
  | c => fun w => ((sim_handler _ c (sim_init [])).1, (w.1, w.2 ++ [Event c (sim_handler _ c (sim_init [])).1]))
  end.

Definition ordered_submit : prog () :=
  submit_all false (fun _ => None) None 400 cross_service [cross_request "a"; cross_request "b"].
Definition ordered_queue (r : nat) : list (list ascii) :=
  received_by r (sim_sent (run sim_handler ordered_submit (sim_init [])).2).

(** Two jobs: both ranks store slices of "a" and then of "b". *)
Lemma rounds_aligned_witness :
  (forall r, r < 2 ->
    map fst (stored (run feeding_handler
      (nccl_loop (fun _ => None) unit_collective false 4 0 r) (ordered_queue r, [])).2.2)
    = [slice_key "a" (Z.of_nat r); slice_key "b" (Z.of_nat r)])
  /\ wp tracing ordered_submit (fun _ tr => unfailed tr ->
    exists jobs, jobs_of (fun _ => None) cross_service [cross_request "a"; cross_request "b"] jobs
      /\ forall r socket cuda all_reduce info fuel' sock, [0; 1] !! r = Some socket ->
        wp feeding (nccl_loop cuda all_reduce info fuel' 0 sock)
          (fun _ w => in_step cuda (fun x => x) all_reduce jobs r w.2)
          (received_by socket (sends tr), [])) [].
Proof.
  split.
  - intros [|[|r]] Hr; [vm_compute; reflexivity..|lia].
  - apply (rounds_aligned finite64 (fun x => x) false (fun _ => None) None 400 cross_service [0; 1]
      [cross_request "a"; cross_request "b"]); try reflexivity.
    + apply (bool_decide_unpack _). vm_compute. exact I.
    + simpl. lia.
    + split; vm_compute; congruence.
    + repeat (apply Forall_cons; split; [vm_compute; reflexivity|]). constructor.
Defined.
