(* ===== verification/NcclSystem.v ===== *)
(** The NCCL mode end to end: one [submit_task] of a gateway in NCCL dispatch
    among the ranks that run [nccl_message] and other requests. *)

From Stdlib Require Import ZArith Lia List String Ascii.
From stdpp Require Import base tactics list strings gmap relations.
From S2P Require Import Prelude Strs Slicing Scalar Ieee Softmax Kernels GpuWorker Json Demo.
From S2P Require Import Wire Config Effects Runtime Devices RedisManager Publisher Aggregator Service.
From S2P Require Import Handler System Nccl.
Local Open Scope string_scope.
Local Open Scope list_scope.

(** ** Definitions *)

Section Values.
Context `{LM : Libm} (reparse : f64 -> f64) (gm gs : f32).

(** What a rank computes from its slice in a round in which the collectives
    answer [gm] and [gs]. *)
Definition nccl_probs (data : list f64) : list f32 :=
  map (fun e => f32_div e gs) (exps (map as_f32 data) gm).

(** The values that may be stored for slice [i]. *)
Definition nccl_values (slices : list (list f64)) (i : nat) (raw : list ascii) : Prop :=
  exists d, slices !! i = Some d /\ raw = encode_normalized (nccl_probs (map reparse d)).

(** The values the gateway concatenates. *)
Definition nccl_result (slices : list (list f64)) : list f64 :=
  concat (map (fun d => map as_f64 (nccl_probs (map reparse d))) slices).

(** A message a rank brings to a round, and what the communicator answers it
    there: the same maximum and sum to every rank of the job. *)
Definition same_round (job : string) (all_reduce : nat -> ReduceOp -> f32 -> gpu f32) (round : nat)
    (msg : TaskMessage) : Prop :=
  let data := map as_f32 (tm_data msg) in
  fits_int (length data)
  /\ (tm_job_id msg = job ->
      all_reduce round ReduceMax (max_of data) = Ok gm
      /\ all_reduce round ReduceSum (sum_of (exps data gm)) = Ok gs).
End Values.

(** ** Lemmas *)

Section Lemmas.
Context `{LM : Libm} `{SJ : !SerdeJson} (reparse : f64 -> f64) (gm gs : f32).

Lemma nccl_probs_width data :
  Forall (in_width 32) (nccl_probs gm gs data).
Proof.
  apply List.Forall_forall. intros y (x & <- & _)%in_map_iff. apply (to_bits_in_width binary32).
Qed.

Lemma nccl_probs_length data : length (nccl_probs gm gs data) = length data.
Proof. unfold nccl_probs, exps. by rewrite !length_map. Qed.

(** A rank stores nothing else in the job's slots. *)
Lemma rank_slot_writer cuda all_reduce info round job slices total raw :
  honest reparse job slices raw ->
  (forall msg, joins raw = Some msg -> same_round gm gs job all_reduce round msg) ->
  uses (@slot_writer (nccl_values reparse gm gs slices) job total)
    (nccl_message cuda all_reduce info round raw).
Proof.
  intros Hh Hr. unfold nccl_message. destruct (joins raw) as [msg|] eqn:Ej; [|exact I].
  destruct (Hr msg eq_refl) as [Hf Hc].
  assert (task_from_slice raw = Ok msg) as Hm.
  { unfold joins in Ej. destruct (task_from_slice raw) as [m|]; [|done].
    destruct (String.eqb (tm_task m) "softmax"); by simplify_eq. }
  destruct (Hh msg Hm) as [Hpos Hmine]. cbn zeta.
  destruct (all_reduce_softmax _ _ _) as [probs|[e|]] eqn:Ep; [|exact I..].
  apply uses_bind.
  - split; [|intros [[]|e]; [|exact I]; split; [exact I|]; by intros [[]|e]].
    intros i Hi Hk. apply slice_key_inj in Hk as [Hj Hid]; [|done|lia].
    destruct (Hmine Hj) as (i' & d & Hi' & Hd & Hdata). assert (i' = i) as -> by lia.
    exists d. split; [done|]. destruct (Hc Hj) as [Hmax Hsum].
    destruct (all_reduce_yields cuda (map as_f32 (tm_data msg)) Hf (all_reduce round) gm gs Hmax Hsum)
      as [E|(what & e & _ & E)]; rewrite E in Ep; [|done]. simplify_eq. by rewrite Hdata.
  - intros [[]|e]; [|exact I]. apply uses_bind; [|intros []; exact I].
    unfold log_done. by repeat case_match.
Qed.

(** The gateway concatenates what the ranks stored. *)
Lemma combines_to_nccl gpu slices :
  slices <> [] -> Forall (fun d => in_width 32 (Z.of_nat (length d))) slices ->
  combines_to gpu (nccl_values reparse gm gs slices) (length slices) (nccl_result reparse gm gs slices).
Proof.
  intros Hne Hw st Hl Hs. left.
  assert (st = map (fun d => {| exp_values := map as_f64 (nccl_probs gm gs (map reparse d));
    local_max := f64_zero; partial_sum := f64_one; is_normalized := true |}) slices) as ->.
  { apply list_eq. intros i. rewrite lookup_map. destruct (st !! i) as [s|] eqn:E.
    - destruct (Hs _ _ E) as (raw & (d & Hd & ->) & Hdec). rewrite Hd. simpl.
      rewrite decode_slice_normalized in Hdec; [by simplify_eq|apply nccl_probs_width|].
      rewrite nccl_probs_length, length_map. exact (Forall_lookup_1 _ _ _ _ Hw Hd).
    - apply lookup_ge_None in E. by rewrite lookup_ge_None_2 by lia. }
  unfold combine_stats, nccl_result. destruct slices as [|d slices]; [done|]. cbn [map is_normalized].
  do 2 f_equal. cbn [map concat exp_values]. f_equal. f_equal. apply map_map.
Qed.
End Lemmas.

(** ** Properties *)

(** A rank's message and its round. *)
Record rank_task `{LM : Libm} := {
  rt_cuda : string -> option string;
  rt_reduce : nat -> ReduceOp -> f32 -> gpu f32;
  rt_round : nat;
  rt_raw : list ascii;
}.

(** C2: the NCCL mode end to end.  Run [submit_task] together with ranks that
    bring any honest messages to collective rounds, and with other requests,
    interleaved in any way.  If the rounds that handle this job's slices all
    reduce to one maximum and one sum, a client that is answered gets, in slice
    order and to the bit, the exponentials of exactly its slices relative to
    that maximum, divided by that sum. *)
Theorem nccl_end_to_end `{LM : Libm} (env : environment) `{SJ : !SerdeJson}
    (finite : f64 -> bool) (reparse : f64 -> f64) {HJ : SerdeJsonLaws finite reparse}
    gpu fuel `{PB : Publisher P} (self : GatewayService P) info (gm gs : f32)
    {W : Type} (exec : executor W) `{RT : !Runtime exec}
    (req : TaskRequest) slices tasks others w resp ps' w' :
  store_neutral (publisher self) ->
  slices_of env self (map as_f64 (rq_vector req)) = Ok (Some slices) -> slices <> [] ->
  Forall (fun d => in_width 32 (Z.of_nat (length d))) slices ->
  (forall i, i < length slices ->
     store w !! slice_key (rq_job_id req) (Z.of_nat i) = None) ->
  Forall (fun t => honest reparse (rq_job_id req) slices (rt_raw t)
    /\ forall msg, joins (rt_raw t) = Some msg ->
         same_round gm gs (rq_job_id req) (rt_reduce t) (rt_round t) msg) tasks ->
  Forall (fun req' => forall i,
    rq_job_id req' <> rq_job_id req +:+ String ":" (print_uint (Z.of_nat i))) others ->
  rtc (pool_step exec)
    (submit_task false env gpu fuel self req,
     map (fun t => forget (nccl_message (rt_cuda t) (rt_reduce t) info (rt_round t) (rt_raw t))) tasks
     ++ map (fun req' => forget (submit_task false env gpu fuel self req')) others, w)
    (Ret (Ok resp), ps', w') ->
  rs_result resp = map (fun p => as_f32 (reparse p)) (nccl_result reparse gm gs slices).
Proof.
  intros Hp Hs Hne Hl Hfresh Htasks Hothers.
  apply (job_answer env finite reparse gpu fuel exec (nccl_values reparse gm gs slices)
    (rq_job_id req) (length slices) self req slices); try done; [by apply combines_to_nccl|].
  apply Forall_app. split; apply Forall_map.
  - eapply Forall_impl; [exact Htasks|]. intros t [Hh Hr]. by apply uses_forget, rank_slot_writer.
  - eapply Forall_impl; [exact Hothers|]. intros req' Hid. by apply uses_forget, submit_slot_writer.
Qed.

(** ** Witnesses *)

(** Two ranks, the vector [1, 2] and a collective that answers the maximum and
    the sum of what they bring. *)
Definition demo_nccl_service : GatewayService ZmqMultiPublisher := {|
  publisher := {| senders := [0; 1] |}; nccl_dispatch := true; svc_world_size := 2 |}.

Definition demo_max : Z := 0x40000000.
Definition demo_sum : Z :=
  @f32_add ieee (sum_of (SC := ieee) (exps (SC := ieee) [0x3F800000%Z] demo_max))
                (sum_of (SC := ieee) (exps (SC := ieee) [0x40000000%Z] demo_max)).
Definition demo_collective (_ : nat) (op : ReduceOp) (_ : @f32 ieee) : gpu (@f32 ieee) :=
  Ok (match op with ReduceMax => demo_max | ReduceSum => demo_sum end).

Definition demo_tasks : list rank_task :=
  map (fun raw => {| rt_cuda := fun _ => None; rt_reduce := demo_collective; rt_round := 0;
                     rt_raw := raw |}) demo_raws.

Definition demo_nccl_pool : list (prog ()) :=
  map (fun t => forget (nccl_message (rt_cuda t) (rt_reduce t) true (rt_round t) (rt_raw t))) demo_tasks
  ++ map (fun req' => forget (submit_task false demo_env None 1 demo_nccl_service req')) [demo_other].

Definition demo_nccl_run :=
  schedule sim_handler demo_turns
    (submit_task false demo_env None 1 demo_nccl_service demo_request, demo_nccl_pool, sim_init []).

Lemma fits_one : fits_int 1.
Proof. vm_compute. discriminate. Qed.

Lemma nccl_end_to_end_witness : exists resp ps' w',
  rtc (pool_step (handles sim_handler))
    (submit_task false demo_env None 1 demo_nccl_service demo_request, demo_nccl_pool, sim_init [])
    (Ret (Ok resp), ps', w')
  /\ rs_result resp = map as_f32 (nccl_result (fun x => x) demo_max demo_sum demo_slices).
Proof.
  destruct (reply_inv demo_nccl_run.1.1) as [resp E]; [vm_compute; reflexivity|].
  assert (rtc (pool_step (handles sim_handler))
    (submit_task false demo_env None 1 demo_nccl_service demo_request, demo_nccl_pool, sim_init [])
    (Ret (Ok resp), demo_nccl_run.1.2, demo_nccl_run.2)) as Hrun.
  { rewrite <- E, <- !surjective_pairing. by apply schedule_sound. }
  exists resp, demo_nccl_run.1.2, demo_nccl_run.2. split; [exact Hrun|].
  apply (nccl_end_to_end demo_env finite64 (fun x => x) None 1 demo_nccl_service true demo_max demo_sum
    (handles sim_handler) demo_request demo_slices demo_tasks [demo_other] (sim_init []) resp
    demo_nccl_run.1.2 demo_nccl_run.2); [| | | | | | |exact Hrun].
  - apply zmq_multi_store_neutral.
  - vm_compute. reflexivity.
  - discriminate.
  - apply Forall_cons_2; [|apply Forall_cons_2; [|apply Forall_nil_2]];
      unfold in_width; cbn [length]; lia.
  - intros i _. apply lookup_empty.
  - apply Forall_map, Forall_map.
    apply Forall_cons_2; [|apply Forall_cons_2; [|apply Forall_nil_2]]; cbn [rt_raw].
    + split.
      * apply (published_honest finite64 (fun x => x) "job" "job" demo_slices demo_slices 0
          [0x3FF0000000000000%Z]); [vm_compute; reflexivity|reflexivity|done].
      * destruct (joins_finite finite64 (fun x => x) "job" 0 [0x3FF0000000000000%Z] eq_refl)
          as (m & Hm & _ & _ & Hd). intros msg Hj. rewrite Hm in Hj. injection Hj as <-.
        split; [rewrite length_map, Hd; exact fits_one|]. intros _. split; reflexivity.
    + split.
      * apply (published_honest finite64 (fun x => x) "job" "job" demo_slices demo_slices 1
          [0x4000000000000000%Z]); [vm_compute; reflexivity|reflexivity|done].
      * destruct (joins_finite finite64 (fun x => x) "job" 1 [0x4000000000000000%Z] eq_refl)
          as (m & Hm & _ & _ & Hd). intros msg Hj. rewrite Hm in Hj. injection Hj as <-.
        split; [rewrite length_map, Hd; exact fits_one|]. intros _. split; reflexivity.
  - apply Forall_cons_2; [|apply Forall_nil_2]. intros i. apply demo_job_ids.
Defined.
