(* ===== verification/StoreTypes.v ===== *)
(** What the gateway and the workers may find in Redis: a type for the entries
    of each kind of key, kept by every operation of the system, under which
    the gateway's readers fail only when Redis does. *)

From Stdlib Require Import ZArith Lia List String Ascii.
From stdpp Require Import base tactics list strings gmap relations.
From S2P Require Import Prelude Strs Slicing Scalar Ieee Softmax Kernels GpuWorker Json Demo.
From S2P Require Import Wire Config Effects Runtime Devices RedisManager Publisher Aggregator Service.
From S2P Require Import Handler System Nccl NcclSystem.
Local Open Scope string_scope.
Local Open Scope list_scope.

(** ** Definitions *)

Section Types.
Context `{LM : Libm} `{SJ : !SerdeJson}.

(** A job id under which no slice of another job is stored. *)
Definition plain (job : string) : Prop :=
  forall job' i, (0 <= i)%Z -> job <> job' +:+ String ":" (print_uint i).

(** A slice, in either binary format; a job's metadata; the text of a result. *)
Definition slice_value (v : list ascii) : Prop :=
  forall idx, exists s, decode_slice false idx (Some v) = Ok (Some s).
Definition metadata_value (job : string) (v : list ascii) : Prop :=
  exists s m, v = as_bytes s /\ metadata_from_str s = Ok m /\ jm_job_id m = job.
Definition result_value (v : list ascii) : Prop :=
  exists s probs, v = as_bytes s /\ vec_to_string probs = Ok s.

Definition entry_typed (k : string) (v : list ascii) : Prop :=
  (forall job i, (0 <= i)%Z -> k = slice_key job i -> slice_value v)
  /\ (forall job, k = metadata_key job -> metadata_value job v)
  /\ (forall job, plain job -> k = result_key job -> result_value v).

Definition store_typed (s : gmap string (list ascii)) : Prop :=
  forall k v, s !! k = Some v -> entry_typed k v.

(** A call that keeps the store typed. *)
Definition typed_call {X} (c : cmd X) : Prop :=
  match c with
  | RedisSet k v | RedisSetEx k v _ => entry_typed k v
  | _ => True
  end.

(** A message whose values have the ranges of their types: [slice_id] is
    unsigned, and the kernels and the wire format can index the slice. *)
Definition sized (raw : list ascii) : Prop :=
  forall msg, task_from_slice raw = Ok msg ->
    (0 <= tm_slice_id msg)%Z /\ fits_int (length (tm_data msg)).
End Types.

(** ** Lemmas *)

Lemma result_key_plain job : plain job -> forall job' i, (0 <= i)%Z -> result_key job <> slice_key job' i.
Proof. intros Hp job' i Hi E%result_slice_key. by apply (Hp job' i). Qed.

Lemma plain_no_colon job : ~ ":"%char ∈ list_ascii_of_string job -> plain job.
Proof.
  intros H job' i _ ->. apply H. clear H. induction job' as [|c job' IH]; [left|by right].
Qed.

Lemma fits_int_width n : fits_int n -> in_width 32 (Z.of_nat n).
Proof. unfold fits_int, in_width. lia. Qed.

Section Typed.
Context `{LM : Libm} `{SJ : !SerdeJson}.

Lemma slice_entry job i v : (0 <= i)%Z -> slice_value v -> entry_typed (slice_key job i) v.
Proof.
  intros Hi Hv. split_and!; [done| |].
  - intros job' E. by destruct (metadata_slice_key job' job i).
  - intros job' Hp E. by destruct (result_key_plain job' Hp job i Hi).
Qed.

Lemma metadata_entry job v : metadata_value job v -> entry_typed (metadata_key job) v.
Proof.
  intros Hv. split_and!.
  - intros job' i _ E. by destruct (metadata_slice_key job job' i).
  - by intros job' <-%metadata_key_inj.
  - intros job' _ E. by destruct (metadata_result_key job job').
Qed.

Lemma result_entry job v : plain job -> result_value v -> entry_typed (result_key job) v.
Proof.
  intros Hp Hv. split_and!; [|intros job' E; by destruct (metadata_result_key job' job)|done].
  intros job' i Hi E. by destruct (result_key_plain job Hp job' i Hi).
Qed.

Lemma progress_entry job v : entry_typed (progress_key job) v.
Proof.
  split_and!; intros job' *.
  - intros _ E. by destruct (progress_slice_key job job' i).
  - intros E. by destruct (progress_metadata_key job job').
  - intros _ E. by destruct (progress_result_key job job').
Qed.

Lemma read_only_typed X (c : cmd X) : read_only c -> typed_call c.
Proof. by destruct c. Qed.

Lemma partial_slice_value p : wire_ok p -> slice_value (encode_partial p).
Proof. intros Hp idx. eexists. by apply decode_slice_partial. Qed.

(** *** Every operation makes typed calls *)

Lemma worker_typed device info raw :
  sized raw -> uses (@typed_call _ _) (handle_task device info raw).
Proof.
  intros Hs. apply (uses_mono (@worker_call _ _ device raw)).
  - intros X c Hc. destruct c; try done. destruct Hc as (msg & Hm & -> & ->).
    destruct (Hs msg Hm) as [Hi Hf].
    exact (slice_entry _ _ _ Hi (partial_slice_value _ (slice_stats_wire_ok _ _ (fits_int_width _ Hf)))).
  - apply handle_task_calls. intros msg Hm. destruct (Hs msg Hm) as [_ Hf]. by destruct device.
Qed.

(** The probabilities of a round, whatever the communicator answers. *)
Lemma round_values cuda ar (data : list f32) probs :
  fits_int (length data) -> all_reduce_softmax cuda ar data = Ok probs ->
  slice_value (encode_normalized probs).
Proof.
  intros Hf E idx.
  assert (exists gm gs, ar ReduceMax (max_of data) = Ok gm /\ ar ReduceSum (sum_of (exps data gm)) = Ok gs)
    as (gm & gs & Hm & Hs) by (by apply (all_reduce_answers cuda data Hf ar probs)).
  destruct (all_reduce_yields cuda data Hf ar gm gs Hm Hs) as [E'|(what & e & _ & E')];
    rewrite E' in E; [|done]. injection E as <-.
  eexists. apply decode_slice_normalized.
  - apply List.Forall_forall. intros y (x & <- & _)%in_map_iff. apply (to_bits_in_width binary32).
  - unfold exps. rewrite !length_map. by apply fits_int_width.
Qed.
Lemma rank_typed cuda all_reduce info round raw :
  sized raw -> uses (@typed_call _ _) (nccl_message cuda all_reduce info round raw).
Proof.
  intros Hs. unfold nccl_message. destruct (joins raw) as [msg|] eqn:Ej; [|exact I].
  assert (task_from_slice raw = Ok msg) as Hm.
  { unfold joins in Ej. destruct (task_from_slice raw) as [m|]; [|done].
    destruct (String.eqb (tm_task m) "softmax"); by simplify_eq. }
  destruct (Hs msg Hm) as [Hi Hf]. cbn zeta.
  destruct (all_reduce_softmax _ _ _) as [probs|[e|]] eqn:Ep; [|exact I..].
  apply uses_bind.
  - split; [|intros [[]|e]; [|exact I]; split; [exact I|]; by intros [[]|e]].
    apply (slice_entry _ _ _ Hi). eapply round_values; [|exact Ep]. by rewrite length_map.
  - intros [[]|e]; [|exact I]. apply uses_bind; [|intros []; exact I].
    unfold log_done. by repeat case_match.
Qed.

Context (finite : f64 -> bool) (reparse : f64 -> f64) {HJ : SerdeJsonLaws finite reparse}.

(** What the gateway publishes is sized. *)
Lemma published_sized job i d :
  forallb finite d = true -> fits_int (length d) ->
  sized (as_bytes (task_to_string (task_of job "softmax" i d))).
Proof.
  intros Hd Hf msg Hm. unfold as_bytes in Hm.
  rewrite (task_finite (task_of job "softmax" i d)) in Hm by done. injection Hm as <-. cbn.
  split; [lia|by rewrite length_map].
Qed.

(** What [combine_stats] returns is the text of a vector. *)
Lemma combine_text gpu st :
  (exists probs, combine_stats gpu st = Ret (vec_to_string probs))
  \/ (exists e, combine_stats gpu st = Ret (Err e)) \/ combine_stats gpu st = Panic.
Proof. unfold combine_stats. repeat case_match; eauto. Qed.

Lemma aggregate_typed env gpu fuel job total :
  plain job -> uses (@typed_call _ _) (aggregate false env gpu fuel job total).
Proof.
  intros Hp. unfold aggregate. apply uses_bind.
  { eapply uses_mono; [exact read_only_typed|apply wait_calls]. }
  intros [st|e]; [|exact I].
  destruct (combine_text gpu st) as [[probs ->]|[[e ->]| ->]]; [|exact I..].
  simpl. destruct (vec_to_string probs) as [s|e] eqn:E; [|exact I]. split.
  { apply result_entry; [done|]. by exists s, probs. }
  intros [[]|e]; [|exact I]. split; [exact I|]. intros now.
  split; [apply progress_entry|]. by intros [[]|e].
Qed.

Lemma submit_typed env gpu fuel `{PB : Publisher P} (self : GatewayService P) req :
  store_neutral (publisher self) -> plain (rq_job_id req) ->
  uses (@typed_call _ _) (submit_task false env gpu fuel self req).
Proof.
  intros Hn Hp. unfold submit_task. destruct (negb _); [exact I|]. destruct (Nat.eqb _ 0); [exact I|].
  destruct (slices_of _ _ _) as [[slices|]|e]; [|exact I..]. split; [exact I|]. intros now. cbn [bind].
  apply uses_bind.
  { unfold set_job_metadata.
    match goal with |- context [metadata_to_string ?m] =>
      destruct (metadata_round_trip m) as (s & E & Es) end.
    cbn [bind bind_result]. rewrite E. split; [|by intros [[]|]].
    apply metadata_entry. eexists s, _. by split_and!. }
  intros [[]|e]; [|exact I]. apply uses_bind.
  { eapply uses_mono; [exact read_only_typed|].
    apply uses_for_result. intros [i d]. apply uses_bind; [apply Hn|]. intros r. exact I. }
  intros [[]|e]; [|exact I]. apply uses_bind; [by apply aggregate_typed|].
  intros [s|e]; [destruct (parse_result s)|]; exact I.
Qed.

(** *** Typed calls keep the store typed *)

Context {W : Type} (exec : executor W) `{RT : !Runtime exec}.

Definition keeps_types (w w' : W) : Prop := store_typed (store w) -> store_typed (store w').
(** Keys expire. *)
Definition expires (w w' : W) : Prop := store w' ⊆ store w.

Lemma typed_insert s k v : entry_typed k v -> store_typed s -> store_typed (<[k := v]> s).
Proof. intros Hv Hs k' v' [[<- <-]|[_ H]]%lookup_insert_Some; [done|by apply Hs]. Qed.

Lemma typed_subset s s' : s' ⊆ s -> store_typed s -> store_typed s'.
Proof. intros Hs H k v E. apply H. by eapply lookup_weaken. Qed.

Lemma typed_call_keeps X (c : cmd X) w x w' :
  typed_call c -> under expires exec X c w x w' -> keeps_types w w'.
Proof.
  intros Hc (w0 & He & E) Hw. pose proof (typed_subset _ _ He Hw) as H0. clear He Hw.
  pose proof (exec_store _ _ _ _ _ E) as Es.
  assert (forall k v, entry_typed k v -> store w' = store w0 \/ store w' = <[k := v]> (store w0) ->
    store_typed (store w')) as Hset.
  { intros k v Hv [-> | ->]; [done|by apply typed_insert]. }
  destruct c; simpl in Hc, Es; try (apply (Hset _ _ Hc); destruct x as [[]|e]; tauto).
  all: assert (store w' = store w0) as -> by (destruct_and?; congruence); exact H0.
Qed.

Lemma pool_typed (main : prog ()) (ps : list (prog ())) w main' ps' w' :
  rtc (pool_step (under expires exec)) (main, ps, w) (main', ps', w') ->
  uses (@typed_call _ _) main -> Forall (uses (@typed_call _ _)) ps ->
  store_typed (store w) -> store_typed (store w').
Proof.
  remember (main, ps, w) as c eqn:Ec. remember (main', ps', w') as c' eqn:Ec'. intros Hs.
  revert main ps w Ec. induction Hs as [c|c c1 c2 Hstep Hs IH]; intros main ps w -> Hm Hps Hw.
  { by simplify_eq. }
  inversion Hstep as [X c k ps0 w1 x w2 He|X c k m i ps0 w1 x w2 Hi He]; simplify_eq.
  - destruct Hm as [Hc Hk]. eapply IH; [done..|apply Hk|done|]. by eapply typed_call_keeps.
  - destruct (Forall_lookup_1 _ _ _ _ Hps Hi) as [Hc Hk].
    eapply IH; [done..| |by eapply typed_call_keeps]. apply Forall_insert; [done|apply Hk].
Qed.

Lemma pool_step_under (c c' : prog () * list (prog ()) * W) :
  pool_step exec c c' -> pool_step (under expires exec) c c'.
Proof.
  intros [X c1 k ps w x w2 E|X c1 k main i ps w x w2 Hi E].
  - apply step_main. exists w. by split; [red|].
  - eapply step_other; [done|]. exists w. by split; [red|].
Qed.

(** *** Reading a typed store *)

Lemma typed_read_slice job i w :
  store_typed (store w) ->
  wp exec (read_slice false job i) (fun o _ =>
    (o = Done (Ok None) /\ store w !! slice_key job (Z.of_nat i) = None)
    \/ (exists s, o = Done (Ok (Some s)))
    \/ exists e w', o = Done (Err e) /\ exec _ (RedisGet (slice_key job (Z.of_nat i))) w (Err e) w') w.
Proof.
  intros Hw r w' E. destruct (exec_store _ _ _ _ _ E) as [_ Es].
  destruct r as [[v|]|e]; [| |by right; right; exists e, w'].
  - right. left. destruct (Hw _ _ (eq_sym Es)) as [Hv _].
    destruct (Hv job (Z.of_nat i) ltac:(lia) eq_refl i) as [s Hs]. exists s.
    exact (f_equal Done Hs).
  - by left.
Qed.

Lemma typed_get_metadata job w :
  store_typed (store w) ->
  wp exec (get_job_metadata job) (fun o _ =>
    (o = Done (Ok None) /\ store w !! metadata_key job = None)
    \/ (exists m, o = Done (Ok (Some m)) /\ jm_job_id m = job)
    \/ exists e w', o = Done (Err e) /\ exec _ (RedisGetStr (metadata_key job)) w (Err e) w') w.
Proof.
  intros Hw r w' E. destruct (exec_store _ _ _ _ _ E) as [_ Es].
  destruct r as [[t|]|e]; [| |by right; right; exists e, w'].
  - right. left. destruct Es as (v & Ev & Et%from_utf8_inv). destruct (Hw _ _ Ev) as (_ & Hv & _).
    destruct (Hv job eq_refl) as (s & m & E1 & E2 & E3).
    assert (t = s) as ->.
    { unfold as_bytes in *. rewrite <- (string_of_list_ascii_of_string t), <- Et, E1.
      apply string_of_list_ascii_of_string. }
    exists m. by simpl; rewrite E2.
  - by left.
Qed.
End Typed.

(** ** Properties *)

(** C21: Redis stays well typed.  Let any requests with plain job ids, workers
    and NCCL ranks run interleaved in any way on any messages of the right
    sizes, with keys expiring and Redis failing at any time, whatever the
    collectives answer.  Then under every slice key there is a value the
    gateway decodes as a slice, under every metadata key the metadata of that
    job, under every result key the text of a vector; hence in every state that
    is reached the gateway's readers find an entry of its type or none, and
    their only error is Redis'. *)
Theorem store_stays_typed `{LM : Libm} (env : environment) `{SJ : !SerdeJson}
    (finite : f64 -> bool) (reparse : f64 -> f64) {HJ : SerdeJsonLaws finite reparse}
    device gpu fuel `{PB : Publisher P} (self : GatewayService P) info
    {W : Type} (exec : executor W) `{RT : !Runtime exec}
    (reqs : list TaskRequest) raws tasks w main ps w' job i :
  store_neutral (publisher self) ->
  Forall (fun req => plain (rq_job_id req)) reqs ->
  Forall sized raws -> Forall (fun t => sized (rt_raw t)) tasks ->
  store_typed (store w) ->
  rtc (pool_step (under (expires exec) exec))
    (Ret tt, map (fun req => forget (submit_task false env gpu fuel self req)) reqs
     ++ map (fun raw => forget (handle_task device info raw)) raws
     ++ map (fun t => forget (nccl_message (rt_cuda t) (rt_reduce t) info (rt_round t) (rt_raw t))) tasks,
     w)
    (main, ps, w') ->
  store_typed (store w')
  /\ wp exec (read_slice false job i) (fun o _ =>
      (o = Done (Ok None) /\ store w' !! slice_key job (Z.of_nat i) = None)
      \/ (exists s, o = Done (Ok (Some s)))
      \/ exists e w2, o = Done (Err e) /\ exec _ (RedisGet (slice_key job (Z.of_nat i))) w' (Err e) w2) w'
  /\ wp exec (get_job_metadata job) (fun o _ =>
      (o = Done (Ok None) /\ store w' !! metadata_key job = None)
      \/ (exists m, o = Done (Ok (Some m)) /\ jm_job_id m = job)
      \/ exists e w2, o = Done (Err e) /\ exec _ (RedisGetStr (metadata_key job)) w' (Err e) w2) w'.
Proof.
  intros Hn Hreqs Hraws Htasks Hw Hrun. assert (store_typed (store w')) as Hw'.
  { eapply pool_typed; [exact Hrun|exact I| |exact Hw].
    apply Forall_app. split; [|apply Forall_app; split]; apply Forall_map.
    - eapply Forall_impl; [exact Hreqs|]. intros req Hp. apply uses_forget.
      by apply (submit_typed finite reparse).
    - eapply Forall_impl; [exact Hraws|]. intros raw Hs. by apply uses_forget, worker_typed.
    - eapply Forall_impl; [exact Htasks|]. intros t Hs. by apply uses_forget, rank_typed. }
  split_and!; [done|by apply typed_read_slice|by apply typed_get_metadata].
Qed.

(** ** Witnesses *)

(** Two requests, a CPU worker per slice of the first one, and the ranks of
    the NCCL mode on the same slices. *)
Definition demo_typed_pool : list (prog ()) :=
  map (fun req => forget (submit_task false demo_env None 1 demo_service req)) [demo_request; demo_other]
  ++ map (fun raw => forget (handle_task None true raw)) demo_raws
  ++ map (fun t => forget (nccl_message (rt_cuda t) (rt_reduce t) true (rt_round t) (rt_raw t))) demo_tasks.

Definition demo_typed_run :=
  schedule sim_handler ([Some 0; Some 2; Some 0; Some 4; Some 5] ++ repeat (Some 0) 30 ++ repeat (Some 1) 30)
    (Ret tt : prog (), demo_typed_pool, sim_init []).

Lemma job_plain : plain "job".
Proof. apply plain_no_colon, (bool_decide_unpack _). vm_compute. exact I. Qed.
Lemma other_plain : plain "other".
Proof. apply plain_no_colon, (bool_decide_unpack _). vm_compute. exact I. Qed.

Lemma demo_sized : Forall sized demo_raws.
Proof.
  apply Forall_cons_2; [|apply Forall_cons_2; [|apply Forall_nil_2]];
    apply (published_sized finite64 (fun x => x)); try exact fits_one; reflexivity.
Qed.

Definition demo_typed_world : sim := demo_typed_run.2.

(** What the run has stored: a slice, metadata and a result. *)
Lemma demo_typed_entries :
  sim_store demo_typed_world !! slice_key "job" 1 <> None
  /\ sim_store demo_typed_world !! metadata_key "other" <> None
  /\ is_ok (sim_handler _ (RedisGetStr (metadata_key "other")) demo_typed_world).1 = true
  /\ sim_store demo_typed_world !! result_key "job" <> None.
Proof. split_and!; vm_compute; congruence. Qed.

Lemma demo_typed_steps :
  rtc (pool_step (under (expires (handles sim_handler)) (handles sim_handler)))
    (Ret tt, demo_typed_pool, sim_init []) (demo_typed_run.1.1, demo_typed_run.1.2, demo_typed_world).
Proof.
  eapply (rtc_subrel _ _ _ _ (pool_step_under (handles sim_handler))).
  unfold demo_typed_world. rewrite <- !surjective_pairing. by apply schedule_sound.
Qed.

#[local] Opaque demo_typed_world.

Lemma store_stays_typed_witness :
  store_typed (sim_store demo_typed_world)
  /\ wp (handles sim_handler) (read_slice false "job" 1)
       (fun o _ => exists s, o = Done (Ok (Some s))) demo_typed_world
  /\ wp (handles sim_handler) (get_job_metadata "other")
       (fun o _ => exists m, o = Done (Ok (Some m)) /\ jm_job_id m = "other") demo_typed_world
  /\ sim_store demo_typed_world !! result_key "job" <> None.
Proof.
  assert (Forall (fun req => plain (rq_job_id req)) [demo_request; demo_other]) as Hp.
  { apply Forall_cons_2; [exact job_plain|apply Forall_cons_2; [exact other_plain|apply Forall_nil_2]]. }
  assert (Forall (fun t => sized (rt_raw t)) demo_tasks) as Ht by (apply Forall_map; exact demo_sized).
  assert (store_typed (sim_store (sim_init []))) as Hw by (intros k v E; discriminate E).
  pose proof (fun job i => store_stays_typed demo_env finite64 (fun x => x) None None 1 demo_service true
    (handles sim_handler) [demo_request; demo_other] demo_raws demo_tasks (sim_init [])
    _ _ demo_typed_world job i (zmq_store_neutral _) Hp demo_sized Ht Hw demo_typed_steps) as H.
  destruct demo_typed_entries as (Hslice & Hmeta & Htext & Hres).
  split_and!; [apply (H "job" 1)|..|exact Hres].
  - destruct (H "job" 1) as (_ & Hr & _). eapply wp_mono; [|exact Hr].
    intros o w2 [[_ E]|[Hs|(e & w3 & _ & E)]]; [destruct (Hslice E)|exact Hs|].
    apply (f_equal fst) in E. discriminate E.
  - destruct (H "other" 1) as (_ & _ & Hr). eapply wp_mono; [|exact Hr].
    intros o w2 [[_ E]|[Hs|(e & w3 & _ & E)]]; [destruct (Hmeta E)|exact Hs|].
    unfold handles in E. rewrite E in Htext. discriminate Htext.
Defined.
