(* ===== verification/Startup.v ===== *)
(** The two [main] functions: what the gateway (gateway-rs/src/main.rs) sets up
    and how it serves, and which transport the worker (worker-rs/src/main.rs)
    runs. *)

From Stdlib Require Import ZArith Lia List String Ascii.
From stdpp Require Import base tactics list strings.
From S2P Require Import Prelude Strs Scalar Ieee Kernels GpuWorker Json Demo Wire Config Effects Runtime.
From S2P Require Import Devices RedisManager Notifier Publisher Aggregator Service Handler Transport.
Local Open Scope string_scope.
Local Open Scope list_scope.
#[local] Arguments String.append : simpl nomatch.

(** ** Definitions *)

(** [Arc<dyn Publisher>] *)
Inductive AnyPublisher :=
| Single (p : ZmqPublisher)
| Multi (p : ZmqMultiPublisher).

#[export] Instance AnyPublisher_publisher : Publisher AnyPublisher := {|
  publish := fun self subject payload =>
    match self with
    | Single p => publish p subject payload
    | Multi p => publish p subject payload
    end;
  is_connected := fun self =>
    match self with Single p => is_connected p | Multi p => is_connected p end;
|}.

(** [RedisManager::new] *)
Definition RedisManager_new (env : environment) : prog (result () string) :=
  try! _ := call (RedisOpen (redis_url env)) in
  call (RedisConnect (redis_url env)).

(** [cache_manager::spawn] *)
Definition cache_manager_spawn (interval_minutes : Z) : prog () :=
  call (TokioSpawn (CacheTask interval_minutes)).

(** What a spawned task runs. *)
Definition run_background (fuel : nat) (task : background) : prog () :=
  match task with
  | SubscriberTask _ => subscriber_loop fuel
  | CacheTask interval_minutes => cache_manager interval_minutes fuel
  end.

(** The gateway's [main] up to the construction of the service. *)
Definition gateway_setup (env : environment)
  : prog (result (GatewayService AnyPublisher) string) :=
  let transport := unwrap_or "zmq" (env "TRANSPORT") in
  let nccl_dispatch := String.eqb transport "zmq_nccl" in
  let world_size := world_size env in
  try! publisher :=
    (if String.eqb transport "zmq" then
       try! p := ZmqPublisher_new env in Ret (Ok (Single p))
     else if String.eqb transport "zmq_nccl" then
       try! p := ZmqMultiPublisher_new env (Z.to_nat world_size) in Ret (Ok (Multi p))
     else Ret (Err (concat_strs
            ["unknown TRANSPORT '"; transport; "' (valid: zmq | zmq_nccl)"]))) in
  if negb (is_connected publisher)
  then Ret (Err (concat_strs ["Failed to connect transport '"; transport; "'"]))
  else
    try! _ := RedisManager_new env in
    try! _ := SliceNotifier_new (redis_url env) in
    let! _ := cache_manager_spawn 15 in
    Ret (Ok (GatewayService_new publisher nccl_dispatch world_size)).

(** The gateway's [main]; [parse_addr] is [SocketAddr::from_str]. *)
Definition gateway_main (parse_addr : string -> result string string) (env : environment)
  : prog (result () string) :=
  let addr := unwrap_or "0.0.0.0:50051" (env "GATEWAY_ADDR") in
  try! _ := gateway_setup env in
  try! addr := Ret (parse_addr addr) in
  call (Serve addr).

(** What the worker's [main] goes on to run. *)
Inductive worker_run :=
| RunZmq (cfg : ZmqConfig)
| RunNccl (rank world_size : Z) (endpoint : string).

Section Worker.
(** [cuda]: compiled with the [cuda] feature. *)
Context (cuda : bool) (env : environment).

(** [run_nccl]; without CUDA it falls back to the standard transport with one
    task at a time. *)
Definition nccl_run (rank world_size : Z) (ep : string) : worker_run :=
  if cuda then RunNccl rank world_size ep
  else RunZmq {| endpoint := ep; max_concurrent := 1 |}.

Definition worker_main : prog (result worker_run string) :=
  let cfg := from_env env in
  let redis_url := concat_strs ["redis://"; redis_host cfg; ":"; print_uint (redis_port cfg)] in
  try! _ := call (RedisOpen redis_url) in
  let! r := call (RedisConnect redis_url) in
  match r with
  | Err _ => Panic
  | Ok _ =>
      try! _ :=
        (if cuda && negb (String.eqb (transport cfg) "zmq_nccl")
         then gpu_worker_init (cuda_device cfg) else Ret (Ok tt)) in
      if String.eqb (transport cfg) "zmq" then
        Ret (Ok (RunZmq {| endpoint := zmq_pull_endpoint cfg;
                           max_concurrent := Z.to_nat (num_workers cfg) |}))
      else if String.eqb (transport cfg) "zmq_nccl" then
        let rank := nccl_rank cfg in
        if (rank <? 0)%Z then Ret (Err "NCCL_RANK must be >= 0 for zmq_nccl transport")
        else Ret (Ok (nccl_run rank (nccl_world_size cfg) (nccl_endpoint cfg)))
      else Ret (Err (concat_strs
             ["unknown TRANSPORT '"; transport cfg; "' (valid: zmq | zmq_nccl)"]))
  end.
End Worker.

(** ** Lemmas *)

Lemma wp_open_ranks {W} (exec : executor W) env ranks : forall w,
  wp exec (open_ranks env ranks) (fun o _ =>
    exists r, o = Done r /\ forall txs, r = Ok txs -> length txs = length ranks) w.
Proof.
  induction ranks as [|rank ranks IH]; intros w; simpl.
  { eexists. split; [done|]. intros txs E. by simplify_eq. }
  intros [tx|e] w1 _; simpl; [|by eexists]. apply wp_bind. eapply wp_mono; [|apply IH].
  intros o w2 (r & -> & Hr). destruct r as [txs|e]; [|by eexists].
  eexists. split; [done|]. intros txs' E. simplify_eq/=. by rewrite (Hr txs).
Qed.

(** ** Properties *)

(** C36: start-up fails on an unknown TRANSPORT and otherwise gives a service
    whose mode and publisher agree: NCCL dispatch exactly with a multi-socket
    publisher, which has one socket per rank, at least one.  It always comes to
    a result, except that an NCCL_WORLD_SIZE whose senders exceed the address
    space panics in the NCCL mode. *)
Theorem gateway_main_consistent {W} (exec : executor W) env w :
  wp exec (gateway_setup env) (fun o _ =>
    (o = Panicked /\ env "TRANSPORT" = Some "zmq_nccl" /\ capacity_overflow (world_size env) = true)
    \/ exists r, o = Done r /\ forall svc, r = Ok svc ->
    svc_world_size svc = world_size env /\ (0 < svc_world_size svc)%Z
    /\ match publisher svc with
       | Single _ => nccl_dispatch svc = false
       | Multi p => nccl_dispatch svc = true
           /\ Z.of_nat (length (senders p)) = svc_world_size svc
       end) w.
Proof.
  pose proof (world_size_pos env) as Hpos.
  unfold gateway_setup. set (tr := unwrap_or "zmq" (env "TRANSPORT")). apply wp_bind.
  apply (wp_mono _ _ (fun o _ =>
    (o = Panicked /\ env "TRANSPORT" = Some "zmq_nccl" /\ capacity_overflow (world_size env) = true)
    \/ exists r, o = Done r /\ forall p, r = Ok p ->
    match p with
    | Single _ => String.eqb tr "zmq_nccl" = false
    | Multi q => String.eqb tr "zmq_nccl" = true
        /\ Z.of_nat (length (senders q)) = world_size env
    end)).
  - intros o w1 [[-> H]|(r & -> & Hr)]; [by left|]. destruct r as [p|e]; [|right; by eexists].
    specialize (Hr p eq_refl). destruct p as [p|p]; simpl;
      (intros [[]|e] w2 _; simpl; [|right; by eexists]); (intros [[]|e] w3 _; simpl; [|right; by eexists]);
      (intros [[]|e] w4 _; simpl; [|right; by eexists]); intros _ w5 _ _ w6 _; right; (eexists; split; [done|]);
      intros svc E; simplify_eq/=; (split; [done|]); (split; [lia|done]).
  - destruct (String.eqb_spec tr "zmq") as [E|E].
    { rewrite E. simpl. intros [tx|e] w1 _; simpl; right; [|by eexists].
      eexists. split; [done|]. intros p Ep. by simplify_eq. }
    destruct (String.eqb_spec tr "zmq_nccl") as [En|En]; [|right; by eexists].
    unfold ZmqMultiPublisher_new. rewrite Z2Nat.id by lia.
    destruct (capacity_overflow (world_size env)) eqn:Ec.
    { left. split; [done|]. split; [|done]. unfold tr in En. destruct (env "TRANSPORT"); by simplify_eq/=. }
    apply wp_bind, wp_bind.
    eapply wp_mono; [|apply wp_open_ranks]. intros o w1 (r & -> & Hr).
    destruct r as [txs|e]; simpl; right; [|by eexists]. eexists. split; [done|].
    intros p Ep. simplify_eq/=. split; [done|]. rewrite (Hr txs), length_seq; [lia|done].
Qed.

(** With the same ZMQ_BASE_PORT the worker of a rank connects to the port
    the gateway binds for that rank, whatever the wrap-around. *)
Theorem rank_ports_agree genv wenv rank :
  genv "ZMQ_BASE_PORT" = wenv "ZMQ_BASE_PORT" ->
  multi_tcp_mode genv = true -> zmq_gateway_addr (from_env wenv) <> "" ->
  nccl_rank (from_env wenv) = rank ->
  exists port, multi_endpoint genv rank = concat_strs ["tcp://0.0.0.0:"; port]
    /\ nccl_endpoint (from_env wenv) = concat_strs ["tcp://"; zmq_gateway_addr (from_env wenv); ":"; port].
Proof.
  intros Hp Ht Ha <-. exists (print_uint (multi_port genv (nccl_rank (from_env wenv)))).
  unfold multi_endpoint, nccl_endpoint. rewrite Ht.
  destruct (String.eqb_spec (zmq_gateway_addr (from_env wenv)) ""); [done|].
  split; [done|]. cbn [negb]. unfold tcp_endpoint, rank_port, multi_port, multi_base_port.
  by rewrite Hp.
Qed.

(** The worker refuses the NCCL transport without a rank and an unknown
    transport, and otherwise runs what was configured; it never runs NCCL in a
    build without CUDA. *)
Theorem worker_main_dispatch {W} (exec : executor W) cuda env w :
  wp exec (worker_main cuda env) (fun o _ => forall r, o = Done (Ok r) ->
    (transport (from_env env) = "zmq"
       /\ r = RunZmq {| endpoint := zmq_pull_endpoint (from_env env);
                        max_concurrent := Z.to_nat (num_workers (from_env env)) |})
    \/ (transport (from_env env) = "zmq_nccl" /\ (0 <= nccl_rank (from_env env))%Z
       /\ r = (if cuda
               then RunNccl (nccl_rank (from_env env)) (nccl_world_size (from_env env))
                      (nccl_endpoint (from_env env))
               else RunZmq {| endpoint := nccl_endpoint (from_env env); max_concurrent := 1 |}))) w.
Proof.
  unfold worker_main. generalize (from_env env) as cfg. intros cfg. intros [[]|e] w0 _; [|done].
  intros [[]|e] w1 _; [|done]. cbn [bind].
  apply wp_bind.
  apply (wp_mono _ _ (fun o _ => True)); [|].
  - intros [[[]|e]| |] w2 _; try done.
    destruct (String.eqb_spec (transport cfg) "zmq") as [E|E].
    { simpl. intros r Er. simplify_eq. by left. }
    destruct (String.eqb_spec (transport cfg) "zmq_nccl") as [E'|E']; [|done].
    destruct (Z.ltb_spec (nccl_rank cfg) 0); [done|]. simpl. intros r Er. simplify_eq. by right.
  - case_match; [|done]. by apply wp_true.
Qed.

(** ** The device of the worker *)

(** C34: in the CUDA build the worker reaches its message loop only with the
    device of the process set to the configured one, and from then on, whatever
    runs in between, every handler finds it: it stores and notifies, or reports
    an error of the message, of the CUDA driver or of Redis, never the panic of
    [gpu_worker::global()] that [compute_partial] turns into an error. *)
Theorem worker_device_ready `{LM : Libm} `{SJ : !SerdeJson} {W} (exec : executor W)
    `{RT : !Runtime exec} (R : W -> W -> Prop) (cuda : string -> option string) env raw w :
  gpu_device w = None ->
  (forall w w' d, R w w' -> gpu_device w = Some d -> gpu_device w' = Some d) ->
  fits (Some cuda) raw ->
  wp exec (worker_main true env) (fun o w' => forall cfg, o = Done (Ok (RunZmq cfg)) ->
    gpu_device w' = Some (cuda_device (from_env env))
    /\ forall w'', R w' w'' ->
         wp (under R exec) (handle_task (Some cuda) false raw)
           (fun o _ => handled (Some cuda) raw o) w'') w.
Proof.
  intros H0 HR Hf. apply (wp_mono _ _ (fun o w' => forall cfg, o = Done (Ok (RunZmq cfg)) ->
    gpu_device w' = Some (cuda_device (from_env env)))).
  { intros o w' Ho cfg E. specialize (Ho cfg E). split; [done|]. intros w'' HRw.
    eapply handler_finds_device; [eauto|done|]. by eapply HR. }
  unfold worker_main. generalize (from_env env) as c. intros c. cbn zeta.
  intros r w1 E1. pose proof (exec_device _ _ _ _ _ E1) as D1. simpl in D1. rewrite H0 in D1.
  destruct r as [[]|e]; [|done]. intros r w2 E2.
  pose proof (exec_device _ _ _ _ _ E2) as D2. simpl in D2. rewrite D1 in D2.
  destruct r as [[]|e]; [|done]. cbn [bind andb]. apply wp_bind.
  destruct (String.eqb_spec (transport c) "zmq_nccl") as [E|E]; cbn [negb].
  - cbn [wp]. destruct (String.eqb_spec (transport c) "zmq") as [E'|E']; [congruence|].
    unfold nccl_run. by destruct (nccl_rank c <? 0)%Z.
  - apply (wp_gpu_worker_init exec); [done| |done]. intros w3 D3.
    destruct (String.eqb (transport c) "zmq"); [|done]. by intros cfg _.
Qed.

Lemma worker_device_ready_witness :
  wp (handles sim_handler) (worker_main true (fun _ => None)) (fun o w' =>
    forall cfg, o = Done (Ok (RunZmq cfg)) ->
    gpu_device (exec := handles sim_handler) w' = Some (cuda_device (from_env (fun _ => None)))
    /\ forall w'', w' = w'' ->
         wp (under eq (handles sim_handler)) (handle_task (Some (fun _ => None)) false demo_raw)
           (fun o _ => handled (Some (fun _ => None)) demo_raw o) w'') (sim_init []).
Proof.
  apply (worker_device_ready (handles sim_handler) eq (fun _ => None)); [reflexivity|by intros w w' d <-|].
  intros msg Hm. rewrite demo_raw_parses in Hm. simplify_eq. vm_compute. discriminate.
Defined.

(** ** The order of the gateway's start-up *)

Definition serves {X} (c : cmd X) : Prop := match c with Serve _ => True | _ => False end.
Definition quiet {X} (c : cmd X) : Prop := ~ serves c.

Definition is_serve (e : event) : bool :=
  match e with Event c _ => match c with Serve _ => true | _ => false end end.

Lemma gateway_setup_quiet env : uses (@quiet) (gateway_setup env).
Proof.
  unfold gateway_setup. apply uses_bind.
  - destruct (String.eqb _ "zmq").
    { apply uses_bind; [|intros [p|e]; exact I]. unfold ZmqPublisher_new. split; [intros []|]. intros [tx|e]; exact I. }
    destruct (String.eqb _ "zmq_nccl"); [|exact I].
    apply uses_bind; [|intros [p|e]; exact I]. unfold ZmqMultiPublisher_new.
    destruct (capacity_overflow _); [exact I|]. apply uses_bind; [|intros [p|e]; exact I].
    generalize (seq 0 (Z.to_nat (world_size env))). intros ranks.
    induction ranks as [|r ranks IH]; [exact I|]. split; [intros []|].
    intros [tx|e]; [|exact I]. cbn [bind].
    apply uses_bind; [exact IH|]. intros [txs|e]; exact I.
  - intros [p|e]; [|exact I]. destruct (negb (is_connected p)); [exact I|].
    split; [intros []|]. intros [[]|e]; [|exact I]. split; [intros []|]. intros [[]|e]; [|exact I].
    split; [intros []|]. intros [[]|e]; [|exact I]. split; [intros []|].
    intros []. split; [intros []|]. intros []. exact I.
Qed.

(** The gateway listens last: whatever happens, nothing is served before Redis
    is connected and the notifier's subscriber is running, so no client can
    submit a job whose notifications nobody hears for lack of a subscriber
    task. *)
Theorem gateway_serves_last parse_addr env :
  wp tracing (gateway_main parse_addr env) (fun _ tr =>
    forall tr1 addr r tr2, tr = tr1 ++ Event (Serve addr) r :: tr2 ->
      tr2 = [] /\ In (Event (RedisConnect (redis_url env)) (Ok tt)) tr1
      /\ In (Event (TokioSpawn (SubscriberTask (redis_url env))) tt) tr1) [].
Proof.
  set (set_up := fun tr : list event => In (Event (RedisConnect (redis_url env)) (Ok tt)) tr
      /\ In (Event (TokioSpawn (SubscriberTask (redis_url env))) tt) tr).
  set (no_serve := fun tr : list event => forall addr r, ~ In (Event (Serve addr) r) tr).
  unfold gateway_main. apply wp_bind.
  apply (wp_mono _ _ (fun o tr => no_serve tr /\ (forall svc, o = Done (Ok svc) -> set_up tr))).
  - assert (forall tr tr1 addr r tr2, no_serve tr -> tr = tr1 ++ Event (Serve addr) r :: tr2 -> False) as Hno.
    { intros tr tr1 addr r tr2 Hn ->. apply (Hn addr r). apply in_or_app. right. by left. }
    intros [[svc|e]| |] tr [Hn Hs]; try (by intros tr1 addr r tr2 E; destruct (Hno _ _ _ _ _ Hn E)).
    cbn [bind bind_result]. destruct (parse_addr _) as [a|e];
      [|by intros tr1 addr r tr2 E; destruct (Hno _ _ _ _ _ Hn E)].
    intros r0 tr' -> tr1 addr r tr2 E. destruct (Hs svc eq_refl) as [H1 H2].
    destruct (decide (tr2 = [])) as [->|Hne].
    + apply app_inj_tail in E as [<- _]. done.
    + exfalso. destruct (exists_last Hne) as (tr3 & ev & ->).
      rewrite app_comm_cons, app_assoc in E. apply app_inj_tail in E as [E _].
      by destruct (Hno _ _ _ _ _ Hn E).
  - apply (wp_and _ _ (fun _ tr => no_serve tr)).
    + apply (wp_uses (@quiet)); [|apply gateway_setup_quiet|by intros addr r []].
      intros X c tr x tr' Hq -> Hn addr r [Hin|[E|[]]]%in_app_or; [by apply (Hn addr r)|].
      apply Hq. apply (f_equal is_serve) in E. by destruct c.
    + apply (wp_mono _ _ (fun o tr => forall svc, o = Done (Ok svc) -> set_up tr)); [done|].
      unfold gateway_setup. apply wp_bind. eapply wp_mono; [|apply wp_true].
      intros [[p|e]| |] tr _; [|done..]. destruct (negb (is_connected p)); [done|].
      intros [[]|e] tr1 ->; [|done]. intros [[]|e] tr2 ->; [|done].
      intros [[]|e] tr3 ->; [|done]. intros [] tr4 -> [] tr5 ->. intros svc _.
      split; rewrite !in_app_iff; simpl; tauto.
Qed.
